(** * libpuz: a shallow embedding of the .PUZ crossword library

    The development follows the C sources: [cksum.c] (rotate-and-sum
    checksums), [puzzle.c] (accessors, sizer, scrambler) and [load.c]
    (binary and text loaders), over the declarations of [puz.h].

    Conventions of the embedding.
    - C integers are [Z]; a store into an [unsigned char] or an
      [unsigned short] object writes the truncation out ([u8], [u16]).
    - A heap block is the list of its bytes; a pointer field is a [ptr]:
      [NULL], [Ptr] of the pointee, or [Dangling] (freed and not cleared, or
      never initialised).
    - A computation returns [option]: [None] stands for undefined
      behaviour of the C program (a NULL or dangling dereference, an access
      outside a block).  Everything else, error returns included, is [Some].
    - [malloc]/[calloc] results that the source checks are inputs of the
      model where a statement depends on them; the others are taken to
      succeed, but for the [calloc] of [formatted_solution], which
      [formatted_solution_alloc] takes as an input. *)

From Stdlib Require Import ZArith List Lia String Ascii.
From stdpp Require Import base tactics option list numbers.

Local Open Scope Z_scope.

(** ** Undefined-behaviour monad and counting loops *)

Notation "'let*' x := e 'in' k" := (match e with Some x => k | None => None end)
  (at level 10, x pattern, e at level 200, k at level 200, only parsing).

(** [for_loop n i body s] runs [body i], [body (i+1)], ... [n] times. *)
Fixpoint for_loop {S : Type} (n : nat) (i : Z) (body : Z -> S -> option S) (s : S)
  : option S :=
  match n with
  | O => Some s
  | Datatypes.S n' => let* s' := body i s in for_loop n' (i + 1) body s'
  end.

(** [for (i = lo; i < hi; i++) body] *)
Definition for_range {S : Type} (lo hi : Z) (body : Z -> S -> option S) (s : S)
  : option S :=
  for_loop (Z.to_nat (hi - lo)) lo body s.

Module Mem.

Definition u8 (x : Z) : Z := x mod 256.
Definition u16 (x : Z) : Z := x mod 65536.

Abbreviation block := (list Z) (only parsing).

Inductive ptr (A : Type) : Type :=
| NULL : ptr A
| Ptr (a : A) : ptr A
| Dangling : ptr A.
Arguments NULL {A}.
Arguments Ptr {A} a.
Arguments Dangling {A}.

Definition is_null {A} (p : ptr A) : bool :=
  match p with NULL => true | _ => false end.

Definition deref {A} (p : ptr A) : option A :=
  match p with Ptr a => Some a | _ => None end.

(** [free (p)]: nothing happens on NULL, a live block is released, and
    freeing a dangling pointer is undefined.  The embedding keeps no heap:
    a field that is freed and not reassigned is set to [Dangling] by the
    caller. *)
Definition free {A} (p : ptr A) : option unit :=
  match p with
  | Dangling => None
  | _ => Some tt
  end.

(** [b[i]] *)
Definition load (b : block) (i : Z) : option Z :=
  if decide (0 <= i) then b !! Z.to_nat i else None.

(** [b[i] = v] *)
Definition store (b : block) (i : Z) (v : Z) : option block :=
  if decide (0 <= i < Z.of_nat (length b)) then Some (<[Z.to_nat i := v]> b) else None.

(** [p + i] for a pointer into a block: the bytes from offset [i] on. *)
Definition offset (b : block) (i : Z) : option block :=
  if decide (0 <= i <= Z.of_nat (length b)) then Some (drop (Z.to_nat i) b) else None.

(** [strlen]: the index of the first NUL; running off the block is undefined. *)
Fixpoint strlen (s : block) : option Z :=
  match s with
  | [] => None
  | c :: s' => if decide (c = 0) then Some 0 else let* n := strlen s' in Some (n + 1)
  end.

Definition Sstrlen (s : ptr block) : option Z :=
  let* b := deref s in strlen b.

(** The bytes of the C string held by a block, terminator excluded. *)
Definition cstring (s : ptr block) : option (list Z) :=
  let* b := deref s in let* n := strlen b in Some (take (Z.to_nat n) b).

(** [strdup]: a fresh block with the string and its terminator. *)
Definition Sstrdup (s : block) : option block :=
  let* n := strlen s in Some (take (Z.to_nat n) s ++ [0]).

(** The [n] bytes that [strncpy (dest, src, n)] stores: the string, then
    NUL padding. *)
Fixpoint strncpy_data (src : block) (n : nat) {struct n} : option (list Z) :=
  match n with
  | O => Some []
  | S n' =>
      match src with
      | [] => None
      | c :: src' =>
          if decide (c = 0) then Some (replicate (S n') 0)
          else let* d := strncpy_data src' n' in Some (c :: d)
      end
  end.

(** [memcpy (dst + off, bs, length bs)] *)
Definition store_bytes (dst : block) (off : Z) (bs : list Z) : option block :=
  if decide (0 <= off /\ off + Z.of_nat (length bs) <= Z.of_nat (length dst))
  then Some (take (Z.to_nat off) dst ++ bs
             ++ drop (Z.to_nat off + length bs) dst)
  else None.

(** [strncpy (dst + doff, src + soff, n)] *)
Definition strncpy (dst : block) (doff : Z) (src : block) (soff : Z) (n : Z)
  : option block :=
  let* s := offset src soff in
  let* d := strncpy_data s (Z.to_nat n) in
  store_bytes dst doff d.

(** [memcpy]'s source: [n] bytes starting at [src + soff]. *)
Definition read_bytes (src : block) (soff : Z) (n : Z) : option (list Z) :=
  if decide (0 <= soff /\ 0 <= n /\ soff + n <= Z.of_nat (length src))
  then Some (take (Z.to_nat n) (drop (Z.to_nat soff) src))
  else None.

(** [strncmp (s1, s2, n)]: zero when the strings agree on their first [n]
    bytes or up to a common terminator. *)
Fixpoint strncmp (s1 s2 : block) (n : nat) {struct n} : option Z :=
  match n with
  | O => Some 0
  | S n' =>
      match s1, s2 with
      | c1 :: s1', c2 :: s2' =>
          if decide (c1 <> c2) then Some (c1 - c2)
          else if decide (c1 = 0) then Some 0
          else strncmp s1' s2' n'
      | _, _ => None
      end
  end.

(** [strndup (s, n)]: at most [n] bytes of the string, and a terminator. *)
Fixpoint strndup_data (s : block) (n : nat) {struct n} : option (list Z) :=
  match n with
  | O => Some []
  | S n' =>
      match s with
      | [] => None
      | c :: s' =>
          if decide (c = 0) then Some []
          else let* d := strndup_data s' n' in Some (c :: d)
      end
  end.

Definition Sstrndup (s : block) (n : Z) : option block :=
  let* d := strndup_data s (Z.to_nat n) in Some (d ++ [0]).

(** ASCII codes of a string literal. *)
Fixpoint bytes_of (s : string) : list Z :=
  match s with
  | EmptyString => []
  | String a s' => Z.of_N (N_of_ascii a) :: bytes_of s'
  end.

(** A block holding a NUL-terminated string. *)
Definition cstr (s : string) : block := bytes_of s ++ [0].

End Mem.
Export Mem.

(** ** puz.h: the puzzle structures and the little-endian macros *)

Module Puz.

(** [le_16(x)] is [((x[1]) << 8) + ((x[0]) << 0)], [le_8(x)] is [*x]. *)
Definition le_16 (b : block) (i : Z) : option Z :=
  let* lo := load b i in
  let* hi := load b (i + 1) in
  Some (Z.shiftl hi 8 + Z.shiftl lo 0).

Definition le_8 (b : block) (i : Z) : option Z := load b i.

(** [w_le_8(a, x)] and [w_le_16(a, x)]: the bytes stored at [a]. *)
Definition w_le_8 (x : Z) : list Z := [u8 x].

Definition w_le_16 (x : Z) : list Z :=
  [u8 (Z.land x 255); u8 (Z.shiftr (Z.land x 65280) 8)].

Record puz_head_t : Type := mk_head {
  cksum_puz : Z;
  magic : list Z;
  cksum_cib : Z;
  magic_10 : list Z;
  magic_14 : list Z;
  magic_18 : list Z;
  noise_1c : Z;
  scrambled_cksum : Z;
  noise_20 : Z;
  noise_22 : Z;
  noise_24 : Z;
  noise_26 : Z;
  noise_28 : Z;
  noise_2a : Z;
  width : Z;
  height : Z;
  clue_count : Z;
  x_unk_30 : Z;
  scrambled_tag : Z
}.

Record puzzle_t : Type := mk_puzzle {
  sz : Z;
  header : puz_head_t;
  calc_cksum_puzcib : Z;
  calc_cksums : list Z;
  calc_magic10 : list Z;
  calc_magic14 : list Z;
  cib : list Z;
  base : ptr block;
  solution : ptr block;
  grid : ptr block;
  title : ptr block;
  author : ptr block;
  copyright : ptr block;
  clues : ptr (list (ptr block));
  notes : ptr block;
  notes_sz : Z;
  grbs_cksum : Z;
  calc_grbs_cksum : Z;
  grbs : ptr block;
  rtbl_sz : Z;
  rtbl_cksum : Z;
  calc_rtbl_cksum : Z;
  rtbl : ptr (list (ptr block));
  ltim_cksum : Z;
  calc_ltim_cksum : Z;
  ltim : ptr block;
  gext_cksum : Z;
  calc_gext_cksum : Z;
  gext : ptr block;
  rusr_cksum : Z;
  calc_rusr_cksum : Z;
  rusr : ptr (list (ptr block));
  rusr_sz : Z
}.

Definition FILE_MAGIC : list Z := [65; 67; 82; 79; 83; 83; 38; 68; 79; 87; 78; 0].
Definition VER_MAGIC : list Z := [49; 46; 50; 0].
Definition MAGIC_10_MASK : list Z := [73; 67; 72; 69].
Definition MAGIC_14_MASK : list Z := [65; 84; 69; 68].
Definition MAX_REBUS_SIZE : Z := 100.

(** Field assignment.  [eta_head] and [eta_puzzle] list the fields once;
    [set_field] replaces one of them. *)
Definition eta_head (h : puz_head_t) : puz_head_t :=
  mk_head (cksum_puz h) (magic h) (cksum_cib h) (magic_10 h) (magic_14 h)
    (magic_18 h) (noise_1c h) (scrambled_cksum h) (noise_20 h) (noise_22 h)
    (noise_24 h) (noise_26 h) (noise_28 h) (noise_2a h) (width h) (height h)
    (clue_count h) (x_unk_30 h) (scrambled_tag h).

Definition eta_puzzle (p : puzzle_t) : puzzle_t :=
  mk_puzzle (sz p) (header p) (calc_cksum_puzcib p) (calc_cksums p)
    (calc_magic10 p) (calc_magic14 p) (cib p) (base p) (solution p) (grid p)
    (title p) (author p) (copyright p) (clues p) (notes p) (notes_sz p)
    (grbs_cksum p) (calc_grbs_cksum p) (grbs p) (rtbl_sz p) (rtbl_cksum p)
    (calc_rtbl_cksum p) (rtbl p) (ltim_cksum p) (calc_ltim_cksum p) (ltim p)
    (gext_cksum p) (calc_gext_cksum p) (gext p) (rusr_cksum p)
    (calc_rusr_cksum p) (rusr p) (rusr_sz p).

Ltac set_field eta proj v p :=
  let e := eval cbv beta delta [eta] in (eta p) in
  let e' := eval pattern (proj p) in e in
  lazymatch e' with
  | ?f _ => let r := eval cbv beta in (f v) in exact r
  end.

Definition set_scrambled_tag (v : Z) (h : puz_head_t) : puz_head_t :=
  ltac:(set_field eta_head scrambled_tag v h).
Definition set_scrambled_cksum (v : Z) (h : puz_head_t) : puz_head_t :=
  ltac:(set_field eta_head scrambled_cksum v h).

Definition set_header (v : puz_head_t) (p : puzzle_t) : puzzle_t :=
  ltac:(set_field eta_puzzle header v p).
Definition set_calc_cksum_puzcib (v : Z) (p : puzzle_t) : puzzle_t :=
  ltac:(set_field eta_puzzle calc_cksum_puzcib v p).
Definition set_calc_cksums (v : list Z) (p : puzzle_t) : puzzle_t :=
  ltac:(set_field eta_puzzle calc_cksums v p).
Definition set_calc_magic10 (v : list Z) (p : puzzle_t) : puzzle_t :=
  ltac:(set_field eta_puzzle calc_magic10 v p).
Definition set_calc_magic14 (v : list Z) (p : puzzle_t) : puzzle_t :=
  ltac:(set_field eta_puzzle calc_magic14 v p).
Definition set_cib (v : list Z) (p : puzzle_t) : puzzle_t :=
  ltac:(set_field eta_puzzle cib v p).
Definition set_sz (v : Z) (p : puzzle_t) : puzzle_t :=
  ltac:(set_field eta_puzzle sz v p).
Definition set_base (v : ptr block) (p : puzzle_t) : puzzle_t :=
  ltac:(set_field eta_puzzle base v p).
Definition set_solution (v : ptr block) (p : puzzle_t) : puzzle_t :=
  ltac:(set_field eta_puzzle solution v p).
Definition set_grid (v : ptr block) (p : puzzle_t) : puzzle_t :=
  ltac:(set_field eta_puzzle grid v p).
Definition set_title (v : ptr block) (p : puzzle_t) : puzzle_t :=
  ltac:(set_field eta_puzzle title v p).
Definition set_author (v : ptr block) (p : puzzle_t) : puzzle_t :=
  ltac:(set_field eta_puzzle author v p).
Definition set_copyright (v : ptr block) (p : puzzle_t) : puzzle_t :=
  ltac:(set_field eta_puzzle copyright v p).
Definition set_clues (v : ptr (list (ptr block))) (p : puzzle_t) : puzzle_t :=
  ltac:(set_field eta_puzzle clues v p).
Definition set_notes (v : ptr block) (p : puzzle_t) : puzzle_t :=
  ltac:(set_field eta_puzzle notes v p).
Definition set_notes_sz (v : Z) (p : puzzle_t) : puzzle_t :=
  ltac:(set_field eta_puzzle notes_sz v p).
Definition set_grbs_cksum (v : Z) (p : puzzle_t) : puzzle_t :=
  ltac:(set_field eta_puzzle grbs_cksum v p).
Definition set_calc_grbs_cksum (v : Z) (p : puzzle_t) : puzzle_t :=
  ltac:(set_field eta_puzzle calc_grbs_cksum v p).
Definition set_grbs (v : ptr block) (p : puzzle_t) : puzzle_t :=
  ltac:(set_field eta_puzzle grbs v p).
Definition set_rtbl_sz (v : Z) (p : puzzle_t) : puzzle_t :=
  ltac:(set_field eta_puzzle rtbl_sz v p).
Definition set_rtbl_cksum (v : Z) (p : puzzle_t) : puzzle_t :=
  ltac:(set_field eta_puzzle rtbl_cksum v p).
Definition set_calc_rtbl_cksum (v : Z) (p : puzzle_t) : puzzle_t :=
  ltac:(set_field eta_puzzle calc_rtbl_cksum v p).
Definition set_rtbl (v : ptr (list (ptr block))) (p : puzzle_t) : puzzle_t :=
  ltac:(set_field eta_puzzle rtbl v p).
Definition set_ltim_cksum (v : Z) (p : puzzle_t) : puzzle_t :=
  ltac:(set_field eta_puzzle ltim_cksum v p).
Definition set_calc_ltim_cksum (v : Z) (p : puzzle_t) : puzzle_t :=
  ltac:(set_field eta_puzzle calc_ltim_cksum v p).
Definition set_ltim (v : ptr block) (p : puzzle_t) : puzzle_t :=
  ltac:(set_field eta_puzzle ltim v p).
Definition set_gext_cksum (v : Z) (p : puzzle_t) : puzzle_t :=
  ltac:(set_field eta_puzzle gext_cksum v p).
Definition set_calc_gext_cksum (v : Z) (p : puzzle_t) : puzzle_t :=
  ltac:(set_field eta_puzzle calc_gext_cksum v p).
Definition set_gext (v : ptr block) (p : puzzle_t) : puzzle_t :=
  ltac:(set_field eta_puzzle gext v p).
Definition set_rusr_cksum (v : Z) (p : puzzle_t) : puzzle_t :=
  ltac:(set_field eta_puzzle rusr_cksum v p).
Definition set_calc_rusr_cksum (v : Z) (p : puzzle_t) : puzzle_t :=
  ltac:(set_field eta_puzzle calc_rusr_cksum v p).
Definition set_rusr (v : ptr (list (ptr block))) (p : puzzle_t) : puzzle_t :=
  ltac:(set_field eta_puzzle rusr v p).
Definition set_rusr_sz (v : Z) (p : puzzle_t) : puzzle_t :=
  ltac:(set_field eta_puzzle rusr_sz v p).

(** [memset (puz, 0, sizeof (struct puzzle_t))] *)
Definition zero_head : puz_head_t :=
  mk_head 0 (replicate 12 0) 0 (replicate 4 0) (replicate 4 0) (replicate 4 0)
    0 0 0 0 0 0 0 0 0 0 0 0 0.

Definition zero_puzzle : puzzle_t :=
  mk_puzzle 0 zero_head 0 (replicate 4 0) (replicate 4 0) (replicate 4 0)
    (replicate 8 0) NULL NULL NULL NULL NULL NULL NULL NULL 0
    0 0 NULL 0 0 0 NULL 0 0 NULL 0 0 NULL 0 0 NULL 0.

End Puz.
Export Puz.

(** ** puzzle.c: accessors and the sizer *)

Module Puzzle.

(** The getters return [-1] or [NULL] on a NULL puzzle. *)
Definition puz_width_get (puz : ptr puzzle_t) : option Z :=
  if is_null puz then Some (-1) else
  let* p := deref puz in Some (width (header p)).

Definition puz_height_get (puz : ptr puzzle_t) : option Z :=
  if is_null puz then Some (-1) else
  let* p := deref puz in Some (height (header p)).

Definition puz_solution_get (puz : ptr puzzle_t) : option (ptr block) :=
  if is_null puz then Some NULL else
  let* p := deref puz in Some (solution p).

Definition puz_title_get (puz : ptr puzzle_t) : option (ptr block) :=
  if is_null puz then Some NULL else
  let* p := deref puz in Some (title p).

Definition puz_author_get (puz : ptr puzzle_t) : option (ptr block) :=
  if is_null puz then Some NULL else
  let* p := deref puz in Some (author p).

Definition puz_copyright_get (puz : ptr puzzle_t) : option (ptr block) :=
  if is_null puz then Some NULL else
  let* p := deref puz in Some (copyright p).

Definition puz_clue_count_get (puz : ptr puzzle_t) : option Z :=
  if is_null puz then Some (-1) else
  let* p := deref puz in Some (clue_count (header p)).

(** [a[n]] for an array of pointers. *)
Definition load_ptr {A} (a : ptr (list (ptr A))) (n : Z) : option (ptr A) :=
  let* l := deref a in
  if decide (0 <= n) then l !! Z.to_nat n else None.

(** [if (NULL == puz || n < 0 || n > puz->header.clue_count) return NULL;
     return puz->clues[n];] *)
Definition puz_clue_get (puz : ptr puzzle_t) (n : Z) : option (ptr block) :=
  if is_null puz then Some NULL else
  let* p := deref puz in
  if decide (n < 0 \/ n > clue_count (header p)) then Some NULL
  else load_ptr (clues p) n.

(** The [has_] predicates test the section pointer against NULL (the C
    result 1/0 as a [bool]). *)
Definition puz_has_rebus (puz : ptr puzzle_t) : option bool :=
  if is_null puz then Some false else
  let* p := deref puz in Some (negb (is_null (grbs p))).

Definition puz_has_timer (puz : ptr puzzle_t) : option bool :=
  if is_null puz then Some false else
  let* p := deref puz in Some (negb (is_null (ltim p))).

Definition puz_has_extras (puz : ptr puzzle_t) : option bool :=
  if is_null puz then Some false else
  let* p := deref puz in Some (negb (is_null (gext p))).

Definition puz_has_rusr (puz : ptr puzzle_t) : option bool :=
  if is_null puz then Some false else
  let* p := deref puz in Some (negb (is_null (rusr p))).

Definition puz_rebus_count_get (puz : ptr puzzle_t) : option Z :=
  if is_null puz then Some (-1) else
  let* r := puz_has_rebus puz in
  if negb r then Some 0 else
  let* p := deref puz in Some (rtbl_sz p).

(** [if (NULL == puz || n < 0 || !puz_has_rebus(puz) || n > puz->rtbl_sz)
       return NULL;
     return puz->rtbl[n];] *)
Definition puz_rtbl_get (puz : ptr puzzle_t) (n : Z) : option (ptr block) :=
  if is_null puz then Some NULL else
  if decide (n < 0) then Some NULL else
  let* r := puz_has_rebus puz in
  if negb r then Some NULL else
  let* p := deref puz in
  if decide (n > rtbl_sz p) then Some NULL
  else load_ptr (rtbl p) n.

(** [puz_rebus_count_set]: a fresh table of [val] NULL entries. *)
Definition puz_rebus_count_set (puz : ptr puzzle_t) (val : Z)
  : option (ptr puzzle_t * Z) :=
  if is_null puz then Some (puz, -1) else
  if decide (0 > val) then Some (puz, -1) else
  let* p := deref puz in
  let p := set_rtbl (Ptr (replicate (Z.to_nat val) NULL)) p in
  let p := set_rtbl_sz val p in
  Some (Ptr p, 0).

(** [puz_clear_rtbl]: frees the first [rtbl_sz] entries and the array. *)
Definition puz_clear_rtbl (puz : ptr puzzle_t) : option (ptr puzzle_t * Z) :=
  if is_null puz then Some (puz, -1) else
  let* p := deref puz in
  if is_null (rtbl p) then Some (puz, -1) else
  let* _ := for_range 0 (rtbl_sz p)
              (fun i _ => let* e := load_ptr (rtbl p) i in free e) tt in
  let* _ := free (rtbl p) in
  let p := set_rtbl NULL p in
  let p := set_rtbl_sz 0 p in
  let p := set_rtbl_cksum 0 p in
  let p := set_calc_rtbl_cksum 0 p in
  Some (Ptr p, 0).

(** [puz_rtblstr_get]: every entry followed by a semicolon, then the
    terminator.  The result is a fresh block. *)
Definition puz_rtblstr_get (puz : ptr puzzle_t) : option (ptr block) :=
  if is_null puz then Some NULL else
  let* p := deref puz in
  let* s := for_range 0 (rtbl_sz p)
              (fun i acc =>
                 let* e := load_ptr (rtbl p) i in
                 let* str := cstring e in
                 Some (acc ++ str ++ [59]))
              [] in
  Some (Ptr (s ++ [0])).

(** [strchr (s, ';')] on a string: the index of the first semicolon. *)
Fixpoint index_of_semicolon (s : list Z) : option Z :=
  match s with
  | [] => None
  | c :: s' =>
      if decide (c = 59) then Some 0
      else let* n := index_of_semicolon s' in Some (n + 1)
  end.

(** The loop of [puz_rtblstr_set]: entry [i] is the text up to the next
    semicolon.  The flag is [false] when [strchr] finds none and the
    function returns NULL with the table filled so far. *)
Fixpoint rtblstr_entries (n : nat) (i : Z) (start : list Z) (tbl : list (ptr block))
  : list (ptr block) * bool :=
  match n with
  | O => (tbl, true)
  | S n' =>
      match index_of_semicolon start with
      | None => (tbl, false)
      | Some e =>
          rtblstr_entries n' (i + 1) (drop (Z.to_nat e + 1) start)
            (<[Z.to_nat i := Ptr (take (Z.to_nat e) start ++ [0])]> tbl)
      end
  end.

Definition puz_rtblstr_set (puz : ptr puzzle_t) (val : block)
  : option (ptr puzzle_t * ptr (list (ptr block))) :=
  if is_null puz then Some (puz, NULL) else
  let* p := deref puz in
  let* (puz, _) := if negb (is_null (rtbl p)) then puz_clear_rtbl puz
                   else Some (puz, 0) in
  let* str := cstring (Ptr val) in
  let sz := Z.of_nat (length (filter (fun c => c = 59) str)) in
  let* (puz, _) := puz_rebus_count_set puz sz in
  let* p := deref puz in
  let* tbl := deref (rtbl p) in
  let (tbl', complete) := rtblstr_entries (Z.to_nat (rtbl_sz p)) 0 str tbl in
  let p := set_rtbl (Ptr tbl') p in
  Some (Ptr p, if complete then rtbl p else NULL).

(** [puz_rusrstr_get]: the cells' strings, each with its terminator (a
    NULL cell is a lone terminator), written into a block of [rusr_sz]
    bytes; writing past it is undefined. *)
Definition puz_rusrstr_get (puz : ptr puzzle_t) : option (ptr block) :=
  if is_null puz then Some NULL else
  let* p := deref puz in
  if is_null (rusr p) then Some NULL else
  let board_sz := width (header p) * height (header p) in
  let* s := for_range 0 board_sz
              (fun j acc =>
                 let* e := load_ptr (rusr p) j in
                 let* str := if is_null e then Some [] else cstring e in
                 if decide (Z.of_nat (length (acc ++ str ++ [0])) <= rusr_sz p)
                 then Some (acc ++ str ++ [0]) else None)
              [] in
  Some (Ptr s).

(** [puz_size]: the size of the puzzle as a PUZ file; [-1] on NULL. *)
Definition puz_size (puz : ptr puzzle_t) : option Z :=
  if is_null puz then Some (-1) else
  let* p := deref puz in
  let* w := puz_width_get puz in
  let* h := puz_height_get puz in
  let board_size := w * h in
  let sz := 52 in
  let sz := sz + board_size in
  let sz := sz + board_size in
  let* s := puz_title_get puz in
  let* n := Sstrlen s in
  let sz := sz + (n + 1) in
  let* s := puz_author_get puz in
  let* n := Sstrlen s in
  let sz := sz + (n + 1) in
  let* s := puz_copyright_get puz in
  let* n := Sstrlen s in
  let sz := sz + (n + 1) in
  let* cc := puz_clue_count_get puz in
  let* sz := for_range 0 cc
               (fun i sz =>
                  let* c := puz_clue_get puz i in
                  let* n := Sstrlen c in
                  Some (sz + (n + 1)))
               sz in
  let sz := if decide (notes_sz p <> 0) then sz + notes_sz p else sz in
  let sz := sz + 1 in
  let* r := puz_has_rebus puz in
  let* sz :=
    if r then
      let sz := sz + 4 in
      let sz := sz + 2 in
      let sz := sz + 2 in
      let sz := sz + board_size in
      let sz := sz + 1 in
      let sz := sz + 4 in
      let sz := sz + 2 in
      let sz := sz + 2 in
      let* rc := puz_rebus_count_get puz in
      let* sz := for_range 0 rc
                   (fun i sz =>
                      let* e := puz_rtbl_get puz i in
                      let* n := Sstrlen e in
                      Some (sz + (n + 1)))
                   sz in
      Some (sz + 1)
    else Some sz in
  let* r := puz_has_timer puz in
  let* sz :=
    if r then
      let sz := sz + 4 in
      let sz := sz + 4 in
      let* n := Sstrlen (ltim p) in
      let sz := sz + n in
      Some (sz + 1)
    else Some sz in
  let* r := puz_has_extras puz in
  let sz :=
    if r then
      let sz := sz + 4 in
      let sz := sz + 2 in
      let sz := sz + 2 in
      let sz := sz + board_size in
      sz + 1
    else sz in
  let* r := puz_has_rusr puz in
  let sz :=
    if r then
      let sz := sz + 4 in
      let sz := sz + 2 in
      let sz := sz + 2 in
      let sz := sz + rusr_sz p in
      sz + 1
    else sz in
  Some sz.

End Puzzle.
Export Puzzle.

(** ** cksum.c: the rotate-and-sum primitive *)

Module Cksum.

(** One iteration of the loop of [puz_cksum_region]:
    [if (cksum & 1) cksum = (cksum >> 1) + 0x8000; else cksum = cksum >> 1;
     cksum += b;] on an [unsigned short]. *)
Definition cksum_step (cksum b : Z) : Z :=
  let cksum :=
    if decide (Z.land cksum 1 <> 0) then u16 (Z.shiftr cksum 1 + 32768)
    else u16 (Z.shiftr cksum 1) in
  u16 (cksum + b).

Definition puz_cksum_region (base : ptr block) (len : Z) (cksum : Z) : option Z :=
  for_range 0 len
    (fun i cksum => let* b := deref base in let* c := load b i in Some (cksum_step cksum c))
    cksum.

(** The checksum of a byte string, as a fold. *)
Definition cksum_bytes (bs : list Z) (iv : Z) : Z := fold_left cksum_step bs iv.

End Cksum.
Export Cksum.


(** ** cksum.c: the checksums of a puzzle *)

Module CksumPuz.

(** [puz_cksum_cib]: the checksum of the 8-byte CIB, initial value 0. *)
Definition puz_cksum_cib (puz : ptr puzzle_t) : option Z :=
  let* p := deref puz in
  puz_cksum_region (Ptr (cib p)) 8 0.

(** [if (Sstrlen(s) > 0) cksum = puz_cksum_region(s, Sstrlen(s)+1, cksum);] *)
Definition cksum_string_nul (s : ptr block) (cksum : Z) : option Z :=
  let* n := Sstrlen s in
  if decide (n > 0) then
    let* n := Sstrlen s in puz_cksum_region s (n + 1) cksum
  else Some cksum.

(** [for (i = 0; i < puz->header.clue_count; i++)
       cksum = puz_cksum_region(puz->clues[i], Sstrlen(puz->clues[i]), cksum);] *)
Definition cksum_clues (p : puzzle_t) (cksum : Z) : option Z :=
  for_range 0 (clue_count (header p))
    (fun i cksum =>
       let* c := load_ptr (clues p) i in
       let* n := Sstrlen c in
       puz_cksum_region c n cksum)
    cksum.

(** [puz_cksum], with [CKSUM_PIECEWISE] set as in the source. *)
Definition puz_cksum (puz : ptr puzzle_t) (cksum : Z) : option Z :=
  let* p := deref puz in
  let puz_a := width (header p) * height (header p) in
  let* cksum := puz_cksum_region (solution p) puz_a cksum in
  let* cksum := puz_cksum_region (grid p) puz_a cksum in
  let* cksum := cksum_string_nul (title p) cksum in
  let* cksum := cksum_string_nul (author p) cksum in
  let* cksum := cksum_string_nul (copyright p) cksum in
  let* cksum := cksum_clues p cksum in
  let* cksum := cksum_string_nul (notes p) cksum in
  Some cksum.

(** [puz_cksum2]: the same without the solution and the grid. *)
Definition puz_cksum2 (puz : ptr puzzle_t) (cksum : Z) : option Z :=
  let* p := deref puz in
  let* cksum := cksum_string_nul (title p) cksum in
  let* cksum := cksum_string_nul (author p) cksum in
  let* cksum := cksum_string_nul (copyright p) cksum in
  let* cksum := cksum_clues p cksum in
  let* cksum := cksum_string_nul (notes p) cksum in
  Some cksum.

(** [magic_gen_10]:
    [for (i = 0; i < 4; i++) { unsigned char c = sums[i] & 0xFF;
                               dest[i] = c ^ magic[i]; }] *)
Definition magic_gen_10 (dest : list Z) (sums : list Z) : option (list Z) :=
  let magic := MAGIC_10_MASK in
  for_range 0 4
    (fun i dest =>
       let* s := load sums i in
       let* m := load magic i in
       let c := u8 (Z.land s 255) in
       store dest i (u8 (Z.lxor c m)))
    dest.

(** [magic_gen_14]:
    [for (i = 0; i < 4; i++) dest[i] = ((sums[i] & 0xFF00) >> 8) ^ magic[i];] *)
Definition magic_gen_14 (dest : list Z) (sums : list Z) : option (list Z) :=
  let magic := MAGIC_14_MASK in
  for_range 0 4
    (fun i dest =>
       let* s := load sums i in
       let* m := load magic i in
       store dest i (u8 (Z.lxor (Z.shiftr (Z.land s 65280) 8) m)))
    dest.

Definition rtbl_gen (puz : ptr puzzle_t) : option Z :=
  let* rtbl_str := puz_rtblstr_get puz in
  if negb (is_null rtbl_str) then
    let* n := Sstrlen rtbl_str in
    puz_cksum_region rtbl_str n 0
  else Some 0.

Definition rusr_gen (puz : ptr puzzle_t) : option Z :=
  let* rusr_str := puz_rusrstr_get puz in
  if negb (is_null rusr_str) then
    let* p := deref puz in
    puz_cksum_region rusr_str (rusr_sz p) 0
  else Some 0.

(** The part of [puz_cksums_calc] up to the two [magic_gen] calls. *)
Definition cksums_calc_main (puz : ptr puzzle_t) : option (ptr puzzle_t) :=
  let* p := deref puz in
  let h := header p in
  let p := set_cib (w_le_8 (width h) ++ w_le_8 (height h)
                    ++ w_le_16 (clue_count h) ++ w_le_16 (x_unk_30 h)
                    ++ w_le_16 (scrambled_tag h)) p in
  let* puz0 := puz_cksum2 (Ptr p) 0 in
  let* cib := puz_cksum_cib (Ptr p) in
  let* puzcib := puz_cksum (Ptr p) cib in
  let bd_size := width (header p) * height (header p) in
  let* grid := puz_cksum_region (grid p) bd_size 0 in
  let* soln := puz_cksum_region (solution p) bd_size 0 in
  let p := set_calc_cksum_puzcib puzcib p in
  let p := set_calc_cksums [cib; soln; grid; puz0] p in
  let* m10 := magic_gen_10 (calc_magic10 p) (calc_cksums p) in
  let p := set_calc_magic10 m10 p in
  let* m14 := magic_gen_14 (calc_magic14 p) (calc_cksums p) in
  let p := set_calc_magic14 m14 p in
  Some (Ptr p).

(** The four blocks of [puz_cksums_calc] for the optional sections, each
    guarded by its [puz_has_] test. *)
Definition cksums_calc_rebus (p : puzzle_t) : option puzzle_t :=
  let bd_size := width (header p) * height (header p) in
  let* r := puz_has_rebus (Ptr p) in
  if r then
    let* ck := puz_cksum_region (grbs p) bd_size 0 in
    let p := set_calc_grbs_cksum ck p in
    let* ck := rtbl_gen (Ptr p) in
    Some (set_calc_rtbl_cksum ck p)
  else Some p.

Definition cksums_calc_timer (p : puzzle_t) : option puzzle_t :=
  let* r := puz_has_timer (Ptr p) in
  if r then
    let* n := Sstrlen (ltim p) in
    let* ck := puz_cksum_region (ltim p) n 0 in
    Some (set_calc_ltim_cksum ck p)
  else Some p.

Definition cksums_calc_extras (p : puzzle_t) : option puzzle_t :=
  let bd_size := width (header p) * height (header p) in
  let* r := puz_has_extras (Ptr p) in
  if r then
    let* ck := puz_cksum_region (gext p) bd_size 0 in
    Some (set_calc_gext_cksum ck p)
  else Some p.

Definition cksums_calc_rusr (p : puzzle_t) : option puzzle_t :=
  let* r := puz_has_rusr (Ptr p) in
  if r then
    let* ck := rusr_gen (Ptr p) in
    Some (set_calc_rusr_cksum ck p)
  else Some p.

(** The checksums of the optional sections, for those present. *)
Definition cksums_calc_sections (puz : ptr puzzle_t) : option (ptr puzzle_t) :=
  let* p := deref puz in
  let* p := cksums_calc_rebus p in
  let* p := cksums_calc_timer p in
  let* p := cksums_calc_extras p in
  let* p := cksums_calc_rusr p in
  Some (Ptr p).

(** [puz_cksums_calc]: always returns 0. *)
Definition puz_cksums_calc (puz : ptr puzzle_t) : option (ptr puzzle_t * Z) :=
  let* puz := cksums_calc_main puz in
  let* puz := cksums_calc_sections puz in
  Some (puz, 0).

End CksumPuz.
Export CksumPuz.

(** ** puzzle.c: locked solutions *)

Module Scramble.

Definition puz_is_locked_get (puz : ptr puzzle_t) : option Z :=
  if is_null puz then Some 0 else
  let* p := deref puz in Some (scrambled_tag (header p)).

Definition puz_locked_cksum_get (puz : ptr puzzle_t) : option Z :=
  if is_null puz then Some 0 else
  let* p := deref puz in Some (scrambled_cksum (header p)).

(** [puz_lock_set]: returns its [unsigned short] argument, [(unsigned
    short)-1] on a NULL puzzle. *)
Definition puz_lock_set (puz : ptr puzzle_t) (cksum : Z) : option (ptr puzzle_t * Z) :=
  if is_null puz then Some (puz, u16 (-1)) else
  let* p := deref puz in
  if decide (cksum <> 0) then
    let h := set_scrambled_tag 4 (header p) in
    let h := set_scrambled_cksum cksum h in
    Some (Ptr (set_header h p), cksum)
  else
    let h := set_scrambled_tag 0 (header p) in
    let h := set_scrambled_cksum 0 h in
    Some (Ptr (set_header h p), cksum).

(** [unscramble_string (inp, out)]: [inp] and [out] are distinct blocks.
    The result is the new contents of [out] and the return value. *)
Definition unscramble_string (inp out : ptr block) : option (ptr block * Z) :=
  if is_null inp || is_null out then Some (out, u16 (-1)) else
  let* len := Sstrlen inp in
  let strbreak := Z.quot len 2 in
  let* src := deref inp in
  let* dst := deref out in
  let* dst :=
    for_range 0 len
      (fun i dst =>
         let index :=
           if decide (0 = Z.rem i 2) then strbreak + Z.quot i 2
           else Z.quot i 2 in
         let* c := load src i in
         store dst index c)
      dst in
  let* dst := store dst len 0 in
  Some (Ptr dst, 0).

(** [unshift_string (inp, shift, out)] *)
Definition unshift_string (inp : ptr block) (shift : Z) (out : ptr block)
  : option (ptr block * Z) :=
  if is_null inp || is_null out then Some (out, u16 (-1)) else
  let* len := Sstrlen inp in
  if decide (len < shift) then Some (out, u16 (-1)) else
  let* src := deref inp in
  let* dst := deref out in
  let* dst := strncpy dst shift src 0 (len - shift) in
  let* dst := strncpy dst 0 src (len - shift) shift in
  let* dst := store dst len 0 in
  Some (Ptr dst, 0).

(** [formatted_solution]: a fresh string, NULL on a NULL puzzle. *)
Definition formatted_solution (puz : ptr puzzle_t) : option (ptr block) :=
  if is_null puz then Some NULL else
  let* w := puz_width_get puz in
  let* h := puz_height_get puz in
  let board_sz := w * h in
  let* sol := puz_solution_get puz in
  let* size :=
    for_range 0 board_sz
      (fun i size =>
         let* s := deref sol in
         let* c := load s i in
         Some (if decide (c <> 46) then size + 1 else size))
      0 in
  let out := replicate (Z.to_nat (size + 1)) 0 in
  let* (out, index) :=
    for_range 0 w
      (fun i st =>
         for_range 0 h
           (fun j '(out, index) =>
              let* s := deref sol in
              let* c := load s (j * h + i) in
              if decide (c <> 46) then
                let* out := store out index c in
                Some (out, index + 1)
              else Some (out, index))
           st)
      (out, 0) in
  let* out := store out size 0 in
  Some (Ptr out).

(** [formatted_solution] with the result of its [calloc], which the source
    does not check, as an input: on a failure [out] is NULL and the stores
    [out[index++] = c] and [out[size] = 0] go through NULL. *)
Definition formatted_solution_alloc (calloc_ok : bool) (puz : ptr puzzle_t)
  : option (ptr block) :=
  if is_null puz then Some NULL else
  let* w := puz_width_get puz in
  let* h := puz_height_get puz in
  let board_sz := w * h in
  let* sol := puz_solution_get puz in
  let* size :=
    for_range 0 board_sz
      (fun i size =>
         let* s := deref sol in
         let* c := load s i in
         Some (if decide (c <> 46) then size + 1 else size))
      0 in
  let out := if calloc_ok then Ptr (replicate (Z.to_nat (size + 1)) 0) else NULL in
  let* (out, index) :=
    for_range 0 w
      (fun i st =>
         for_range 0 h
           (fun j '(out, index) =>
              let* s := deref sol in
              let* c := load s (j * h + i) in
              if decide (c <> 46) then
                let* o := deref out in
                let* o := store o index c in
                Some (Ptr o, index + 1)
              else Some (out, index))
           st)
      (out, 0) in
  let* o := deref out in
  let* o := store o size 0 in
  Some (Ptr o).

(** [unformat_unlocked_sol]: writes through [puz->solution]. *)
Definition unformat_unlocked_sol (puz : ptr puzzle_t) (formatted : ptr block)
  : option (ptr puzzle_t * Z) :=
  if is_null puz || is_null formatted then Some (puz, -1) else
  let* p := deref puz in
  let* w := puz_width_get puz in
  let* h := puz_height_get puz in
  let* sol := puz_solution_get puz in
  let* (sol, index) :=
    for_range 0 w
      (fun i st =>
         for_range 0 h
           (fun j '(sol, index) =>
              let* s := deref sol in
              let* c := load s (j * h + i) in
              if decide (c <> 46) then
                let* f := deref formatted in
                let* v := load f index in
                let* s := store s (j * h + i) v in
                Some (Ptr s, index + 1)
              else Some (sol, index))
           st)
      (sol, 0) in
  Some (Ptr (set_solution sol p), 0).

(** The decimal digits of an unlock code. *)
Definition code_digits (code : Z) : list Z :=
  [Z.rem (Z.quot code 1000) 10; Z.rem (Z.quot code 100) 10;
   Z.rem (Z.quot code 10) 10; Z.rem code 10].

(** A loop body either goes on or returns from the function. *)
Inductive outcome (A : Type) : Type :=
| Continue (a : A)
| Return (r : Z).
Arguments Continue {A} a.
Arguments Return {A} r.

(** One round of the decoding loop of [puz_unlock_solution]. *)
Definition unlock_round (digits : list Z) (len : Z) (i : Z) (ws : list Z * list Z)
  : option (outcome (list Z * list Z)) :=
  let '(workspace1, workspace2) := ws in
  let* (out, e1) := unscramble_string (Ptr workspace1) (Ptr workspace2) in
  let* workspace2 := deref out in
  let* d := load digits i in
  let* (out, e2) := unshift_string (Ptr workspace2) d (Ptr workspace1) in
  let* workspace1 := deref out in
  if decide (e1 <> 0 \/ e2 <> 0) then Some (Return (-4)) else
  let* workspace1 :=
    for_range 0 len
      (fun j w1 =>
         let* c := load w1 j in
         let* d := load digits (Z.rem j 4) in
         let c := u8 (c - d) in
         let* w1 := store w1 j c in
         if decide (c < 65) then store w1 j (u8 (c + 26)) else Some w1)
      workspace1 in
  Some (Continue (workspace1, workspace2)).

(** [for (i = 3; i >= 0; i--)] over the rounds. *)
Fixpoint unlock_rounds (digits : list Z) (len : Z) (n : nat) (ws : list Z * list Z)
  : option (outcome (list Z * list Z)) :=
  match n with
  | O => Some (Continue ws)
  | S n' =>
      let* o := unlock_round digits len (Z.of_nat n') ws in
      match o with
      | Continue ws => unlock_rounds digits len n' ws
      | Return r => Some (Return r)
      end
  end.

(** The copy of the decoded string without black squares, left in
    [workspace2]. *)
Definition strip_black (len : Z) (workspace1 workspace2 : list Z) : option (list Z) :=
  let* (workspace2, index) :=
    for_range 0 len
      (fun j '(w2, index) =>
         let* c := load workspace1 j in
         if decide (c <> 46) then
           let* w2 := store w2 index c in Some (w2, index + 1)
         else Some (w2, index))
      (workspace2, 0) in
  store workspace2 len 0.

(** The decoding steps of [puz_unlock_solution], from the copy of the
    formatted solution into [workspace1] to the copy without black squares:
    the two workspaces, or the early return. *)
Definition unlock_decode (inp : ptr block) (len : Z) (digits : list Z)
  : option (outcome (list Z * list Z)) :=
  let workspace1 := replicate (Z.to_nat (len + 1)) 0 in
  let workspace2 := replicate (Z.to_nat (len + 1)) 0 in
  let* src := deref inp in
  let* workspace1 := strncpy workspace1 0 src 0 (len + 1) in
  let* o := unlock_rounds digits len 4 (workspace1, workspace2) in
  match o with
  | Return r => Some (Return r)
  | Continue (workspace1, workspace2) =>
      let* workspace2 := strip_black len workspace1 workspace2 in
      Some (Continue (workspace1, workspace2))
  end.

(** [puz_unlock_solution (puz, code)].  [ws1] and [ws2] tell whether the
    two [calloc]s of the workspaces succeed. *)
Definition puz_unlock_solution (puz : ptr puzzle_t) (code : Z) (ws1 ws2 : bool)
  : option (ptr puzzle_t * Z) :=
  if is_null puz then Some (puz, -1) else
  let* p := deref puz in
  if decide (scrambled_tag (header p) = 0) then Some (puz, 1) else
  let digits := code_digits code in
  if decide (Exists (fun d => d = 0) digits) then Some (puz, -2) else
  let* inp := formatted_solution puz in
  let* len := Sstrlen inp in
  if negb ws1 || negb ws2 then Some (puz, -3) else
  let* o := unlock_decode inp len digits in
  match o with
  | Return r => Some (puz, r)
  | Continue (workspace1, workspace2) =>
      let* cksum := puz_cksum_region (Ptr workspace2) len 0 in
      if decide (cksum <> scrambled_cksum (header p)) then Some (puz, 2) else
      let* (puz, _) := unformat_unlocked_sol puz (Ptr workspace1) in
      let* (puz, _) := puz_lock_set puz 0 in
      Some (puz, 0)
  end.

(** [puz_unlock_solution] with all three allocations as inputs:
    [calloc_ok] is the result of the [calloc] of [formatted_solution]. *)
Definition puz_unlock_solution_alloc (calloc_ok : bool) (puz : ptr puzzle_t)
    (code : Z) (ws1 ws2 : bool) : option (ptr puzzle_t * Z) :=
  if is_null puz then Some (puz, -1) else
  let* p := deref puz in
  if decide (scrambled_tag (header p) = 0) then Some (puz, 1) else
  let digits := code_digits code in
  if decide (Exists (fun d => d = 0) digits) then Some (puz, -2) else
  let* inp := formatted_solution_alloc calloc_ok puz in
  let* len := Sstrlen inp in
  if negb ws1 || negb ws2 then Some (puz, -3) else
  let* o := unlock_decode inp len digits in
  match o with
  | Return r => Some (puz, r)
  | Continue (workspace1, workspace2) =>
      let* cksum := puz_cksum_region (Ptr workspace2) len 0 in
      if decide (cksum <> scrambled_cksum (header p)) then Some (puz, 2) else
      let* (puz, _) := unformat_unlocked_sol puz (Ptr workspace1) in
      let* (puz, _) := puz_lock_set puz 0 in
      Some (puz, 0)
  end.

(** The loop of [puz_brute_force_unlock]; [great_success] is unset
    before the first iteration. *)
Fixpoint brute_force_loop (alloc : Z -> bool * bool) (n : nat) (code : Z)
    (puz : ptr puzzle_t) (great_success : option Z)
  : option (ptr puzzle_t * Z * option Z) :=
  match n with
  | O => Some (puz, code, great_success)
  | S n' =>
      let* (puz, r) :=
        puz_unlock_solution puz code (fst (alloc code)) (snd (alloc code)) in
      if decide (r = 0) then Some (puz, code, Some r)
      else brute_force_loop alloc n' (code + 1) puz (Some r)
  end.

(** [puz_brute_force_unlock]: [for (code = 1111; code < 10000; code++)]. *)
Definition puz_brute_force_unlock (alloc : Z -> bool * bool) (puz : ptr puzzle_t)
  : option (ptr puzzle_t * Z) :=
  if is_null puz then Some (puz, -1) else
  let* p := deref puz in
  if decide (scrambled_tag (header p) = 0) then Some (puz, -2) else
  let* (puz, code, great_success) :=
    brute_force_loop alloc (Z.to_nat (10000 - 1111)) 1111 puz None in
  let* great_success := great_success in
  if decide (great_success <> 0) then Some (puz, -3) else Some (puz, code).

End Scramble.
Export Scramble.

(** ** load.c: the binary loader *)

Module LoadBin.

(** [Sstrncmp (base + i, tag, 4)] against a four-letter section tag. *)
Definition tag_cmp (base : block) (i : Z) (tag : string) : option Z :=
  let* s := offset base i in
  strncmp s (cstr tag) 4.

(** [read_puz_head (&puz->header, base)] *)
Definition read_puz_head (base : block) : option puz_head_t :=
  let i := 0 in
  let* cksum_puz := le_16 base i in
  let i := i + 2 in
  let* magic := read_bytes base i 12 in
  let i := i + 12 in
  let* cksum_cib := le_16 base i in
  let i := i + 2 in
  let* magic_10 := read_bytes base i 4 in
  let i := i + 4 in
  let* magic_14 := read_bytes base i 4 in
  let i := i + 4 in
  let* magic_18 := read_bytes base i 4 in
  let i := i + 4 in
  let* noise_1c := le_16 base i in
  let i := i + 2 in
  let* scrambled_cksum := le_16 base i in
  let i := i + 2 in
  let* noise_20 := le_16 base i in
  let i := i + 2 in
  let* noise_22 := le_16 base i in
  let i := i + 2 in
  let* noise_24 := le_16 base i in
  let i := i + 2 in
  let* noise_26 := le_16 base i in
  let i := i + 2 in
  let* noise_28 := le_16 base i in
  let i := i + 2 in
  let* noise_2a := le_16 base i in
  let i := i + 2 in
  let* width := le_8 base i in
  let i := i + 1 in
  let* height := le_8 base i in
  let i := i + 1 in
  let* clue_count := le_16 base i in
  let i := i + 2 in
  let* x_unk_30 := le_16 base i in
  let i := i + 2 in
  let* scrambled_tag := le_16 base i in
  Some (mk_head (u16 cksum_puz) magic (u16 cksum_cib) magic_10 magic_14 magic_18
          (u16 noise_1c) (u16 scrambled_cksum) (u16 noise_20) (u16 noise_22)
          (u16 noise_24) (u16 noise_26) (u16 noise_28) (u16 noise_2a)
          (u8 width) (u8 height) (u16 clue_count) (u16 x_unk_30)
          (u16 scrambled_tag)).

(** The section readers return the number of bytes they advance, 0 on an
    error.  [base] is the block from the byte after the section's size
    field on.  [malloc_ok] is the result of the checked [malloc]. *)
Definition load_grbs_bin (malloc_ok : bool) (puz : ptr puzzle_t) (base : block)
    (sz : Z) : option (ptr puzzle_t * Z) :=
  if is_null puz then Some (puz, 0) else
  let* p := deref puz in
  let i := 0 in
  let bd_sz := width (header p) * height (header p) in
  let* ck := le_16 base i in
  let p := set_grbs_cksum (u16 ck) p in
  let i := i + 2 in
  if negb malloc_ok then Some (Ptr (set_grbs NULL p), 0) else
  let* g := read_bytes base i bd_sz in
  let p := set_grbs (Ptr g) p in
  let i := i + bd_sz in
  let i := i + 1 in
  let* rbssum :=
    for_range 0 bd_sz
      (fun rbsj rbssum => let* c := load g rbsj in Some (rbssum + c)) 0 in
  let p := if decide (rbssum = 0) then set_grbs NULL p else p in
  let* c := tag_cmp base i "RTBL" in
  if decide (0 <> c) then
    if decide (rbssum <> 0) then Some (Ptr (set_grbs Dangling p), 0)
    else Some (Ptr p, i)
  else
    let i := i + 4 in
    let* rtbl_strsz := le_16 base i in
    let i := i + 2 in
    let* p :=
      if decide (rbssum <> 0) then
        let* ck := le_16 base i in Some (set_rtbl_cksum (u16 ck) p)
      else Some p in
    let i := i + 2 in
    let* p :=
      if decide (rbssum <> 0) then
        let* v := offset base i in
        let* (puz, _) := puz_rtblstr_set (Ptr p) v in
        deref puz
      else Some p in
    let i := i + rtbl_strsz in
    let i := i + 1 in
    Some (Ptr p, i).

Definition load_ltim_bin (puz : ptr puzzle_t) (base : block) (ltim_sz : Z)
  : option (ptr puzzle_t * Z) :=
  if is_null puz then Some (puz, 0) else
  let* p := deref puz in
  let i := 0 in
  let* ck := le_16 base i in
  let p := set_ltim_cksum (u16 ck) p in
  let i := i + 2 in
  let* l := strncpy (replicate (Z.to_nat (ltim_sz + 1)) 0) 0 base i ltim_sz in
  let p := set_ltim (Ptr l) p in
  let i := i + (ltim_sz + 1) in
  Some (Ptr p, i).

Definition load_gext_bin (puz : ptr puzzle_t) (base : block)
  : option (ptr puzzle_t * Z) :=
  if is_null puz then Some (puz, 0) else
  let* p := deref puz in
  let i := 0 in
  let bd_sz := width (header p) * height (header p) in
  let* ck := le_16 base i in
  let p := set_gext_cksum (u16 ck) p in
  let i := i + 2 in
  let* g := read_bytes base i bd_sz in
  let p := set_gext (Ptr g) p in
  let i := i + bd_sz in
  let i := i + 1 in
  Some (Ptr p, i).

Definition load_rusr_bin (puz : ptr puzzle_t) (base : block)
  : option (ptr puzzle_t * Z) :=
  if is_null puz then Some (puz, 0) else
  let* p := deref puz in
  let i := 0 in
  let bd_sz := width (header p) * height (header p) in
  let* ck := le_16 base i in
  let p := set_rusr_cksum (u16 ck) p in
  let i := i + 2 in
  let* (tbl, i) :=
    for_range 0 bd_sz
      (fun j '(tbl, i) =>
         let* c := load base i in
         if decide (c <> 0) then
           let* s := offset base i in
           let* usr_rebus := Sstrndup s MAX_REBUS_SIZE in
           let* n := strlen usr_rebus in
           let* tbl := if decide (0 <= j < Z.of_nat (length tbl))
                       then Some (<[Z.to_nat j := Ptr usr_rebus]> tbl) else None in
           Some (tbl, i + (n + 1))
         else
           let* tbl := if decide (0 <= j < Z.of_nat (length tbl))
                       then Some (<[Z.to_nat j := NULL]> tbl) else None in
           Some (tbl, i + 1))
      (replicate (Z.to_nat bd_sz) Dangling, i) in
  let p := set_rusr (Ptr tbl) p in
  let p := set_rusr_sz (i - 2) p in
  let i := i + 1 in
  Some (Ptr p, i).

(** The clue loop of [puz_load_bin]:
    [for (j = 0; i < sz && j < puz->header.clue_count; j++)], at most
    [clue_count] iterations. *)
Fixpoint load_clues (n : nat) (base : block) (sz : Z) (j i : Z)
    (cl : list (ptr block)) : option (Z * Z * list (ptr block)) :=
  match n with
  | O => Some (j, i, cl)
  | S n' =>
      if decide (i < sz) then
        let* s := offset base i in
        let* c := Sstrdup s in
        let* len := strlen c in
        load_clues n' base sz (j + 1) (i + (len + 1)) (<[Z.to_nat j := Ptr c]> cl)
      else Some (j, i, cl)
  end.

(** The section loop of [puz_load_bin], [while (i+5 < sz)].  Every
    iteration moves [i] forward by 6 bytes or more on a well-formed file;
    [fuel] bounds the iterations, and running out of it counts as
    undefined.  The result is the value of [puz] after the loop. *)
Fixpoint load_sections (fuel : nat) (didmalloc : bool) (base : block) (sz : Z)
    (i : Z) (puz : ptr puzzle_t) : option (ptr puzzle_t) :=
  match fuel with
  | O => None
  | S fuel' =>
      if decide (i + 5 < sz) then
        let* section_sz := le_16 base (i + 4) in
        let section_sz := u16 section_sz in
        let* c := tag_cmp base i "GRBS" in
        let* r :=
          if decide (0 = c) then
            let* b := offset base (i + 6) in
            let* r := load_grbs_bin true puz b section_sz in Some (Some r)
          else
            let* c := tag_cmp base i "LTIM" in
            if decide (0 = c) then
              let* b := offset base (i + 6) in
              let* r := load_ltim_bin puz b section_sz in Some (Some r)
            else
              let* c := tag_cmp base i "GEXT" in
              if decide (0 = c) then
                let* b := offset base (i + 6) in
                let* r := load_gext_bin puz b in Some (Some r)
              else
                let* c := tag_cmp base i "RUSR" in
                if decide (0 = c) then
                  let* b := offset base (i + 6) in
                  let* r := load_rusr_bin puz b in Some (Some r)
                else Some None in
        match r with
        | None => load_sections fuel' didmalloc base sz (i + 6 + section_sz + 1) puz
        | Some (puz, advance) =>
            if decide (advance = 0) then
              if didmalloc then Some NULL
              else load_sections fuel' didmalloc base sz (i + 6 + advance) puz
            else load_sections fuel' didmalloc base sz (i + 6 + advance) puz
        end
      else Some puz
  end.

(** [puz_load_bin (puz, base, sz)].  The result is the returned pointer:
    NULL on an error, else the filled-in puzzle.  The [malloc]s are taken to
    succeed. *)
Definition puz_load_bin (puz : ptr puzzle_t) (base : ptr block) (sz : Z)
  : option (ptr puzzle_t) :=
  if is_null base || bool_decide (sz < 52) then Some NULL else
  let didmalloc := is_null puz in
  let* _ := if didmalloc then Some zero_puzzle else deref puz in
  let p := zero_puzzle in
  let p := set_base base p in
  let p := set_sz sz p in
  let* b := deref base in
  let* h := read_puz_head b in
  let p := set_header h p in
  let* c := read_bytes b 44 8 in
  let p := set_cib c p in
  let i := 52 in
  let bd_sz := width (header p) * height (header p) in
  let* s := strncpy (replicate (Z.to_nat (1 + bd_sz)) 0) 0 b i bd_sz in
  let* s := store s bd_sz 0 in
  let p := set_solution (Ptr s) p in
  let i := i + bd_sz in
  let* s := strncpy (replicate (Z.to_nat (1 + bd_sz)) 0) 0 b i bd_sz in
  let p := set_grid (Ptr s) p in
  let i := i + bd_sz in
  let* s := offset b i in
  let* s := Sstrdup s in
  let p := set_title (Ptr s) p in
  let* n := strlen s in
  let i := i + (n + 1) in
  let* s := offset b i in
  let* s := Sstrdup s in
  let p := set_author (Ptr s) p in
  let* n := strlen s in
  let i := i + (n + 1) in
  let* s := offset b i in
  let* s := Sstrdup s in
  let p := set_copyright (Ptr s) p in
  let* n := strlen s in
  let i := i + (n + 1) in
  let cc := clue_count (header p) in
  let* (j, i, cl) :=
    load_clues (Z.to_nat cc) b sz 0 i (replicate (Z.to_nat cc) Dangling) in
  let p := set_clues (Ptr cl) p in
  if decide (j <> cc) then Some NULL else
  let p := set_notes NULL p in
  let* (p, i) :=
    if decide (i < sz) then
      let* s := offset b i in
      let* s := Sstrdup s in
      let p := set_notes (Ptr s) p in
      let* n := strlen s in
      let p := set_notes_sz n p in
      Some (p, i + (n + 1))
    else Some (p, i) in
  let p := set_grbs NULL p in
  let p := set_rtbl NULL p in
  let p := set_rtbl_sz 0 p in
  let p := set_ltim NULL p in
  let p := set_gext NULL p in
  let p := set_rusr NULL p in
  let p := set_rusr_sz 0 p in
  load_sections (Z.to_nat sz) didmalloc b sz i (Ptr p).

End LoadBin.
Export LoadBin.

(** ** puzzle.c: construction, setters and clearers *)

Module PuzzleSet.

Definition set_cksum_puz (v : Z) (h : puz_head_t) : puz_head_t :=
  ltac:(set_field eta_head cksum_puz v h).
Definition set_magic (v : list Z) (h : puz_head_t) : puz_head_t :=
  ltac:(set_field eta_head magic v h).
Definition set_cksum_cib (v : Z) (h : puz_head_t) : puz_head_t :=
  ltac:(set_field eta_head cksum_cib v h).
Definition set_magic_10 (v : list Z) (h : puz_head_t) : puz_head_t :=
  ltac:(set_field eta_head magic_10 v h).
Definition set_magic_14 (v : list Z) (h : puz_head_t) : puz_head_t :=
  ltac:(set_field eta_head magic_14 v h).
Definition set_magic_18 (v : list Z) (h : puz_head_t) : puz_head_t :=
  ltac:(set_field eta_head magic_18 v h).
Definition set_width (v : Z) (h : puz_head_t) : puz_head_t :=
  ltac:(set_field eta_head width v h).
Definition set_height (v : Z) (h : puz_head_t) : puz_head_t :=
  ltac:(set_field eta_head height v h).
Definition set_clue_count (v : Z) (h : puz_head_t) : puz_head_t :=
  ltac:(set_field eta_head clue_count v h).
Definition set_x_unk_30 (v : Z) (h : puz_head_t) : puz_head_t :=
  ltac:(set_field eta_head x_unk_30 v h).

(** [a[n] = v] for an array of pointers. *)
Definition store_ptr {A} (a : ptr (list (ptr A))) (n : Z) (v : ptr A)
  : option (ptr (list (ptr A))) :=
  let* l := deref a in
  if decide (0 <= n < Z.of_nat (length l)) then Some (Ptr (<[Z.to_nat n := v]> l))
  else None.

(** [puz_init (puz)].  [malloc_ok] is the result of the checked [malloc]
    of the structure. *)
Definition puz_init (malloc_ok : bool) (puz : ptr puzzle_t) : option (ptr puzzle_t) :=
  let file_magic := FILE_MAGIC in
  let magic_18 := VER_MAGIC in
  if is_null puz && negb malloc_ok then Some NULL else
  let* _ := if is_null puz then Some zero_puzzle else deref puz in
  let p := zero_puzzle in
  let h := set_magic file_magic (header p) in
  let h := set_magic_18 magic_18 h in
  let h := set_x_unk_30 1 h in
  Some (Ptr (set_header h p)).

(** [puz_width_set (puz, val)] and [puz_height_set (puz, val)]: the
    parameter is an [unsigned char], so the caller's value is truncated.
    The result is the old value, [-1] on NULL. *)
Definition puz_width_set (puz : ptr puzzle_t) (val : Z) : option (ptr puzzle_t * Z) :=
  let val := u8 val in
  if is_null puz then Some (puz, -1) else
  let* p := deref puz in
  let i := width (header p) in
  let p := set_header (set_width val (header p)) p in
  Some (Ptr p, i).

Definition puz_height_set (puz : ptr puzzle_t) (val : Z) : option (ptr puzzle_t * Z) :=
  let val := u8 val in
  if is_null puz then Some (puz, -1) else
  let* p := deref puz in
  let i := height (header p) in
  let p := set_header (set_height val (header p)) p in
  Some (Ptr p, i).

(** The string setters:
    [if (NULL == puz || NULL == val) return NULL;
     free (puz->f); puz->f = Sstrdup (val); return puz->f;]
    [val] is not the block that the field holds. *)
Definition puz_solution_set (puz : ptr puzzle_t) (val : ptr block)
  : option (ptr puzzle_t * ptr block) :=
  if is_null puz || is_null val then Some (puz, NULL) else
  let* p := deref puz in
  let* _ := free (solution p) in
  let* v := deref val in
  let* s := Sstrdup v in
  let p := set_solution (Ptr s) p in
  Some (Ptr p, solution p).

Definition puz_grid_get (puz : ptr puzzle_t) : option (ptr block) :=
  if is_null puz then Some NULL else
  let* p := deref puz in Some (grid p).

Definition puz_grid_set (puz : ptr puzzle_t) (val : ptr block)
  : option (ptr puzzle_t * ptr block) :=
  if is_null puz || is_null val then Some (puz, NULL) else
  let* p := deref puz in
  let* _ := free (grid p) in
  let* v := deref val in
  let* s := Sstrdup v in
  let p := set_grid (Ptr s) p in
  Some (Ptr p, grid p).

Definition puz_title_set (puz : ptr puzzle_t) (val : ptr block)
  : option (ptr puzzle_t * ptr block) :=
  if is_null puz || is_null val then Some (puz, NULL) else
  let* p := deref puz in
  let* _ := free (title p) in
  let* v := deref val in
  let* s := Sstrdup v in
  let p := set_title (Ptr s) p in
  Some (Ptr p, title p).

Definition puz_author_set (puz : ptr puzzle_t) (val : ptr block)
  : option (ptr puzzle_t * ptr block) :=
  if is_null puz || is_null val then Some (puz, NULL) else
  let* p := deref puz in
  let* _ := free (author p) in
  let* v := deref val in
  let* s := Sstrdup v in
  let p := set_author (Ptr s) p in
  Some (Ptr p, author p).

Definition puz_copyright_set (puz : ptr puzzle_t) (val : ptr block)
  : option (ptr puzzle_t * ptr block) :=
  if is_null puz || is_null val then Some (puz, NULL) else
  let* p := deref puz in
  let* _ := free (copyright p) in
  let* v := deref val in
  let* s := Sstrdup v in
  let p := set_copyright (Ptr s) p in
  Some (Ptr p, copyright p).

Definition puz_notes_get (puz : ptr puzzle_t) : option (ptr block) :=
  if is_null puz then Some NULL else
  let* p := deref puz in Some (notes p).

(** [puz_notes_set] also records [notes_sz = Sstrlen (val)]. *)
Definition puz_notes_set (puz : ptr puzzle_t) (val : ptr block)
  : option (ptr puzzle_t * ptr block) :=
  if is_null puz || is_null val then Some (puz, NULL) else
  let* p := deref puz in
  let* _ := free (notes p) in
  let* v := deref val in
  let* s := Sstrdup v in
  let p := set_notes (Ptr s) p in
  let* n := Sstrlen val in
  let p := set_notes_sz n p in
  Some (Ptr p, notes p).

(** [puz_clue_count_set (puz, val)]: refused unless the clue count is 0;
    the array of [val] pointers is zeroed, and the count is stored in an
    [unsigned short]. *)
Definition puz_clue_count_set (puz : ptr puzzle_t) (val : Z)
  : option (ptr puzzle_t * Z) :=
  if is_null puz then Some (puz, -1) else
  if decide (0 > val) then Some (puz, -1) else
  let* p := deref puz in
  if decide (clue_count (header p) <> 0) then Some (puz, -1) else
  let p := set_clues (Ptr (replicate (Z.to_nat val) NULL)) p in
  let p := set_header (set_clue_count (u16 val) (header p)) p in
  Some (Ptr p, 0).

(** [puz_clear_clues]: frees the first [clue_count] entries and the
    array. *)
Definition puz_clear_clues (puz : ptr puzzle_t) : option (ptr puzzle_t * Z) :=
  if is_null puz then Some (puz, -1) else
  let* p := deref puz in
  if is_null (clues p) then Some (puz, -1) else
  let* _ := for_range 0 (clue_count (header p))
              (fun i _ => let* e := load_ptr (clues p) i in free e) tt in
  let* _ := free (clues p) in
  let p := set_clues NULL p in
  let p := set_header (set_clue_count 0 (header p)) p in
  Some (Ptr p, 0).

(** [if (NULL == puz || n < 0 || n > puz->header.clue_count || NULL == val)
       return NULL;
     free (puz->clues[n]); puz->clues[n] = Sstrdup (val);
     return puz->clues[n];] *)
Definition puz_clue_set (puz : ptr puzzle_t) (n : Z) (val : ptr block)
  : option (ptr puzzle_t * ptr block) :=
  if is_null puz then Some (puz, NULL) else
  let* p := deref puz in
  if decide (n < 0 \/ n > clue_count (header p)) then Some (puz, NULL) else
  if is_null val then Some (puz, NULL) else
  let* e := load_ptr (clues p) n in
  let* _ := free e in
  let* v := deref val in
  let* s := Sstrdup v in
  let* cl := store_ptr (clues p) n (Ptr s) in
  let p := set_clues cl p in
  let* e := load_ptr (clues p) n in
  Some (Ptr p, e).

Definition puz_rebus_get (puz : ptr puzzle_t) : option (ptr block) :=
  if is_null puz then Some NULL else
  let* p := deref puz in Some (grbs p).

(** [puz_rebus_set (puz, val)]: a block of [width * height + 1] bytes
    with the first [width * height] bytes of [val] and a terminator. *)
Definition puz_rebus_set (puz : ptr puzzle_t) (val : ptr block)
  : option (ptr puzzle_t * ptr block) :=
  if is_null puz || is_null val then Some (puz, NULL) else
  let* p := deref puz in
  let* _ := free (grbs p) in
  let* w := puz_width_get puz in
  let* h := puz_height_get puz in
  let size := w * h in
  let g := replicate (Z.to_nat (size + 1)) 0 in
  let* v := deref val in
  let* bs := read_bytes v 0 size in
  let* g := store_bytes g 0 bs in
  let* g := store g size 0 in
  let p := set_grbs (Ptr g) p in
  Some (Ptr p, grbs p).

(** [if (NULL == puz || n < 0 || n > puz->header.clue_count || NULL == val)
       return NULL;
     free (puz->rtbl[n]); puz->rtbl[n] = Sstrdup (val);
     return puz->rtbl[n];] *)
Definition puz_rtbl_set (puz : ptr puzzle_t) (n : Z) (val : ptr block)
  : option (ptr puzzle_t * ptr block) :=
  if is_null puz then Some (puz, NULL) else
  let* p := deref puz in
  if decide (n < 0 \/ n > clue_count (header p)) then Some (puz, NULL) else
  if is_null val then Some (puz, NULL) else
  let* e := load_ptr (rtbl p) n in
  let* _ := free e in
  let* v := deref val in
  let* s := Sstrdup v in
  let* t := store_ptr (rtbl p) n (Ptr s) in
  let p := set_rtbl t p in
  let* e := load_ptr (rtbl p) n in
  Some (Ptr p, e).

Definition puz_extras_get (puz : ptr puzzle_t) : option (ptr block) :=
  if is_null puz then Some NULL else
  let* p := deref puz in Some (gext p).

Definition puz_extras_set (puz : ptr puzzle_t) (val : ptr block)
  : option (ptr puzzle_t * ptr block) :=
  if is_null puz || is_null val then Some (puz, NULL) else
  let* p := deref puz in
  let* _ := free (gext p) in
  let* w := puz_width_get puz in
  let* h := puz_height_get puz in
  let size := w * h in
  let g := replicate (Z.to_nat (size + 1)) 0 in
  let* v := deref val in
  let* bs := read_bytes v 0 size in
  let* g := store_bytes g 0 bs in
  let* g := store g size 0 in
  let p := set_gext (Ptr g) p in
  Some (Ptr p, gext p).

Definition puz_rusr_get (puz : ptr puzzle_t) : option (ptr (list (ptr block))) :=
  if is_null puz then Some NULL else
  let* p := deref puz in Some (rusr p).

(** [puz_clear_rusr]: frees the first [width * height] cells and the
    array. *)
Definition puz_clear_rusr (puz : ptr puzzle_t) : option (ptr puzzle_t * Z) :=
  if is_null puz then Some (puz, -1) else
  let* p := deref puz in
  if is_null (rusr p) then Some (puz, -1) else
  let* w := puz_width_get puz in
  let* h := puz_height_get puz in
  let bd_sz := w * h in
  let* _ := for_range 0 bd_sz
              (fun i _ => let* e := load_ptr (rusr p) i in free e) tt in
  let* _ := free (rusr p) in
  let p := set_rusr NULL p in
  let p := set_rusr_sz 0 p in
  let p := set_rusr_cksum 0 p in
  let p := set_calc_rusr_cksum 0 p in
  Some (Ptr p, 0).

(** [puz_rusr_set (puz, val)]: a copy of the [width * height] cells of
    [val], every string cut at [MAX_REBUS_SIZE] bytes; [rusr_sz] is the
    number of cells plus the lengths of the copies.  [malloc_ok] is the
    result of the checked [malloc] of the array. *)
Definition puz_rusr_set (malloc_ok : bool) (puz : ptr puzzle_t)
    (val : ptr (list (ptr block)))
  : option (ptr puzzle_t * ptr (list (ptr block))) :=
  if is_null puz || is_null val then Some (puz, NULL) else
  let* p := deref puz in
  let* (puz, _) := if negb (is_null (rusr p)) then puz_clear_rusr puz
                   else Some (puz, 0) in
  let* w := puz_width_get puz in
  let* h := puz_height_get puz in
  let puz_sz := w * h in
  if negb malloc_ok then Some (puz, NULL) else
  let tbl := Ptr (replicate (Z.to_nat puz_sz) Dangling) in
  let total := puz_sz in
  let* (tbl, total) :=
    for_range 0 puz_sz
      (fun i '(tbl, total) =>
         let* e := load_ptr val i in
         if is_null e then
           let* tbl := store_ptr tbl i NULL in
           Some (tbl, total)
         else
           let* s := deref e in
           let* c := Sstrndup s MAX_REBUS_SIZE in
           let* tbl := store_ptr tbl i (Ptr c) in
           let* e := load_ptr tbl i in
           let* n := Sstrlen e in
           Some (tbl, total + n))
      (tbl, total) in
  let* p := deref puz in
  let p := set_rusr tbl p in
  let p := set_rusr_sz total p in
  Some (Ptr p, rusr p).

End PuzzleSet.
Export PuzzleSet.

(** ** cksum.c: checking and committing the checksums *)

Module CksumCheck.

(** [if (a != b) retval++;] *)
Definition count_diff (a b : Z) (retval : Z) : Z :=
  if decide (a <> b) then retval + 1 else retval.

(** [for (i = 0; i < 4; i++) if (got[i] != calc[i]) retval++;] *)
Definition count_magic (got calc : list Z) (retval : Z) : option Z :=
  for_range 0 4
    (fun i retval =>
       let* a := load got i in
       let* b := load calc i in
       Some (count_diff a b retval))
    retval.

(** [puz_cksums_check]: recalculates, then counts the stored values that
    differ from the calculated ones. *)
Definition puz_cksums_check (puz : ptr puzzle_t) : option (ptr puzzle_t * Z) :=
  let retval := 0 in
  let* (puz, _) := puz_cksums_calc puz in
  let* p := deref puz in
  let* c0 := load (calc_cksums p) 0 in
  let retval := count_diff (cksum_cib (header p)) c0 retval in
  let retval := count_diff (cksum_puz (header p)) (calc_cksum_puzcib p) retval in
  let* retval := count_magic (magic_10 (header p)) (calc_magic10 p) retval in
  let* retval := count_magic (magic_14 (header p)) (calc_magic14 p) retval in
  let* r := puz_has_rebus puz in
  let retval :=
    if r then
      let retval := count_diff (grbs_cksum p) (calc_grbs_cksum p) retval in
      count_diff (rtbl_cksum p) (calc_rtbl_cksum p) retval
    else retval in
  let* r := puz_has_timer puz in
  let retval :=
    if r then count_diff (ltim_cksum p) (calc_ltim_cksum p) retval else retval in
  let* r := puz_has_extras puz in
  let retval :=
    if r then count_diff (gext_cksum p) (calc_gext_cksum p) retval else retval in
  let* r := puz_has_rusr puz in
  let retval :=
    if r then count_diff (rusr_cksum p) (calc_rusr_cksum p) retval else retval in
  Some (puz, retval).

(** [memcpy (dst, src, 4)] between two arrays of the structure. *)
Definition copy_magic (dst src : list Z) : option (list Z) :=
  let* bs := read_bytes src 0 4 in
  store_bytes dst 0 bs.

(** [puz_cksums_commit]: recalculates, then copies the calculated values
    over the stored ones; always returns 0. *)
Definition puz_cksums_commit (puz : ptr puzzle_t) : option (ptr puzzle_t * Z) :=
  let* (puz, _) := puz_cksums_calc puz in
  let* p := deref puz in
  let h := header p in
  let h := set_cksum_puz (calc_cksum_puzcib p) h in
  let* c0 := load (calc_cksums p) 0 in
  let h := set_cksum_cib c0 h in
  let* m := copy_magic (magic_10 h) (calc_magic10 p) in
  let h := set_magic_10 m h in
  let* m := copy_magic (magic_14 h) (calc_magic14 p) in
  let h := set_magic_14 m h in
  let p := set_header h p in
  let* r := puz_has_rebus (Ptr p) in
  let p :=
    if r then
      let p := set_grbs_cksum (calc_grbs_cksum p) p in
      set_rtbl_cksum (calc_rtbl_cksum p) p
    else p in
  let* r := puz_has_timer (Ptr p) in
  let p := if r then set_ltim_cksum (calc_ltim_cksum p) p else p in
  let* r := puz_has_extras (Ptr p) in
  let p := if r then set_gext_cksum (calc_gext_cksum p) p else p in
  let* r := puz_has_rusr (Ptr p) in
  let p := if r then set_rusr_cksum (calc_rusr_cksum p) p else p in
  Some (Ptr p, 0).

End CksumCheck.
Export CksumCheck.

(** ** load.c: the text loader and [puz_load]

    A pointer into the input buffer is the buffer's block and an offset.
    Only accesses are checked against the block; the messages that the
    loader prints are left out. *)

Module LoadText.

Definition PUZ_FILE_BINARY : Z := 1.
Definition PUZ_FILE_TEXT : Z := 2.
Definition PUZ_FILE_UNKNOWN : Z := 4.

Definition TEXT_SUBMAGIC : Z := 60.
Definition TEXT_FILE_MAGIC : list Z :=
  [60; 65; 67; 82; 79; 83; 83; 32; 80; 85; 90; 90; 76; 69; 62; 0].
Definition TEXT_FILE_TITLE_MAGIC : list Z := [60; 84; 73; 84; 76; 69; 62; 0].
Definition TEXT_FILE_AUTHOR_MAGIC : list Z := [60; 65; 85; 84; 72; 79; 82; 62; 0].
Definition TEXT_FILE_COPYRIGHT_MAGIC : list Z :=
  [60; 67; 79; 80; 89; 82; 73; 71; 72; 84; 62; 0].
Definition TEXT_FILE_SIZE_MAGIC : list Z := [60; 83; 73; 90; 69; 62; 0].
Definition TEXT_FILE_GRID_MAGIC : list Z := [60; 71; 82; 73; 68; 62; 0].
Definition TEXT_FILE_CLUE0_MAGIC : list Z := [60; 65; 67; 82; 79; 83; 83; 62; 0].
Definition TEXT_FILE_CLUE1_MAGIC : list Z := [60; 68; 79; 87; 78; 62; 0].

(** [isspace] in the "C" locale, the locale of a program that does not
    call [setlocale]: space, and [\t \n \v \f \r]. *)
Definition isspace (c : Z) : bool := bool_decide (c = 32 \/ 9 <= c <= 13).

(** [strnchr (buf, n, c)]: the offset from [buf] of the pointer that is
    returned, [n] when the loop finds nothing. *)
Fixpoint strnchr_from (k : nat) (buf : block) (i : Z) (n : Z) (c : Z) : option Z :=
  match k with
  | O => Some n
  | S k' =>
      let* x := load buf i in
      if decide (x = c) then Some i else strnchr_from k' buf (i + 1) n c
  end.

Definition strnchr (buf : block) (n : Z) (c : Z) : option Z :=
  strnchr_from (Z.to_nat n) buf 0 n c.

(** [while (isspace ( *b) && *b != '\r' && *b != '\n') b++;]: the number
    of bytes skipped. *)
Fixpoint skip_blanks (s : block) : option Z :=
  match s with
  | [] => None
  | c :: s' =>
      if isspace c && bool_decide (c <> 13) && bool_decide (c <> 10)
      then let* k := skip_blanks s' in Some (k + 1)
      else Some 0
  end.

(** [while (d > b && isspace ( *d)) d--;] with [d] an offset from [b]. *)
Fixpoint trim_from (w : block) (d : nat) : option Z :=
  match d with
  | O => Some 0
  | S d' =>
      let* c := load w (Z.of_nat (S d')) in
      if isspace c then trim_from w d' else Some (Z.of_nat (S d'))
  end.

Definition trim (w : block) (d : Z) : option Z :=
  if decide (d > 0) then trim_from w (Z.to_nat d) else Some d.

(** [get_one_line (&buf, &n)] on the buffer [base]: the fresh line, and
    the new values of [buf] and [n].  [strnchr] never returns NULL, so of
    the three branches on [c == NULL] and [d == NULL] only the last is
    taken. *)
Definition get_one_line (base : block) (buf : Z) (n : Z) : option (block * Z * Z) :=
  let extra := 0 in
  let* s := offset base buf in
  let* k := skip_blanks s in
  let b := buf + k in
  let* w := offset base b in
  let* c := strnchr w n 13 in
  let* d := strnchr w n 10 in
  let '(e, extra) :=
    if decide (d = c + 1) then (c, 1)
    else if decide (c = d + 1) then (c, 1)
    else if decide (d = c) then (d, -1)
    else (if decide (d > c) then d else c, extra) in
  let* d := trim w e in
  let* bs := read_bytes w 0 (d + 1) in
  let c := replicate (Z.to_nat (d + 1 + 1)) 88 in
  let* c := store_bytes c 0 bs in
  let* c := store c (d + 1) 0 in
  let n := n - (b + e + 1 + extra - buf) in
  let buf := b + e + 1 + extra in
  Some (c, buf, n).

(** [delim_memcmp (input, buf)]: 0 when the two strings agree up to the
    end of the shorter one, else [-1]. *)
Fixpoint delim_memcmp (input buf : block) : option Z :=
  match input with
  | [] => None
  | a :: input' =>
      if decide (a = 0) then Some 0 else
      match buf with
      | [] => None
      | b :: buf' =>
          if decide (b = 0) then Some 0
          else if decide (a <> b) then Some (-1)
          else delim_memcmp input' buf'
      end
  end.

(** [struct line_list]: the list ends with a node whose [line] is NULL. *)
#[warnings="-register-all"]
Inductive line_list : Type :=
  mk_line_list { line : ptr block; next : ptr line_list }.

(** [line_append (list, line)]: the line goes into the last node, and a
    zeroed node is linked after it.  The C function returns NULL. *)
Fixpoint line_append (list : line_list) (l : ptr block) : option line_list :=
  match list with
  | mk_line_list l0 nx =>
      match nx with
      | NULL => Some (mk_line_list l (Ptr (mk_line_list NULL NULL)))
      | Ptr cur => let* cur := line_append cur l in Some (mk_line_list l0 (Ptr cur))
      | Dangling => None
      end
  end.

(** [for (cur = list; cur != NULL && cur->line != NULL; cur = cur->next)
       i += Sstrlen (cur->line);] *)
Fixpoint line_length_from (cur : line_list) (i : Z) : option Z :=
  match cur with
  | mk_line_list l nx =>
      if is_null l then Some i else
      let* n := Sstrlen l in
      let i := i + n in
      match nx with
      | NULL => Some i
      | Ptr cur => line_length_from cur i
      | Dangling => None
      end
  end.

Definition line_length (list : line_list) : option Z := line_length_from list 0.

(** The copying loop of [line_concat]. *)
Fixpoint line_concat_from (cur : line_list) (retval : block) (i : Z) : option block :=
  match cur with
  | mk_line_list l nx =>
      if is_null l then Some retval else
      let* s := deref l in
      let* n := Sstrlen l in
      let* bs := read_bytes s 0 n in
      let* retval := store_bytes retval i bs in
      let* n := Sstrlen l in
      let i := i + n in
      match nx with
      | NULL => Some retval
      | Ptr cur => line_concat_from cur retval i
      | Dangling => None
      end
  end.

(** [line_concat (list)]:
    [len = line_length (list); retval = malloc (len); ...;
     retval[len] = 0; return retval;] *)
Definition line_concat (list : line_list) : option (ptr block) :=
  let* len := line_length list in
  let retval := replicate (Z.to_nat len) 0 in
  let* retval := line_concat_from list retval 0 in
  let* retval := store retval len 0 in
  Some (Ptr retval).

(** [for (i = 0, cur = root; cur->line != NULL; cur = cur->next) i++;] *)
Fixpoint line_count_from (cur : line_list) (i : Z) : option Z :=
  match cur with
  | mk_line_list l nx =>
      if is_null l then Some i else
      match nx with
      | Ptr cur => line_count_from cur (i + 1)
      | _ => None
      end
  end.

Definition line_count (root : line_list) : option Z := line_count_from root 0.

(** The loop of [line_clear] over the nodes after the root. *)
Fixpoint line_clear_from (cur : line_list) : option unit :=
  match cur with
  | mk_line_list l nx =>
      let* _ := free l in
      match nx with
      | NULL => Some tt
      | Ptr cur => line_clear_from cur
      | Dangling => None
      end
  end.

(** [line_clear (root)]: the root is kept, with both fields NULL. *)
Definition line_clear (root : line_list) : option line_list :=
  let* _ := free (line root) in
  match next root with
  | NULL => Some (mk_line_list NULL NULL)
  | Ptr cur => let* _ := line_clear_from cur in Some (mk_line_list NULL NULL)
  | Dangling => None
  end.

(** The loop of [mkgrid]: [for (i = 0; i < Sstrlen (grid); i++)
    if (grid[i] != '.') grid[i] = '-';].  The length is taken again at
    every turn; the loop makes at most as many turns as the block has
    bytes. *)
Fixpoint mkgrid_from (fuel : nat) (grid : block) (i : Z) : option block :=
  match fuel with
  | O => None
  | S fuel' =>
      let* n := strlen grid in
      if decide (i < n) then
        let* c := load grid i in
        let* grid := if decide (c <> 46) then store grid i 45 else Some grid in
        mkgrid_from fuel' grid (i + 1)
      else Some grid
  end.

Definition mkgrid (soln : ptr block) : option (ptr block) :=
  let* s := deref soln in
  let* grid := Sstrdup s in
  let* grid := mkgrid_from (S (length grid)) grid 0 in
  Some (Ptr grid).

(** [Sstrchr (s, c)]: the offset of the first [c] in the string, or NULL
    (the inner [None]). *)
Fixpoint Sstrchr (s : block) (c : Z) : option (option Z) :=
  match s with
  | [] => None
  | x :: s' =>
      if decide (x = c) then Some (Some 0)
      else if decide (x = 0) then Some None
      else let* r := Sstrchr s' c in Some (fmap (fun i => i + 1) r)
  end.

(** [Satoi]: white space, an optional sign, decimal digits.  A value
    that does not fit an [int] is undefined. *)
Fixpoint skip_spaces (s : block) : option block :=
  match s with
  | [] => None
  | c :: s' => if isspace c then skip_spaces s' else Some s
  end.

Fixpoint atoi_digits (s : block) (acc : Z) : option Z :=
  match s with
  | [] => None
  | c :: s' =>
      if decide (48 <= c <= 57) then atoi_digits s' (acc * 10 + (c - 48))
      else Some acc
  end.

Definition Satoi (s : block) : option Z :=
  let* s := skip_spaces s in
  let* v :=
    match s with
    | 45 :: s' => let* v := atoi_digits s' 0 in Some (- v)
    | 43 :: s' => atoi_digits s' 0
    | _ => atoi_digits s 0
    end in
  if decide (- 2 ^ 31 <= v < 2 ^ 31) then Some v else None.

(** [unsigned char magics[9][17]]: every row is padded with NULs. *)
Definition magic_row (m : list Z) : list Z := m ++ replicate (17 - length m) 0.

Definition magics : list (list Z) :=
  map magic_row
    [ [];
      TEXT_FILE_MAGIC;
      TEXT_FILE_TITLE_MAGIC;
      TEXT_FILE_AUTHOR_MAGIC;
      TEXT_FILE_COPYRIGHT_MAGIC;
      TEXT_FILE_SIZE_MAGIC;
      TEXT_FILE_GRID_MAGIC;
      TEXT_FILE_CLUE0_MAGIC;
      TEXT_FILE_CLUE1_MAGIC ].

(** [magics[i]]: a row of the table. *)
Definition load_row (t : list (list Z)) (i : Z) : option (list Z) :=
  if decide (0 <= i) then t !! Z.to_nat i else None.

Definition STATE_INIT : Z := 0.
Definition STATE_FILE : Z := 1.
Definition STATE_TITLE : Z := 2.
Definition STATE_AUTHOR : Z := 3.
Definition STATE_COPYRIGHT : Z := 4.
Definition STATE_SIZE : Z := 5.
Definition STATE_GRID : Z := 6.
Definition STATE_CLUE0 : Z := 7.
Definition STATE_CLUE1 : Z := 8.
Definition STATE_FINAL : Z := 9.

(** The [STATE_SIZE] case: the concatenated lines are cut at the first
    ['x'], and the two halves are read as numbers. *)
Definition text_size (puz : ptr puzzle_t) (linelist : line_list) : option (ptr puzzle_t) :=
  let* buf := line_concat linelist in
  let* s := deref buf in
  let a := 0 in
  let* b := Sstrchr s 120 in
  let* b := b in
  let c := b + 1 in
  let* s := store s b 0 in
  let* sa := offset s a in
  let* w := Satoi sa in
  let* sc := offset s c in
  let* h := Satoi sc in
  let* s := store s b 120 in
  let* (puz, _) := puz_width_set puz w in
  let* (puz, _) := puz_height_set puz h in
  Some puz.

(** The [STATE_GRID] case. *)
Definition text_grid (puz : ptr puzzle_t) (linelist : line_list) : option (ptr puzzle_t) :=
  let* soln := line_concat linelist in
  let* grid := mkgrid soln in
  let* (puz, _) := puz_solution_set puz soln in
  let* (puz, _) := puz_grid_set puz grid in
  Some puz.

(** [for (j = 0, cur = &linelist; j < n_clues && cur != NULL;
          j++, cur = cur->next) puz_clue_set (puz, j, cur->line);] *)
Fixpoint text_clues_from (cur : line_list) (j n_clues : Z) (puz : ptr puzzle_t)
  : option (ptr puzzle_t) :=
  match cur with
  | mk_line_list l nx =>
      if decide (j < n_clues) then
        let* (puz, _) := puz_clue_set puz j l in
        match nx with
        | NULL => Some puz
        | Ptr cur => text_clues_from cur (j + 1) n_clues puz
        | Dangling => if decide (j + 1 < n_clues) then None else Some puz
        end
      else Some puz
  end.

(** The [STATE_CLUE0] and [STATE_CLUE1] cases. *)
Definition text_clues (puz : ptr puzzle_t) (linelist : line_list) : option (ptr puzzle_t) :=
  let* n_clues := line_count linelist in
  let* (puz, _) := puz_clear_clues puz in
  let* (puz, _) := puz_clue_count_set puz n_clues in
  text_clues_from linelist 0 n_clues puz.

(** The result of one turn of the state machine: the loop goes on, or the
    function returns. *)
Inductive turn (A : Type) : Type :=
| Next (a : A)
| Done (r : ptr puzzle_t).
Arguments Next {A} a.
Arguments Done {A} r.

(** The [switch] on leaving a state, with the clearing of the list. *)
Definition text_leave (state : Z) (puz : ptr puzzle_t) (linelist : line_list)
  : option (turn (ptr puzzle_t * line_list)) :=
  let do_clear := true in
  let* _ := line_concat linelist in
  let* r :=
    if decide (state = STATE_INIT) then Some (Next (puz, do_clear))
    else if decide (state = STATE_FILE) then Some (Next (puz, do_clear))
    else if decide (state = STATE_TITLE) then
      let* v := line_concat linelist in
      let* (puz, _) := puz_title_set puz v in Some (Next (puz, do_clear))
    else if decide (state = STATE_AUTHOR) then
      let* v := line_concat linelist in
      let* (puz, _) := puz_author_set puz v in Some (Next (puz, do_clear))
    else if decide (state = STATE_COPYRIGHT) then
      let* v := line_concat linelist in
      let* (puz, _) := puz_copyright_set puz v in Some (Next (puz, do_clear))
    else if decide (state = STATE_SIZE) then
      let* puz := text_size puz linelist in Some (Next (puz, do_clear))
    else if decide (state = STATE_GRID) then
      let* puz := text_grid puz linelist in Some (Next (puz, do_clear))
    else if decide (state = STATE_CLUE0) then
      let do_clear := false in
      let* puz := text_clues puz linelist in Some (Next (puz, do_clear))
    else if decide (state = STATE_CLUE1) then
      let* puz := text_clues puz linelist in Some (Next (puz, do_clear))
    else Some (Done NULL) in
  match r with
  | Done r => Some (Done r)
  | Next (puz, do_clear) =>
      let* linelist := if do_clear then line_clear linelist else Some linelist in
      Some (Next (puz, linelist))
  end.

(** The variables of the loop of [puz_load_text]. *)
Record text_vars : Type := mk_text_vars {
  state : Z;
  cursor : Z;
  remaining : Z;
  linelist : line_list;
  text_puz : ptr puzzle_t
}.

(** One turn of [while (state != STATE_FINAL)]. *)
Definition text_turn (base : block) (v : text_vars) : option (turn text_vars) :=
  let* (l, cursor, remaining) := get_one_line base (cursor v) (remaining v) in
  let state_d := false in
  let* (linelist, state_d) :=
    if decide (remaining <= 0) then
      let* ll := line_append (linelist v) (Ptr l) in Some (ll, true)
    else Some (linelist v, state_d) in
  let* c := load l 0 in
  let* r :=
    if decide (c = TEXT_SUBMAGIC) then
      let* m := load_row magics (state v + 1) in
      let* c := delim_memcmp l m in
      if decide (0 <> c) then Some (Done NULL) else Some (Next true)
    else Some (Next state_d) in
  match r with
  | Done r => Some (Done r)
  | Next state_d =>
      if negb state_d then
        let* linelist := line_append linelist (Ptr l) in
        Some (Next (mk_text_vars (state v) cursor remaining linelist (text_puz v)))
      else
        let* r := text_leave (state v) (text_puz v) linelist in
        match r with
        | Done r => Some (Done r)
        | Next (puz, linelist) =>
            Some (Next (mk_text_vars (state v + 1) cursor remaining linelist puz))
        end
  end.

(** The loop.  A turn that stays in its state consumes a byte or more of
    the input, and a state is left at most nine times; [fuel] bounds the
    turns, and running out of it counts as undefined. *)
Fixpoint text_loop (fuel : nat) (base : block) (v : text_vars)
  : option (turn (ptr puzzle_t)) :=
  match fuel with
  | O => None
  | S fuel' =>
      if decide (state v <> STATE_FINAL) then
        let* r := text_turn base v in
        match r with
        | Done r => Some (Done r)
        | Next v => text_loop fuel' base v
        end
      else Some (Next (text_puz v))
  end.

(** [puz_load_text (puz, base, sz)].  [malloc_ok] is the result of the
    checked [malloc] of [puz_init]. *)
Definition puz_load_text (malloc_ok : bool) (puz : ptr puzzle_t) (base : ptr block)
    (sz : Z) : option (ptr puzzle_t) :=
  let remaining := sz in
  let state := STATE_INIT in
  let* b := deref base in
  let* c := load b 0 in
  if decide (c <> TEXT_SUBMAGIC) then Some NULL else
  let* puz := puz_init malloc_ok puz in
  let linelist := mk_line_list NULL NULL in
  let cursor := 0 in
  let* r := text_loop (Z.to_nat sz + 10) b
              (mk_text_vars state cursor remaining linelist puz) in
  match r with
  | Done r => Some r
  | Next puz =>
      let* (puz, _) := puz_cksums_calc puz in
      let* (puz, _) := puz_cksums_commit puz in
      Some puz
  end.

(** [puz_load (puz, type, base, sz)] *)
Definition puz_load (malloc_ok : bool) (puz : ptr puzzle_t) (type : Z)
    (base : ptr block) (sz : Z) : option (ptr puzzle_t) :=
  let* b := deref base in
  let* c := load b 0 in
  let* typeguess :=
    if decide (c <> TEXT_SUBMAGIC) then Some PUZ_FILE_BINARY
    else
      let* c := load b 13 in
      if decide (c = 0) then Some PUZ_FILE_BINARY else Some PUZ_FILE_TEXT in
  if decide (type <> PUZ_FILE_UNKNOWN /\ type <> typeguess) then Some NULL else
  if decide (typeguess = PUZ_FILE_BINARY) then puz_load_bin puz base sz
  else if decide (typeguess = PUZ_FILE_TEXT) then puz_load_text malloc_ok puz base sz
  else Some puz.

End LoadText.

(** ** The specification's wording, for comparison with the code *)

Module Spec.

(** The checksum step in the specification's words: rotate the 16-bit
    accumulator right by one bit (OR in [0x8000] when the low bit was set),
    then add the byte modulo [2^16]. *)
Definition spec_rotate_add (acc b : Z) : Z :=
  (Z.lor (Z.shiftr acc 1) (if Z.testbit acc 0 then 32768 else 0) + b) mod 2 ^ 16.

(** The rotate-and-sum checksum of a byte string in the specification's
    words. *)
Definition spec_cksum_region (bs : list Z) (iv : Z) : Z :=
  fold_left spec_rotate_add bs iv.

(** A string with its NUL, only if non-empty. *)
Definition with_nul (s : list Z) : list Z :=
  match s with
  | [] => []
  | _ => s ++ [0]
  end.

(** The pieces of the secondary checksum: title, author and copyright with
    their NULs when non-empty, each clue without its NUL, the notes with
    their NUL when non-empty. *)
Definition secondary_pieces (t a c : list Z) (cl : list (list Z)) (n : list Z) : list Z :=
  with_nul t ++ with_nul a ++ with_nul c ++ concat cl ++ with_nul n.

(** A 16-bit value in little-endian order. *)
Definition le16_bytes (x : Z) : list Z := [x mod 256; x / 256].

(** The 8-byte CIB: width, height, clue count, [x_unk_30], scrambled tag. *)
Definition cib_block (h : puz_head_t) : list Z :=
  [width h; height h] ++ le16_bytes (clue_count h) ++ le16_bytes (x_unk_30 h)
  ++ le16_bytes (scrambled_tag h).

(** The magic bytes: low bytes of the sums masked with ICHE, high bytes
    masked with ATED. *)
Definition spec_magic_10 (sums : list Z) : list Z :=
  zip_with (fun s m => Z.lxor (Z.land s 255) m) sums (bytes_of "ICHE").

Definition spec_magic_14 (sums : list Z) : list Z :=
  zip_with (fun s m => Z.lxor (Z.shiftr s 8) m) sums (bytes_of "ATED").

(** The first [n] bytes behind a pointer; nothing is read when [n <= 0]. *)
Definition board_bytes (b : ptr block) (n : Z) : option (list Z) :=
  if decide (n <= 0) then Some []
  else let* blk := deref b in read_bytes blk 0 n.

(** The fields of the header hold values of their C types. *)
Definition head_in_range (h : puz_head_t) : Prop :=
  0 <= width h < 256 /\ 0 <= height h < 256 /\ 0 <= clue_count h < 65536 /\
  0 <= x_unk_30 h < 65536 /\ 0 <= scrambled_tag h < 65536.

(** The cells of the user-rebus board: a NULL cell counts as the empty
    string. *)
Definition rusr_cells (a : ptr (list (ptr block))) (n : Z) (cells : list (list Z)) : Prop :=
  length cells = Z.to_nat n /\
  forall (i : nat) s, cells !! i = Some s ->
    exists e, load_ptr a (Z.of_nat i) = Some e /\
              (if is_null e then Some [] else cstring e) = Some s.

(** The RUSR payload: every cell's string followed by a NUL. *)
Definition rusr_payload (cells : list (list Z)) : list Z :=
  concat (map (fun s => s ++ [0]) cells).

(** Where the character at index [i] of a string of length [L] goes:
    [L/2 + i/2] for even [i], [i/2] for odd [i]. *)
Definition scramble_index (L i : Z) : Z :=
  if decide (i mod 2 = 0) then L / 2 + i / 2 else i / 2.

(** The scramble step in the specification's words: [t'] with
    [t'[L/2 + i/2] = t[i]] for even [i] and [t'[i/2] = t[i]] for odd [i]. *)
Definition spec_scramble (t : list Z) : list Z :=
  let L := Z.of_nat (length t) in
  fold_left
    (fun t' i => <[Z.to_nat (scramble_index L i) := nth (Z.to_nat i) t 0]> t')
    (seqZ 0 L) t.

(** The scrambled string of the source's comment on [unscramble_string]:
    [s[len/2], s[0], s[1 + len/2], s[1], s[2 + len/2], s[2], ...], that is
    [t'[i] = t[L/2 + i/2]] for even [i] and [t'[i] = t[i/2]] for odd [i]. *)
Definition scramble_string (s : list Z) : list Z :=
  let L := Z.of_nat (length s) in
  map (fun i => nth (Z.to_nat (scramble_index L i)) s 0) (seqZ 0 L).

(** A shift by [k]: the prefix of length [k] moves to the end. *)
Definition spec_shift (k : Z) (s : list Z) : list Z :=
  drop (Z.to_nat k) s ++ take (Z.to_nat k) s.

(** The letters A..Z. *)
Definition upper (c : Z) : Prop := 65 <= c <= 90.

(** The canonical solution of a [W] x [H] row-major board: the cells in
    column-major order (outer loop over the columns [x], inner loop over the
    rows [y], cell [y*W + x]), black squares skipped. *)
Definition canonical_cells (W H : Z) : list Z :=
  concat (map (fun x => map (fun y => y * W + x) (seqZ 0 H)) (seqZ 0 W)).

Definition canonical_solution (W H : Z) (sol : list Z) : list Z :=
  filter (fun c => c <> 46)
    (omap (fun k => sol !! Z.to_nat k) (canonical_cells W H)).

(** Writing a canonical string back into the non-black cells, in the same
    order. *)
Fixpoint write_cells (cells : list Z) (sol formatted : list Z) : list Z :=
  match cells with
  | [] => sol
  | k :: cells' =>
      match sol !! Z.to_nat k, formatted with
      | Some c, v :: formatted' =>
          if decide (c <> 46) then write_cells cells' (<[Z.to_nat k := v]> sol) formatted'
          else write_cells cells' sol formatted
      | _, _ => write_cells cells' sol formatted
      end
  end.

Definition canonical_unformat (W H : Z) (sol formatted : list Z) : list Z :=
  write_cells (canonical_cells W H) sol formatted.

(** The decoding of [puz_unlock_solution], on strings.  The characters at
    the even and at the odd positions: *)
Fixpoint evens (s : list Z) : list Z :=
  match s with
  | [] => []
  | c :: s' => c :: odds s'
  end
with odds (s : list Z) : list Z :=
  match s with
  | [] => []
  | _ :: s' => evens s'
  end.

(** The unscramble step, [t[L/2 + i/2] = s[i]] for even [i] and
    [t[i/2] = s[i]] for odd [i]: the characters at the odd positions, then
    those at the even positions. *)
Definition unscrambled (s : list Z) : list Z := odds s ++ evens s.

(** The unshift by [d]: the last [d] characters move to the front. *)
Definition unshifted (d : Z) (s : list Z) : list Z :=
  let m := (length s - Z.to_nat d)%nat in
  drop m s ++ take m s.

(** The subtraction of a digit in an [unsigned char]; a result below ['A']
    is raised by 26. *)
Definition minus_digit (c d : Z) : Z :=
  let c' := u8 (c - d) in
  if decide (c' < 65) then u8 (c' + 26) else c'.

(** [digits[j % 4]] is subtracted from the character at position [j]. *)
Definition minus_digits (digits s : list Z) : list Z :=
  imap (fun j c => minus_digit c (nth (j mod 4)%nat digits 0)) s.

(** Round [i]: unscramble, unshift by [digits[i]], subtract the digits. *)
Definition decode_round (digits : list Z) (s : list Z) (i : nat) : list Z :=
  minus_digits digits (unshifted (nth i digits 0) (unscrambled s)).

(** The candidate solution: the rounds 3, 2, 1 and 0. *)
Definition unlock_candidate (digits s : list Z) : list Z :=
  fold_left (decode_round digits) [3; 2; 1; 0]%nat s.

(** The bytes the checksum is taken over: the candidate without its black
    squares, copied over the unscrambled string that the last round left
    in [workspace2].  It is the candidate when that has no black square. *)
Definition unlock_checked (digits s : list Z) : list Z :=
  let kept := filter (fun c => c <> 46) (unlock_candidate digits s) in
  kept ++ drop (length kept)
            (unscrambled (fold_left (decode_round digits) [3; 2; 1]%nat s)).

(** The lock state of the data model: tag 4 with a non-zero checksum, or
    both zero. *)
Definition lock_state_ok (p : puzzle_t) : Prop :=
  (scrambled_tag (header p) = 4 /\ scrambled_cksum (header p) <> 0) \/
  (scrambled_tag (header p) = 0 /\ scrambled_cksum (header p) = 0).

(** An unlock attempt that returns, with a non-zero result. *)
Definition unlock_fails (alloc : Z -> bool * bool) (p : puzzle_t) (c : Z) : Prop :=
  exists q r,
    puz_unlock_solution (Ptr p) c (fst (alloc c)) (snd (alloc c)) = Some (q, r) /\
    r <> 0.

(** The same as a test, for concrete puzzles. *)
Definition unlock_fails_b (alloc : Z -> bool * bool) (p : puzzle_t) (c : Z) : bool :=
  match puz_unlock_solution (Ptr p) c (fst (alloc c)) (snd (alloc c)) with
  | Some (_, r) => negb (r =? 0)
  | None => false
  end.

(** Every allocation succeeds. *)
Definition alloc_ok (c : Z) : bool * bool := (true, true).

(** The first [n] entries of an array of pointers hold the strings [ss]. *)
Definition strings_at (a : ptr (list (ptr block))) (n : Z) (ss : list (list Z)) : Prop :=
  length ss = Z.to_nat n /\
  forall (i : nat) s, ss !! i = Some s ->
    exists e, load_ptr a (Z.of_nat i) = Some e /\ cstring e = Some s.

(** The sum over the strings of (length + 1). *)
Definition sum_len1 (ss : list (list Z)) : Z :=
  fold_right (fun s acc => (Z.of_nat (length s) + 1) + acc) 0 ss.

(** The RTBL payload: every entry followed by a semicolon. *)
Definition rtbl_payload (rt : list (list Z)) : list Z :=
  concat (map (fun s => s ++ [59]) rt).

(** The framing of an optional section: 4 bytes of tag, 2 of length, 2 of
    checksum, the payload, and a trailing NUL. *)
Definition section_size (payload_len : Z) : Z := 4 + 2 + 2 + payload_len + 1.

(** The optional sections that are present are well formed: the rebus
    grid and the extras cover the board, the tables hold strings, and
    [rusr_sz] is the size of the RUSR payload. *)
Definition sections_ok (p : puzzle_t) : Prop :=
  let A := width (header p) * height (header p) in
  (is_null (grbs p) = false ->
   (exists g, board_bytes (grbs p) A = Some g) /\
   (exists rt, strings_at (rtbl p) (rtbl_sz p) rt)) /\
  (is_null (ltim p) = false -> exists lt, cstring (ltim p) = Some lt) /\
  (is_null (gext p) = false -> exists g, board_bytes (gext p) A = Some g) /\
  (is_null (rusr p) = false ->
   exists cells, rusr_cells (rusr p) A cells /\
                 rusr_sz p = Z.of_nat (length (rusr_payload cells))).

(** Two puzzles that differ at most in the calculated checksums of the
    optional sections. *)
Definition same_but_section_cksums (q p : puzzle_t) : Prop :=
  header q = header p /\ calc_cksum_puzcib q = calc_cksum_puzcib p /\
  calc_cksums q = calc_cksums p /\ calc_magic10 q = calc_magic10 p /\
  calc_magic14 q = calc_magic14 p /\
  grbs q = grbs p /\ rtbl q = rtbl p /\ rtbl_sz q = rtbl_sz p /\
  ltim q = ltim p /\ gext q = gext p /\ rusr q = rusr p /\ rusr_sz q = rusr_sz p.

End Spec.
Export Spec.

(** ** Sample puzzles *)

Module Examples.

Definition sample_head (w h cc tag ck : Z) : puz_head_t :=
  mk_head 0 FILE_MAGIC 0 [0; 0; 0; 0] [0; 0; 0; 0] VER_MAGIC 0 ck
    0 0 0 0 0 0 w h cc 1 tag.

(** A puzzle with a board and nothing else set. *)
Definition board_puzzle (w h tag ck : Z) (sol : string) : puzzle_t :=
  set_solution (Ptr (cstr sol)) (set_header (sample_head w h 0 tag ck) zero_puzzle).

(** The 5x5 board whose canonical solution is [PIZZALOVERTESTSABCDE] (the
    last row is black), and the same board locked with the code 2718; the
    stored checksum 29910 is that of the canonical solution. *)
Definition pizza_clear : puzzle_t :=
  board_puzzle 5 5 0 0 "PAESBILRTCZOTSDZVEAE.....".

Definition pizza_locked : puzzle_t :=
  board_puzzle 5 5 4 29910 "EQSWXXMPLDKOZUEKFZRZ.....".

(** A locked 1x1 board: its canonical solution is shorter than a shift by
    2 or more. *)
Definition tiny_locked : puzzle_t := board_puzzle 1 1 4 65 "A".

(** A 3x2 board, wider than tall. *)
Definition wide_puzzle : puzzle_t := board_puzzle 3 2 0 0 "ABCDEF".

(** A 2x1 puzzle with metadata, two clues, notes and every optional
    section. *)
Definition sample_full : puzzle_t :=
  mk_puzzle 0 (sample_head 2 1 2 0 0) 0 [0; 0; 0; 0] [0; 0; 0; 0] [0; 0; 0; 0]
    (replicate 8 0) NULL
    (Ptr (cstr "AB")) (Ptr (cstr "--"))
    (Ptr (cstr "T")) (Ptr (cstr "")) (Ptr (cstr "me"))
    (Ptr [Ptr (cstr "a1"); Ptr (cstr "d1")]) (Ptr (cstr "n")) 1
    0 0 (Ptr [1; 0]) 1 0 0 (Ptr [Ptr (cstr " 0:AB")])
    0 0 (Ptr (cstr "12,0"))
    0 0 (Ptr [128; 0])
    0 0 (Ptr [NULL; Ptr (cstr "XY")]) 4.

(** A binary file: a 2x1 puzzle without clues, a GRBS section with a
    non-zero rebus grid, no RTBL section, then a GEXT section. *)
Definition file_header (w h cc : Z) : list Z :=
  [0; 0] ++ FILE_MAGIC ++ [0; 0] ++ [0; 0; 0; 0] ++ [0; 0; 0; 0] ++ VER_MAGIC
  ++ replicate 16 0 ++ [w; h; cc; 0; 1; 0; 0; 0].

Definition file_body : list Z :=
  bytes_of "AB" ++ bytes_of "--" ++ [0; 0; 0] ++ [0].

Definition grbs_section (cells : list Z) : list Z :=
  bytes_of "GRBS" ++ [2; 0] ++ [0; 0] ++ cells ++ [0].

Definition gext_section : list Z :=
  bytes_of "GEXT" ++ [2; 0] ++ [0; 0] ++ [128; 0] ++ [0].

Definition file_rebus_no_table : list Z :=
  file_header 2 1 0 ++ file_body ++ grbs_section [1; 0] ++ gext_section.

Definition file_rebus_empty : list Z :=
  file_header 2 1 0 ++ file_body ++ grbs_section [0; 0] ++ gext_section.

End Examples.
Export Examples.

(** ** Vocabulary of the statements about construction, validation and loading *)

Module Terms.

(** The stored checksums: those of the header, and one for each optional
    section. *)
Record stored_sums : Type := mk_stored_sums {
  s_cksum_puz : Z;
  s_cksum_cib : Z;
  s_magic_10 : list Z;
  s_magic_14 : list Z;
  s_grbs_cksum : Z;
  s_rtbl_cksum : Z;
  s_ltim_cksum : Z;
  s_gext_cksum : Z;
  s_rusr_cksum : Z
}.

Definition stored (p : puzzle_t) : stored_sums :=
  mk_stored_sums (cksum_puz (header p)) (cksum_cib (header p))
    (magic_10 (header p)) (magic_14 (header p))
    (grbs_cksum p) (rtbl_cksum p) (ltim_cksum p) (gext_cksum p) (rusr_cksum p).

(** The puzzle [p] with the stored checksums [s]. *)
Definition with_stored (s : stored_sums) (p : puzzle_t) : puzzle_t :=
  let h := header p in
  let h := set_cksum_puz (s_cksum_puz s) h in
  let h := set_cksum_cib (s_cksum_cib s) h in
  let h := set_magic_10 (s_magic_10 s) h in
  let h := set_magic_14 (s_magic_14 s) h in
  let p := set_header h p in
  let p := set_grbs_cksum (s_grbs_cksum s) p in
  let p := set_rtbl_cksum (s_rtbl_cksum s) p in
  let p := set_ltim_cksum (s_ltim_cksum s) p in
  let p := set_gext_cksum (s_gext_cksum s) p in
  set_rusr_cksum (s_rusr_cksum s) p.

(** Every stored checksum equals the calculated one: the two of the
    header, the four bytes of each magic, and those of the sections that
    are present. *)
Definition sums_match (p : puzzle_t) : Prop :=
  load (calc_cksums p) 0 = Some (cksum_cib (header p)) /\
  cksum_puz (header p) = calc_cksum_puzcib p /\
  take 4 (magic_10 (header p)) = take 4 (calc_magic10 p) /\
  take 4 (magic_14 (header p)) = take 4 (calc_magic14 p) /\
  (is_null (grbs p) = false ->
   grbs_cksum p = calc_grbs_cksum p /\ rtbl_cksum p = calc_rtbl_cksum p) /\
  (is_null (ltim p) = false -> ltim_cksum p = calc_ltim_cksum p) /\
  (is_null (gext p) = false -> gext_cksum p = calc_gext_cksum p) /\
  (is_null (rusr p) = false -> rusr_cksum p = calc_rusr_cksum p).

(** A puzzle on which the checksums can be calculated: the arrays of the
    structure have their four bytes, the solution and the grid cover the
    board, the strings and the clues are there, and so are the sections
    that are present. *)
Definition well_formed (p : puzzle_t) : Prop :=
  let A := width (header p) * height (header p) in
  length (magic_10 (header p)) = 4%nat /\
  length (magic_14 (header p)) = 4%nat /\
  length (calc_magic10 p) = 4%nat /\
  length (calc_magic14 p) = 4%nat /\
  (exists sol, board_bytes (solution p) A = Some sol) /\
  (exists grd, board_bytes (grid p) A = Some grd) /\
  (exists t, cstring (title p) = Some t) /\
  (exists a, cstring (author p) = Some a) /\
  (exists c, cstring (copyright p) = Some c) /\
  (exists cl, strings_at (clues p) (clue_count (header p)) cl) /\
  (exists n, cstring (notes p) = Some n) /\
  sections_ok p.

(** The bytes of the strings [ss] in a file: each one followed by its
    NUL. *)
Definition strings_bytes (ss : list (list Z)) : list Z :=
  concat (map (fun s => s ++ [0]) ss).

(** The strings [ss] as the loader allocates them. *)
Definition strings_blocks (ss : list (list Z)) : list (ptr block) :=
  map (fun s => Ptr (s ++ [0])) ss.

(** A byte string without NUL. *)
Definition nul_free (s : list Z) : Prop := Forall (fun c => c <> 0) s.

(** The layout of a binary file up to its clues: the 52-byte header, the
    solution, the grid, the title, the author and the copyright with
    their NULs, the clues with theirs, and what follows. *)
Definition file_layout (hdr sol grd t a c : list Z) (cl : list (list Z))
    (rest : list Z) : list Z :=
  hdr ++ sol ++ grd ++ (t ++ [0]) ++ (a ++ [0]) ++ (c ++ [0])
  ++ strings_bytes cl ++ rest.

(** The puzzle that [puz_load_bin] builds from such a file before it
    looks for sections: the structure is cleared, then the fields are
    assigned in this order. *)
Definition loaded (base : ptr block) (sz : Z) (h : puz_head_t) (hdr : list Z)
    (sol grd t a c : list Z) (cl : list (list Z)) (nt : ptr block) (nsz : Z)
  : puzzle_t :=
  let p := set_sz sz (set_base base zero_puzzle) in
  let p := set_cib (take 8 (drop 44 hdr)) (set_header h p) in
  let p := set_grid (Ptr (grd ++ [0])) (set_solution (Ptr (sol ++ [0])) p) in
  let p := set_author (Ptr (a ++ [0])) (set_title (Ptr (t ++ [0])) p) in
  let p := set_clues (Ptr (strings_blocks cl)) (set_copyright (Ptr (c ++ [0])) p) in
  set_notes_sz nsz (set_notes nt p).

(** An optional section of a binary file: the rebus grid with its
    checksum, followed by the rebus table with its own; the timer; the
    extras; the user's rebus entries. *)
Inductive section : Type :=
| Grbs (ck : Z) (g : list Z) (rck : Z) (rt : list (list Z))
| Ltim (ck : Z) (lt : list Z)
| Gext (ck : Z) (g : list Z)
| Rusr (ck : Z) (cells : list (list Z)).

(** The framing of a section: the tag, the length of the payload and its
    checksum as 16-bit values, the payload, a NUL. *)
Definition framed (tag : string) (ck : Z) (payload : list Z) : list Z :=
  bytes_of tag ++ le16_bytes (Z.of_nat (length payload)) ++ le16_bytes ck
  ++ payload ++ [0].

Definition section_bytes (s : section) : list Z :=
  match s with
  | Grbs ck g rck rt => framed "GRBS" ck g ++ framed "RTBL" rck (rtbl_payload rt)
  | Ltim ck lt => framed "LTIM" ck lt
  | Gext ck g => framed "GEXT" ck g
  | Rusr ck cells => framed "RUSR" ck (rusr_payload cells)
  end.

Definition is_grbs (s : section) : bool :=
  match s with Grbs _ _ _ _ => true | _ => false end.

(** What the loader expects of a section, on a board of [A] cells: the
    checksums are 16-bit values; the rebus grid covers the board and has
    a non-zero byte, and the entries of its table hold no semicolon; the
    timer is a string whose length fits the 16-bit field; the extras
    cover the board; there is one user entry for each cell, of 100 bytes
    at most. *)
Definition section_ok (A : Z) (s : section) : Prop :=
  match s with
  | Grbs ck g rck rt =>
      0 <= ck < 65536 /\ Z.of_nat (length g) = A /\
      Forall (fun b => 0 <= b) g /\ Exists (fun b => b <> 0) g /\
      0 <= rck < 65536 /\ Forall (Forall (fun c => c <> 0 /\ c <> 59)) rt
  | Ltim ck lt =>
      0 <= ck < 65536 /\ nul_free lt /\ Z.of_nat (length lt) < 65536
  | Gext ck g => 0 <= ck < 65536 /\ Z.of_nat (length g) = A
  | Rusr ck cells =>
      0 <= ck < 65536 /\ Z.of_nat (length cells) = A /\
      Forall (fun s => nul_free s /\ (length s <= 100)%nat) cells
  end.

(** The user entries as the loader allocates them: NULL for an empty
    cell. *)
Definition rusr_blocks (cells : list (list Z)) : list (ptr block) :=
  map (fun s => match s with [] => NULL | _ => Ptr (s ++ [0]) end) cells.

(** The fields that reading a section assigns. *)
Definition with_section (p : puzzle_t) (s : section) : puzzle_t :=
  match s with
  | Grbs ck g rck rt =>
      set_rtbl (Ptr (strings_blocks rt))
        (set_rtbl_sz (Z.of_nat (length rt))
           (set_rtbl_cksum rck (set_grbs (Ptr g) (set_grbs_cksum ck p))))
  | Ltim ck lt => set_ltim (Ptr (lt ++ [0])) (set_ltim_cksum ck p)
  | Gext ck g => set_gext (Ptr g) (set_gext_cksum ck p)
  | Rusr ck cells =>
      set_rusr_sz (Z.of_nat (length (rusr_payload cells)))
        (set_rusr (Ptr (rusr_blocks cells)) (set_rusr_cksum ck p))
  end.

(** White space that does not end a line. *)
Definition blank (c : Z) : Prop :=
  LoadText.isspace c = true /\ c <> 13 /\ c <> 10.

(** A line of text as [get_one_line] returns it: not empty, without a
    carriage return or a line feed, and with no white space at either
    end. *)
Definition text_line (body : list Z) : Prop :=
  Forall (fun c => c <> 13 /\ c <> 10) body /\
  (exists x tl, body = x :: tl /\ LoadText.isspace x = false) /\
  (exists hd y, body = hd ++ [y] /\ LoadText.isspace y = false).

(** A cell of the grid of an unsolved puzzle: black stays black, every
    other cell is empty. *)
Definition grid_cell (c : Z) : Z := if decide (c = 46) then 46 else 45.

End Terms.
Export Terms.

(** ** Loop lemmas *)

Lemma for_loop_S {S} n i (body : Z -> S -> option S) s :
  for_loop (Datatypes.S n) i body s =
  let* s' := body i s in for_loop n (i + 1) body s'.
Proof. reflexivity. Qed.

Lemma for_loop_snoc {S} n i (body : Z -> S -> option S) s :
  for_loop (Datatypes.S n) i body s =
  let* s' := for_loop n i body s in body (i + Z.of_nat n) s'.
Proof.
  revert i s. induction n as [|n IH]; intros i s.
  - cbn. rewrite Z.add_0_r. destruct (body i s); reflexivity.
  - rewrite for_loop_S, (for_loop_S n i).
    destruct (body i s) as [s1|]; [|reflexivity].
    rewrite IH. replace (i + 1 + Z.of_nat n) with (i + Z.of_nat (Datatypes.S n)) by lia.
    reflexivity.
Qed.

(** The invariant rule for [for (i = lo; i < hi; i++)]. *)
Lemma for_range_inv {S} (Inv : Z -> S -> Prop) lo hi (body : Z -> S -> option S) s s' :
  lo <= hi ->
  Inv lo s ->
  (forall i t t', lo <= i < hi -> Inv i t -> body i t = Some t' -> Inv (i + 1) t') ->
  for_range lo hi body s = Some s' ->
  Inv hi s'.
Proof.
  intros Hle H0 Hstep. unfold for_range.
  assert (Hgen : forall n, (n <= Z.to_nat (hi - lo))%nat ->
            forall t, for_loop n lo body s = Some t -> Inv (lo + Z.of_nat n) t).
  { induction n as [|n IH]; intros Hn t Ht.
    - cbn in Ht. inversion Ht; subst. cbn. rewrite Z.add_0_r. exact H0.
    - rewrite for_loop_snoc in Ht.
      destruct (for_loop n lo body s) as [t1|] eqn:E; [|discriminate].
      replace (lo + Z.of_nat (Datatypes.S n)) with (lo + Z.of_nat n + 1) by lia.
      eapply Hstep; [| apply IH; [lia | reflexivity] | exact Ht]. lia. }
  intros H. specialize (Hgen _ (Nat.le_refl _) _ H).
  replace (lo + Z.of_nat (Z.to_nat (hi - lo))) with hi in Hgen by lia. exact Hgen.
Qed.

(** A loop whose body never fails runs to completion. *)
Lemma for_range_total {S} (Inv : Z -> S -> Prop) lo hi (body : Z -> S -> option S) s :
  Inv lo s ->
  (forall i t, lo <= i < hi -> Inv i t -> exists t', body i t = Some t' /\ Inv (i + 1) t') ->
  exists s', for_range lo hi body s = Some s'.
Proof.
  intros H0 Hstep. unfold for_range.
  assert (Hgen : forall n i t, lo <= i -> i + Z.of_nat n <= Z.max lo hi -> Inv i t ->
            exists t', for_loop n i body t = Some t').
  { induction n as [|n IH]; intros i t Hi Hn Ht; cbn.
    - eauto.
    - destruct (Hstep i t) as (t1 & -> & H1); [lia | exact Ht |].
      apply IH; [lia | lia | exact H1]. }
  apply Hgen; [lia | lia | exact H0].
Qed.

(** The same with the invariant carried to the end of the loop. *)
Lemma for_range_total_inv {S} (Inv : Z -> S -> Prop) lo hi (body : Z -> S -> option S) s :
  lo <= hi ->
  Inv lo s ->
  (forall i t, lo <= i < hi -> Inv i t -> exists t', body i t = Some t' /\ Inv (i + 1) t') ->
  exists s', for_range lo hi body s = Some s' /\ Inv hi s'.
Proof.
  intros Hle H0 Hstep.
  destruct (for_range_total Inv lo hi body s H0 Hstep) as [s' Hs'].
  exists s'. split; [exact Hs'|].
  apply (for_range_inv Inv lo hi body s s' Hle H0); [|exact Hs'].
  intros i t t' Hi Ht Hb. destruct (Hstep i t Hi Ht) as (t2 & Hb2 & Hinv).
  rewrite Hb in Hb2. inversion Hb2; subst. exact Hinv.
Qed.

Module CksumFacts.

Lemma u16_range x : 0 <= u16 x < 65536.
Proof. unfold u16. apply Z.mod_pos_bound. lia. Qed.

Lemma u16_small x : 0 <= x < 65536 -> u16 x = x.
Proof. unfold u16. intros. apply Z.mod_small. lia. Qed.

Lemma u8_range x : 0 <= u8 x < 256.
Proof. unfold u8. apply Z.mod_pos_bound. lia. Qed.

Lemma u8_small x : 0 <= x < 256 -> u8 x = x.
Proof. unfold u8. intros. apply Z.mod_small. lia. Qed.

Lemma cksum_step_range c b : 0 <= cksum_step c b < 65536.
Proof. unfold cksum_step. apply u16_range. Qed.

Lemma cksum_bytes_range bs iv : 0 <= iv < 65536 -> 0 <= cksum_bytes bs iv < 65536.
Proof.
  unfold cksum_bytes. revert iv. induction bs as [|b bs IH]; intros iv Hiv; cbn.
  - exact Hiv.
  - apply IH, cksum_step_range.
Qed.

Lemma cksum_bytes_app a b iv :
  cksum_bytes (a ++ b) iv = cksum_bytes b (cksum_bytes a iv).
Proof. unfold cksum_bytes. apply fold_left_app. Qed.

(** The loop of [puz_cksum_region] over a window of a block is the fold
    over the bytes of the window. *)
Lemma cksum_loop_window (pre a rest : list Z) iv :
  for_loop (length a) (Z.of_nat (length pre))
    (fun i cksum =>
       let* b := deref (Ptr (pre ++ a ++ rest)) in
       let* c := load b i in Some (cksum_step cksum c)) iv
  = Some (cksum_bytes a iv).
Proof.
  revert pre iv. induction a as [|x a IH]; intros pre iv.
  - reflexivity.
  - cbn [length for_loop deref]. unfold load.
    destruct (decide (0 <= Z.of_nat (length pre))) as [_|]; [|lia].
    rewrite Nat2Z.id, lookup_app_r by lia.
    rewrite Nat.sub_diag. cbn [lookup list_lookup app].
    specialize (IH (pre ++ [x]) (cksum_step iv x)).
    rewrite length_app in IH. cbn [length] in IH.
    replace (Z.of_nat (length pre) + 1) with (Z.of_nat (length pre + 1)) by lia.
    rewrite <- app_assoc in IH. cbn [app] in IH. cbn [deref] in IH.
    exact IH.
Qed.

Lemma puz_cksum_region_prefix (a rest : list Z) iv :
  puz_cksum_region (Ptr (a ++ rest)) (Z.of_nat (length a)) iv
  = Some (cksum_bytes a iv).
Proof.
  unfold puz_cksum_region, for_range.
  replace (Z.to_nat (Z.of_nat (length a) - 0)) with (length a) by lia.
  exact (cksum_loop_window [] a rest iv).
Qed.

Lemma puz_cksum_region_whole (a : list Z) iv :
  puz_cksum_region (Ptr a) (Z.of_nat (length a)) iv = Some (cksum_bytes a iv).
Proof.
  rewrite <- (app_nil_r a) at 1. apply puz_cksum_region_prefix.
Qed.

(** Reading [n] bytes of a block: the fold over its first [n] bytes. *)
Lemma puz_cksum_region_take (b : block) (n : Z) iv :
  0 <= n <= Z.of_nat (length b) ->
  puz_cksum_region (Ptr b) n iv = Some (cksum_bytes (take (Z.to_nat n) b) iv).
Proof.
  intros Hn.
  pose proof (puz_cksum_region_prefix (take (Z.to_nat n) b) (drop (Z.to_nat n) b) iv) as H.
  rewrite take_drop, length_take in H.
  replace (Z.of_nat (Z.to_nat n `min` length b)) with n in H by lia.
  exact H.
Qed.

(** A zero-length region is never read, whatever the pointer. *)
Lemma puz_cksum_region_nonpos (p : ptr block) (n : Z) iv :
  n <= 0 -> puz_cksum_region p n iv = Some iv.
Proof.
  intros Hn. unfold puz_cksum_region, for_range.
  replace (Z.to_nat (n - 0)) with O by lia. reflexivity.
Qed.

End CksumFacts.

Module CksumSpec.
Import CksumFacts.

Lemma land_1_testbit c : Z.land c 1 <> 0 <-> Z.testbit c 0 = true.
Proof.
  rewrite Z.bit0_odd. change 1 with (Z.ones 1). rewrite Z.land_ones by lia.
  rewrite Z.odd_spec. change (2 ^ 1) with 2. split.
  - intros H. exists (c / 2). pose proof (Z.div_mod c 2). pose proof (Z.mod_pos_bound c 2). lia.
  - intros [k ->]. replace (2 * k + 1) with (1 + k * 2) by lia.
    rewrite Z.mod_add by lia. discriminate.
Qed.

Lemma lor_high_bit x : 0 <= x < 32768 -> Z.lor x 32768 = x + 32768.
Proof.
  intros Hx.
  assert (Hland : Z.land x 32768 = 0).
  { apply Z.bits_inj'. intros n Hn. rewrite Z.land_spec, Z.bits_0.
    change 32768 with (2 ^ 15). rewrite Z.pow2_bits_eqb by lia.
    destruct (Z.eqb_spec 15 n) as [<-|]; [|apply andb_false_r].
    rewrite andb_true_r.
    destruct (decide (x = 0)) as [->|]; [apply Z.bits_0|].
    apply Z.bits_above_log2; [lia|]. apply Z.log2_lt_pow2; lia. }
  rewrite <- Z.lxor_lor by exact Hland. symmetry. apply Z.add_nocarry_lxor. exact Hland.
Qed.

(** On 16-bit accumulators the loop body of [puz_cksum_region] is the
    rotate-and-add of the specification. *)
Lemma cksum_step_spec c b : 0 <= c < 65536 -> cksum_step c b = spec_rotate_add c b.
Proof.
  intros Hc. unfold cksum_step, spec_rotate_add.
  assert (Hs : 0 <= Z.shiftr c 1 < 32768).
  { rewrite Z.shiftr_div_pow2 by lia. change (2 ^ 1) with 2.
    pose proof (Z.div_mod c 2). pose proof (Z.mod_pos_bound c 2). lia. }
  destruct (decide (Z.land c 1 <> 0)) as [H|H].
  - apply land_1_testbit in H. rewrite H, lor_high_bit by exact Hs.
    rewrite (u16_small (Z.shiftr c 1 + 32768)) by lia. reflexivity.
  - assert (Hb : Z.testbit c 0 = false).
    { destruct (Z.testbit c 0) eqn:E; [|reflexivity]. apply land_1_testbit in E. contradiction. }
    rewrite Hb, Z.lor_0_r, (u16_small (Z.shiftr c 1)) by lia. reflexivity.
Qed.

Lemma cksum_bytes_spec bs iv :
  0 <= iv < 65536 -> cksum_bytes bs iv = fold_left spec_rotate_add bs iv.
Proof.
  unfold cksum_bytes. revert iv. induction bs as [|b bs IH]; intros iv Hiv; cbn.
  - reflexivity.
  - rewrite <- cksum_step_spec by exact Hiv. apply IH, cksum_step_range.
Qed.

(** C8.  [puz_cksum_region] composes over concatenation: the checksum of
    [a ++ b] from the initial value [iv] is the checksum of [b] started
    from the checksum of [a]; all three calls return, and the value is the
    fold of the specification's rotate-and-add step over the bytes. *)
Theorem puz_cksum_region_concat (a b : list Z) (iv : Z) :
  0 <= iv < 65536 ->
  exists c v,
    puz_cksum_region (Ptr a) (Z.of_nat (length a)) iv = Some c /\
    puz_cksum_region (Ptr b) (Z.of_nat (length b)) c = Some v /\
    puz_cksum_region (Ptr (a ++ b)) (Z.of_nat (length (a ++ b))) iv = Some v /\
    v = fold_left spec_rotate_add (a ++ b) iv.
Proof.
  intros Hiv. exists (cksum_bytes a iv), (cksum_bytes b (cksum_bytes a iv)).
  rewrite !puz_cksum_region_whole, cksum_bytes_app.
  repeat split. rewrite <- cksum_bytes_spec by exact Hiv. symmetry. apply cksum_bytes_app.
Qed.

Lemma puz_cksum_region_concat_witness :
  exists c v,
    puz_cksum_region (Ptr (bytes_of "AB")) 2 0 = Some c /\
    puz_cksum_region (Ptr (bytes_of "C.")) 2 c = Some v /\
    puz_cksum_region (Ptr (bytes_of "ABC.")) 4 0 = Some v /\
    v = fold_left spec_rotate_add (bytes_of "ABC.") 0.
Proof.
  apply (puz_cksum_region_concat (bytes_of "AB") (bytes_of "C.") 0). lia.
Defined.

End CksumSpec.

Module SizeSpec.

Lemma strlen_bound b n : strlen b = Some n -> 0 <= n < Z.of_nat (length b).
Proof.
  revert n. induction b as [|c b IH]; intros n H; cbn in H; [discriminate|].
  destruct (decide (c = 0)).
  - inversion H; subst. cbn [length]. lia.
  - destruct (strlen b) as [m|]; [|discriminate]. inversion H; subst.
    specialize (IH m eq_refl). cbn [length]. lia.
Qed.

Lemma cstring_Sstrlen e s : cstring e = Some s -> Sstrlen e = Some (Z.of_nat (length s)).
Proof.
  unfold cstring, Sstrlen. destruct (deref e) as [b|]; [|discriminate].
  destruct (strlen b) as [n|] eqn:E; [|discriminate].
  intros H. inversion H; subst. apply strlen_bound in E.
  rewrite length_take. f_equal. lia.
Qed.

(** A loop that adds (length + 1) for each of the strings [ss] found at
    [get lo], [get (lo+1)], ... *)
Lemma for_loop_sum_len1 (get : Z -> option (ptr block)) ss :
  forall lo sz0,
    (forall (i : nat) s, ss !! i = Some s ->
       exists e, get (lo + Z.of_nat i) = Some e /\ cstring e = Some s) ->
    for_loop (length ss) lo
      (fun i sz => let* e := get i in let* n := Sstrlen e in Some (sz + (n + 1))) sz0
    = Some (sz0 + sum_len1 ss).
Proof.
  induction ss as [|s ss IH]; intros lo sz0 Hget.
  - cbn. rewrite Z.add_0_r. reflexivity.
  - cbn [length for_loop].
    destruct (Hget O s eq_refl) as (e & He & Hs). rewrite Z.add_0_r in He.
    rewrite He, (cstring_Sstrlen _ _ Hs).
    rewrite IH.
    + cbn [sum_len1 fold_right]. f_equal. unfold sum_len1. lia.
    + intros i s' Hi. destruct (Hget (S i) s' Hi) as (e' & He' & Hs').
      exists e'. split; [|exact Hs']. rewrite <- He'. f_equal. lia.
Qed.

Lemma for_range_sum_len1 (get : Z -> option (ptr block)) n ss sz0 :
  length ss = Z.to_nat n ->
  (forall (i : nat) s, ss !! i = Some s ->
     exists e, get (Z.of_nat i) = Some e /\ cstring e = Some s) ->
  for_range 0 n
    (fun i sz => let* e := get i in let* n := Sstrlen e in Some (sz + (n + 1))) sz0
  = Some (sz0 + sum_len1 ss).
Proof.
  intros Hlen Hget. unfold for_range. rewrite Z.sub_0_r, <- Hlen.
  apply for_loop_sum_len1. intros i s Hi. rewrite Z.add_0_l. apply Hget, Hi.
Qed.

Lemma sum_len1_payload rt : sum_len1 rt = Z.of_nat (length (rtbl_payload rt)).
Proof.
  unfold sum_len1, rtbl_payload. induction rt as [|s rt IH]; cbn; [reflexivity|].
  rewrite IH, !length_app. cbn [length]. lia.
Qed.

(** C7.  [puz_size] of a non-NULL puzzle whose strings are set: the
    0x34-byte header, twice the board, the three metadata strings and the
    clues with their NULs, the recorded notes length and its NUL, and for
    every section present its 4+2+2 bytes of framing, its payload and a
    NUL; RTBL follows GRBS with the same framing. *)
Theorem puz_size_exact (p : puzzle_t) (t a c lt : list Z) (cl rt : list (list Z)) :
  cstring (title p) = Some t ->
  cstring (author p) = Some a ->
  cstring (copyright p) = Some c ->
  strings_at (clues p) (clue_count (header p)) cl ->
  (is_null (grbs p) = false -> strings_at (rtbl p) (rtbl_sz p) rt) ->
  (is_null (ltim p) = false -> cstring (ltim p) = Some lt) ->
  let A := width (header p) * height (header p) in
  puz_size (Ptr p) =
  Some (52 + 2 * A
        + (Z.of_nat (length t) + 1) + (Z.of_nat (length a) + 1)
        + (Z.of_nat (length c) + 1)
        + sum_len1 cl
        + notes_sz p + 1
        + (if is_null (grbs p) then 0
           else section_size A + section_size (Z.of_nat (length (rtbl_payload rt))))
        + (if is_null (ltim p) then 0 else section_size (Z.of_nat (length lt)))
        + (if is_null (gext p) then 0 else section_size A)
        + (if is_null (rusr p) then 0 else section_size (rusr_sz p))).
Proof.
  intros Ht Ha Hc [Hcl_len Hcl] Hrt Hlt A.
  unfold puz_size, puz_width_get, puz_height_get, puz_title_get, puz_author_get,
    puz_copyright_get, puz_clue_count_get, puz_has_rebus, puz_has_timer,
    puz_has_extras, puz_has_rusr, puz_rebus_count_get.
  unfold puz_has_rebus.
  cbn [is_null deref].
  rewrite (cstring_Sstrlen _ _ Ht), (cstring_Sstrlen _ _ Ha), (cstring_Sstrlen _ _ Hc).
  rewrite (for_range_sum_len1 (puz_clue_get (Ptr p)) _ cl) by
    (first [exact Hcl_len |
      intros i s Hi; destruct (Hcl i s Hi) as (e & He & Hs); exists e; split; [|exact Hs];
      unfold puz_clue_get; cbn [is_null deref];
      apply lookup_lt_Some in Hi;
      destruct (decide (Z.of_nat i < 0 \/ Z.of_nat i > clue_count (header p)));
      [lia | exact He]]).
  assert (Hnotes : (if decide (notes_sz p <> 0)
                    then 52 + A + A + (Z.of_nat (length t) + 1) + (Z.of_nat (length a) + 1)
                         + (Z.of_nat (length c) + 1) + sum_len1 cl + notes_sz p
                    else 52 + A + A + (Z.of_nat (length t) + 1) + (Z.of_nat (length a) + 1)
                         + (Z.of_nat (length c) + 1) + sum_len1 cl)
                   = 52 + A + A + (Z.of_nat (length t) + 1) + (Z.of_nat (length a) + 1)
                     + (Z.of_nat (length c) + 1) + sum_len1 cl + notes_sz p).
  { destruct (decide (notes_sz p <> 0)); lia. }
  fold A. rewrite Hnotes. clear Hnotes.
  unfold section_size.
  destruct (is_null (grbs p)) eqn:Eg; cbn [negb].
  - destruct (is_null (ltim p)) eqn:El; cbn [negb].
    + destruct (is_null (gext p)), (is_null (rusr p)); cbn [negb]; f_equal; lia.
    + rewrite (cstring_Sstrlen _ _ (Hlt eq_refl)).
      destruct (is_null (gext p)), (is_null (rusr p)); cbn [negb]; f_equal; lia.
  - destruct (Hrt eq_refl) as [Hrt_len Hrt_at].
    rewrite (for_range_sum_len1 (puz_rtbl_get (Ptr p)) _ rt) by
      (first [exact Hrt_len |
        intros i s Hi; destruct (Hrt_at i s Hi) as (e & He & Hs); exists e; split; [|exact Hs];
        unfold puz_rtbl_get, puz_has_rebus; cbn [is_null deref]; rewrite Eg; cbn [negb];
        apply lookup_lt_Some in Hi;
        destruct (decide (Z.of_nat i < 0)); [lia|];
        destruct (decide (Z.of_nat i > rtbl_sz p)); [lia | exact He]]).
    rewrite (sum_len1_payload rt).
    destruct (is_null (ltim p)) eqn:El; cbn [negb].
    + destruct (is_null (gext p)), (is_null (rusr p)); cbn [negb]; f_equal; lia.
    + rewrite (cstring_Sstrlen _ _ (Hlt eq_refl)).
      destruct (is_null (gext p)), (is_null (rusr p)); cbn [negb]; f_equal; lia.
Qed.

Lemma puz_size_exact_witness : puz_size (Ptr sample_full) = Some 133.
Proof.
  apply (puz_size_exact sample_full (bytes_of "T") [] (bytes_of "me") (bytes_of "12,0")
           [bytes_of "a1"; bytes_of "d1"] [bytes_of " 0:AB"]).
  - reflexivity.
  - reflexivity.
  - reflexivity.
  - split; [reflexivity|].
    intros [|[|i]] s Hi; cbn in Hi; inversion Hi; subst; eexists; split; reflexivity.
  - intros _. split; [reflexivity|].
    intros [|i] s Hi; cbn in Hi; inversion Hi; subst; eexists; split; reflexivity.
  - intros _. reflexivity.
Defined.

(** The string [puz_rtblstr_get] builds is the RTBL payload and a NUL. *)
Lemma rtblstr_loop_payload (get : Z -> option (ptr block)) ss :
  forall lo acc,
    (forall (i : nat) s, ss !! i = Some s ->
       exists e, get (lo + Z.of_nat i) = Some e /\ cstring e = Some s) ->
    for_loop (length ss) lo
      (fun i acc => let* e := get i in let* str := cstring e in Some (acc ++ str ++ [59]))
      acc
    = Some (acc ++ rtbl_payload ss).
Proof.
  induction ss as [|s ss IH]; intros lo acc Hget.
  - cbn. rewrite app_nil_r. reflexivity.
  - cbn [length for_loop].
    destruct (Hget O s eq_refl) as (e & He & Hs). rewrite Z.add_0_r in He.
    rewrite He, Hs, IH.
    + unfold rtbl_payload. cbn [map concat]. rewrite <- !app_assoc. reflexivity.
    + intros i s' Hi. destruct (Hget (S i) s' Hi) as (e' & He' & Hs').
      exists e'. split; [|exact Hs']. rewrite <- He'. f_equal. lia.
Qed.

Lemma puz_rtblstr_get_payload (p : puzzle_t) rt :
  strings_at (rtbl p) (rtbl_sz p) rt ->
  puz_rtblstr_get (Ptr p) = Some (Ptr (rtbl_payload rt ++ [0])).
Proof.
  intros [Hlen Hat]. unfold puz_rtblstr_get, for_range. cbn [is_null deref].
  rewrite Z.sub_0_r, <- Hlen, (rtblstr_loop_payload _ rt 0 []); [reflexivity|].
  intros i s Hi. rewrite Z.add_0_l. apply Hat, Hi.
Qed.

End SizeSpec.

Module MagicSpec.
Import CksumFacts CksumSpec SizeSpec.

Lemma strlen_take_nul b n :
  strlen b = Some n ->
  take (Z.to_nat (n + 1)) b = take (Z.to_nat n) b ++ [0].
Proof.
  revert n. induction b as [|c b IH]; intros n H; cbn in H; [discriminate|].
  destruct (decide (c = 0)) as [->|Hc].
  - inversion H; subst. reflexivity.
  - destruct (strlen b) as [m|] eqn:E; [|discriminate]. inversion H; subst.
    pose proof (strlen_bound _ _ E).
    replace (Z.to_nat (m + 1 + 1)) with (S (Z.to_nat (m + 1))) by lia.
    replace (Z.to_nat (m + 1)) with (S (Z.to_nat m)) at 2 by lia.
    cbn [take app]. f_equal. apply IH. reflexivity.
Qed.

Lemma cstring_region s t ck :
  cstring s = Some t ->
  puz_cksum_region s (Z.of_nat (length t)) ck = Some (cksum_bytes t ck).
Proof.
  unfold cstring. destruct s as [|b|]; cbn [deref]; try discriminate.
  destruct (strlen b) as [n|] eqn:E; [|discriminate].
  intros H. inversion H; subst. pose proof (strlen_bound _ _ E).
  rewrite length_take.
  replace (Z.of_nat (Z.to_nat n `min` length b)) with n by lia.
  apply puz_cksum_region_take. lia.
Qed.

Lemma cstring_region_nul s t ck :
  cstring s = Some t ->
  puz_cksum_region s (Z.of_nat (length t) + 1) ck = Some (cksum_bytes (t ++ [0]) ck).
Proof.
  unfold cstring. destruct s as [|b|]; cbn [deref]; try discriminate.
  destruct (strlen b) as [n|] eqn:E; [|discriminate].
  intros H. inversion H; subst. pose proof (strlen_bound _ _ E).
  rewrite length_take.
  replace (Z.of_nat (Z.to_nat n `min` length b)) with n by lia.
  rewrite <- (strlen_take_nul _ _ E).
  apply puz_cksum_region_take. lia.
Qed.

Lemma cksum_string_nul_spec s t ck :
  cstring s = Some t ->
  cksum_string_nul s ck = Some (cksum_bytes (with_nul t) ck).
Proof.
  intros H. unfold cksum_string_nul. rewrite (cstring_Sstrlen _ _ H).
  destruct (decide (Z.of_nat (length t) > 0)) as [Hpos|Hz].
  - rewrite (cstring_region_nul _ _ _ H).
    destruct t; [cbn in Hpos; lia | reflexivity].
  - destruct t; [reflexivity | cbn in Hz; lia].
Qed.

Lemma cksum_clues_loop (get : Z -> option (ptr block)) ss :
  forall lo ck,
    (forall (i : nat) s, ss !! i = Some s ->
       exists e, get (lo + Z.of_nat i) = Some e /\ cstring e = Some s) ->
    for_loop (length ss) lo
      (fun i ck => let* c := get i in let* n := Sstrlen c in puz_cksum_region c n ck) ck
    = Some (cksum_bytes (concat ss) ck).
Proof.
  induction ss as [|s ss IH]; intros lo ck Hget.
  - reflexivity.
  - cbn [length for_loop].
    destruct (Hget O s eq_refl) as (e & He & Hs). rewrite Z.add_0_r in He.
    rewrite He, (cstring_Sstrlen _ _ Hs), (cstring_region _ _ _ Hs), IH.
    + cbn [concat]. rewrite cksum_bytes_app. reflexivity.
    + intros i s' Hi. destruct (Hget (S i) s' Hi) as (e' & He' & Hs').
      exists e'. split; [|exact Hs']. rewrite <- He'. f_equal. lia.
Qed.

Lemma cksum_clues_spec p cl ck :
  strings_at (clues p) (clue_count (header p)) cl ->
  cksum_clues p ck = Some (cksum_bytes (concat cl) ck).
Proof.
  intros [Hlen Hat]. unfold cksum_clues, for_range.
  rewrite Z.sub_0_r, <- Hlen. apply cksum_clues_loop.
  intros i s Hi. rewrite Z.add_0_l. apply Hat, Hi.
Qed.

Lemma board_bytes_region b n bs ck :
  board_bytes b n = Some bs ->
  puz_cksum_region b n ck = Some (cksum_bytes bs ck).
Proof.
  unfold board_bytes. destruct (decide (n <= 0)) as [Hn|Hn].
  - intros H. inversion H; subst. apply puz_cksum_region_nonpos. exact Hn.
  - destruct b as [|blk|]; cbn [deref]; try discriminate.
    unfold read_bytes. change (Z.to_nat 0) with O. rewrite drop_0.
    destruct (decide (0 <= 0 /\ 0 <= n /\ 0 + n <= Z.of_nat (length blk))) as [Hr|];
      [|discriminate].
    intros H. inversion H; subst.
    apply puz_cksum_region_take. lia.
Qed.

(** The pieces of the secondary checksum, as [puz_cksum2] folds them. *)
Lemma puz_cksum2_spec p t a c n cl ck :
  cstring (title p) = Some t ->
  cstring (author p) = Some a ->
  cstring (copyright p) = Some c ->
  strings_at (clues p) (clue_count (header p)) cl ->
  cstring (notes p) = Some n ->
  puz_cksum2 (Ptr p) ck = Some (cksum_bytes (secondary_pieces t a c cl n) ck).
Proof.
  intros Ht Ha Hc Hcl Hn. unfold puz_cksum2. cbn [deref].
  rewrite (cksum_string_nul_spec _ _ _ Ht), (cksum_string_nul_spec _ _ _ Ha),
    (cksum_string_nul_spec _ _ _ Hc), (cksum_clues_spec _ _ _ Hcl),
    (cksum_string_nul_spec _ _ _ Hn).
  unfold secondary_pieces. rewrite !cksum_bytes_app. reflexivity.
Qed.

Lemma puz_cksum_spec p t a c n cl sol grd ck :
  board_bytes (solution p) (width (header p) * height (header p)) = Some sol ->
  board_bytes (grid p) (width (header p) * height (header p)) = Some grd ->
  cstring (title p) = Some t ->
  cstring (author p) = Some a ->
  cstring (copyright p) = Some c ->
  strings_at (clues p) (clue_count (header p)) cl ->
  cstring (notes p) = Some n ->
  puz_cksum (Ptr p) ck
  = Some (cksum_bytes (sol ++ grd ++ secondary_pieces t a c cl n) ck).
Proof.
  intros Hs Hg Ht Ha Hc Hcl Hn. unfold puz_cksum. cbn [deref].
  rewrite (board_bytes_region _ _ _ _ Hs), (board_bytes_region _ _ _ _ Hg).
  rewrite (cksum_string_nul_spec _ _ _ Ht), (cksum_string_nul_spec _ _ _ Ha),
    (cksum_string_nul_spec _ _ _ Hc), (cksum_clues_spec _ _ _ Hcl),
    (cksum_string_nul_spec _ _ _ Hn).
  unfold secondary_pieces. rewrite !cksum_bytes_app. reflexivity.
Qed.

Lemma shiftr_land_high s :
  0 <= s < 65536 -> Z.shiftr (Z.land s 65280) 8 = Z.shiftr s 8.
Proof.
  intros Hs. apply Z.bits_inj'. intros n Hn.
  rewrite !Z.shiftr_spec, Z.land_spec by lia.
  destruct (Z.lt_ge_cases n 8) as [Hlt|Hge].
  - assert (Hm : Z.testbit 65280 (n + 8) = true).
    { assert (Hc : n = 0 \/ n = 1 \/ n = 2 \/ n = 3 \/ n = 4 \/ n = 5 \/ n = 6 \/ n = 7) by lia.
      destruct Hc as [-> | [-> | [-> | [-> | [-> | [-> | [-> | ->]]]]]]]; reflexivity. }
    rewrite Hm. apply andb_true_r.
  - assert (Hz : Z.testbit s (n + 8) = false).
    { destruct (decide (s = 0)) as [->|]; [apply Z.bits_0|].
      apply Z.bits_above_log2; [lia|].
      assert (Z.log2 s < 16) by (apply Z.log2_lt_pow2; lia). lia. }
    rewrite Hz. reflexivity.
Qed.

Lemma w_le_16_spec x : 0 <= x < 65536 -> w_le_16 x = le16_bytes x.
Proof.
  intros Hx. unfold w_le_16, le16_bytes.
  rewrite (shiftr_land_high _ Hx), Z.shiftr_div_pow2 by lia.
  change 255 with (Z.ones 8). rewrite Z.land_ones by lia.
  change (2 ^ 8) with 256.
  rewrite !u8_small; [reflexivity | |].
  - split; [apply Z.div_pos; lia | apply Z.div_lt_upper_bound; lia].
  - apply Z.mod_pos_bound. lia.
Qed.

Lemma cib_bytes_spec h :
  head_in_range h ->
  w_le_8 (width h) ++ w_le_8 (height h) ++ w_le_16 (clue_count h)
  ++ w_le_16 (x_unk_30 h) ++ w_le_16 (scrambled_tag h) = cib_block h.
Proof.
  intros (Hw & Hh & Hc & Hu & Ht). unfold cib_block, w_le_8.
  rewrite !w_le_16_spec, !u8_small by assumption. reflexivity.
Qed.

Lemma lxor_byte x m : 0 <= x < 256 -> 0 <= m < 256 -> 0 <= Z.lxor x m < 256.
Proof.
  intros Hx Hm. split; [apply Z.lxor_nonneg; lia|].
  destruct (decide (Z.lxor x m = 0)) as [->|Hnz]; [lia|].
  assert (Hpos : 0 < Z.lxor x m).
  { assert (0 <= Z.lxor x m) by (apply Z.lxor_nonneg; lia). lia. }
  apply Z.log2_lt_pow2 with (b := 8); [exact Hpos|].
  pose proof (Z.log2_lxor x m ltac:(lia) ltac:(lia)) as Hl.
  assert (Z.log2 x < 8).
  { destruct (decide (x = 0)) as [->|]; [cbn; lia|]. apply Z.log2_lt_pow2; lia. }
  assert (Z.log2 m < 8).
  { destruct (decide (m = 0)) as [->|]; [cbn; lia|]. apply Z.log2_lt_pow2; lia. }
  lia.
Qed.

Lemma land_255_range s : 0 <= Z.land s 255 < 256.
Proof.
  change 255 with (Z.ones 8). rewrite Z.land_ones by lia. apply Z.mod_pos_bound. lia.
Qed.

Lemma shiftr_8_range s : 0 <= s < 65536 -> 0 <= Z.shiftr s 8 < 256.
Proof.
  intros Hs. rewrite Z.shiftr_div_pow2 by lia. change (2 ^ 8) with 256.
  split; [apply Z.div_pos; lia | apply Z.div_lt_upper_bound; lia].
Qed.

(** [magic_gen_10] and [magic_gen_14] over four 16-bit sums. *)
Lemma magic_gen_10_spec dest sums :
  length dest = 4%nat -> length sums = 4%nat ->
  magic_gen_10 dest sums = Some (spec_magic_10 sums).
Proof.
  intros Hd Hs.
  destruct dest as [|d0 [|d1 [|d2 [|d3 [|]]]]]; try discriminate.
  destruct sums as [|s0 [|s1 [|s2 [|s3 [|]]]]]; try discriminate.
  unfold magic_gen_10, spec_magic_10, for_range, MAGIC_10_MASK.
  change (bytes_of "ICHE") with [73; 67; 72; 69].
  change (Z.to_nat (4 - 0)) with 4%nat.
  cbv -[u8 Z.lxor Z.land Z.shiftr].
  repeat rewrite (u8_small (Z.land _ 255)) by apply land_255_range.
  repeat rewrite u8_small by (apply lxor_byte; [apply land_255_range | lia]).
  reflexivity.
Qed.

Lemma magic_gen_14_spec dest sums :
  length dest = 4%nat -> length sums = 4%nat ->
  Forall (fun s => 0 <= s < 65536) sums ->
  magic_gen_14 dest sums = Some (spec_magic_14 sums).
Proof.
  intros Hd Hs Hr.
  destruct dest as [|d0 [|d1 [|d2 [|d3 [|]]]]]; try discriminate.
  destruct sums as [|s0 [|s1 [|s2 [|s3 [|]]]]]; try discriminate.
  inversion Hr as [|? ? H0 Hr1]; subst. inversion Hr1 as [|? ? H1 Hr2]; subst.
  inversion Hr2 as [|? ? H2 Hr3]; subst. inversion Hr3 as [|? ? H3 _]; subst.
  unfold magic_gen_14, spec_magic_14, for_range, MAGIC_14_MASK.
  change (bytes_of "ATED") with [65; 84; 69; 68].
  change (Z.to_nat (4 - 0)) with 4%nat.
  cbv -[u8 Z.lxor Z.land Z.shiftr].
  rewrite !shiftr_land_high by assumption.
  repeat rewrite u8_small by (apply lxor_byte; [apply shiftr_8_range; assumption | lia]).
  reflexivity.
Qed.

(** *** The optional sections *)

Lemma strlen_app_nul l r :
  exists n, strlen (l ++ 0 :: r) = Some n /\ 0 <= n <= Z.of_nat (length l).
Proof.
  induction l as [|c l (n & Hn & Hb)]; cbn [app strlen length].
  - exists 0. destruct (decide (0 = 0)); [split; [reflexivity | lia] | contradiction].
  - destruct (decide (c = 0)).
    + exists 0. split; [reflexivity | lia].
    + exists (n + 1). rewrite Hn. split; [reflexivity | lia].
Qed.

Lemma rtbl_gen_defined q rt :
  strings_at (rtbl q) (rtbl_sz q) rt -> exists ck, rtbl_gen (Ptr q) = Some ck.
Proof.
  intros H. unfold rtbl_gen. rewrite (puz_rtblstr_get_payload _ _ H).
  cbn [is_null negb]. unfold Sstrlen. cbn [deref].
  destruct (strlen_app_nul (rtbl_payload rt) []) as (n & -> & Hn).
  rewrite puz_cksum_region_take by (rewrite length_app; cbn [length]; lia).
  eauto.
Qed.

Lemma rusrstr_loop_payload (get : Z -> option (ptr block)) (limit : Z) cells :
  forall lo acc,
    (forall (i : nat) s, cells !! i = Some s ->
       exists e, get (lo + Z.of_nat i) = Some e /\
                 (if is_null e then Some [] else cstring e) = Some s) ->
    Z.of_nat (length (acc ++ rusr_payload cells)) <= limit ->
    for_loop (length cells) lo
      (fun j acc =>
         let* e := get j in
         let* str := if is_null e then Some [] else cstring e in
         if decide (Z.of_nat (length (acc ++ str ++ [0])) <= limit)
         then Some (acc ++ str ++ [0]) else None)
      acc
    = Some (acc ++ rusr_payload cells).
Proof.
  induction cells as [|s cells IH]; intros lo acc Hget Hlim.
  - cbn. rewrite app_nil_r. reflexivity.
  - cbn [length for_loop].
    destruct (Hget O s eq_refl) as (e & He & Hs). rewrite Z.add_0_r in He.
    rewrite He, Hs.
    unfold rusr_payload in Hlim |- *. cbn [map concat] in Hlim |- *.
    rewrite !length_app in Hlim. cbn [length] in Hlim.
    destruct (decide (Z.of_nat (length (acc ++ s ++ [0])) <= limit)) as [_|Hn].
    + fold (rusr_payload cells). rewrite IH.
      * rewrite <- !app_assoc. reflexivity.
      * intros i s' Hi. destruct (Hget (S i) s' Hi) as (e' & He' & Hs').
        exists e'. split; [|exact Hs']. rewrite <- He'. f_equal. lia.
      * rewrite !length_app. cbn [length]. unfold rusr_payload. lia.
    + exfalso. apply Hn. rewrite !length_app. cbn [length]. lia.
Qed.

Lemma rusr_gen_defined q cells :
  is_null (rusr q) = false ->
  rusr_cells (rusr q) (width (header q) * height (header q)) cells ->
  rusr_sz q = Z.of_nat (length (rusr_payload cells)) ->
  exists ck, rusr_gen (Ptr q) = Some ck.
Proof.
  intros Hnn [Hlen Hat] Hsz. unfold rusr_gen, puz_rusrstr_get, for_range.
  cbn [is_null deref]. rewrite Hnn.
  rewrite Z.sub_0_r, <- Hlen, (rusrstr_loop_payload _ _ cells 0 []).
  - cbn [is_null negb app]. rewrite Hsz, puz_cksum_region_whole. eauto.
  - intros i s Hi. rewrite Z.add_0_l. apply Hat, Hi.
  - cbn [app]. lia.
Qed.

Lemma same_but_section_cksums_refl p : same_but_section_cksums p p.
Proof. unfold same_but_section_cksums. repeat split. Qed.

Lemma same_but_section_cksums_trans r q p :
  same_but_section_cksums r q -> same_but_section_cksums q p ->
  same_but_section_cksums r p.
Proof.
  unfold same_but_section_cksums. intros H1 H2.
  destruct H1 as (?&?&?&?&?&?&?&?&?&?&?&?), H2 as (?&?&?&?&?&?&?&?&?&?&?&?).
  repeat split; congruence.
Qed.

Lemma sections_ok_same q p :
  same_but_section_cksums q p -> sections_ok p -> sections_ok q.
Proof.
  unfold same_but_section_cksums, sections_ok.
  intros (Hh & _ & _ & _ & _ & Hg & Hr & Hrs & Hl & He & Hu & Hus).
  rewrite Hh, Hg, Hr, Hrs, Hl, He, Hu, Hus. exact (fun H => H).
Qed.

Lemma cksums_calc_rebus_defined p :
  sections_ok p ->
  exists q, cksums_calc_rebus p = Some q /\ same_but_section_cksums q p.
Proof.
  intros (Hg & _). unfold cksums_calc_rebus, puz_has_rebus. cbn [is_null deref].
  destruct (is_null (grbs p)) eqn:E; cbn [negb].
  - exists p. split; [reflexivity | apply same_but_section_cksums_refl].
  - destruct (Hg eq_refl) as ((g & Hb) & (rt & Hrt)).
    rewrite (board_bytes_region _ _ _ _ Hb).
    destruct (rtbl_gen_defined (set_calc_grbs_cksum (cksum_bytes g 0) p) rt Hrt) as (ck & ->).
    eexists. split; [reflexivity|]. unfold same_but_section_cksums. cbn. repeat split.
Qed.

Lemma cksums_calc_timer_defined p :
  sections_ok p ->
  exists q, cksums_calc_timer p = Some q /\ same_but_section_cksums q p.
Proof.
  intros (_ & Hl & _). unfold cksums_calc_timer, puz_has_timer. cbn [is_null deref].
  destruct (is_null (ltim p)) eqn:E; cbn [negb].
  - exists p. split; [reflexivity | apply same_but_section_cksums_refl].
  - destruct (Hl eq_refl) as (lt & Hlt).
    rewrite (cstring_Sstrlen _ _ Hlt), (cstring_region _ _ _ Hlt).
    eexists. split; [reflexivity|]. unfold same_but_section_cksums. cbn. repeat split.
Qed.

Lemma cksums_calc_extras_defined p :
  sections_ok p ->
  exists q, cksums_calc_extras p = Some q /\ same_but_section_cksums q p.
Proof.
  intros (_ & _ & He & _). unfold cksums_calc_extras, puz_has_extras. cbn [is_null deref].
  destruct (is_null (gext p)) eqn:E; cbn [negb].
  - exists p. split; [reflexivity | apply same_but_section_cksums_refl].
  - destruct (He eq_refl) as (g & Hb).
    rewrite (board_bytes_region _ _ _ _ Hb).
    eexists. split; [reflexivity|]. unfold same_but_section_cksums. cbn. repeat split.
Qed.

Lemma cksums_calc_rusr_defined p :
  sections_ok p ->
  exists q, cksums_calc_rusr p = Some q /\ same_but_section_cksums q p.
Proof.
  intros (_ & _ & _ & Hu). unfold cksums_calc_rusr, puz_has_rusr. cbn [is_null deref].
  destruct (is_null (rusr p)) eqn:E; cbn [negb].
  - exists p. split; [reflexivity | apply same_but_section_cksums_refl].
  - destruct (Hu eq_refl) as (cells & Hc & Hsz).
    destruct (rusr_gen_defined p cells E Hc Hsz) as (ck & ->).
    eexists. split; [reflexivity|]. unfold same_but_section_cksums. cbn. repeat split.
Qed.

Lemma cksums_calc_sections_defined p :
  sections_ok p ->
  exists q, cksums_calc_sections (Ptr p) = Some (Ptr q) /\ same_but_section_cksums q p.
Proof.
  intros H0. unfold cksums_calc_sections. cbn [deref].
  destruct (cksums_calc_rebus_defined p H0) as (p1 & -> & S1).
  pose proof (sections_ok_same _ _ S1 H0) as H1.
  destruct (cksums_calc_timer_defined p1 H1) as (p2 & -> & S2).
  pose proof (sections_ok_same _ _ S2 H1) as H2.
  destruct (cksums_calc_extras_defined p2 H2) as (p3 & -> & S3).
  pose proof (sections_ok_same _ _ S3 H2) as H3.
  destruct (cksums_calc_rusr_defined p3 H3) as (p4 & -> & S4).
  exists p4. split; [reflexivity|].
  eauto using same_but_section_cksums_trans.
Qed.

Lemma cksum_bytes_spec0 bs : cksum_bytes bs 0 = spec_cksum_region bs 0.
Proof. apply cksum_bytes_spec. lia. Qed.

(** C1.  After [puz_cksums_calc] the calculated sums are [cib, sol_sum,
    grid_sum, cksum2]: the rotate-and-sum checksums, from 0, of the 8-byte
    CIB, of the [W*H] solution bytes, of the [W*H] grid bytes, and of the
    secondary pieces; [calc_magic10] holds their low bytes XOR "ICHE" and
    [calc_magic14] their high bytes XOR "ATED".  The call returns 0. *)
Theorem puz_cksums_calc_magic (p : puzzle_t) (t a c n sol grd : list Z)
    (cl : list (list Z)) :
  head_in_range (header p) ->
  length (calc_magic10 p) = 4%nat ->
  length (calc_magic14 p) = 4%nat ->
  board_bytes (solution p) (width (header p) * height (header p)) = Some sol ->
  board_bytes (grid p) (width (header p) * height (header p)) = Some grd ->
  cstring (title p) = Some t ->
  cstring (author p) = Some a ->
  cstring (copyright p) = Some c ->
  strings_at (clues p) (clue_count (header p)) cl ->
  cstring (notes p) = Some n ->
  sections_ok p ->
  exists p',
    puz_cksums_calc (Ptr p) = Some (Ptr p', 0) /\
    let sums := [spec_cksum_region (cib_block (header p)) 0;
                 spec_cksum_region sol 0;
                 spec_cksum_region grd 0;
                 spec_cksum_region (secondary_pieces t a c cl n) 0] in
    calc_cksums p' = sums /\
    calc_magic10 p' = spec_magic_10 sums /\
    calc_magic14 p' = spec_magic_14 sums.
Proof.
  intros Hrange H10 H14 Hsol Hgrd Ht Ha Hc Hcl Hn Hsec.
  unfold puz_cksums_calc, cksums_calc_main. cbn [deref].
  rewrite (cib_bytes_spec _ Hrange).
  set (p0 := set_cib (cib_block (header p)) p).
  rewrite (puz_cksum2_spec p0 t a c n cl 0 Ht Ha Hc Hcl Hn).
  unfold puz_cksum_cib. cbn [deref].
  change (cib p0) with (cib_block (header p)).
  change 8 with (Z.of_nat (length (cib_block (header p)))).
  rewrite puz_cksum_region_whole.
  rewrite (puz_cksum_spec p0 t a c n cl sol grd _ Hsol Hgrd Ht Ha Hc Hcl Hn).
  change (width (header p0) * height (header p0))
    with (width (header p) * height (header p)).
  change (grid p0) with (grid p). change (solution p0) with (solution p).
  rewrite (board_bytes_region _ _ _ _ Hgrd), (board_bytes_region _ _ _ _ Hsol).
  set (sums := [cksum_bytes (cib_block (header p)) 0; cksum_bytes sol 0;
                cksum_bytes grd 0; cksum_bytes (secondary_pieces t a c cl n) 0]).
  set (p1 := set_calc_cksums sums _).
  change (calc_magic10 p1) with (calc_magic10 p).
  change (calc_cksums p1) with sums.
  rewrite (magic_gen_10_spec _ sums H10 eq_refl).
  set (p2 := set_calc_magic10 _ p1).
  change (calc_magic14 p2) with (calc_magic14 p).
  change (calc_cksums p2) with sums.
  rewrite (magic_gen_14_spec _ sums H14 eq_refl).
  2:{ unfold sums. repeat constructor; apply cksum_bytes_range; lia. }
  set (p3 := set_calc_magic14 _ p2).
  assert (Hsec3 : sections_ok p3) by exact Hsec.
  destruct (cksums_calc_sections_defined p3 Hsec3) as (p' & -> & Hsame).
  exists p'. split; [reflexivity|].
  destruct Hsame as (_ & _ & Hs & Hm10 & Hm14 & _).
  cbv zeta. rewrite Hs, Hm10, Hm14.
  change (calc_cksums p3) with sums.
  change (calc_magic10 p3) with (spec_magic_10 sums).
  change (calc_magic14 p3) with (spec_magic_14 sums).
  unfold sums. rewrite !cksum_bytes_spec0.
  repeat split.
Qed.

Lemma sample_full_sections_ok : sections_ok sample_full.
Proof.
  unfold sections_ok. repeat split.
  - exists [1; 0]. reflexivity.
  - exists [bytes_of " 0:AB"]. split; [reflexivity|].
    intros [|i] s Hi; cbn in Hi; inversion Hi; subst; eexists; split; reflexivity.
  - exists (bytes_of "12,0"). reflexivity.
  - exists [128; 0]. reflexivity.
  - exists [[]; bytes_of "XY"]. split; [|reflexivity].
    split; [reflexivity|].
    intros [|[|i]] s Hi; cbn in Hi; inversion Hi; subst; eexists; split; reflexivity.
Qed.

Lemma puz_cksums_calc_magic_witness :
  exists p',
    puz_cksums_calc (Ptr sample_full) = Some (Ptr p', 0) /\
    let sums := [spec_cksum_region (cib_block (header sample_full)) 0;
                 spec_cksum_region (bytes_of "AB") 0;
                 spec_cksum_region (bytes_of "--") 0;
                 spec_cksum_region
                   (secondary_pieces (bytes_of "T") [] (bytes_of "me")
                      [bytes_of "a1"; bytes_of "d1"] (bytes_of "n")) 0] in
    calc_cksums p' = sums /\
    calc_magic10 p' = spec_magic_10 sums /\
    calc_magic14 p' = spec_magic_14 sums.
Proof.
  apply (puz_cksums_calc_magic sample_full (bytes_of "T") [] (bytes_of "me")
           (bytes_of "n") (bytes_of "AB") (bytes_of "--")
           [bytes_of "a1"; bytes_of "d1"]).
  - unfold head_in_range. cbn. lia.
  - reflexivity.
  - reflexivity.
  - reflexivity.
  - reflexivity.
  - reflexivity.
  - reflexivity.
  - reflexivity.
  - split; [reflexivity|].
    intros [|[|i]] s Hi; cbn in Hi; inversion Hi; subst; eexists; split; reflexivity.
  - reflexivity.
  - exact sample_full_sections_ok.
Defined.

End MagicSpec.

Module ScrambleSpec.
Import SizeSpec.

Lemma strlen_nonzero l r :
  Forall (fun c => c <> 0) l -> strlen (l ++ 0 :: r) = Some (Z.of_nat (length l)).
Proof.
  induction 1 as [|c l Hc _ IH]; cbn [app strlen length].
  - destruct (decide (0 = 0)); [reflexivity | contradiction].
  - destruct (decide (c = 0)); [contradiction|]. rewrite IH. f_equal. lia.
Qed.

Lemma strncpy_data_nonzero l r :
  Forall (fun c => c <> 0) l -> strncpy_data (l ++ r) (length l) = Some l.
Proof.
  induction 1 as [|c l Hc _ IH]; cbn [app strncpy_data length].
  - reflexivity.
  - destruct (decide (c = 0)); [contradiction|]. rewrite IH. reflexivity.
Qed.

Lemma upper_nonzero s : Forall upper s -> Forall (fun c => c <> 0) s.
Proof. apply Forall_impl. unfold upper. intros c Hc. lia. Qed.

(** [unshift_string] undoes a shift, for any string without NUL bytes and
    any output block of the right size. *)
Lemma unshift_string_shift (s out : list Z) (k : Z) :
  Forall (fun c => c <> 0) s ->
  0 <= k <= Z.of_nat (length s) ->
  length out = S (length s) ->
  unshift_string (Ptr (spec_shift k s ++ [0])) k (Ptr out) = Some (Ptr (s ++ [0]), 0).
Proof.
  intros Hnz Hk Hout. unfold unshift_string. cbn [is_null orb deref Sstrlen].
  assert (Hlen_shift : length (spec_shift k s) = length s).
  { unfold spec_shift. rewrite length_app, length_drop, length_take. lia. }
  assert (Hnz_shift : Forall (fun c => c <> 0) (spec_shift k s)).
  { unfold spec_shift. apply Forall_app. split.
    - apply Forall_drop, Hnz.
    - apply Forall_take, Hnz. }
  rewrite (strlen_nonzero _ [] Hnz_shift), Hlen_shift.
  destruct (decide (Z.of_nat (length s) < k)); [lia|].
  set (L := length s) in *.
  (* first copy: the tail of the string goes to out + k *)
  unfold strncpy at 1. unfold offset.
  destruct (decide (0 <= 0 <= Z.of_nat (length (spec_shift k s ++ [0])))) as [_|Hn];
    [|exfalso; apply Hn; lia].
  change (Z.to_nat 0) with O. rewrite drop_0.
  assert (E1 : strncpy_data (spec_shift k s ++ [0]) (Z.to_nat (Z.of_nat L - k))
               = Some (drop (Z.to_nat k) s)).
  { unfold spec_shift. rewrite <- app_assoc.
    replace (Z.to_nat (Z.of_nat L - k)) with (length (drop (Z.to_nat k) s))
      by (rewrite length_drop; unfold L; lia).
    apply strncpy_data_nonzero. apply Forall_drop, Hnz. }
  rewrite E1. unfold store_bytes at 1. rewrite length_drop.
  destruct (decide (0 <= k /\ k + Z.of_nat (length s - Z.to_nat k) <= Z.of_nat (length out)))
    as [_|Hn]; [|exfalso; apply Hn; fold L; lia].
  (* second copy: the head of the string goes to out *)
  unfold strncpy. unfold offset.
  destruct (decide (0 <= Z.of_nat L - k <= Z.of_nat (length (spec_shift k s ++ [0]))))
    as [_|Hn]; [|exfalso; apply Hn; rewrite length_app, Hlen_shift; cbn [length]; lia].
  assert (E2 : drop (Z.to_nat (Z.of_nat L - k)) (spec_shift k s ++ [0])
               = take (Z.to_nat k) s ++ [0]).
  { unfold spec_shift. rewrite <- app_assoc.
    rewrite drop_app_length'; [reflexivity|]. rewrite length_drop. unfold L. lia. }
  rewrite E2.
  assert (E3 : strncpy_data (take (Z.to_nat k) s ++ [0]) (Z.to_nat k)
               = Some (take (Z.to_nat k) s)).
  { replace (Z.to_nat k) with (length (take (Z.to_nat k) s)) at 2
      by (rewrite length_take; fold L; lia).
    apply strncpy_data_nonzero. apply Forall_take, Hnz. }
  rewrite E3. unfold store_bytes.
  set (dst1 := take (Z.to_nat k) out ++ drop (Z.to_nat k) s
               ++ drop (Z.to_nat k + (length s - Z.to_nat k)) out).
  assert (Hd1 : length dst1 = S L).
  { unfold dst1. rewrite !length_app, length_take, !length_drop. fold L. lia. }
  rewrite length_take.
  destruct (decide (0 <= 0 /\ 0 + Z.of_nat (Z.to_nat k `min` length s) <= Z.of_nat (length dst1)))
    as [_|Hn]; [|exfalso; apply Hn; fold L; lia].
  change (Z.to_nat 0) with O. rewrite take_0. cbn [app Nat.add].
  replace (Z.to_nat k `min` length s)%nat with (Z.to_nat k) by (fold L; lia).
  assert (E4 : drop (Z.to_nat k) dst1
               = drop (Z.to_nat k) s ++ drop (Z.to_nat k + (length s - Z.to_nat k)) out).
  { unfold dst1. rewrite drop_app_length'; [reflexivity|]. rewrite length_take. lia. }
  rewrite E4, (app_assoc (take (Z.to_nat k) s)), take_drop.
  unfold store. rewrite !length_app, length_drop. fold L.
  destruct (decide (0 <= Z.of_nat L
                    < Z.of_nat (L + (length out - (Z.to_nat k + (L - Z.to_nat k))))))
    as [_|Hn]; [|exfalso; apply Hn; lia].
  rewrite Nat2Z.id. unfold L at 1.
  rewrite insert_app_r_alt, Nat.sub_diag by lia.
  replace (Z.to_nat k + (L - Z.to_nat k))%nat with L by lia.
  destruct (drop L out) as [|x [|y rest]] eqn:Ed.
  - apply (f_equal length) in Ed. rewrite length_drop in Ed. cbn in Ed. lia.
  - reflexivity.
  - apply (f_equal length) in Ed. rewrite length_drop in Ed. cbn in Ed. lia.
Qed.

(** *** The index map of the scramble step is a bijection on [0, L). *)

Lemma scramble_index_range L i : 0 <= i < L -> 0 <= scramble_index L i < L.
Proof.
  intros Hi. unfold scramble_index.
  destruct (decide (i mod 2 = 0)); Z.div_mod_to_equations; lia.
Qed.

Lemma scramble_index_inj L i j :
  0 <= i < L -> 0 <= j < L -> scramble_index L i = scramble_index L j -> i = j.
Proof.
  intros Hi Hj. unfold scramble_index.
  destruct (decide (i mod 2 = 0)), (decide (j mod 2 = 0));
    Z.div_mod_to_equations; lia.
Qed.

Lemma scramble_index_surj L k :
  0 <= k < L -> exists i, 0 <= i < L /\ scramble_index L i = k.
Proof.
  intros Hk. destruct (decide (k < L / 2)) as [Hlt|Hge].
  - exists (2 * k + 1). unfold scramble_index.
    destruct (decide ((2 * k + 1) mod 2 = 0)); Z.div_mod_to_equations; lia.
  - exists (2 * (k - L / 2)). unfold scramble_index.
    destruct (decide ((2 * (k - L / 2)) mod 2 = 0)); Z.div_mod_to_equations; lia.
Qed.

(** The index computed by [unscramble_string], with C's division. *)
Lemma unscramble_index_spec L i :
  0 <= L -> 0 <= i ->
  (if decide (0 = Z.rem i 2) then Z.quot L 2 + Z.quot i 2 else Z.quot i 2)
  = scramble_index L i.
Proof.
  intros HL Hi. unfold scramble_index.
  rewrite Z.rem_mod_nonneg, !Z.quot_div_nonneg by lia.
  destruct (decide (0 = i mod 2)), (decide (i mod 2 = 0)); congruence.
Qed.

Lemma scramble_string_length s : length (scramble_string s) = length s.
Proof. unfold scramble_string. rewrite length_map, length_seqZ. lia. Qed.

Lemma scramble_string_lookup s (j : nat) :
  (j < length s)%nat ->
  scramble_string s !! j
  = s !! Z.to_nat (scramble_index (Z.of_nat (length s)) (Z.of_nat j)).
Proof.
  intros Hj. unfold scramble_string.
  rewrite list_lookup_fmap, lookup_seqZ_lt by lia. cbn [fmap option_fmap option_map].
  rewrite Z.add_0_l.
  pose proof (scramble_index_range (Z.of_nat (length s)) (Z.of_nat j) ltac:(lia)) as Hr.
  destruct (lookup_lt_is_Some_2 s (Z.to_nat (scramble_index (Z.of_nat (length s)) (Z.of_nat j))))
    as [x Hx]; [lia|].
  rewrite Hx. f_equal. apply nth_lookup_Some with (d := 0) in Hx. exact Hx.
Qed.

Lemma scramble_string_nonzero s :
  Forall (fun c => c <> 0) s -> Forall (fun c => c <> 0) (scramble_string s).
Proof.
  intros Hnz. apply Forall_lookup. intros j c Hj.
  assert (Hlt : (j < length s)%nat).
  { rewrite <- scramble_string_length. eapply lookup_lt_Some, Hj. }
  rewrite (scramble_string_lookup _ _ Hlt) in Hj.
  rewrite Forall_lookup in Hnz. eapply Hnz, Hj.
Qed.

(** The copying loop of [unscramble_string] sends [src[j]] to
    [dst[scramble_index L j]]. *)
Lemma unscramble_loop (scr out : list Z) :
  length out = S (length scr) ->
  let L := Z.of_nat (length scr) in
  exists dst,
    for_range 0 L
      (fun i dst =>
         let index :=
           if decide (0 = Z.rem i 2) then Z.quot L 2 + Z.quot i 2 else Z.quot i 2 in
         let* c := load (scr ++ [0]) i in
         store dst index c)
      out = Some dst /\
    length dst = S (length scr) /\
    forall j : nat, (j < length scr)%nat ->
      dst !! Z.to_nat (scramble_index L (Z.of_nat j)) = scr !! j.
Proof.
  intros Hout L.
  set (body := fun (i : Z) (dst : list Z) =>
         let index :=
           if decide (0 = Z.rem i 2) then Z.quot L 2 + Z.quot i 2 else Z.quot i 2 in
         let* c := load (scr ++ [0]) i in
         store dst index c).
  assert (Hbody : forall i t, 0 <= i < L -> length t = S (length scr) ->
            exists c, scr !! Z.to_nat i = Some c /\
              body i t = Some (<[Z.to_nat (scramble_index L i) := c]> t)).
  { intros i t Hi Ht. unfold body. cbv zeta.
    rewrite unscramble_index_spec by lia.
    destruct (lookup_lt_is_Some_2 scr (Z.to_nat i)) as [c Hc]; [lia|].
    exists c. split; [exact Hc|].
    unfold load. destruct (decide (0 <= i)); [|lia].
    rewrite lookup_app_l by lia. rewrite Hc.
    unfold store. pose proof (scramble_index_range L i Hi).
    destruct (decide (0 <= scramble_index L i < Z.of_nat (length t))); [reflexivity | lia]. }
  destruct (for_range_total (fun _ t => length t = S (length scr)) 0 L body out Hout)
    as [dst Hdst].
  { intros i t Hi Ht. destruct (Hbody i t Hi Ht) as (c & _ & ->).
    eexists. split; [reflexivity|]. rewrite length_insert. exact Ht. }
  exists dst. split; [exact Hdst|].
  pose proof (for_range_inv
    (fun i t => length t = S (length scr) /\
       forall j : nat, Z.of_nat j < i ->
         t !! Z.to_nat (scramble_index L (Z.of_nat j)) = scr !! j)
    0 L body out dst ltac:(lia)) as Hinv.
  destruct Hinv as [Hlen Hall]; [| | exact Hdst |].
  - split; [exact Hout | intros j Hj; lia].
  - intros i t t' Hi [Ht Hj] Hb.
    destruct (Hbody i t Hi Ht) as (c & Hc & Hb'). rewrite Hb' in Hb.
    inversion Hb; subst t'. split; [rewrite length_insert; exact Ht|].
    intros j Hlt. destruct (decide (Z.of_nat j = i)) as [<-|Hne].
    + rewrite Nat2Z.id in Hc. rewrite Hc.
      apply list_lookup_insert_eq.
      pose proof (scramble_index_range L (Z.of_nat j) Hi). lia.
    + rewrite list_lookup_insert_ne; [apply Hj; lia|].
      intros Heq. apply Hne. symmetry.
      apply (scramble_index_inj L); [lia | lia |].
      pose proof (scramble_index_range L i Hi).
      pose proof (scramble_index_range L (Z.of_nat j) ltac:(lia)). lia.
  - split; [exact Hlen|]. intros j Hj. apply Hall. lia.
Qed.

(** [unscramble_string] undoes the scramble of the source's comment. *)
Lemma unscramble_string_scramble (s out : list Z) :
  Forall (fun c => c <> 0) s ->
  length out = S (length s) ->
  unscramble_string (Ptr (scramble_string s ++ [0])) (Ptr out) = Some (Ptr (s ++ [0]), 0).
Proof.
  intros Hnz Hout. unfold unscramble_string. cbn [is_null orb deref Sstrlen].
  rewrite (strlen_nonzero _ [] (scramble_string_nonzero _ Hnz)).
  destruct (unscramble_loop (scramble_string s) out) as (dst & Hloop & Hlen & Hat).
  { rewrite scramble_string_length. exact Hout. }
  cbv zeta in Hloop. rewrite Hloop.
  rewrite scramble_string_length in *.
  unfold store. destruct (decide (0 <= Z.of_nat (length s) < Z.of_nat (length dst))); [|lia].
  rewrite Nat2Z.id. do 3 f_equal.
  apply list_eq. intros k.
  destruct (Nat.lt_trichotomy k (length s)) as [Hk | [-> | Hk]].
  - rewrite list_lookup_insert_ne by lia. rewrite lookup_app_l by lia.
    destruct (scramble_index_surj (Z.of_nat (length s)) (Z.of_nat k)) as (i & Hi & Hik); [lia|].
    specialize (Hat (Z.to_nat i) ltac:(lia)).
    rewrite Z2Nat.id, Hik, Nat2Z.id in Hat by lia. rewrite Hat.
    rewrite scramble_string_lookup by lia.
    rewrite Z2Nat.id, Hik, Nat2Z.id by lia. reflexivity.
  - rewrite list_lookup_insert_eq by lia.
    rewrite lookup_app_r, Nat.sub_diag by lia. reflexivity.
  - rewrite list_lookup_insert_ne by lia.
    rewrite !lookup_ge_None_2; [reflexivity | rewrite length_app; cbn [length]; lia | lia].
Qed.

(** C4, as stated, fails: the scramble step the specification writes is
    the very mapping [unscramble_string] applies, so the two compose to the
    mapping applied twice.  On ABCD the result is DCBA. *)
Lemma spec_scramble_unscramble_counterexample :
  Forall upper (bytes_of "ABCD") /\
  (2 <= length (bytes_of "ABCD"))%nat /\
  spec_scramble (bytes_of "ABCD") = bytes_of "BDAC" /\
  unscramble_string (Ptr (spec_scramble (bytes_of "ABCD") ++ [0])) (Ptr (replicate 5 0))
  = Some (Ptr (cstr "DCBA"), 0) /\
  cstr "DCBA" <> cstr "ABCD".
Proof.
  split; [repeat constructor; unfold upper; cbn; lia|].
  split; [cbn; lia|].
  split; [reflexivity|].
  split; [reflexivity | discriminate].
Qed.

(** C4, amended.  For every string [s] of length at least 2 over A..Z
    and every output block of the size of [s] and its terminator:
    [unscramble_string] applied to the scrambled string of the source's
    comment ([t'[i] = t[L/2 + i/2]] for even [i], [t'[i] = t[i/2]] for odd
    [i]) gives back [s]; and for [0 <= k <= L], [unshift_string] with shift
    [k] applied to [s] shifted by [k] gives back [s]. *)
Theorem unscramble_unshift_inverse (s out : list Z) (k : Z) :
  Forall upper s ->
  (2 <= length s)%nat ->
  0 <= k <= Z.of_nat (length s) ->
  length out = S (length s) ->
  unscramble_string (Ptr (scramble_string s ++ [0])) (Ptr out) = Some (Ptr (s ++ [0]), 0) /\
  unshift_string (Ptr (spec_shift k s ++ [0])) k (Ptr out) = Some (Ptr (s ++ [0]), 0).
Proof.
  intros Hup _ Hk Hout. apply upper_nonzero in Hup. split.
  - apply unscramble_string_scramble; assumption.
  - apply unshift_string_shift; assumption.
Qed.

Lemma unscramble_unshift_inverse_witness :
  unscramble_string (Ptr (scramble_string (bytes_of "ABCDE") ++ [0])) (Ptr (replicate 6 0))
  = Some (Ptr (bytes_of "ABCDE" ++ [0]), 0) /\
  unshift_string (Ptr (spec_shift 2 (bytes_of "ABCDE") ++ [0])) 2 (Ptr (replicate 6 0))
  = Some (Ptr (bytes_of "ABCDE" ++ [0]), 0).
Proof.
  apply (unscramble_unshift_inverse (bytes_of "ABCDE") (replicate 6 0) 2).
  - repeat constructor; unfold upper; cbn; lia.
  - cbn. lia.
  - cbn. lia.
  - reflexivity.
Defined.

(** C3: the code on a 3x2 board.  [formatted_solution] walks the cells
    [j*h + i] (0, 2, 1, 3, 2, 4) where the canonical order is [j*w + i]
    (0, 3, 1, 4, 2, 5): it returns ACBDCE for the board ABCDEF whose
    canonical solution is ADBECF, and [unformat_unlocked_sol] writes the
    string UVWXYZ back as UWYXZF where the canonical positions give UWYVXZ. *)
Theorem formatted_solution_wide_board :
  formatted_solution (Ptr wide_puzzle) = Some (Ptr (cstr "ACBDCE")) /\
  canonical_solution 3 2 (bytes_of "ABCDEF") = bytes_of "ADBECF" /\
  (exists p', unformat_unlocked_sol (Ptr wide_puzzle) (Ptr (cstr "UVWXYZ")) = Some (Ptr p', 0) /\
              solution p' = Ptr (cstr "UWYXZF")) /\
  canonical_unformat 3 2 (bytes_of "ABCDEF") (bytes_of "UVWXYZ") = bytes_of "UWYVXZ".
Proof.
  split; [reflexivity|]. split; [reflexivity|]. split; [|reflexivity].
  eexists. split; reflexivity.
Qed.

End ScrambleSpec.

(** ** The decoding steps of [puz_unlock_solution] never go wrong *)

Module DecodeFacts.
Import CksumFacts SizeSpec ScrambleSpec.

Lemma strlen_split b len :
  strlen b = Some len ->
  exists s rest,
    b = s ++ 0 :: rest /\ Z.of_nat (length s) = len /\ Forall (fun c => c <> 0) s.
Proof.
  revert len. induction b as [|c b IH]; intros len H; cbn in H; [discriminate|].
  destruct (decide (c = 0)) as [->|Hc].
  - inversion H; subst. exists [], b. repeat split. constructor.
  - destruct (strlen b) as [m|]; [|discriminate]. inversion H; subst.
    destruct (IH m eq_refl) as (s & rest & -> & Hlen & Hnz).
    exists (c :: s), rest. split; [reflexivity|]. split; [cbn [length]; lia|].
    constructor; assumption.
Qed.

Lemma strncpy_data_pad l r k :
  Forall (fun c => c <> 0) l ->
  strncpy_data (l ++ 0 :: r) (length l + S k) = Some (l ++ replicate (S k) 0).
Proof.
  induction 1 as [|c l Hc _ IH]; cbn [app length Nat.add strncpy_data].
  - destruct (decide (0 = 0)); [reflexivity | contradiction].
  - destruct (decide (c = 0)); [contradiction|]. rewrite IH. reflexivity.
Qed.

Lemma insert_last (l : list Z) n v :
  length l = S n -> <[n := v]> l = take n l ++ [v].
Proof.
  intros Hl. rewrite <- (take_drop n l) at 1.
  rewrite insert_app_r_alt by (rewrite length_take; lia).
  rewrite length_take. replace (n - n `min` length l)%nat with O by lia.
  destruct (drop n l) as [|x [|y rest]] eqn:Ed.
  - apply (f_equal length) in Ed. rewrite length_drop in Ed. cbn in Ed. lia.
  - reflexivity.
  - apply (f_equal length) in Ed. rewrite length_drop in Ed. cbn in Ed. lia.
Qed.

Lemma unscramble_string_defined (s out : list Z) :
  Forall (fun c => c <> 0) s ->
  length out = S (length s) ->
  exists t,
    unscramble_string (Ptr (s ++ [0])) (Ptr out) = Some (Ptr (t ++ [0]), 0) /\
    length t = length s /\ Forall (fun c => c <> 0) t.
Proof.
  intros Hnz Hout. unfold unscramble_string. cbn [is_null orb deref Sstrlen].
  rewrite (strlen_nonzero _ [] Hnz).
  destruct (unscramble_loop s out Hout) as (dst & Hloop & Hlen & Hat).
  cbv zeta in Hloop. rewrite Hloop.
  unfold store. destruct (decide (0 <= Z.of_nat (length s) < Z.of_nat (length dst))); [|lia].
  rewrite Nat2Z.id, (insert_last _ _ _ Hlen).
  exists (take (length s) dst). split; [reflexivity|].
  split; [rewrite length_take; lia|].
  apply Forall_lookup. intros k c Hk.
  assert (Hlt : (k < length s)%nat).
  { apply lookup_lt_Some in Hk. rewrite length_take in Hk. lia. }
  rewrite lookup_take_lt in Hk by exact Hlt.
  destruct (scramble_index_surj (Z.of_nat (length s)) (Z.of_nat k)) as (i & Hi & Hik); [lia|].
  specialize (Hat (Z.to_nat i) ltac:(lia)).
  rewrite Z2Nat.id, Hik, Nat2Z.id in Hat by lia. rewrite Hat in Hk.
  rewrite Forall_lookup in Hnz. eapply Hnz, Hk.
Qed.

Lemma unshift_string_defined (t out : list Z) (d : Z) :
  Forall (fun c => c <> 0) t ->
  length out = S (length t) ->
  0 <= d ->
  unshift_string (Ptr (t ++ [0])) d (Ptr out) = Some (Ptr out, u16 (-1)) \/
  exists u,
    unshift_string (Ptr (t ++ [0])) d (Ptr out) = Some (Ptr (u ++ [0]), 0) /\
    length u = length t /\ Forall (fun c => c <> 0) u.
Proof.
  intros Hnz Hout Hd.
  destruct (decide (Z.of_nat (length t) < d)) as [Hlt|Hge].
  - left. unfold unshift_string. cbn [is_null orb deref Sstrlen].
    rewrite (strlen_nonzero _ [] Hnz).
    destruct (decide (Z.of_nat (length t) < d)); [reflexivity | contradiction].
  - right.
    set (m := (length t - Z.to_nat d)%nat).
    set (u := drop m t ++ take m t).
    assert (Hu : length u = length t).
    { unfold u. rewrite length_app, length_drop, length_take. lia. }
    assert (Hshift : spec_shift d u = t).
    { unfold spec_shift, u.
      rewrite drop_app_length', take_app_length' by (rewrite length_drop; unfold m; lia).
      apply take_drop. }
    assert (Hnzu : Forall (fun c => c <> 0) u).
    { unfold u. apply Forall_app. split; [apply Forall_drop | apply Forall_take]; exact Hnz. }
    exists u. split; [|split; [exact Hu | exact Hnzu]].
    rewrite <- Hshift at 1. apply unshift_string_shift; [exact Hnzu | lia | lia].
Qed.

(** The loop that subtracts the digits keeps the string free of NULs. *)
Lemma subtract_loop_defined (digits u : list Z) :
  length digits = 4%nat ->
  Forall (fun c => c <> 0) u ->
  exists v,
    for_range 0 (Z.of_nat (length u))
      (fun j w1 =>
         let* c := load w1 j in
         let* d := load digits (Z.rem j 4) in
         let c := u8 (c - d) in
         let* w1 := store w1 j c in
         if decide (c < 65) then store w1 j (u8 (c + 26)) else Some w1)
      (u ++ [0]) = Some (v ++ [0]) /\
    length v = length u /\ Forall (fun c => c <> 0) v.
Proof.
  intros Hdig Hnz.
  destruct (for_range_total_inv
    (fun (_ : Z) (w : list Z) =>
       exists v, w = v ++ [0] /\ length v = length u /\ Forall (fun c => c <> 0) v)
    0 (Z.of_nat (length u))
    (fun j w1 =>
       let* c := load w1 j in
       let* d := load digits (Z.rem j 4) in
       let c := u8 (c - d) in
       let* w1 := store w1 j c in
       if decide (c < 65) then store w1 j (u8 (c + 26)) else Some w1)
    (u ++ [0])) as (w & Hw & (v & -> & Hv)); [lia | eauto | | eauto].
  intros j w Hj (v & -> & Hlen & Hv).
  unfold load. destruct (decide (0 <= j)); [|lia].
  destruct (lookup_lt_is_Some_2 v (Z.to_nat j)) as [c Hc]; [lia|].
  rewrite lookup_app_l, Hc by lia.
  assert (Hr : 0 <= Z.rem j 4 < 4) by (apply Z.rem_bound_pos; lia).
  destruct (decide (0 <= Z.rem j 4)); [|lia].
  destruct (lookup_lt_is_Some_2 digits (Z.to_nat (Z.rem j 4))) as [d Hdg]; [lia|].
  rewrite Hdg. cbv zeta.
  pose proof (u8_range (c - d)) as Hc8.
  unfold store at 1. rewrite length_app. cbn [length].
  destruct (decide (0 <= j < Z.of_nat (length v + 1))); [|lia].
  destruct (decide (u8 (c - d) < 65)) as [Hlo|Hhi].
  - unfold store. rewrite length_insert, length_app. cbn [length].
    destruct (decide (0 <= j < Z.of_nat (length v + 1))); [|lia].
    eexists. split; [reflexivity|].
    rewrite list_insert_insert_eq, insert_app_l by lia.
    eexists. split; [reflexivity|]. split; [rewrite length_insert; exact Hlen|].
    apply Forall_insert; [exact Hv|]. rewrite u8_small by lia. lia.
  - eexists. split; [reflexivity|]. rewrite insert_app_l by lia.
    eexists. split; [reflexivity|]. split; [rewrite length_insert; exact Hlen|].
    apply Forall_insert; [exact Hv|]. lia.
Qed.

Lemma unlock_round_defined digits (s w2 : list Z) i :
  length digits = 4%nat ->
  Forall (fun d => 0 <= d) digits ->
  0 <= i < 4 ->
  Forall (fun c => c <> 0) s ->
  length w2 = S (length s) ->
  unlock_round digits (Z.of_nat (length s)) i (s ++ [0], w2) = Some (Return (-4)) \/
  exists v t,
    unlock_round digits (Z.of_nat (length s)) i (s ++ [0], w2)
    = Some (Continue (v ++ [0], t ++ [0])) /\
    length v = length s /\ Forall (fun c => c <> 0) v /\ length t = length s.
Proof.
  intros Hdig Hpos Hi Hnz Hw2. unfold unlock_round.
  destruct (unscramble_string_defined s w2 Hnz Hw2) as (t & -> & Ht & Hnzt).
  cbn [deref].
  destruct (lookup_lt_is_Some_2 digits (Z.to_nat i)) as [d Hd]; [lia|].
  assert (Hload : load digits i = Some d).
  { unfold load. destruct (decide (0 <= i)); [exact Hd | lia]. }
  rewrite !Hload.
  assert (Hd0 : 0 <= d).
  { rewrite Forall_lookup in Hpos. eapply Hpos, Hd. }
  destruct (unshift_string_defined t (s ++ [0]) d Hnzt) as [-> | (u & -> & Hu & Hnzu)];
    [rewrite length_app; cbn [length]; lia | exact Hd0 | |].
  - left. cbn [deref].
    destruct (decide (0 <> 0 \/ u16 (-1) <> 0)) as [_|Hn]; [reflexivity|].
    exfalso. apply Hn. right. discriminate.
  - right. cbn [deref].
    destruct (decide (0 <> 0 \/ 0 <> 0)) as [[?|?]|_]; [contradiction | contradiction |].
    destruct (subtract_loop_defined digits u Hdig Hnzu) as (v & Hv & Hlv & Hnzv).
    rewrite <- Ht, <- Hu. cbv zeta in Hv. rewrite Hv.
    exists v, t. split; [reflexivity|]. repeat split; [lia | exact Hnzv | lia].
Qed.

Lemma unlock_rounds_defined digits n :
  length digits = 4%nat ->
  Forall (fun d => 0 <= d) digits ->
  (n <= 4)%nat ->
  forall s w2,
    Forall (fun c => c <> 0) s ->
    length w2 = S (length s) ->
    unlock_rounds digits (Z.of_nat (length s)) n (s ++ [0], w2) = Some (Return (-4)) \/
    exists w1' w2',
      unlock_rounds digits (Z.of_nat (length s)) n (s ++ [0], w2)
      = Some (Continue (w1', w2')) /\
      length w1' = S (length s) /\ length w2' = S (length s).
Proof.
  intros Hdig Hpos. induction n as [|n IH]; intros Hn s w2 Hnz Hw2.
  - right. exists (s ++ [0]), w2. split; [reflexivity|].
    split; [rewrite length_app; cbn [length]; lia | exact Hw2].
  - cbn [unlock_rounds].
    destruct (unlock_round_defined digits s w2 (Z.of_nat n) Hdig Hpos ltac:(lia) Hnz Hw2)
      as [-> | (v & t & -> & Hv & Hnzv & Ht)].
    + left. reflexivity.
    + rewrite <- Hv.
      destruct (IH ltac:(lia) v (t ++ [0]) Hnzv) as [-> | (w1' & w2' & -> & H1 & H2)].
      * rewrite length_app. cbn [length]. lia.
      * left. reflexivity.
      * right. exists w1', w2'. split; [reflexivity|]. split; lia.
Qed.

Lemma strip_black_defined (len : Z) (w1 w2 : list Z) :
  0 <= len ->
  Z.of_nat (length w1) = len + 1 ->
  Z.of_nat (length w2) = len + 1 ->
  exists w, strip_black len w1 w2 = Some w /\ Z.of_nat (length w) = len + 1.
Proof.
  intros Hlen H1 H2. unfold strip_black.
  destruct (for_range_total_inv
    (fun (j : Z) (st : list Z * Z) =>
       Z.of_nat (length (fst st)) = len + 1 /\ 0 <= snd st <= j)
    0 len
    (fun j '(w2, index) =>
       let* c := load w1 j in
       if decide (c <> 46) then
         let* w2 := store w2 index c in Some (w2, index + 1)
       else Some (w2, index))
    (w2, 0)) as ([w idx] & -> & Hw & Hidx); [lia | cbn; lia | |].
  - intros j [w idx] Hj [Hw Hidx]. cbn [fst snd] in Hw, Hidx.
    unfold load. destruct (decide (0 <= j)); [|lia].
    destruct (lookup_lt_is_Some_2 w1 (Z.to_nat j)) as [c ->]; [lia|].
    destruct (decide (c <> 46)).
    + unfold store. destruct (decide (0 <= idx < Z.of_nat (length w))); [|lia].
      eexists. split; [reflexivity|]. cbn [fst snd]. rewrite length_insert. lia.
    + eexists. split; [reflexivity|]. cbn [fst snd]. lia.
  - cbn [fst snd] in Hw, Hidx. unfold store.
    destruct (decide (0 <= len < Z.of_nat (length w))); [|lia].
    eexists. split; [reflexivity|]. rewrite length_insert. exact Hw.
Qed.

(** From a string [inp] of length [len], the decoding ends in the early
    return [-4] or with both workspaces, of [len + 1] bytes each. *)
Lemma unlock_decode_defined (inp : ptr block) (len : Z) (digits : list Z) :
  Sstrlen inp = Some len ->
  length digits = 4%nat ->
  Forall (fun d => 0 <= d) digits ->
  unlock_decode inp len digits = Some (Return (-4)) \/
  exists w1 w2,
    unlock_decode inp len digits = Some (Continue (w1, w2)) /\
    Z.of_nat (length w1) = len + 1 /\ Z.of_nat (length w2) = len + 1.
Proof.
  intros Hlen Hdig Hpos. unfold Sstrlen in Hlen.
  destruct inp as [|b|]; cbn [deref] in Hlen; try discriminate.
  destruct (strlen_split b len Hlen) as (s & rest & -> & <- & Hnz).
  unfold unlock_decode. cbn [deref].
  unfold strncpy, offset.
  destruct (decide (0 <= 0 <= Z.of_nat (length (s ++ 0 :: rest)))) as [_|Hn];
    [|exfalso; apply Hn; lia].
  change (Z.to_nat 0) with O. rewrite drop_0.
  replace (Z.to_nat (Z.of_nat (length s) + 1)) with (length s + 1)%nat by lia.
  rewrite (strncpy_data_pad s rest 0 Hnz). cbn [replicate].
  unfold store_bytes. rewrite length_app, length_replicate. cbn [length].
  destruct (decide (0 <= 0 /\ 0 + Z.of_nat (length s + 1) <= Z.of_nat (length s + 1)))
    as [_|Hn]; [|exfalso; apply Hn; lia].
  change (Z.to_nat 0) with O. rewrite take_0. cbn [app Nat.add].
  rewrite drop_ge, app_nil_r by (rewrite length_replicate; lia).
  destruct (unlock_rounds_defined digits 4 Hdig Hpos ltac:(lia) s
              (replicate (length s + 1) 0) Hnz)
    as [-> | (w1 & w2 & -> & H1 & H2)].
  - rewrite length_replicate. lia.
  - left. reflexivity.
  - right.
    destruct (strip_black_defined (Z.of_nat (length s)) w1 w2) as (w & -> & Hw);
      [lia | lia | lia |].
    exists w1, w. split; [reflexivity|]. split; lia.
Qed.

Lemma code_digits_nonneg code :
  0 <= code -> length (code_digits code) = 4%nat /\ Forall (fun d => 0 <= d) (code_digits code).
Proof.
  intros Hc. split; [reflexivity|]. unfold code_digits.
  assert (Hq : forall k, 0 < k -> 0 <= Z.quot code k) by (intros; apply Z.quot_pos; lia).
  assert (H10 : forall x, 0 <= x -> 0 <= Z.rem x 10).
  { intros x Hx. pose proof (Z.rem_bound_pos x 10 Hx). lia. }
  repeat constructor; apply H10; first [lia | apply Hq; lia].
Qed.

End DecodeFacts.

Module DecodeValue.
Import CksumFacts SizeSpec ScrambleSpec DecodeFacts.

(** *** The value of the decoding *)

Lemma evens_odds_lookup (s : list Z) (k : nat) :
  evens s !! k = s !! (2 * k)%nat /\ odds s !! k = s !! (2 * k + 1)%nat.
Proof.
  revert k. induction s as [|c s IH]; intros k.
  - cbn [evens odds]. rewrite !lookup_nil. split; reflexivity.
  - cbn [evens odds]. split.
    + destruct k as [|k]; [reflexivity|].
      replace (2 * S k)%nat with (S (2 * k + 1)) by lia.
      cbn [lookup list_lookup]. apply IH.
    + replace (2 * k + 1)%nat with (S (2 * k)) by lia.
      cbn [lookup list_lookup]. apply IH.
Qed.

Lemma evens_odds_length (s : list Z) :
  length (evens s) = ((length s + 1) / 2)%nat /\ length (odds s) = (length s / 2)%nat.
Proof.
  induction s as [|c s [IHe IHo]].
  - split; reflexivity.
  - cbn [evens odds length]. rewrite IHe, IHo. split.
    + replace (S (length s) + 1)%nat with (length s + 1 * 2)%nat by lia.
      rewrite Nat.div_add by lia. lia.
    + f_equal. lia.
Qed.

Lemma odds_length (s : list Z) :
  Z.of_nat (length (odds s)) = Z.of_nat (length s) / 2.
Proof.
  rewrite (proj2 (evens_odds_length s)), Nat2Z.inj_div. reflexivity.
Qed.

Lemma evens_length (s : list Z) :
  Z.of_nat (length (evens s)) = (Z.of_nat (length s) + 1) / 2.
Proof.
  rewrite (proj1 (evens_odds_length s)), Nat2Z.inj_div, Nat2Z.inj_add. reflexivity.
Qed.

Lemma unscrambled_length (s : list Z) : length (unscrambled s) = length s.
Proof.
  unfold unscrambled. rewrite length_app.
  pose proof (odds_length s). pose proof (evens_length s).
  Z.div_mod_to_equations. lia.
Qed.

Lemma unscrambled_lookup (s : list Z) (i : nat) :
  (i < length s)%nat ->
  unscrambled s !! Z.to_nat (scramble_index (Z.of_nat (length s)) (Z.of_nat i)) = s !! i.
Proof.
  intros Hi. unfold unscrambled, scramble_index.
  pose proof (odds_length s) as Ho.
  destruct (decide (Z.of_nat i mod 2 = 0)) as [Hev|Hodd].
  - rewrite lookup_app_r by (Z.div_mod_to_equations; lia).
    rewrite (proj1 (evens_odds_lookup s _)). f_equal.
    Z.div_mod_to_equations. lia.
  - rewrite lookup_app_l by (Z.div_mod_to_equations; lia).
    rewrite (proj2 (evens_odds_lookup s _)). f_equal.
    Z.div_mod_to_equations. lia.
Qed.

Lemma unscrambled_nonzero (s : list Z) :
  Forall (fun c => c <> 0) s -> Forall (fun c => c <> 0) (unscrambled s).
Proof.
  intros Hnz. apply Forall_lookup. intros k c Hk.
  assert (Hlt : (k < length s)%nat).
  { rewrite <- unscrambled_length. eapply lookup_lt_Some, Hk. }
  destruct (scramble_index_surj (Z.of_nat (length s)) (Z.of_nat k)) as (i & Hi & Hik); [lia|].
  pose proof (unscrambled_lookup s (Z.to_nat i) ltac:(lia)) as Hl.
  rewrite Z2Nat.id, Hik, Nat2Z.id in Hl by lia. rewrite Hl in Hk.
  rewrite Forall_lookup in Hnz. eapply Hnz, Hk.
Qed.

(** [unscramble_string] computes [unscrambled]. *)
Lemma unscramble_string_value (s out : list Z) :
  Forall (fun c => c <> 0) s ->
  length out = S (length s) ->
  unscramble_string (Ptr (s ++ [0])) (Ptr out) = Some (Ptr (unscrambled s ++ [0]), 0).
Proof.
  intros Hnz Hout. unfold unscramble_string. cbn [is_null orb deref Sstrlen].
  rewrite (strlen_nonzero _ [] Hnz).
  destruct (unscramble_loop s out Hout) as (dst & Hloop & Hlen & Hat).
  cbv zeta in Hloop. rewrite Hloop.
  unfold store. destruct (decide (0 <= Z.of_nat (length s) < Z.of_nat (length dst))); [|lia].
  rewrite Nat2Z.id, (insert_last _ _ _ Hlen).
  do 2 f_equal. apply (f_equal (fun l => Ptr (l ++ [0]))).
  apply list_eq. intros k.
  destruct (decide (k < length s)%nat) as [Hk|Hk].
  - rewrite lookup_take_lt by exact Hk.
    destruct (scramble_index_surj (Z.of_nat (length s)) (Z.of_nat k)) as (i & Hi & Hik); [lia|].
    specialize (Hat (Z.to_nat i) ltac:(lia)).
    pose proof (unscrambled_lookup s (Z.to_nat i) ltac:(lia)) as Hl.
    rewrite Z2Nat.id, Hik, Nat2Z.id in Hat, Hl by lia. congruence.
  - rewrite !lookup_ge_None_2; [reflexivity | rewrite unscrambled_length; lia |
      rewrite length_take; lia].
Qed.

Lemma unshifted_length (d : Z) (t : list Z) : length (unshifted d t) = length t.
Proof. unfold unshifted. rewrite length_app, length_drop, length_take. lia. Qed.

Lemma unshifted_nonzero (d : Z) (t : list Z) :
  Forall (fun c => c <> 0) t -> Forall (fun c => c <> 0) (unshifted d t).
Proof.
  intros Hnz. unfold unshifted. apply Forall_app.
  split; [apply Forall_drop | apply Forall_take]; exact Hnz.
Qed.

(** [unshift_string] computes [unshifted], or fails on a shift longer than
    the string. *)
Lemma unshift_string_value (t out : list Z) (d : Z) :
  Forall (fun c => c <> 0) t ->
  length out = S (length t) ->
  0 <= d ->
  unshift_string (Ptr (t ++ [0])) d (Ptr out)
  = Some (if decide (Z.of_nat (length t) < d) then (Ptr out, u16 (-1))
          else (Ptr (unshifted d t ++ [0]), 0)).
Proof.
  intros Hnz Hout Hd.
  destruct (decide (Z.of_nat (length t) < d)) as [Hlt|Hge].
  - unfold unshift_string. cbn [is_null orb deref Sstrlen].
    rewrite (strlen_nonzero _ [] Hnz).
    destruct (decide (Z.of_nat (length t) < d)); [reflexivity | contradiction].
  - assert (Hshift : spec_shift d (unshifted d t) = t).
    { unfold spec_shift, unshifted.
      rewrite drop_app_length', take_app_length' by (rewrite length_drop; lia).
      apply take_drop. }
    rewrite <- Hshift at 1.
    apply unshift_string_shift;
      [apply unshifted_nonzero, Hnz | rewrite unshifted_length; lia |
       rewrite unshifted_length; lia].
Qed.

Lemma minus_digit_nonzero (c d : Z) : minus_digit c d <> 0.
Proof.
  unfold minus_digit. pose proof (u8_range (c - d)).
  destruct (decide (u8 (c - d) < 65)); [rewrite u8_small by lia|]; lia.
Qed.

Lemma minus_digits_length (digits u : list Z) :
  length (minus_digits digits u) = length u.
Proof. unfold minus_digits. apply length_imap. Qed.

Lemma minus_digits_nonzero (digits u : list Z) :
  Forall (fun c => c <> 0) (minus_digits digits u).
Proof.
  apply Forall_lookup. intros k c Hk. unfold minus_digits in Hk.
  rewrite list_lookup_imap in Hk. destruct (u !! k); [|discriminate].
  inversion Hk; subst. apply minus_digit_nonzero.
Qed.

(** The loop that subtracts the digits computes [minus_digits]. *)
Lemma subtract_loop_value (digits u : list Z) :
  length digits = 4%nat ->
  for_range 0 (Z.of_nat (length u))
    (fun j w1 =>
       let* c := load w1 j in
       let* d := load digits (Z.rem j 4) in
       let c := u8 (c - d) in
       let* w1 := store w1 j c in
       if decide (c < 65) then store w1 j (u8 (c + 26)) else Some w1)
    (u ++ [0]) = Some (minus_digits digits u ++ [0]).
Proof.
  intros Hdig.
  set (f := fun (j : nat) (c : Z) => minus_digit c (nth (j mod 4)%nat digits 0)).
  destruct (for_range_total_inv
    (fun (j : Z) (w : list Z) =>
       length w = S (length u) /\
       forall k : nat,
         w !! k = if decide (Z.of_nat k < j) then f k <$> u !! k else (u ++ [0]) !! k)
    0 (Z.of_nat (length u))
    (fun j w1 =>
       let* c := load w1 j in
       let* d := load digits (Z.rem j 4) in
       let c := u8 (c - d) in
       let* w1 := store w1 j c in
       if decide (c < 65) then store w1 j (u8 (c + 26)) else Some w1)
    (u ++ [0])) as (w & Hw & Hlen & Hat); [lia | | |].
  - split; [rewrite length_app; cbn [length]; lia|].
    intros k. destruct (decide (Z.of_nat k < 0)); [lia | reflexivity].
  - intros j w Hj (Hlen & Hat).
    unfold load. destruct (decide (0 <= j)); [|lia].
    destruct (lookup_lt_is_Some_2 u (Z.to_nat j)) as [c Hc]; [lia|].
    pose proof (Hat (Z.to_nat j)) as Hwj.
    destruct (decide (Z.of_nat (Z.to_nat j) < j)); [lia|].
    rewrite lookup_app_l, Hc in Hwj by lia. rewrite Hwj.
    assert (Hr : 0 <= Z.rem j 4 < 4) by (apply Z.rem_bound_pos; lia).
    destruct (decide (0 <= Z.rem j 4)); [|lia].
    destruct (lookup_lt_is_Some_2 digits (Z.to_nat (Z.rem j 4))) as [d Hdg]; [lia|].
    rewrite Hdg. cbv zeta.
    assert (Hfd : f (Z.to_nat j) c = minus_digit c d).
    { unfold f. f_equal. apply nth_lookup_Some.
      replace (Z.to_nat j mod 4)%nat with (Z.to_nat (Z.rem j 4)); [exact Hdg|].
      rewrite Z.rem_mod_nonneg, Z2Nat.inj_mod by lia. reflexivity. }
    exists (<[Z.to_nat j := minus_digit c d]> w). split.
    + unfold store at 1. destruct (decide (0 <= j < Z.of_nat (length w))); [|lia].
      unfold minus_digit. cbv zeta.
      destruct (decide (u8 (c - d) < 65)).
      * unfold store. rewrite length_insert.
        destruct (decide (0 <= j < Z.of_nat (length w))); [|lia].
        rewrite list_insert_insert_eq. reflexivity.
      * reflexivity.
    + split; [rewrite length_insert; exact Hlen|].
      intros k. destruct (decide (k = Z.to_nat j)) as [->|Hne].
      * rewrite list_lookup_insert_eq by lia.
        destruct (decide (Z.of_nat (Z.to_nat j) < j + 1)); [|lia].
        rewrite Hc. cbn. rewrite Hfd. reflexivity.
      * rewrite list_lookup_insert_ne by congruence. rewrite Hat.
        destruct (decide (Z.of_nat k < j)), (decide (Z.of_nat k < j + 1));
          try reflexivity; lia.
  - rewrite Hw. f_equal. apply list_eq. intros k. rewrite Hat.
    destruct (decide (Z.of_nat k < Z.of_nat (length u))).
    + rewrite lookup_app_l by (rewrite minus_digits_length; lia).
      unfold minus_digits. rewrite list_lookup_imap. reflexivity.
    + rewrite !lookup_app_r by (rewrite ?minus_digits_length; lia).
      rewrite minus_digits_length. reflexivity.
Qed.

Lemma decode_round_length (digits s : list Z) (i : nat) :
  length (decode_round digits s i) = length s.
Proof.
  unfold decode_round.
  rewrite minus_digits_length, unshifted_length, unscrambled_length. reflexivity.
Qed.

(** One round computes [decode_round], or returns [-4] on a digit larger
    than the length of the string. *)
Lemma unlock_round_value (digits : list Z) (len : Z) (s w2 : list Z) (i : nat) :
  length digits = 4%nat ->
  Forall (fun d => 0 <= d) digits ->
  (i < 4)%nat ->
  Forall (fun c => c <> 0) s ->
  len = Z.of_nat (length s) ->
  length w2 = S (length s) ->
  unlock_round digits len (Z.of_nat i) (s ++ [0], w2)
  = Some (if decide (len < nth i digits 0) then Return (-4)
          else Continue (decode_round digits s i ++ [0], unscrambled s ++ [0])).
Proof.
  intros Hdig Hpos Hi Hnz -> Hw2. unfold unlock_round.
  rewrite (unscramble_string_value s w2 Hnz Hw2). cbn [deref].
  destruct (lookup_lt_is_Some_2 digits i) as [d Hd]; [lia|].
  assert (Hload : load digits (Z.of_nat i) = Some d).
  { unfold load. destruct (decide (0 <= Z.of_nat i)); [|lia].
    rewrite Nat2Z.id. exact Hd. }
  rewrite Hload. unfold decode_round. rewrite (nth_lookup_Some _ _ 0 _ Hd).
  assert (Hd0 : 0 <= d).
  { rewrite Forall_lookup in Hpos. eapply Hpos, Hd. }
  rewrite (unshift_string_value (unscrambled s) (s ++ [0]) d);
    [| apply unscrambled_nonzero, Hnz
     | rewrite length_app, unscrambled_length; cbn [length]; lia
     | exact Hd0].
  rewrite unscrambled_length.
  destruct (decide (Z.of_nat (length s) < d)) as [Hlt|Hge]; cbn [deref].
  - destruct (decide (0 <> 0 \/ u16 (-1) <> 0)) as [_|Hn]; [reflexivity|].
    exfalso. apply Hn. right. discriminate.
  - destruct (decide (0 <> 0 \/ 0 <> 0)) as [[?|?]|_]; [contradiction | contradiction |].
    pose proof (subtract_loop_value digits (unshifted d (unscrambled s)) Hdig) as Hv.
    rewrite unshifted_length, unscrambled_length in Hv. cbv zeta in Hv.
    rewrite Hv. reflexivity.
Qed.

(** The four rounds compute the candidate, and leave the string
    unscrambled by the last round in [workspace2]. *)
Lemma unlock_rounds_value (digits : list Z) (s w2 : list Z) :
  length digits = 4%nat ->
  Forall (fun d => 0 <= d) digits ->
  Forall (fun c => c <> 0) s ->
  length w2 = S (length s) ->
  unlock_rounds digits (Z.of_nat (length s)) 4 (s ++ [0], w2)
  = Some (if decide (Exists (fun d => Z.of_nat (length s) < d) digits) then Return (-4)
          else Continue (unlock_candidate digits s ++ [0],
                         unscrambled (fold_left (decode_round digits) [3; 2; 1]%nat s)
                         ++ [0])).
Proof.
  intros Hdig Hpos Hnz Hw2.
  destruct digits as [|d0 [|d1 [|d2 [|d3 [|]]]]]; try discriminate Hdig.
  set (digits := [d0; d1; d2; d3]) in *.
  assert (Hround : forall (i : nat) (t v : list Z),
            (i < 4)%nat -> Forall (fun c => c <> 0) t -> length t = length s ->
            length v = S (length s) ->
            unlock_round digits (Z.of_nat (length s)) (Z.of_nat i) (t ++ [0], v)
            = Some (if decide (Z.of_nat (length s) < nth i digits 0) then Return (-4)
                    else Continue (decode_round digits t i ++ [0], unscrambled t ++ [0]))).
  { intros i t v Hi Ht Hlt Hv.
    apply unlock_round_value; [exact Hdig | exact Hpos | exact Hi | exact Ht | lia | lia]. }
  assert (Hnzr : forall t i, Forall (fun c => c <> 0) (decode_round digits t i)).
  { intros t i. apply minus_digits_nonzero. }
  assert (Hlen1 : forall t, length (unscrambled t ++ [0]) = S (length t)).
  { intros t. rewrite length_app, unscrambled_length. cbn [length]. lia. }
  unfold unlock_candidate. cbn [unlock_rounds fold_left].
  rewrite Hround by (try assumption; lia).
  change (nth 3 digits 0) with d3.
  destruct (decide (Z.of_nat (length s) < d3)) as [H3|H3].
  { destruct (decide (Exists (fun d => Z.of_nat (length s) < d) digits)) as [_|Hn];
      [reflexivity|].
    exfalso. apply Hn. do 3 apply Exists_cons_tl. apply Exists_cons_hd. exact H3. }
  rewrite Hround;
    [| lia | apply Hnzr | apply decode_round_length | rewrite Hlen1; reflexivity].
  change (nth 2 digits 0) with d2.
  destruct (decide (Z.of_nat (length s) < d2)) as [H2|H2].
  { destruct (decide (Exists (fun d => Z.of_nat (length s) < d) digits)) as [_|Hn];
      [reflexivity|].
    exfalso. apply Hn. do 2 apply Exists_cons_tl. apply Exists_cons_hd. exact H2. }
  rewrite Hround;
    [| lia | apply Hnzr | rewrite !decode_round_length; reflexivity
     | rewrite Hlen1, decode_round_length; reflexivity].
  change (nth 1 digits 0) with d1.
  destruct (decide (Z.of_nat (length s) < d1)) as [H1|H1].
  { destruct (decide (Exists (fun d => Z.of_nat (length s) < d) digits)) as [_|Hn];
      [reflexivity|].
    exfalso. apply Hn. apply Exists_cons_tl. apply Exists_cons_hd. exact H1. }
  rewrite Hround;
    [| lia | apply Hnzr | rewrite !decode_round_length; reflexivity
     | rewrite Hlen1, !decode_round_length; reflexivity].
  change (nth 0 digits 0) with d0.
  destruct (decide (Z.of_nat (length s) < d0)) as [H0|H0].
  { destruct (decide (Exists (fun d => Z.of_nat (length s) < d) digits)) as [_|Hn];
      [reflexivity|].
    exfalso. apply Hn. apply Exists_cons_hd. exact H0. }
  destruct (decide (Exists (fun d => Z.of_nat (length s) < d) digits)) as [He|_];
    [|reflexivity].
  exfalso. unfold digits in He.
  repeat match goal with
         | H : Exists _ (_ :: _) |- _ => inversion H; clear H; subst
         | H : Exists _ [] |- _ => inversion H
         end; lia.
Qed.

(** The copy without black squares, over the old contents of
    [workspace2]. *)
Lemma strip_black_value (len : Z) (w v : list Z) :
  len = Z.of_nat (length w) ->
  length v = length w ->
  strip_black len (w ++ [0]) (v ++ [0])
  = Some (filter (fun c => c <> 46) w
          ++ drop (length (filter (fun c => c <> 46) w)) v ++ [0]).
Proof.
  intros -> Hv. unfold strip_black.
  set (kept := fun j : Z => filter (fun c => c <> 46) (take (Z.to_nat j) w)).
  assert (Hkept : forall j, (length (kept j) <= Z.to_nat j)%nat).
  { intros j. unfold kept. etransitivity; [apply length_filter|].
    rewrite length_take. lia. }
  destruct (for_range_total_inv
    (fun (j : Z) (st : list Z * Z) =>
       snd st = Z.of_nat (length (kept j)) /\
       fst st = kept j ++ drop (length (kept j)) (v ++ [0]))
    0 (Z.of_nat (length w))
    (fun j '(w2, index) =>
       let* c := load (w ++ [0]) j in
       if decide (c <> 46) then
         let* w2 := store w2 index c in Some (w2, index + 1)
       else Some (w2, index))
    (v ++ [0], 0)) as ([w2 idx] & -> & Hidx & Hw2); [lia | | |].
  - unfold kept. cbn. split; reflexivity.
  - intros j [w2 idx] Hj [Hidx Hw2]. cbn [fst snd] in Hidx, Hw2.
    unfold load. destruct (decide (0 <= j)); [|lia].
    destruct (lookup_lt_is_Some_2 w (Z.to_nat j)) as [c Hc]; [lia|].
    rewrite lookup_app_l, Hc by lia.
    assert (Hnext : kept (j + 1) = kept j ++ filter (fun c => c <> 46) [c]).
    { unfold kept. replace (Z.to_nat (j + 1)) with (S (Z.to_nat j)) by lia.
      rewrite (take_S_r _ _ _ Hc). apply list.filter_app. }
    pose proof (Hkept j) as Hk.
    destruct (decide (c <> 46)) as [Hc46|Hc46].
    + rewrite filter_cons_True, filter_nil in Hnext by exact Hc46.
      unfold store. subst w2 idx.
      rewrite length_app, length_drop, length_app. cbn [length].
      destruct (decide (0 <= Z.of_nat (length (kept j))
                        < Z.of_nat (length (kept j)
                                    + (length v + 1 - length (kept j))))); [|lia].
      eexists. split; [reflexivity|]. cbn [fst snd]. rewrite Hnext.
      split; [rewrite length_app; cbn [length]; lia|].
      rewrite Nat2Z.id, insert_app_r_alt, Nat.sub_diag by lia.
      destruct (lookup_lt_is_Some_2 (v ++ [0]) (length (kept j))) as [x Hx];
        [rewrite length_app; cbn [length]; lia|].
      rewrite (drop_S _ _ _ Hx). cbn [insert list_insert].
      rewrite <- app_assoc, length_app. cbn [app length].
      replace (length (kept j) + 1)%nat with (S (length (kept j))) by lia.
      reflexivity.
    + rewrite filter_cons_False, filter_nil, app_nil_r in Hnext by exact Hc46.
      eexists. split; [reflexivity|]. cbn [fst snd]. rewrite Hnext. split; assumption.
  - cbn [fst snd] in Hidx, Hw2. subst w2.
    assert (Hall : kept (Z.of_nat (length w)) = filter (fun c => c <> 46) w).
    { unfold kept. rewrite Nat2Z.id, take_ge by lia. reflexivity. }
    rewrite Hall. pose proof (length_filter (fun c => c <> 46) w) as Hle.
    rewrite drop_app_le by lia. rewrite app_assoc.
    unfold store. rewrite !length_app, length_drop. cbn [length].
    destruct (decide (0 <= Z.of_nat (length w)
                      < Z.of_nat (length (filter (fun c => c <> 46) w)
                                  + (length v - length (filter (fun c => c <> 46) w))
                                  + 1))); [|lia].
    rewrite Nat2Z.id, insert_app_r_alt
      by (rewrite length_app, length_drop; lia).
    rewrite length_app, length_drop.
    replace (length w - (length (filter (fun c => c <> 46%Z) w)
                         + (length v - length (filter (fun c => c <> 46%Z) w))))%nat
      with O by lia.
    reflexivity.
Qed.

Lemma unlock_candidate_length (digits s : list Z) :
  length (unlock_candidate digits s) = length s.
Proof. unfold unlock_candidate. cbn [fold_left]. rewrite !decode_round_length. reflexivity. Qed.

(** From a string [s] in the block of the formatted solution the decoding
    returns [-4] when a digit is larger than the length of [s], and else
    ends with the candidate in [workspace1] and the bytes that are
    checksummed in [workspace2]. *)
Lemma unlock_decode_value (s rest digits : list Z) :
  Forall (fun c => c <> 0) s ->
  length digits = 4%nat ->
  Forall (fun d => 0 <= d) digits ->
  unlock_decode (Ptr (s ++ 0 :: rest)) (Z.of_nat (length s)) digits
  = Some (if decide (Exists (fun d => Z.of_nat (length s) < d) digits) then Return (-4)
          else Continue (unlock_candidate digits s ++ [0],
                         unlock_checked digits s ++ [0])).
Proof.
  intros Hnz Hdig Hpos. unfold unlock_decode. cbn [deref].
  unfold strncpy, offset.
  destruct (decide (0 <= 0 <= Z.of_nat (length (s ++ 0 :: rest)))) as [_|Hn];
    [|exfalso; apply Hn; lia].
  change (Z.to_nat 0) with O. rewrite drop_0.
  replace (Z.to_nat (Z.of_nat (length s) + 1)) with (length s + 1)%nat by lia.
  rewrite (strncpy_data_pad s rest 0 Hnz). cbn [replicate].
  unfold store_bytes. rewrite length_app, length_replicate. cbn [length].
  destruct (decide (0 <= 0 /\ 0 + Z.of_nat (length s + 1) <= Z.of_nat (length s + 1)))
    as [_|Hn]; [|exfalso; apply Hn; lia].
  change (Z.to_nat 0) with O. rewrite take_0. cbn [app Nat.add].
  rewrite drop_ge, app_nil_r by (rewrite length_replicate; lia).
  rewrite (unlock_rounds_value digits s (replicate (length s + 1) 0) Hdig Hpos Hnz)
    by (rewrite length_replicate; lia).
  destruct (decide (Exists (fun d => Z.of_nat (length s) < d) digits)); [reflexivity|].
  rewrite (strip_black_value (Z.of_nat (length s)) (unlock_candidate digits s));
    [| rewrite unlock_candidate_length; reflexivity
     | rewrite unscrambled_length, unlock_candidate_length; cbn [fold_left];
       rewrite !decode_round_length; reflexivity].
  unfold unlock_checked. cbv zeta. rewrite <- app_assoc. reflexivity.
Qed.

End DecodeValue.
Module AllocFacts.
Import CksumFacts SizeSpec ScrambleSpec DecodeFacts.

(** *** Loops in step *)

(** A loop on the image of the states under [f]. *)
Lemma for_range_map {S T} (f : S -> T) lo hi (b1 : Z -> S -> option S)
    (b2 : Z -> T -> option T) s :
  (forall i s, b2 i (f s) = f <$> b1 i s) ->
  for_range lo hi b2 (f s) = f <$> for_range lo hi b1 s.
Proof.
  intros Hstep. unfold for_range.
  generalize (Z.to_nat (hi - lo)) as n. intros n. revert lo s.
  induction n as [|n IH]; intros lo s; cbn [for_loop]; [reflexivity|].
  rewrite Hstep. destruct (b1 lo s) as [s1|]; cbn; [apply IH | reflexivity].
Qed.

(** An invariant of the states, whatever the bounds. *)
Lemma for_range_keeps {S} (Inv : S -> Prop) lo hi (body : Z -> S -> option S) s s' :
  Inv s ->
  (forall i t t', Inv t -> body i t = Some t' -> Inv t') ->
  for_range lo hi body s = Some s' ->
  Inv s'.
Proof.
  intros H0 Hstep. unfold for_range.
  generalize (Z.to_nat (hi - lo)) as n. intros n. revert lo s H0.
  induction n as [|n IH]; intros lo s H0 H; cbn [for_loop] in H.
  - inversion H; subst. exact H0.
  - destruct (body lo s) as [s1|] eqn:E; [|discriminate].
    eapply IH; [eapply Hstep; eassumption | exact H].
Qed.

(** A second loop that can follow every step of the first. *)
Lemma for_range_sim {S T} (R : S -> T -> Prop) lo hi (b1 : Z -> S -> option S)
    (b2 : Z -> T -> option T) s t s' :
  R s t ->
  (forall i s t s', R s t -> b1 i s = Some s' -> exists t', b2 i t = Some t' /\ R s' t') ->
  for_range lo hi b1 s = Some s' ->
  exists t', for_range lo hi b2 t = Some t' /\ R s' t'.
Proof.
  intros H0 Hstep. unfold for_range.
  generalize (Z.to_nat (hi - lo)) as n. intros n. revert lo s t H0.
  induction n as [|n IH]; intros lo s t H0 H; cbn [for_loop] in *.
  - inversion H; subst. eauto.
  - destruct (b1 lo s) as [s1|] eqn:E; [|discriminate].
    destruct (Hstep lo s t s1 H0 E) as (t1 & -> & H1).
    eapply IH; eassumption.
Qed.

(** *** The allocation of [formatted_solution] *)

(** With a successful allocation [formatted_solution_alloc] is
    [formatted_solution]. *)
Lemma formatted_solution_alloc_true (puz : ptr puzzle_t) :
  formatted_solution_alloc true puz = formatted_solution puz.
Proof.
  unfold formatted_solution_alloc, formatted_solution.
  destruct (is_null puz); [reflexivity|].
  destruct (puz_width_get puz) as [w|]; [|reflexivity].
  destruct (puz_height_get puz) as [h|]; [|reflexivity].
  destruct (puz_solution_get puz) as [sol|]; [|reflexivity].
  destruct (for_range 0 (w * h) _ 0) as [size|]; [|reflexivity].
  cbv zeta.
  change (Ptr (replicate (Z.to_nat (size + 1)) 0), 0)
    with (prod_map (@Ptr block) id (replicate (Z.to_nat (size + 1)) 0, 0)).
  rewrite (for_range_map (prod_map (@Ptr block) id) 0 w
             (fun i st =>
                for_range 0 h
                  (fun j '(out, index) =>
                     let* s := deref sol in
                     let* c := load s (j * h + i) in
                     if decide (c <> 46) then
                       let* out := store out index c in
                       Some (out, index + 1)
                     else Some (out, index))
                  st)).
  - destruct (for_range 0 w _ _) as [[out index]|]; reflexivity.
  - intros i st. apply for_range_map. intros j [out index]. cbn.
    destruct (deref sol) as [b|]; [|reflexivity].
    destruct (load b (j * h + i)) as [c|]; [|reflexivity].
    destruct (decide (c <> 46)); [|reflexivity].
    destruct (store out index c); reflexivity.
Qed.

(** With a failed allocation it is undefined on every puzzle. *)
Lemma formatted_solution_alloc_false (p : puzzle_t) :
  formatted_solution_alloc false (Ptr p) = None.
Proof.
  unfold formatted_solution_alloc. cbn [is_null puz_width_get puz_height_get
    puz_solution_get deref].
  destruct (for_range 0 _ _ 0) as [size|]; [|reflexivity].
  cbv zeta.
  destruct (for_range 0 (width (header p)) _ _) as [[out index]|] eqn:E; [|reflexivity].
  assert (Hout : fst (out, index) = NULL).
  { eapply (for_range_keeps (fun st : ptr block * Z => fst st = NULL)); [| |exact E].
    - reflexivity.
    - intros i t t' Ht Hin.
      eapply (for_range_keeps (fun st : ptr block * Z => fst st = NULL));
        [exact Ht| |exact Hin].
      intros j [o ix] [o' ix'] Ho Hb. cbn [fst] in Ho. subst o.
      destruct (deref (solution p)) as [b|]; [|discriminate].
      destruct (load b _) as [c|]; [|discriminate].
      destruct (decide (c <> 46)); [discriminate|].
      inversion Hb; subst. reflexivity. }
  cbn [fst] in Hout. subst out. reflexivity.
Qed.

Lemma puz_unlock_solution_alloc_true (puz : ptr puzzle_t) (code : Z) (ws1 ws2 : bool) :
  puz_unlock_solution_alloc true puz code ws1 ws2 = puz_unlock_solution puz code ws1 ws2.
Proof.
  unfold puz_unlock_solution_alloc, puz_unlock_solution.
  rewrite formatted_solution_alloc_true. reflexivity.
Qed.

(** *** Writing the candidate back *)

(** [unformat_unlocked_sol] reads at most as many characters as
    [formatted_solution] has written: it is defined on every string of the
    size of the formatted solution. *)
Lemma unformat_unlocked_sol_defined (p : puzzle_t) (blk f : list Z) :
  formatted_solution (Ptr p) = Some (Ptr blk) ->
  length f = length blk ->
  exists q, unformat_unlocked_sol (Ptr p) (Ptr f) = Some (Ptr q, 0).
Proof.
  intros Hf Hlen. unfold formatted_solution in Hf.
  cbn [is_null puz_width_get puz_height_get puz_solution_get deref] in Hf.
  destruct (for_range 0 _ _ 0) as [size|]; [|discriminate].
  cbv zeta in Hf.
  destruct (for_range 0 (width (header p)) _ _) as [[out index]|] eqn:E; [|discriminate].
  destruct (store out size 0) as [o|] eqn:Est; [|discriminate].
  inversion Hf; subst blk; clear Hf.
  assert (Ho : length o = length out).
  { unfold store in Est. case_decide; [|discriminate]. inversion Est; subst.
    apply length_insert. }
  set (w := width (header p)) in *. set (h := height (header p)) in *.
  set (b2 := fun (i : Z) (st : ptr block * Z) =>
         for_range 0 h
           (fun j '(sol, index) =>
              let* s := deref sol in
              let* c := load s (j * h + i) in
              if decide (c <> 46) then
                let* f := deref (Ptr f) in
                let* v := load f index in
                let* s := store s (j * h + i) v in
                Some (Ptr s, index + 1)
              else Some (sol, index))
           st).
  assert (Hkeep : length (fst (out, index)) = length (replicate (Z.to_nat (size + 1)) 0)).
  { eapply (for_range_keeps (fun st : list Z * Z => length (fst st) = _)); [| |exact E].
    - reflexivity.
    - intros i t t' Ht Hin.
      eapply (for_range_keeps (fun st : list Z * Z => length (fst st) = _));
        [exact Ht| |exact Hin].
      intros j [o1 ix] [o2 ix'] Hl Hb. cbn [fst] in Hl |- *.
      destruct (deref (solution p)) as [b|]; [|discriminate].
      destruct (load b _) as [c|]; [|discriminate].
      destruct (decide (c <> 46)).
      + unfold store in Hb. case_decide; [|discriminate]. inversion Hb; subst.
        rewrite length_insert. exact Hl.
      + inversion Hb; subst. exact Hl. }
  cbn [fst] in Hkeep.
  assert (Hrun : exists st, for_range 0 w b2 (solution p, 0) = Some st).
  { destruct (solution p) as [|blk0|] eqn:Hsol.
    - eapply (for_range_sim (fun _ _ => True) 0 w _ b2 _ (NULL, 0)) in E.
      + destruct E as (st & Hst & _). eauto.
      + exact I.
      + intros i s t s' _ Hin. unfold b2.
        eapply (for_range_sim (fun _ _ => True) 0 h _ _ _ t) in Hin.
        * destruct Hin as (t' & Ht' & _). exists t'. split; [exact Ht' | exact I].
        * exact I.
        * intros j [o1 ix] [sl iu] s'' _ Hb. cbn [deref] in Hb. discriminate.
    - set (R := fun (s : list Z * Z) (t : ptr block * Z) =>
             length (fst s) = length f /\ 0 <= snd t <= snd s /\
             exists blk, fst t = Ptr blk /\ length blk = length blk0 /\
               forall k : nat, blk0 !! k = Some 46 -> blk !! k = Some 46).
      eapply (for_range_sim R 0 w _ b2 _ (Ptr blk0, 0)) in E.
      + destruct E as (st & Hst & _). eauto.
      + unfold R. cbn [fst snd]. split; [lia|]. split; [lia|].
        exists blk0. split; [reflexivity|]. split; [reflexivity|]. auto.
      + intros i s t s' HR Hin. unfold b2.
        eapply (for_range_sim R 0 h _ _ _ t) in Hin; [exact Hin | exact HR |].
        clear. intros j [o1 ix] [sl iu] [o2 ix'] (Hl & Hix & blk & Hsl & Hbl & Hblack) Hb.
        cbn [fst snd deref] in *. subst sl.
        destruct (load blk0 (j * h + i)) as [c|] eqn:Ec; [|discriminate].
        assert (Hc' : exists c', load blk (j * h + i) = Some c').
        { unfold load in Ec |- *.
          destruct (decide (0 <= j * h + i)); [|discriminate].
          apply lookup_lt_is_Some_2. rewrite Hbl. eapply lookup_lt_Some, Ec. }
        destruct Hc' as (c' & Ec'). cbn [deref]. rewrite Ec'.
        destruct (decide (c <> 46)) as [Hc|Hc].
        * destruct (store o1 ix c) as [o3|] eqn:Es; [|discriminate].
          inversion Hb; subst o2 ix'; clear Hb.
          assert (Hixr : 0 <= ix < Z.of_nat (length o1)).
          { unfold store in Es. case_decide; [lia | discriminate]. }
          assert (Ho3 : length o3 = length o1).
          { unfold store in Es. case_decide; [|discriminate]. inversion Es; subst.
            apply length_insert. }
          destruct (decide (c' <> 46)) as [Hc'|Hc'].
          -- unfold load at 1. destruct (decide (0 <= iu)); [|lia].
             destruct (lookup_lt_is_Some_2 f (Z.to_nat iu)) as [v ->]; [lia|].
             unfold store. unfold load in Ec'.
             destruct (decide (0 <= j * h + i)) as [Hpos|]; [|discriminate].
             apply lookup_lt_Some in Ec'.
             destruct (decide (0 <= j * h + i < Z.of_nat (length blk))); [|lia].
             eexists. split; [reflexivity|]. unfold R. cbn [fst snd].
             split; [lia|]. split; [lia|].
             eexists. split; [reflexivity|]. split; [rewrite length_insert; exact Hbl|].
             intros k Hk. rewrite list_lookup_insert_ne; [apply Hblack, Hk|].
             intros <-. unfold load in Ec. destruct (decide (0 <= j * h + i)); [|lia].
             congruence.
          -- eexists. split; [reflexivity|]. unfold R. cbn [fst snd].
             split; [lia|]. split; [lia|]. eauto.
        * inversion Hb; subst o2 ix'; clear Hb.
          assert (c = 46) by (destruct (decide (c = 46)); [assumption | contradiction]).
          subst c.
          assert (c' = 46).
          { unfold load in Ec, Ec'. destruct (decide (0 <= j * h + i)); [|discriminate].
            rewrite (Hblack _ Ec) in Ec'. congruence. }
          subst c'. destruct (decide (46 <> 46)); [contradiction|].
          eexists. split; [reflexivity|]. unfold R. cbn [fst snd].
          split; [lia|]. split; [lia|]. eauto.
    - eapply (for_range_sim (fun _ _ => True) 0 w _ b2 _ (Dangling, 0)) in E.
      + destruct E as (st & Hst & _). eauto.
      + exact I.
      + intros i s t s' _ Hin. unfold b2.
        eapply (for_range_sim (fun _ _ => True) 0 h _ _ _ t) in Hin.
        * destruct Hin as (t' & Ht' & _). exists t'. split; [exact Ht' | exact I].
        * exact I.
        * intros j [o1 ix] [sl iu] s'' _ Hb. cbn [deref] in Hb. discriminate. }
  destruct Hrun as ([sol' index'] & Hrun).
  exists (set_solution sol' p).
  unfold unformat_unlocked_sol.
  cbn [is_null orb puz_width_get puz_height_get puz_solution_get deref].
  fold w h. unfold b2 in Hrun. cbn [deref] in Hrun. rewrite Hrun. reflexivity.
Qed.

End AllocFacts.

Module UnlockSpec.
Import CksumFacts SizeSpec ScrambleSpec DecodeFacts DecodeValue AllocFacts.

Lemma puz_lock_set_zero (p : puzzle_t) :
  exists p', puz_lock_set (Ptr p) 0 = Some (Ptr p', 0) /\
             scrambled_tag (header p') = 0 /\ scrambled_cksum (header p') = 0.
Proof. eexists. cbn. repeat split. Qed.

Lemma unformat_unlocked_sol_ptr (p : puzzle_t) f puz' r :
  unformat_unlocked_sol (Ptr p) f = Some (puz', r) -> exists p', puz' = Ptr p'.
Proof.
  unfold unformat_unlocked_sol. intros H.
  repeat (case_match; simplify_eq; eauto).
Qed.

(** Whatever [puz_unlock_solution] returns on a NULL or on an unlocked
    puzzle, or for a code with a zero digit, is decided before anything is
    computed. *)
Lemma unlock_null code ws1 ws2 :
  puz_unlock_solution NULL code ws1 ws2 = Some (NULL, -1).
Proof. reflexivity. Qed.

Lemma unlock_not_locked p code ws1 ws2 :
  scrambled_tag (header p) = 0 ->
  puz_unlock_solution (Ptr p) code ws1 ws2 = Some (Ptr p, 1).
Proof.
  intros H. unfold puz_unlock_solution. cbn [is_null deref].
  destruct (decide (scrambled_tag (header p) = 0)); [reflexivity | contradiction].
Qed.

Lemma unlock_zero_digit p code ws1 ws2 :
  scrambled_tag (header p) <> 0 ->
  Exists (fun d => d = 0) (code_digits code) ->
  puz_unlock_solution (Ptr p) code ws1 ws2 = Some (Ptr p, -2).
Proof.
  intros H Hd. unfold puz_unlock_solution. cbn [is_null deref].
  destruct (decide (scrambled_tag (header p) = 0)); [contradiction|].
  destruct (decide (Exists (fun d => d = 0) (code_digits code))); [reflexivity | contradiction].
Qed.

(** The early return of the decoding loop is [-4]. *)
Lemma unlock_rounds_return digits len n ws r :
  unlock_rounds digits len n ws = Some (Return r) -> r = -4.
Proof.
  revert ws. induction n as [|n IH]; intros ws H; cbn in H; [discriminate|].
  destruct (unlock_round digits len (Z.of_nat n) ws) as [[ws'|r']|] eqn:E; [| |discriminate].
  - eapply IH, H.
  - inversion H; subst. unfold unlock_round in E.
    repeat (case_match; simplify_eq); reflexivity.
Qed.

Lemma unlock_decode_return inp len digits r :
  unlock_decode inp len digits = Some (Return r) -> r = -4.
Proof.
  unfold unlock_decode. intros H.
  repeat (case_match; simplify_eq).
  eapply unlock_rounds_return; eassumption.
Qed.

Lemma unlock_failure_keeps_puzzle_aux puz code ws1 ws2 puz' r :
  puz_unlock_solution puz code ws1 ws2 = Some (puz', r) ->
  r <> 0 ->
  puz' = puz.
Proof.
  unfold puz_unlock_solution. intros H Hr.
  repeat (case_match; simplify_eq; try reflexivity).
Qed.

(** A code without a zero digit has its four digits in 1..9, provided it
    is a four-digit number. *)
Lemma code_digits_range c :
  1111 <= c <= 9999 ->
  ~ Exists (fun d => d = 0) (code_digits c) ->
  Forall (fun d => 1 <= d <= 9) (code_digits c).
Proof.
  intros Hc Hex. apply Forall_forall. intros d Hd.
  assert (Hnz : d <> 0).
  { intros ->. apply Hex, Exists_exists. exists 0. split; [exact Hd | reflexivity]. }
  assert (H10 : forall x, 0 <= x -> 0 <= Z.rem x 10 <= 9).
  { intros x Hx. pose proof (Z.rem_bound_pos x 10 Hx). lia. }
  assert (Hq : forall k, 0 < k -> 0 <= Z.quot c k).
  { intros k Hk. apply Z.quot_pos; lia. }
  unfold code_digits in Hd.
  cbn [In] in Hd.
  destruct Hd as [<- | [<- | [<- | [<- | []]]]].
  - pose proof (H10 _ (Hq 1000 ltac:(lia))). lia.
  - pose proof (H10 _ (Hq 100 ltac:(lia))). lia.
  - pose proof (H10 _ (Hq 10 ltac:(lia))). lia.
  - pose proof (H10 c ltac:(lia)). lia.
Qed.

(** C10.  A call of [puz_unlock_solution] that returns a non-zero result
    (not locked, invalid code, allocation failure, undecodable, checksum
    mismatch) leaves the puzzle as it was: solution bytes, [scrambled_tag]
    and [scrambled_cksum] included.  Only the return-0 path writes. *)
Theorem unlock_failure_keeps_puzzle puz code ws1 ws2 puz' r :
  puz_unlock_solution puz code ws1 ws2 = Some (puz', r) ->
  r <> 0 ->
  puz' = puz.
Proof. apply unlock_failure_keeps_puzzle_aux. Qed.

Lemma unlock_failure_keeps_puzzle_witness :
  puz_unlock_solution (Ptr pizza_locked) 1111 true true = Some (Ptr pizza_locked, 2) /\
  Ptr pizza_locked = Ptr pizza_locked.
Proof.
  assert (H : puz_unlock_solution (Ptr pizza_locked) 1111 true true
              = Some (Ptr pizza_locked, 2)) by (vm_compute; reflexivity).
  split; [exact H|].
  apply (unlock_failure_keeps_puzzle (Ptr pizza_locked) 1111 true true (Ptr pizza_locked) 2 H).
  discriminate.
Defined.

(** Past the first three checks [puz_unlock_solution] is its decoding
    part. *)
Lemma unlock_locked_eq p code ws1 ws2 inp len :
  scrambled_tag (header p) <> 0 ->
  Forall (fun d => d <> 0) (code_digits code) ->
  formatted_solution (Ptr p) = Some inp ->
  Sstrlen inp = Some len ->
  puz_unlock_solution (Ptr p) code ws1 ws2 =
  if negb ws1 || negb ws2 then Some (Ptr p, -3) else
  let* o := unlock_decode inp len (code_digits code) in
  match o with
  | Return r => Some (Ptr p, r)
  | Continue (workspace1, workspace2) =>
      let* cksum := puz_cksum_region (Ptr workspace2) len 0 in
      if decide (cksum <> scrambled_cksum (header p)) then Some (Ptr p, 2) else
      let* (puz, _) := unformat_unlocked_sol (Ptr p) (Ptr workspace1) in
      let* (puz, _) := puz_lock_set puz 0 in
      Some (puz, 0)
  end.
Proof.
  intros Htag Hdig Hf Hl. unfold puz_unlock_solution. cbn [is_null deref].
  destruct (decide (scrambled_tag (header p) = 0)); [contradiction|].
  destruct (decide (Exists (fun d => d = 0) (code_digits code))) as [Hex|_].
  { exfalso. apply Exists_exists in Hex as (d & Hin & ->).
    rewrite Forall_forall in Hdig. exact (Hdig 0 Hin eq_refl). }
  rewrite Hf, Hl. reflexivity.
Qed.




(** C9.  [puz_lock_set] establishes the lock-state invariant: a non-zero
    checksum gives tag 4 and that checksum, zero gives tag 0 and checksum
    0; so does every call of [puz_unlock_solution] that returns 0. *)
Theorem lock_state_established (p : puzzle_t) (cksum : Z) :
  (exists p',
     puz_lock_set (Ptr p) cksum = Some (Ptr p', cksum) /\
     lock_state_ok p' /\
     (cksum <> 0 ->
      scrambled_tag (header p') = 4 /\ scrambled_cksum (header p') = cksum) /\
     (cksum = 0 ->
      scrambled_tag (header p') = 0 /\ scrambled_cksum (header p') = 0)) /\
  (forall code ws1 ws2 puz',
     puz_unlock_solution (Ptr p) code ws1 ws2 = Some (puz', 0) ->
     exists p',
       puz' = Ptr p' /\ lock_state_ok p' /\
       scrambled_tag (header p') = 0 /\ scrambled_cksum (header p') = 0).
Proof.
  split.
  - unfold puz_lock_set, lock_state_ok. cbn [is_null deref].
    destruct (decide (cksum <> 0)) as [Hc|Hc]; eexists; (split; [reflexivity|]); cbn.
    + split; [left; split; [reflexivity | exact Hc]|].
      split; [intros _; split; reflexivity | intros; contradiction].
    + split; [right; split; reflexivity|].
      split; [intros; contradiction | intros _; split; reflexivity].
  - intros code ws1 ws2 puz' H. unfold puz_unlock_solution in H.
    cbn [is_null deref] in H.
    destruct (decide (scrambled_tag (header p) = 0)); [discriminate|].
    destruct (decide (Exists (fun d => d = 0) (code_digits code))); [discriminate|].
    destruct (formatted_solution (Ptr p)) as [inp|]; [|discriminate].
    destruct (Sstrlen inp) as [len|]; [|discriminate].
    destruct (negb ws1 || negb ws2); [discriminate|].
    destruct (unlock_decode inp len (code_digits code)) as [[[w1 w2]|e]|] eqn:E;
      [| |discriminate].
    + destruct (puz_cksum_region (Ptr w2) len 0) as [ck|]; [|discriminate].
      destruct (decide (ck <> scrambled_cksum (header p))); [discriminate|].
      destruct (unformat_unlocked_sol (Ptr p) (Ptr w1)) as [[q ?]|] eqn:Hu; [|discriminate].
      destruct (unformat_unlocked_sol_ptr _ _ _ _ Hu) as [p1 ->].
      cbn in H. inversion H; subst.
      eexists. split; [reflexivity|]. unfold lock_state_ok. cbn.
      split; [right; split; reflexivity | split; reflexivity].
    + apply unlock_decode_return in E. inversion H; subst. discriminate.
Qed.

Lemma lock_state_established_witness :
  (exists p',
     puz_lock_set (Ptr pizza_clear) 29910 = Some (Ptr p', 29910) /\
     lock_state_ok p' /\
     scrambled_tag (header p') = 4 /\ scrambled_cksum (header p') = 29910) /\
  (exists p',
     Ptr pizza_clear = Ptr p' /\ lock_state_ok p' /\
     scrambled_tag (header p') = 0 /\ scrambled_cksum (header p') = 0).
Proof.
  destruct (lock_state_established pizza_clear 29910) as ((p' & H1 & H2 & H3 & _) & _).
  destruct (lock_state_established pizza_locked 0) as (_ & H4).
  split.
  - exists p'. split; [exact H1|]. split; [exact H2|]. apply H3. discriminate.
  - apply (H4 2718 true true). vm_compute. reflexivity.
Defined.

End UnlockSpec.

Module BruteForceSpec.
Import UnlockSpec.

Section Loop.

Variable alloc : Z -> bool * bool.
Variable p : puzzle_t.

Lemma unlock_fails_step c :
  unlock_fails alloc p c ->
  exists r,
    puz_unlock_solution (Ptr p) c (fst (alloc c)) (snd (alloc c)) = Some (Ptr p, r) /\
    r <> 0.
Proof.
  intros (q & r & H & Hr). exists r. split; [|exact Hr].
  rewrite H. f_equal. f_equal. eapply unlock_failure_keeps_puzzle_aux; eassumption.
Qed.

(** The loop over codes that all fail runs to its end on the unchanged
    puzzle; the last result is non-zero. *)
Lemma brute_force_loop_fail n :
  forall code gs,
    (forall c, code <= c < code + Z.of_nat n -> unlock_fails alloc p c) ->
    exists gs',
      brute_force_loop alloc n code (Ptr p) gs = Some (Ptr p, code + Z.of_nat n, gs') /\
      (n = O /\ gs' = gs \/ exists r, gs' = Some r /\ r <> 0).
Proof.
  induction n as [|n IH]; intros code gs Hall.
  - exists gs. cbn. rewrite Z.add_0_r. split; [reflexivity | left; split; reflexivity].
  - destruct (unlock_fails_step code) as (r & Hu & Hr); [apply Hall; lia|].
    cbn [brute_force_loop]. rewrite Hu.
    destruct (decide (r = 0)); [contradiction|].
    destruct (IH (code + 1) (Some r)) as (gs' & Hl & Hg).
    { intros c Hc. apply Hall. lia. }
    exists gs'. rewrite Hl. split; [do 3 f_equal; lia|].
    right. destruct Hg as [[-> ->] | Hg]; [exists r; split; [reflexivity | assumption] | exact Hg].
Qed.

(** The loop stops at the first code whose attempt returns 0. *)
Lemma brute_force_loop_find n :
  forall code gs c0 puz',
    code <= c0 < code + Z.of_nat n ->
    (forall c, code <= c < c0 -> unlock_fails alloc p c) ->
    puz_unlock_solution (Ptr p) c0 (fst (alloc c0)) (snd (alloc c0)) = Some (puz', 0) ->
    brute_force_loop alloc n code (Ptr p) gs = Some (puz', c0, Some 0).
Proof.
  induction n as [|n IH]; intros code gs c0 puz' Hc0 Hall H0; [lia|].
  cbn [brute_force_loop].
  destruct (decide (code = c0)) as [->|Hne].
  - rewrite H0. destruct (decide (0 = 0)); [reflexivity | contradiction].
  - destruct (unlock_fails_step code) as (r & Hu & Hr); [apply Hall; lia|].
    rewrite Hu. destruct (decide (r = 0)); [contradiction|].
    apply IH; [lia | | exact H0]. intros c Hc. apply Hall. lia.
Qed.

End Loop.

(** A test over a range of codes decides [unlock_fails] on it. *)
Lemma unlock_fails_range alloc p lo n :
  forallb (unlock_fails_b alloc p) (seqZ lo n) = true ->
  forall c, lo <= c < lo + n -> unlock_fails alloc p c.
Proof.
  intros H c Hc. rewrite forallb_forall in H.
  specialize (H c). unfold unlock_fails_b in H. unfold unlock_fails.
  destruct (puz_unlock_solution (Ptr p) c (fst (alloc c)) (snd (alloc c))) as [[q r]|].
  - exists q, r. split; [reflexivity|].
    assert (Hin : In c (seqZ lo n)).
    { apply list_elem_of_In, elem_of_seqZ. lia. }
    apply H in Hin. intros ->. discriminate.
  - assert (Hin : In c (seqZ lo n)).
    { apply list_elem_of_In, elem_of_seqZ. lia. }
    apply H in Hin. discriminate.
Qed.

(** C6.  On a locked puzzle [puz_brute_force_unlock] tries the codes from
    1111 up to 9999 in order: an attempt with a zero digit in the code
    never returns 0; the result is the first code whose attempt returns 0,
    with the puzzle that attempt leaves; and when every attempt fails the
    result is the negative [-3] and the puzzle is unchanged. *)
Theorem puz_brute_force_unlock_first (alloc : Z -> bool * bool) (p : puzzle_t) :
  scrambled_tag (header p) <> 0 ->
  (forall code, Exists (fun d => d = 0) (code_digits code) ->
     puz_unlock_solution (Ptr p) code (fst (alloc code)) (snd (alloc code))
     = Some (Ptr p, -2)) /\
  (forall c0 puz',
     1111 <= c0 <= 9999 ->
     (forall c, 1111 <= c < c0 -> unlock_fails alloc p c) ->
     puz_unlock_solution (Ptr p) c0 (fst (alloc c0)) (snd (alloc c0)) = Some (puz', 0) ->
     puz_brute_force_unlock alloc (Ptr p) = Some (puz', c0) /\
     Forall (fun d => 1 <= d <= 9) (code_digits c0)) /\
  ((forall c, 1111 <= c <= 9999 -> unlock_fails alloc p c) ->
   puz_brute_force_unlock alloc (Ptr p) = Some (Ptr p, -3)).
Proof.
  intros Htag. split; [|split].
  - intros code Hd. apply unlock_zero_digit; assumption.
  - intros c0 puz' Hc0 Hall H0. split.
    + unfold puz_brute_force_unlock. cbn [is_null deref].
      destruct (decide (scrambled_tag (header p) = 0)); [contradiction|].
      rewrite (brute_force_loop_find alloc p _ 1111 None c0 puz'); [| lia | exact Hall | exact H0].
      cbn. reflexivity.
    + destruct (decide (Exists (fun d => d = 0) (code_digits c0))) as [Hex|Hex].
      * rewrite (unlock_zero_digit p c0 _ _ Htag Hex) in H0. discriminate.
      * apply code_digits_range; [lia | exact Hex].
  - intros Hall. unfold puz_brute_force_unlock. cbn [is_null deref].
    destruct (decide (scrambled_tag (header p) = 0)); [contradiction|].
    destruct (brute_force_loop_fail alloc p (Z.to_nat (10000 - 1111)) 1111 None)
      as (gs & Hl & Hg).
    { intros c Hc. apply Hall. lia. }
    rewrite Hl. destruct Hg as [[Hn _] | (r & -> & Hr)]; [discriminate Hn|].
    cbn. destruct (decide (r <> 0)); [reflexivity | contradiction].
Qed.

Lemma puz_brute_force_unlock_first_witness :
  puz_unlock_solution (Ptr pizza_locked) 2708 true true = Some (Ptr pizza_locked, -2) /\
  (puz_brute_force_unlock alloc_ok (Ptr pizza_locked) = Some (Ptr pizza_clear, 2718) /\
   Forall (fun d => 1 <= d <= 9) (code_digits 2718)) /\
  puz_brute_force_unlock alloc_ok (Ptr tiny_locked) = Some (Ptr tiny_locked, -3).
Proof.
  destruct (puz_brute_force_unlock_first alloc_ok pizza_locked) as (H1 & H2 & _);
    [discriminate|].
  destruct (puz_brute_force_unlock_first alloc_ok tiny_locked) as (_ & _ & H3);
    [discriminate|].
  split; [|split].
  - apply (H1 2708). vm_compute. right. right. left. reflexivity.
  - apply (H2 2718 (Ptr pizza_clear)); [lia | | vm_compute; reflexivity].
    intros c Hc. apply (unlock_fails_range alloc_ok pizza_locked 1111 (2718 - 1111)); [|lia].
    vm_compute. reflexivity.
  - apply H3. intros c Hc.
    apply (unlock_fails_range alloc_ok tiny_locked 1111 (10000 - 1111)); [|lia].
    vm_compute. reflexivity.
Defined.

End BruteForceSpec.

Module LoadSpec.

(** The loop of [load_grbs_bin] that sums the rebus grid. *)
Lemma rbssum_loop (pre g : list Z) acc :
  for_loop (length g) (Z.of_nat (length pre))
    (fun rbsj rbssum => let* c := load (pre ++ g) rbsj in Some (rbssum + c)) acc
  = Some (fold_left Z.add g acc).
Proof.
  revert pre acc. induction g as [|x g IH]; intros pre acc.
  - reflexivity.
  - cbn [length for_loop fold_left]. unfold load at 1.
    destruct (decide (0 <= Z.of_nat (length pre))); [|lia].
    rewrite Nat2Z.id, lookup_app_r, Nat.sub_diag by lia. cbn [lookup list_lookup].
    specialize (IH (pre ++ [x]) (acc + x)).
    rewrite length_app, <- app_assoc in IH. cbn [length app] in IH.
    replace (Z.of_nat (length pre) + 1) with (Z.of_nat (length pre + 1)) by lia.
    exact IH.
Qed.

Lemma fold_add_zero g : Forall (fun b => b = 0) g -> fold_left Z.add g 0 = 0.
Proof. induction 1 as [|x g -> _ IH]; [reflexivity | exact IH]. Qed.

Lemma fold_add_ge g acc : Forall (fun b => 0 <= b) g -> acc <= fold_left Z.add g acc.
Proof.
  intros H. revert acc. induction H as [|x g Hx _ IH]; intros acc; cbn.
  - lia.
  - specialize (IH (acc + x)). lia.
Qed.

Lemma fold_add_pos g acc :
  Forall (fun b => 0 <= b) g -> Exists (fun b => b <> 0) g -> acc < fold_left Z.add g acc.
Proof.
  intros H He. revert acc. induction He as [x g Hx | x g _ IH]; intros acc;
    inversion H as [|? ? Hx0 Hg]; subst; cbn.
  - pose proof (fold_add_ge g (acc + x) Hg). lia.
  - specialize (IH Hg (acc + x)). lia.
Qed.

Section Grbs.

Variable p : puzzle_t.
Variable base : list Z.
Variable sz ck : Z.
Variable g : list Z.

Let A := width (header p) * height (header p).

Hypothesis Hck : le_16 base 0 = Some ck.
Hypothesis Hgrid : read_bytes base 2 A = Some g.

Lemma grbs_sum :
  for_range 0 A (fun rbsj rbssum => let* c := load g rbsj in Some (rbssum + c)) 0
  = Some (fold_left Z.add g 0).
Proof.
  unfold read_bytes in Hgrid.
  destruct (decide (0 <= 2 /\ 0 <= A /\ 2 + A <= Z.of_nat (length base))) as [Hr|];
    [|discriminate].
  inversion Hgrid as [Hg]. unfold for_range. rewrite Z.sub_0_r.
  assert (Hlen : length g = Z.to_nat A).
  { rewrite <- Hg, length_take, length_drop. lia. }
  rewrite Hg, <- Hlen. exact (rbssum_loop [] g 0).
Qed.

(** A rebus grid of zeros is dropped, and the reader goes on: without an
    RTBL section after it ... *)
Lemma load_grbs_bin_empty_grid c :
  Forall (fun b => b = 0) g ->
  tag_cmp base (2 + A + 1) "RTBL" = Some c -> c <> 0 ->
  exists p',
    load_grbs_bin true (Ptr p) base sz = Some (Ptr p', 2 + A + 1) /\
    puz_has_rebus (Ptr p') = Some false /\ 2 + A + 1 <> 0.
Proof.
  intros Hz Htag Hc. unfold load_grbs_bin. cbn [is_null deref negb].
  fold A. rewrite Z.add_0_l.
  rewrite Hck, Hgrid, grbs_sum, (fold_add_zero _ Hz).
  destruct (decide (0 = 0)); [|contradiction].
  rewrite Htag. destruct (decide (0 <> c)); [|lia].
  destruct (decide (0 <> 0)); [contradiction|].
  eexists. split; [reflexivity|]. split; [reflexivity|].
  unfold read_bytes in Hgrid.
  destruct (decide (0 <= 2 /\ 0 <= A /\ 2 + A <= Z.of_nat (length base))); [lia | discriminate].
Qed.

(** ... and with one, which is skipped. *)
Lemma load_grbs_bin_empty_grid_table rtbl_strsz :
  Forall (fun b => b = 0) g ->
  tag_cmp base (2 + A + 1) "RTBL" = Some 0 ->
  le_16 base (2 + A + 1 + 4) = Some rtbl_strsz ->
  exists p',
    load_grbs_bin true (Ptr p) base sz
    = Some (Ptr p', 2 + A + 1 + 4 + 2 + 2 + rtbl_strsz + 1) /\
    puz_has_rebus (Ptr p') = Some false.
Proof.
  intros Hz Htag Hsz. unfold load_grbs_bin. cbn [is_null deref negb].
  fold A. rewrite Z.add_0_l.
  rewrite Hck, Hgrid, grbs_sum, (fold_add_zero _ Hz).
  destruct (decide (0 = 0)); [|contradiction].
  rewrite Htag. destruct (decide (0 <> 0)); [contradiction|].
  rewrite Hsz. eexists. split; reflexivity.
Qed.

(** A rebus grid with a non-zero byte and no RTBL section after it: the
    reader returns 0, and leaves [puz->grbs] freed. *)
Lemma load_grbs_bin_missing_table c :
  Forall (fun b => 0 <= b) g -> Exists (fun b => b <> 0) g ->
  tag_cmp base (2 + A + 1) "RTBL" = Some c -> c <> 0 ->
  exists p',
    load_grbs_bin true (Ptr p) base sz = Some (Ptr p', 0) /\ grbs p' = Dangling.
Proof.
  intros Hpos Hnz Htag Hc. unfold load_grbs_bin. cbn [is_null deref negb].
  fold A. rewrite Z.add_0_l.
  rewrite Hck, Hgrid, grbs_sum.
  pose proof (fold_add_pos g 0 Hpos Hnz) as Hsum.
  destruct (decide (fold_left Z.add g 0 = 0)); [lia|].
  rewrite Htag. destruct (decide (0 <> c)); [|lia].
  destruct (decide (fold_left Z.add g 0 <> 0)); [|contradiction].
  eexists. split; reflexivity.
Qed.

End Grbs.

(** C5: the code on a file whose GRBS section has a non-zero rebus grid
    and no RTBL section after it.  Into a puzzle the caller supplies,
    [puz_load_bin] returns that puzzle, not NULL: the section reader's 0
    only ends the load when the loader allocated the puzzle itself.  The
    returned puzzle still reports a rebus, and the GEXT section behind the
    GRBS section is not read.  With an all-zero rebus grid the same file
    loads, without a rebus and with its extras. *)
Theorem puz_load_bin_rebus_without_table :
  (exists p,
     puz_load_bin (Ptr zero_puzzle) (Ptr file_rebus_no_table) 82 = Some (Ptr p) /\
     grbs p = Dangling /\ puz_has_rebus (Ptr p) = Some true /\ gext p = NULL) /\
  puz_load_bin NULL (Ptr file_rebus_no_table) 82 = Some NULL /\
  (exists p,
     puz_load_bin (Ptr zero_puzzle) (Ptr file_rebus_empty) 82 = Some (Ptr p) /\
     puz_has_rebus (Ptr p) = Some false /\ gext p = Ptr [128; 0]).
Proof.
  split; [|split].
  - eexists. split; [vm_compute; reflexivity|]. repeat split.
  - vm_compute. reflexivity.
  - eexists. split; [vm_compute; reflexivity|]. repeat split.
Qed.

End LoadSpec.

(** * The setters of puzzle.c *)

Module SetSpec.
Import CksumFacts SizeSpec MagicSpec ScrambleSpec.

Lemma load_lookup (l : list Z) i : 0 <= i -> load l i = l !! Z.to_nat i.
Proof. intros. unfold load. case_decide; [reflexivity | lia]. Qed.

Lemma Sstrdup_nonzero (t rest : list Z) :
  Forall (fun c => c <> 0) t -> Sstrdup (t ++ 0 :: rest) = Some (t ++ [0]).
Proof.
  intros Ht. unfold Sstrdup. rewrite (strlen_nonzero _ _ Ht). cbn.
  rewrite Nat2Z.id, take_app_length. reflexivity.
Qed.

Lemma load_ptr_lookup {A} (l : list (ptr A)) (n : Z) :
  0 <= n -> load_ptr (Ptr l) n = l !! Z.to_nat n.
Proof. intros. unfold load_ptr. cbn. case_decide; [reflexivity | lia]. Qed.

(** X1. [puz_clue_set] stores a fresh copy of the string in entry [n],
    which [puz_clue_get] returns; the other entries and the count are as
    before. *)
Theorem puz_clue_set_get (p : puzzle_t) (cl : list (ptr block)) (n : Z)
    (t rest : list Z) :
  clues p = Ptr cl ->
  0 <= n <= clue_count (header p) ->
  (Z.to_nat n < length cl)%nat ->
  cl !! Z.to_nat n <> Some Dangling ->
  Forall (fun c => c <> 0) t ->
  exists p',
    puz_clue_set (Ptr p) n (Ptr (t ++ 0 :: rest)) = Some (Ptr p', Ptr (t ++ [0])) /\
    puz_clue_get (Ptr p') n = Some (Ptr (t ++ [0])) /\
    puz_clue_count_get (Ptr p') = puz_clue_count_get (Ptr p) /\
    forall m, m <> n -> puz_clue_get (Ptr p') m = puz_clue_get (Ptr p) m.
Proof.
  intros Hcl Hn Hlen Hd Ht.
  destruct (lookup_lt_is_Some_2 cl _ Hlen) as [e He].
  assert (Hfree : free e = Some tt).
  { destruct e; try reflexivity. congruence. }
  eexists. split; [|split; [|split]].
  - unfold puz_clue_set. cbn [is_null deref].
    case_decide; [lia|]. rewrite Hcl, load_ptr_lookup, He by lia.
    cbn [mbind]. rewrite Hfree. cbn [deref]. rewrite (Sstrdup_nonzero _ _ Ht).
    unfold store_ptr. cbn [deref]. case_decide; [|lia].
    change (clues (set_clues ?c p)) with c.
    rewrite load_ptr_lookup by lia.
    rewrite list_lookup_insert_eq by lia. reflexivity.
  - unfold puz_clue_get. cbn [is_null deref].
    change (clue_count (header (set_clues ?c p))) with (clue_count (header p)).
    case_decide; [lia|]. change (clues (set_clues ?c p)) with c.
    rewrite load_ptr_lookup by lia. apply list_lookup_insert_eq. lia.
  - reflexivity.
  - intros m Hm. unfold puz_clue_get. cbn [is_null deref].
    change (clue_count (header (set_clues ?c p))) with (clue_count (header p)).
    case_decide; [reflexivity|].
    change (clues (set_clues ?c p)) with c. rewrite Hcl.
    rewrite !load_ptr_lookup by lia. apply list_lookup_insert_ne. lia.
Qed.

Lemma puz_clue_set_get_witness :
  exists p',
    puz_clue_set (Ptr sample_full) 1 (Ptr (cstr "new")) = Some (Ptr p', Ptr (cstr "new")) /\
    puz_clue_get (Ptr p') 1 = Some (Ptr (cstr "new")) /\
    puz_clue_count_get (Ptr p') = puz_clue_count_get (Ptr sample_full) /\
    forall m, m <> 1 -> puz_clue_get (Ptr p') m = puz_clue_get (Ptr sample_full) m.
Proof.
  apply (puz_clue_set_get sample_full [Ptr (cstr "a1"); Ptr (cstr "d1")] 1
           (bytes_of "new") []).
  - reflexivity.
  - cbn. lia.
  - cbn. lia.
  - cbn. discriminate.
  - repeat constructor; discriminate.
Defined.

(** X2. The index check of [puz_clue_get] and [puz_clue_set] lets
    [n = clue_count] through: on an array of [clue_count] entries both
    access the element after the last one. *)
Theorem puz_clue_get_past_end (p : puzzle_t) (cl : list (ptr block)) (v : ptr block) :
  clues p = Ptr cl ->
  Z.of_nat (length cl) = clue_count (header p) ->
  is_null v = false ->
  puz_clue_get (Ptr p) (clue_count (header p)) = None /\
  puz_clue_set (Ptr p) (clue_count (header p)) v = None.
Proof.
  intros Hcl Hlen Hv.
  assert (Hn : load_ptr (clues p) (clue_count (header p)) = None).
  { rewrite Hcl, load_ptr_lookup by lia. apply lookup_ge_None. lia. }
  split.
  - unfold puz_clue_get. cbn [is_null deref]. case_decide; [lia|]. exact Hn.
  - unfold puz_clue_set. cbn [is_null deref]. case_decide; [lia|].
    rewrite Hv, Hn. reflexivity.
Qed.

Lemma puz_clue_get_past_end_witness :
  puz_clue_get (Ptr sample_full) 2 = None /\
  puz_clue_set (Ptr sample_full) 2 (Ptr (cstr "x")) = None.
Proof.
  apply (puz_clue_get_past_end sample_full [Ptr (cstr "a1"); Ptr (cstr "d1")]);
    reflexivity.
Defined.

(** Freeing the entries of an array that holds no dangling pointer. *)
Lemma free_entries (cl : list (ptr block)) (n : Z) :
  n <= Z.of_nat (length cl) ->
  Forall (fun e => e <> Dangling) cl ->
  for_range 0 n (fun i _ => let* e := load_ptr (Ptr cl) i in free e) tt = Some tt.
Proof.
  intros Hn Hd.
  destruct (for_range_total (fun _ (_ : unit) => True) 0 n
              (fun i _ => let* e := load_ptr (Ptr cl) i in free e) tt I) as [[] H].
  - intros i [] Hi _. exists tt. split; [|exact I].
    rewrite load_ptr_lookup by lia.
    destruct (lookup_lt_is_Some_2 cl (Z.to_nat i)) as [e He]; [lia|].
    rewrite He. cbn. rewrite Forall_lookup in Hd. specialize (Hd _ _ He).
    destruct e; try reflexivity. contradiction.
  - exact H.
Qed.

(** X3. [puz_clue_count_set] is refused while the puzzle has clues; after
    [puz_clear_clues] it is accepted, and leaves [val] clues that are all
    NULL. *)
Theorem puz_clue_count_set_after_clear (p : puzzle_t) (cl : list (ptr block))
    (val : Z) :
  clues p = Ptr cl ->
  clue_count (header p) <> 0 ->
  clue_count (header p) <= Z.of_nat (length cl) ->
  Forall (fun e => e <> Dangling) cl ->
  0 <= val < 65536 ->
  puz_clue_count_set (Ptr p) val = Some (Ptr p, -1) /\
  exists p1 p2,
    puz_clear_clues (Ptr p) = Some (Ptr p1, 0) /\
    puz_clue_count_get (Ptr p1) = Some 0 /\
    puz_clue_count_set (Ptr p1) val = Some (Ptr p2, 0) /\
    puz_clue_count_get (Ptr p2) = Some val /\
    forall i, 0 <= i < val -> puz_clue_get (Ptr p2) i = Some NULL.
Proof.
  intros Hcl Hcc Hlen Hd Hval. split.
  - unfold puz_clue_count_set. cbn [is_null deref].
    case_decide; [lia|]. case_decide; [reflexivity | contradiction].
  - do 2 eexists. split; [|split; [|split; [|split]]].
    + unfold puz_clear_clues. cbn [is_null deref]. rewrite Hcl. cbn [is_null].
      rewrite (free_entries cl _ Hlen Hd). reflexivity.
    + reflexivity.
    + unfold puz_clue_count_set. cbn [is_null deref].
      case_decide; [lia|]. cbn. reflexivity.
    + cbn. rewrite u16_small by lia. reflexivity.
    + intros i Hi. unfold puz_clue_get. cbn [is_null deref].
      cbn [header clue_count clues set_header set_clue_count set_clues].
      rewrite u16_small by lia. case_decide; [lia|].
      rewrite load_ptr_lookup by lia. apply lookup_replicate_2. lia.
Qed.

Lemma puz_clue_count_set_after_clear_witness :
  puz_clue_count_set (Ptr sample_full) 3 = Some (Ptr sample_full, -1) /\
  exists p1 p2,
    puz_clear_clues (Ptr sample_full) = Some (Ptr p1, 0) /\
    puz_clue_count_get (Ptr p1) = Some 0 /\
    puz_clue_count_set (Ptr p1) 3 = Some (Ptr p2, 0) /\
    puz_clue_count_get (Ptr p2) = Some 3 /\
    forall i, 0 <= i < 3 -> puz_clue_get (Ptr p2) i = Some NULL.
Proof.
  apply (puz_clue_count_set_after_clear sample_full
           [Ptr (cstr "a1"); Ptr (cstr "d1")] 3).
  - reflexivity.
  - cbn. lia.
  - cbn. lia.
  - repeat constructor; discriminate.
  - lia.
Defined.

(** *** The user-rebus board *)

Lemma strndup_data_take (t rest : list Z) (k : nat) :
  Forall (fun c => c <> 0) t ->
  strndup_data (t ++ 0 :: rest) k = Some (take k t).
Proof.
  intros Ht. revert k. induction Ht as [|c t Hc Ht IH]; intros [|k]; cbn; try reflexivity.
  case_decide; [contradiction|]. rewrite IH. reflexivity.
Qed.

Lemma cstring_nonzero (t rest : list Z) :
  Forall (fun c => c <> 0) t -> cstring (Ptr (t ++ 0 :: rest)) = Some t.
Proof.
  intros Ht. unfold cstring. cbn [deref]. rewrite (strlen_nonzero _ _ Ht). cbn.
  rewrite Nat2Z.id, take_app_length. reflexivity.
Qed.

Lemma cstring_split (e : ptr block) (s : list Z) :
  cstring e = Some s ->
  exists rest, e = Ptr (s ++ 0 :: rest) /\ Forall (fun c => c <> 0) s.
Proof.
  unfold cstring. destruct e as [|b|]; try discriminate. cbn [deref].
  destruct (strlen b) as [n|] eqn:Hn; [|discriminate]. cbn. intros [= <-].
  destruct (DecodeFacts.strlen_split _ _ Hn) as (t & rest & -> & <- & Ht).
  exists rest. rewrite Nat2Z.id, take_app_length. auto.
Qed.

(** The sum over the cells of the lengths of the copies. *)
Lemma rusr_payload_length (cells : list (list Z)) :
  Z.of_nat (length (rusr_payload cells))
  = Z.of_nat (length cells) + fold_right (fun s acc => Z.of_nat (length s) + acc) 0 cells.
Proof.
  unfold rusr_payload. induction cells as [|s cells IH]; [reflexivity|].
  cbn [map concat fold_right length]. rewrite !length_app. cbn [length]. lia.
Qed.

Lemma rusr_set_loop (val : ptr (list (ptr block))) (strs : list (list Z)) :
  forall lo (tbl : list (ptr block)) total,
    0 <= lo ->
    lo + Z.of_nat (length strs) <= Z.of_nat (length tbl) ->
    (forall (i : nat) s, strs !! i = Some s ->
       exists e, load_ptr val (lo + Z.of_nat i) = Some e /\
                 (if is_null e then Some [] else cstring e) = Some s) ->
    exists tbl',
      for_loop (length strs) lo
        (fun i '(tbl, total) =>
           let* e := load_ptr val i in
           if is_null e then
             let* tbl := store_ptr tbl i NULL in
             Some (tbl, total)
           else
             let* s := deref e in
             let* c := Sstrndup s MAX_REBUS_SIZE in
             let* tbl := store_ptr tbl i (Ptr c) in
             let* e := load_ptr tbl i in
             let* n := Sstrlen e in
             Some (tbl, total + n))
        (Ptr tbl, total)
      = Some (Ptr tbl',
              total + fold_right (fun s acc => Z.of_nat (length s) + acc) 0
                        (map (take 100) strs)) /\
      length tbl' = length tbl /\
      (forall j : nat, Z.of_nat j < lo -> tbl' !! j = tbl !! j) /\
      (forall (i : nat) s, strs !! i = Some s ->
         exists e, tbl' !! (Z.to_nat lo + i)%nat = Some e /\
                   (if is_null e then Some [] else cstring e) = Some (take 100 s)).
Proof.
  induction strs as [|s strs IH]; intros lo tbl total Hlo Hlen Hget.
  - exists tbl. cbn. rewrite Z.add_0_r. repeat split; auto. intros i s Hi. discriminate.
  - cbn [length] in Hlen. cbn [length for_loop].
    destruct (Hget O s eq_refl) as (e & He & Hs). rewrite Z.add_0_r in He. rewrite He.
    cbn [mbind].
    assert (exists e', (if is_null e
              then let* tbl0 := store_ptr (Ptr tbl) lo NULL in Some (tbl0, total)
              else let* s0 := deref e in
                   let* c := Sstrndup s0 MAX_REBUS_SIZE in
                   let* tbl0 := store_ptr (Ptr tbl) lo (Ptr c) in
                   let* e0 := load_ptr tbl0 lo in
                   let* n := Sstrlen e0 in Some (tbl0, total + n))
             = Some (Ptr (<[Z.to_nat lo := e']> tbl),
                     total + Z.of_nat (length (take 100 s))) /\
             (if is_null e' then Some [] else cstring e') = Some (take 100 s))
      as (e' & -> & He').
    { unfold store_ptr. cbn [deref]. destruct (is_null e) eqn:Hnull.
      - injection Hs as <-. exists NULL. case_decide; [|lia]. cbn.
        rewrite Z.add_0_r. split; reflexivity.
      - destruct (cstring_split _ _ Hs) as (rest & -> & Hnz). cbn [deref].
        unfold Sstrndup, MAX_REBUS_SIZE. change (Z.to_nat 100) with 100%nat.
        rewrite (strndup_data_take _ _ _ Hnz). cbn [mbind].
        case_decide; [|lia]. rewrite load_ptr_lookup by lia.
        rewrite list_lookup_insert_eq by lia. cbn [mbind].
        assert (Hnz' : Forall (fun c => c <> 0) (take 100 s)) by (apply Forall_take, Hnz).
        exists (Ptr (take 100 s ++ [0])). unfold Sstrlen. cbn [deref is_null].
        rewrite (strlen_nonzero _ _ Hnz'), (cstring_nonzero _ _ Hnz'). split; reflexivity. }
    destruct (IH (lo + 1) (<[Z.to_nat lo := e']> tbl)
                (total + Z.of_nat (length (take 100 s)))) as (tbl' & Hrun & Hl & Hlow & Hcells).
    + lia.
    + rewrite length_insert. lia.
    + intros i s' Hi. destruct (Hget (S i) s' Hi) as (e0 & He0 & Hs0).
      exists e0. split; [|exact Hs0]. rewrite <- He0. f_equal. lia.
    + exists tbl'. rewrite Hrun. cbn [map fold_right]. split; [f_equal; f_equal; lia|].
      split; [rewrite Hl, length_insert; reflexivity|]. split.
      * intros j Hj. rewrite Hlow by lia. apply list_lookup_insert_ne. lia.
      * intros [|i] s' Hi.
        -- injection Hi as <-. exists e'. split; [|exact He'].
           rewrite Nat.add_0_r, <- (Nat2Z.id (Z.to_nat lo)), Hlow by lia.
           rewrite Nat2Z.id. apply list_lookup_insert_eq. lia.
        -- destruct (Hcells i s' Hi) as (e0 & He0 & Hs0). exists e0. split; [|exact Hs0].
           rewrite <- He0. f_equal. lia.
Qed.

(** X4. [puz_rusr_set] copies the board of user rebuses, every string cut
    at 100 bytes, and records in [rusr_sz] the size of its binary form; so
    [puz_rusrstr_get] stays inside the [rusr_sz] bytes that it allocates, and
    returns every cell followed by a NUL. *)
Theorem puz_rusr_set_payload (p : puzzle_t) (val : ptr (list (ptr block)))
    (strs : list (list Z)) :
  let A := width (header p) * height (header p) in
  0 <= A ->
  is_null (rusr p) = true ->
  is_null val = false ->
  rusr_cells val A strs ->
  exists p',
    puz_rusr_set true (Ptr p) val = Some (Ptr p', rusr p') /\
    puz_has_rusr (Ptr p') = Some true /\
    rusr_cells (rusr p') A (map (take 100) strs) /\
    rusr_sz p' = Z.of_nat (length (rusr_payload (map (take 100) strs))) /\
    puz_rusrstr_get (Ptr p') = Some (Ptr (rusr_payload (map (take 100) strs))).
Proof.
  intros A HA Hnull Hval [Hlen Hcells].
  destruct (rusr_set_loop val strs 0 (replicate (Z.to_nat A) Dangling) A)
    as (tbl' & Hrun & Hl & _ & Hout).
  { lia. }
  { rewrite length_replicate. lia. }
  { intros i s Hi. rewrite Z.add_0_l. apply Hcells, Hi. }
  assert (Hcells' : rusr_cells (Ptr tbl') A (map (take 100) strs)).
  { split; [rewrite length_map; exact Hlen|].
    intros i s Hi. rewrite list_lookup_fmap in Hi.
    destruct (strs !! i) as [s0|] eqn:Hs0; [|discriminate]. injection Hi as <-.
    destruct (Hout i s0 Hs0) as (e & He & Hs). exists e. split; [|exact Hs].
    rewrite load_ptr_lookup by lia. rewrite Nat2Z.id. exact He. }
  assert (Hsz : A + fold_right (fun s acc => Z.of_nat (length s) + acc) 0
                      (map (take 100) strs)
                = Z.of_nat (length (rusr_payload (map (take 100) strs)))).
  { rewrite rusr_payload_length, length_map, Hlen. lia. }
  exists (set_rusr_sz (Z.of_nat (length (rusr_payload (map (take 100) strs))))
            (set_rusr (Ptr tbl') p)).
  split; [|split; [reflexivity|split; [exact Hcells'|split; [reflexivity|]]]].
  - unfold puz_rusr_set. rewrite Hval. cbn [is_null orb deref]. rewrite Hnull.
    cbn [negb mbind]. unfold puz_width_get, puz_height_get. cbn [is_null deref mbind negb].
    fold A. unfold for_range. rewrite Z.sub_0_r. rewrite <- Hlen in Hrun |- *.
    rewrite Hrun, Hsz. reflexivity.
  - unfold puz_rusrstr_get, for_range. cbn [is_null deref mbind].
    change (rusr (set_rusr_sz ?a (set_rusr ?b p))) with b. cbn [is_null].
    change (width (header (set_rusr_sz ?a (set_rusr ?b p)))) with (width (header p)).
    change (height (header (set_rusr_sz ?a (set_rusr ?b p)))) with (height (header p)).
    fold A. rewrite Z.sub_0_r.
    replace (Z.to_nat A) with (length (map (take 100) strs))
      by (rewrite length_map; exact Hlen).
    rewrite (rusrstr_loop_payload _ _ (map (take 100) strs) 0 []).
    + reflexivity.
    + intros i s Hi. rewrite Z.add_0_l. apply Hcells', Hi.
    + cbn [app]. change (rusr_sz (set_rusr_sz ?a ?b)) with a. lia.
Qed.

Lemma puz_rusr_set_payload_witness :
  exists p',
    puz_rusr_set true (Ptr (board_puzzle 2 1 0 0 "AB")) (Ptr [NULL; Ptr (cstr "XY")])
    = Some (Ptr p', rusr p') /\
    puz_has_rusr (Ptr p') = Some true /\
    rusr_cells (rusr p') (2 * 1) (map (take 100) [[]; bytes_of "XY"]) /\
    rusr_sz p' = Z.of_nat (length (rusr_payload (map (take 100) [[]; bytes_of "XY"]))) /\
    puz_rusrstr_get (Ptr p')
    = Some (Ptr (rusr_payload (map (take 100) [[]; bytes_of "XY"]))).
Proof.
  apply (puz_rusr_set_payload (board_puzzle 2 1 0 0 "AB") (Ptr [NULL; Ptr (cstr "XY")])
           [[]; bytes_of "XY"]).
  - cbn. lia.
  - reflexivity.
  - reflexivity.
  - split; [reflexivity|].
    intros [|[|i]] s Hi; cbn in Hi; inversion Hi; subst; eexists; split; reflexivity.
Defined.

(** *** The rebus table as a string *)

Lemma index_of_semicolon_app (e more : list Z) :
  Forall (fun c => c <> 59) e ->
  index_of_semicolon (e ++ 59 :: more) = Some (Z.of_nat (length e)).
Proof.
  induction 1 as [|c e Hc _ IH]; cbn.
  - reflexivity.
  - case_decide; [contradiction|]. rewrite IH. cbn. f_equal. lia.
Qed.

Lemma filter_semicolon_none (l : list Z) :
  Forall (fun c => c <> 59) l -> filter (fun c => c = 59) l = [].
Proof.
  induction 1 as [|c l Hc _ IH]; [reflexivity|].
  rewrite filter_cons_False by exact Hc. exact IH.
Qed.

Lemma filter_semicolon_payload (es : list (list Z)) (tail : list Z) :
  Forall (Forall (fun c => c <> 59)) es ->
  Forall (fun c => c <> 59) tail ->
  length (filter (fun c => c = 59) (rtbl_payload es ++ tail)) = length es.
Proof.
  intros Hes Htail. unfold rtbl_payload.
  induction Hes as [|e es He _ IH]; cbn [map concat length].
  - cbn [app]. rewrite filter_semicolon_none by exact Htail. reflexivity.
  - rewrite <- !app_assoc, list.filter_app, filter_semicolon_none by exact He.
    cbn [app]. rewrite filter_cons_True by reflexivity. cbn [length]. rewrite IH.
    reflexivity.
Qed.

Lemma rtblstr_entries_payload (es : list (list Z)) (tail : list Z) :
  Forall (Forall (fun c => c <> 59)) es ->
  forall (i : nat) (tbl : list (ptr block)),
    (i + length es <= length tbl)%nat ->
    rtblstr_entries (length es) (Z.of_nat i) (rtbl_payload es ++ tail) tbl
    = (take i tbl ++ map (fun e => Ptr (e ++ [0])) es ++ drop (i + length es) tbl, true).
Proof.
  induction 1 as [|e es He _ IH]; intros i tbl Hlen.
  - cbn. rewrite Nat.add_0_r, take_drop. reflexivity.
  - cbn [length] in Hlen. cbn [length rtblstr_entries].
    unfold rtbl_payload. cbn [map concat]. rewrite <- !app_assoc. cbn [app].
    rewrite (index_of_semicolon_app _ _ He). fold (rtbl_payload es).
    rewrite !Nat2Z.id, take_app_length.
    replace (length e + 1)%nat with (length (e ++ [59])) by (rewrite length_app; reflexivity).
    replace (e ++ 59 :: rtbl_payload es ++ tail) with ((e ++ [59]) ++ rtbl_payload es ++ tail)
      by (rewrite <- app_assoc; reflexivity).
    rewrite drop_app_length.
    replace (Z.of_nat i + 1) with (Z.of_nat (S i)) by lia.
    rewrite IH by (rewrite length_insert; lia).
    f_equal. cbn [map].
    rewrite (take_S_r _ _ (Ptr (e ++ [0]))) by (apply list_lookup_insert_eq; lia).
    rewrite take_insert_ge by lia. rewrite drop_insert_lt by lia.
    rewrite <- !app_assoc. cbn [app].
    replace (S i + length es)%nat with (i + S (length es))%nat by lia. reflexivity.
Qed.

(** X5. On a puzzle without a table, or with a table that can be cleared
    (it has [rtbl_sz] entries or more and holds no dangling pointer),
    [puz_rtblstr_set] cuts the string at its semicolons (nothing else ends
    an entry, and what follows the last semicolon is dropped);
    [puz_rtblstr_get] joins the entries again, every one followed by a
    semicolon. *)
Theorem puz_rtblstr_set_get (p : puzzle_t) (es : list (list Z)) (tail rest : list Z) :
  rtbl p = NULL \/
  (exists old, rtbl p = Ptr old /\ rtbl_sz p <= Z.of_nat (length old) /\
               Forall (fun e => e <> Dangling) old) ->
  Forall (Forall (fun c => c <> 0 /\ c <> 59)) es ->
  Forall (fun c => c <> 0 /\ c <> 59) tail ->
  exists p',
    puz_rtblstr_set (Ptr p) (rtbl_payload es ++ tail ++ 0 :: rest) = Some (Ptr p', rtbl p') /\
    is_null (rtbl p') = false /\
    rtbl_sz p' = Z.of_nat (length es) /\
    strings_at (rtbl p') (rtbl_sz p') es /\
    puz_rtblstr_get (Ptr p') = Some (Ptr (rtbl_payload es ++ [0])).
Proof.
  intros Hd Hes Htail.
  assert (Hes59 : Forall (Forall (fun c => c <> 59)) es).
  { eapply Forall_impl; [|exact Hes]. intros e He.
    eapply Forall_impl; [|exact He]. intros c [Hc0 Hc59]; assumption. }
  assert (Htail59 : Forall (fun c => c <> 59) tail).
  { eapply Forall_impl; [|exact Htail]. intros c [Hc0 Hc59]; assumption. }
  assert (Hnz : Forall (fun c => c <> 0) (rtbl_payload es ++ tail)).
  { apply Forall_app. split.
    - unfold rtbl_payload. apply Forall_concat, Forall_fmap.
      eapply Forall_impl; [|exact Hes]. intros e He. cbn. apply Forall_app. split.
      + eapply Forall_impl; [|exact He]. intros c [Hc0 Hc59]; assumption.
      + repeat constructor. discriminate.
    - eapply Forall_impl; [|exact Htail]. intros c [Hc0 Hc59]; assumption. }
  set (tbl := map (fun e => Ptr (e ++ [0])) es : list (ptr block)).
  assert (Hat : strings_at (Ptr tbl) (Z.of_nat (length es)) es).
  { split; [rewrite Nat2Z.id; reflexivity|]. intros i s Hi.
    exists (Ptr (s ++ [0])). rewrite load_ptr_lookup by lia. rewrite Nat2Z.id.
    unfold tbl. rewrite list_lookup_fmap, Hi. split; [reflexivity|].
    apply cstring_nonzero. rewrite Forall_lookup in Hes. specialize (Hes _ _ Hi).
    eapply Forall_impl; [|exact Hes]. intros c [Hc0 Hc59]; assumption. }
  assert (Hrun :
            rtblstr_entries (Z.to_nat (Z.of_nat (length es))) 0
              (rtbl_payload es ++ tail) (replicate (length es) NULL)
            = (tbl, true)).
  { rewrite Nat2Z.id.
    change 0 with (Z.of_nat 0).
    rewrite (rtblstr_entries_payload es tail Hes59 0 (replicate (length es) NULL))
      by (rewrite length_replicate; lia).
    rewrite take_0, drop_ge by (rewrite length_replicate; lia).
    cbn [app]. rewrite app_nil_r. reflexivity. }
  assert (Hstr : cstring (Ptr (rtbl_payload es ++ tail ++ 0 :: rest))
                 = Some (rtbl_payload es ++ tail)).
  { rewrite app_assoc. apply cstring_nonzero, Hnz. }
  destruct Hd as [Hr | (old & Hr & Hsz & Hold)].
  - exists (set_rtbl (Ptr tbl)
              (set_rtbl_sz (Z.of_nat (length es))
                 (set_rtbl (Ptr (replicate (length es) NULL)) p))).
    split; [|split; [reflexivity|split; [reflexivity|split; [exact Hat|]]]].
    + unfold puz_rtblstr_set. cbn [is_null deref mbind]. rewrite Hr. cbn [is_null negb].
      rewrite Hstr. cbn [mbind]. rewrite filter_semicolon_payload by assumption.
      unfold puz_rebus_count_set. cbn [is_null]. case_decide; [lia|].
      cbn [deref mbind]. rewrite Nat2Z.id.
      change (rtbl (set_rtbl_sz ?a (set_rtbl ?b ?c))) with b.
      change (rtbl_sz (set_rtbl_sz ?a ?c)) with a.
      cbn [deref mbind]. rewrite Hrun. reflexivity.
    + apply (puz_rtblstr_get_payload _ es). exact Hat.
  - exists (set_rtbl (Ptr tbl)
              (set_rtbl_sz (Z.of_nat (length es))
                 (set_rtbl (Ptr (replicate (length es) NULL))
                    (set_calc_rtbl_cksum 0 (set_rtbl_cksum 0 (set_rtbl_sz 0
                       (set_rtbl NULL p))))))).
    split; [|split; [reflexivity|split; [reflexivity|split; [exact Hat|]]]].
    + unfold puz_rtblstr_set. cbn [is_null deref mbind]. rewrite Hr. cbn [is_null negb].
      unfold puz_clear_rtbl. cbn [is_null deref mbind]. rewrite Hr. cbn [is_null].
      rewrite (free_entries old _ Hsz Hold). cbn [free mbind].
      rewrite Hstr. cbn [mbind]. rewrite filter_semicolon_payload by assumption.
      unfold puz_rebus_count_set. cbn [is_null]. case_decide; [lia|].
      cbn [deref mbind]. rewrite Nat2Z.id.
      change (rtbl (set_rtbl_sz ?a (set_rtbl ?b ?c))) with b.
      change (rtbl_sz (set_rtbl_sz ?a ?c)) with a.
      cbn [deref mbind]. rewrite Hrun. reflexivity.
    + apply (puz_rtblstr_get_payload _ es). exact Hat.
Qed.

Lemma puz_rtblstr_set_get_witness :
  exists p',
    puz_rtblstr_set (Ptr sample_full)
      (rtbl_payload [bytes_of " 1:ONE"; bytes_of " 2:TWO"] ++ bytes_of "junk" ++ 0 :: [7])
    = Some (Ptr p', rtbl p') /\
    is_null (rtbl p') = false /\
    rtbl_sz p' = Z.of_nat (length [bytes_of " 1:ONE"; bytes_of " 2:TWO"]) /\
    strings_at (rtbl p') (rtbl_sz p') [bytes_of " 1:ONE"; bytes_of " 2:TWO"] /\
    puz_rtblstr_get (Ptr p')
    = Some (Ptr (rtbl_payload [bytes_of " 1:ONE"; bytes_of " 2:TWO"] ++ [0])).
Proof.
  apply (puz_rtblstr_set_get sample_full [bytes_of " 1:ONE"; bytes_of " 2:TWO"]
           (bytes_of "junk") [7]).
  - right. exists [Ptr (cstr " 0:AB")].
    split; [reflexivity|split; [cbn; lia|repeat constructor; discriminate]].
  - repeat constructor; discriminate.
  - repeat constructor; discriminate.
Defined.

End SetSpec.
(** * Validation: [puz_cksums_check] and [puz_cksums_commit] *)

Module CheckSpec.
Import CksumFacts CksumSpec SizeSpec MagicSpec SetSpec.

Lemma with_stored_stored p : with_stored (stored p) p = p.
Proof. destruct p as [? h]. destruct h. reflexivity. Qed.

(** Reduction of the setters and projections of explicit structures,
    and of the steps of the calculation. *)
Ltac fields_in H :=
  cbv beta iota zeta delta
    [sz header calc_cksum_puzcib calc_cksums calc_magic10 calc_magic14 cib
     base solution grid title author copyright clues notes notes_sz
     grbs_cksum calc_grbs_cksum grbs rtbl_sz rtbl_cksum calc_rtbl_cksum rtbl
     ltim_cksum calc_ltim_cksum ltim gext_cksum calc_gext_cksum gext
     rusr_cksum calc_rusr_cksum rusr rusr_sz
     cksum_puz magic cksum_cib magic_10 magic_14 magic_18 noise_1c
     scrambled_cksum noise_20 noise_22 noise_24 noise_26 noise_28 noise_2a
     width height clue_count x_unk_30 scrambled_tag
     with_stored stored s_cksum_puz s_cksum_cib s_magic_10 s_magic_14
     s_grbs_cksum s_rtbl_cksum s_ltim_cksum s_gext_cksum s_rusr_cksum
     set_header set_cksum_puz set_cksum_cib set_magic_10 set_magic_14
     set_grbs_cksum set_rtbl_cksum set_ltim_cksum set_gext_cksum set_rusr_cksum
     set_cib set_calc_cksum_puzcib set_calc_cksums set_calc_magic10
     set_calc_magic14 set_calc_grbs_cksum set_calc_rtbl_cksum
     set_calc_ltim_cksum set_calc_gext_cksum set_calc_rusr_cksum
     puz_cksums_calc cksums_calc_main cksums_calc_sections
     cksums_calc_rebus cksums_calc_timer cksums_calc_extras cksums_calc_rusr
     puz_cksum2 puz_cksum puz_cksum_cib cksum_clues rtbl_gen rusr_gen
     puz_rtblstr_get puz_rusrstr_get
     puz_has_rebus puz_has_timer puz_has_extras puz_has_rusr
     puz_cksums_check puz_cksums_commit
     deref negb fst snd] in H.

Ltac fields :=
  cbv beta iota zeta delta
    [sz header calc_cksum_puzcib calc_cksums calc_magic10 calc_magic14 cib
     base solution grid title author copyright clues notes notes_sz
     grbs_cksum calc_grbs_cksum grbs rtbl_sz rtbl_cksum calc_rtbl_cksum rtbl
     ltim_cksum calc_ltim_cksum ltim gext_cksum calc_gext_cksum gext
     rusr_cksum calc_rusr_cksum rusr rusr_sz
     cksum_puz magic cksum_cib magic_10 magic_14 magic_18 noise_1c
     scrambled_cksum noise_20 noise_22 noise_24 noise_26 noise_28 noise_2a
     width height clue_count x_unk_30 scrambled_tag
     with_stored stored s_cksum_puz s_cksum_cib s_magic_10 s_magic_14
     s_grbs_cksum s_rtbl_cksum s_ltim_cksum s_gext_cksum s_rusr_cksum
     set_header set_cksum_puz set_cksum_cib set_magic_10 set_magic_14
     set_grbs_cksum set_rtbl_cksum set_ltim_cksum set_gext_cksum set_rusr_cksum
     set_cib set_calc_cksum_puzcib set_calc_cksums set_calc_magic10
     set_calc_magic14 set_calc_grbs_cksum set_calc_rtbl_cksum
     set_calc_ltim_cksum set_calc_gext_cksum set_calc_rusr_cksum
     puz_cksums_calc cksums_calc_main cksums_calc_sections
     cksums_calc_rebus cksums_calc_timer cksums_calc_extras cksums_calc_rusr
     puz_cksum2 puz_cksum puz_cksum_cib cksum_clues rtbl_gen rusr_gen
     puz_rtblstr_get puz_rusrstr_get
     puz_has_rebus puz_has_timer puz_has_extras puz_has_rusr
     puz_cksums_check puz_cksums_commit
     deref negb fst snd].

(** Case analysis on the first computation of a chain of binds. *)
Ltac bind_step H :=
  match type of H with
  | context [match ?x with _ => _ end] =>
      lazymatch x with
      | match _ with _ => _ end => fail
      | _ => destruct x eqn:?; try discriminate H
      end
  end.

(** A loop that stores a value computed from the index alone into every
    cell: the cells below the range are left alone, the cells of the range
    hold the values, and a second run changes nothing. *)
Section StoreLoop.
Variable f : Z -> option Z.
Variable body : Z -> list Z -> option (list Z).
Hypothesis body_store : forall i dest, body i dest = let* v := f i in store dest i v.

Lemma store_loop_below n : forall lo dest d (j : nat),
  for_loop n lo body dest = Some d -> (Z.of_nat j < lo) -> d !! j = dest !! j.
Proof.
  induction n as [|n IH]; intros lo dest d j H Hj; cbn in H.
  - congruence.
  - rewrite body_store in H. destruct (f lo) as [v|]; [|discriminate].
    unfold store in H. case_decide; [|discriminate].
    erewrite IH by (try eassumption; lia).
    apply list_lookup_insert_ne. lia.
Qed.

Lemma store_loop_values n : forall lo dest d,
  0 <= lo ->
  for_loop n lo body dest = Some d ->
  forall i, lo <= i < lo + Z.of_nat n -> exists v, f i = Some v /\ d !! Z.to_nat i = Some v.
Proof.
  induction n as [|n IH]; intros lo dest d Hlo H i Hi; [lia|].
  cbn in H. rewrite body_store in H. destruct (f lo) as [v|] eqn:Ef; [|discriminate].
  unfold store in H. case_decide; [|discriminate].
  destruct (decide (i = lo)) as [->|Hne].
  - exists v. split; [exact Ef|].
    erewrite store_loop_below by (try eassumption; lia).
    apply list_lookup_insert_eq. lia.
  - eapply IH; [| eassumption |]; lia.
Qed.

Lemma store_loop_again n : forall lo d,
  0 <= lo ->
  (forall i, lo <= i < lo + Z.of_nat n -> exists v, f i = Some v /\ d !! Z.to_nat i = Some v) ->
  for_loop n lo body d = Some d.
Proof.
  induction n as [|n IH]; intros lo d Hlo Hv; [reflexivity|].
  cbn. rewrite body_store. destruct (Hv lo) as (v & -> & Hd); [lia|].
  unfold store. apply lookup_lt_Some in Hd as Hlt.
  case_decide; [|lia]. rewrite list_insert_id by exact Hd.
  apply IH; [lia|]. intros i Hi. apply Hv. lia.
Qed.

Lemma store_loop_idempotent n lo dest d :
  0 <= lo -> for_loop n lo body dest = Some d -> for_loop n lo body d = Some d.
Proof.
  intros Hlo H. apply store_loop_again; [exact Hlo|].
  eapply store_loop_values; eassumption.
Qed.

End StoreLoop.

(** [magic_gen_10] and [magic_gen_14] write the same bytes again when they
    run on their own result. *)
Lemma magic_gen_10_again dest sums d :
  magic_gen_10 dest sums = Some d -> magic_gen_10 d sums = Some d.
Proof.
  unfold magic_gen_10, for_range.
  apply (store_loop_idempotent
    (fun i => let* s := load sums i in let* m := load MAGIC_10_MASK i in
              Some (u8 (Z.lxor (u8 (Z.land s 255)) m)))); [|lia].
  intros i dst. destruct (load sums i); [|reflexivity].
  destruct (load MAGIC_10_MASK i); reflexivity.
Qed.

Lemma magic_gen_14_again dest sums d :
  magic_gen_14 dest sums = Some d -> magic_gen_14 d sums = Some d.
Proof.
  unfold magic_gen_14, for_range.
  apply (store_loop_idempotent
    (fun i => let* s := load sums i in let* m := load MAGIC_14_MASK i in
              Some (u8 (Z.lxor (Z.shiftr (Z.land s 65280) 8) m)))); [|lia].
  intros i dst. destruct (load sums i); [|reflexivity].
  destruct (load MAGIC_14_MASK i); reflexivity.
Qed.

Ltac use_eqs :=
  repeat match goal with
         | E : ?x = Some _ |- context [?x] => rewrite E
         | E : is_null ?x = _ |- context [is_null ?x] => rewrite E
         end.

(** The calculation reads none of the stored checksums, and writes what
    it finds when it runs on its own result. *)
Lemma cksums_calc_main_fixed s p p1 cg cr cl ce cu :
  cksums_calc_main (Ptr p) = Some (Ptr p1) ->
  let q := with_stored s
             (set_calc_rusr_cksum cu (set_calc_gext_cksum ce
                (set_calc_ltim_cksum cl (set_calc_rtbl_cksum cr
                   (set_calc_grbs_cksum cg p1))))) in
  cksums_calc_main (Ptr q) = Some (Ptr q).
Proof.
  intros H. destruct s. destruct p as [? h]; destruct h.
  fields_in H. repeat bind_step H. injection H as <-.
  fields. use_eqs.
  erewrite magic_gen_10_again by eassumption.
  erewrite magic_gen_14_again by eassumption. reflexivity.
Qed.

Lemma cksums_calc_sections_fixed p1 p' :
  cksums_calc_sections (Ptr p1) = Some (Ptr p') ->
  (exists cg cr cl ce cu,
     p' = set_calc_rusr_cksum cu (set_calc_gext_cksum ce
            (set_calc_ltim_cksum cl (set_calc_rtbl_cksum cr
               (set_calc_grbs_cksum cg p1))))) /\
  forall s, cksums_calc_sections (Ptr (with_stored s p'))
            = Some (Ptr (with_stored s p')).
Proof.
  intros H. destruct p1 as [? h]; destruct h.
  fields_in H. cbn [is_null] in H.
  repeat bind_step H; injection H as <-.
  all: split; [do 5 eexists; reflexivity|].
  all: intros []; fields; cbn [is_null]; use_eqs; reflexivity.
Qed.

Lemma cksums_calc_fixed s p p' r :
  puz_cksums_calc (Ptr p) = Some (Ptr p', r) ->
  puz_cksums_calc (Ptr (with_stored s p')) = Some (Ptr (with_stored s p'), r).
Proof.
  unfold puz_cksums_calc. intros H.
  destruct (cksums_calc_main (Ptr p)) as [puz1|] eqn:Hm; [|discriminate].
  destruct (cksums_calc_sections puz1) as [puz2|] eqn:Hs; [|discriminate].
  injection H as -> <-.
  assert (exists p1, puz1 = Ptr p1) as [p1 ->].
  { unfold cksums_calc_main in Hm. repeat bind_step Hm. injection Hm as <-. eauto. }
  destruct (cksums_calc_sections_fixed _ _ Hs) as [(cg & cr & cl & ce & cu & Hp') Hfix].
  rewrite Hp' at 1.
  rewrite (cksums_calc_main_fixed s p p1 cg cr cl ce cu Hm).
  rewrite <- Hp'. rewrite Hfix. reflexivity.
Qed.

Lemma puz_cksums_calc_ptr puz puz' r :
  puz_cksums_calc puz = Some (puz', r) ->
  exists p p', puz = Ptr p /\ puz' = Ptr p' /\ r = 0.
Proof.
  unfold puz_cksums_calc, cksums_calc_main, cksums_calc_sections. intros H.
  destruct puz as [|p|]; try discriminate H. cbn [deref] in H.
  repeat bind_step H. injection H as <- <-. eauto.
Qed.

Lemma puz_cksums_calc_again puz puz' r :
  puz_cksums_calc puz = Some (puz', r) ->
  puz_cksums_calc puz' = Some (puz', r).
Proof.
  intros H. destruct (puz_cksums_calc_ptr _ _ _ H) as (p & p' & -> & -> & ->).
  rewrite <- (with_stored_stored p'). eapply cksums_calc_fixed, H.
Qed.

Lemma count_diff_cases a b r :
  (a = b /\ count_diff a b r = r) \/ (a <> b /\ count_diff a b r = r + 1).
Proof. unfold count_diff. case_decide; [right | left]; split; auto; lia. Qed.

Lemma count_magic_cases got calc r r' :
  count_magic got calc r = Some r' ->
  r <= r' <= r + 4 /\ (4 <= length calc)%nat /\
  (r' = r <-> take 4 got = take 4 calc).
Proof.
  unfold count_magic, for_range. change (Z.to_nat (4 - 0)) with 4%nat.
  cbn [for_loop]. rewrite !load_lookup by lia.
  change (Z.to_nat 0) with 0%nat. change (Z.to_nat (0 + 1)) with 1%nat.
  change (Z.to_nat (0 + 1 + 1)) with 2%nat. change (Z.to_nat (0 + 1 + 1 + 1)) with 3%nat.
  intros H.
  destruct got as [|g0 [|g1 [|g2 [|g3 got]]]]; try discriminate H;
    destruct calc as [|c0 [|c1 [|c2 [|c3 calc]]]]; try discriminate H.
  cbn in H. injection H as <-.
  split; [|split; [cbn; lia|]].
  - destruct (count_diff_cases g0 c0 r) as [[? ->]|[? ->]];
    match goal with |- context [count_diff g1 c1 ?x] =>
      destruct (count_diff_cases g1 c1 x) as [[? ->]|[? ->]] end;
    match goal with |- context [count_diff g2 c2 ?x] =>
      destruct (count_diff_cases g2 c2 x) as [[? ->]|[? ->]] end;
    match goal with |- context [count_diff g3 c3 ?x] =>
      destruct (count_diff_cases g3 c3 x) as [[? ->]|[? ->]] end; lia.
  - cbn [take]. rewrite !take_0.
    destruct (count_diff_cases g0 c0 r) as [[? ->]|[? ->]];
    match goal with |- context [count_diff g1 c1 ?x] =>
      destruct (count_diff_cases g1 c1 x) as [[? ->]|[? ->]] end;
    match goal with |- context [count_diff g2 c2 ?x] =>
      destruct (count_diff_cases g2 c2 x) as [[? ->]|[? ->]] end;
    match goal with |- context [count_diff g3 c3 ?x] =>
      destruct (count_diff_cases g3 c3 x) as [[? ->]|[? ->]] end;
    split; intros; try lia; congruence.
Qed.

Lemma puz_cksums_calc_magic_length p p' r :
  puz_cksums_calc (Ptr p) = Some (Ptr p', r) ->
  exists c0, load (calc_cksums p') 0 = Some c0.
Proof.
  intros H. unfold puz_cksums_calc in H.
  destruct (cksums_calc_main (Ptr p)) as [puz1|] eqn:Hm; [|discriminate].
  destruct (cksums_calc_sections puz1) as [puz2|] eqn:Hs; [|discriminate].
  injection H as -> <-.
  unfold cksums_calc_main in Hm. cbn [deref] in Hm. repeat bind_step Hm.
  injection Hm as <-.
  destruct (cksums_calc_sections_fixed _ _ Hs) as [(cg & cr & cl & ce & cu & ->) _].
  eexists. reflexivity.
Qed.

Lemma count_diff_step a b r :
  r <= count_diff a b r <= r + 1 /\ (count_diff a b r = r <-> a = b).
Proof. unfold count_diff. case_decide; split; try lia; split; intros; try lia; congruence. Qed.

Lemma count_diff_if (c : bool) a b r :
  let r' := if c then count_diff a b r else r in
  r <= r' <= r + 1 /\ (r' = r <-> (c = true -> a = b)).
Proof.
  destruct c; cbn.
  - destruct (count_diff_step a b r) as [? [? ?]]. split; [lia|]. split; auto.
  - split; [lia|]. split; intros; [discriminate | reflexivity].
Qed.

(** What [puz_cksums_check] returns counts the stored values that differ
    from the calculated ones. *)
Lemma puz_cksums_check_count puz q r :
  puz_cksums_check puz = Some (Ptr q, r) ->
  0 <= r <= 15 /\ (r = 0 <-> sums_match q).
Proof.
  unfold puz_cksums_check. intros H.
  destruct (puz_cksums_calc puz) as [[puz' r0]|] eqn:Hc; [|discriminate].
  destruct (puz_cksums_calc_ptr _ _ _ Hc) as (p & p' & -> & -> & ->).
  cbn [deref] in H.
  destruct (load (calc_cksums p') 0) as [c0|] eqn:E0; [|discriminate].
  destruct (count_magic (magic_10 (header p')) _ _) as [r1|] eqn:E1; [|discriminate].
  destruct (count_magic (magic_14 (header p')) _ _) as [r2|] eqn:E2; [|discriminate].
  unfold puz_has_rebus, puz_has_timer, puz_has_extras, puz_has_rusr in H.
  cbn [is_null deref] in H. injection H as <- <-.
  apply count_magic_cases in E1 as (B1 & _ & I1).
  apply count_magic_cases in E2 as (B2 & _ & I2).
  destruct (count_diff_step (cksum_cib (header p')) c0 0) as [Ba Ia].
  destruct (count_diff_step (cksum_puz (header p')) (calc_cksum_puzcib p')
              (count_diff (cksum_cib (header p')) c0 0)) as [Bb Ib].
  set (ra := count_diff (cksum_cib (header p')) c0 0) in *.
  set (rb := count_diff (cksum_puz (header p')) (calc_cksum_puzcib p') ra) in *.
  clearbody ra rb.
  assert (B3 : let r3 := if negb (is_null (grbs p'))
                         then count_diff (rtbl_cksum p') (calc_rtbl_cksum p')
                                (count_diff (grbs_cksum p') (calc_grbs_cksum p') r2)
                         else r2 in
               r2 <= r3 <= r2 + 2 /\
               (r3 = r2 <-> (is_null (grbs p') = false ->
                             grbs_cksum p' = calc_grbs_cksum p' /\
                             rtbl_cksum p' = calc_rtbl_cksum p'))).
  { destruct (is_null (grbs p')); cbn.
    - split; [lia|]. split; intros; [discriminate | reflexivity].
    - destruct (count_diff_step (grbs_cksum p') (calc_grbs_cksum p') r2) as [? [? ?]].
      destruct (count_diff_step (rtbl_cksum p') (calc_rtbl_cksum p')
                  (count_diff (grbs_cksum p') (calc_grbs_cksum p') r2)) as [? [? ?]].
      split; [lia|]. split.
      + intros. split; [apply H0 | apply H3]; lia.
      + intros Hq. destruct (Hq eq_refl) as [Hg Hr].
        apply H1 in Hg. apply H4 in Hr. lia. }
  cbv zeta in B3. destruct B3 as [B3 I3].
  match type of B3 with _ <= ?x <= _ => set (r3 := x) in * end. clearbody r3.
  pose proof (count_diff_if (negb (is_null (ltim p'))) (ltim_cksum p')
                (calc_ltim_cksum p') r3) as [B4 I4]. cbv zeta in B4, I4.
  match type of B4 with _ <= ?x <= _ => set (r4 := x) in * end. clearbody r4.
  pose proof (count_diff_if (negb (is_null (gext p'))) (gext_cksum p')
                (calc_gext_cksum p') r4) as [B5 I5]. cbv zeta in B5, I5.
  match type of B5 with _ <= ?x <= _ => set (r5 := x) in * end. clearbody r5.
  pose proof (count_diff_if (negb (is_null (rusr p'))) (rusr_cksum p')
                (calc_rusr_cksum p') r5) as [B6 I6]. cbv zeta in B6, I6.
  match type of B6 with _ <= ?x <= _ => set (r6 := x) in * end. clearbody r6.
  split; [lia|].
  unfold sums_match. rewrite E0.
  assert (Hn : forall x : ptr block, negb (is_null x) = true <-> is_null x = false).
  { intros x. destruct (is_null x); cbn; split; congruence. }
  assert (Hn' : forall x : ptr (list (ptr block)),
            negb (is_null x) = true <-> is_null x = false).
  { intros x. destruct (is_null x); cbn; split; congruence. }
  rewrite Hn in I4, I5. rewrite Hn' in I6.
  rewrite <- I1, <- I2, <- I3, <- I4, <- I5, <- I6, <- Ib.
  split.
  - intros H0. assert (ra = 0) as Hra by lia. apply Ia in Hra.
    repeat split; try lia. congruence.
  - intros (Hc0 & ? & ? & ? & ? & ? & ? & ?).
    assert (ra = 0) by (apply Ia; congruence). lia.
Qed.

Lemma count_diff_same a r : count_diff a a r = r.
Proof. unfold count_diff. case_decide; [contradiction | reflexivity]. Qed.

Lemma copy_magic_count dst src m r :
  copy_magic dst src = Some m -> count_magic m src r = Some r.
Proof.
  unfold copy_magic, read_bytes, store_bytes. intros H.
  case_decide as Hs; [|discriminate]. cbn [mbind] in H.
  case_decide as Hd; [|discriminate]. injection H as <-.
  change (Z.to_nat 4) with 4%nat in *. change (Z.to_nat 0) with 0%nat in *.
  rewrite drop_0 in *. clear Hd.
  destruct src as [|s0 [|s1 [|s2 [|s3 src]]]]; cbn [length] in Hs; try lia.
  cbn [take app]. rewrite take_0. cbn [app].
  unfold count_magic, for_range. change (Z.to_nat (4 - 0)) with 4%nat.
  cbn [for_loop]. rewrite !load_lookup by lia.
  change (Z.to_nat 0) with 0%nat. change (Z.to_nat (0 + 1)) with 1%nat.
  change (Z.to_nat (0 + 1 + 1)) with 2%nat. change (Z.to_nat (0 + 1 + 1 + 1)) with 3%nat.
  cbn. rewrite !count_diff_same. reflexivity.
Qed.

(** Reduction of the setters and projections alone, over a puzzle that
    is a variable. *)
Ltac records :=
  cbn [sz header calc_cksum_puzcib calc_cksums calc_magic10 calc_magic14 cib
     base solution grid title author copyright clues notes notes_sz
     grbs_cksum calc_grbs_cksum grbs rtbl_sz rtbl_cksum calc_rtbl_cksum rtbl
     ltim_cksum calc_ltim_cksum ltim gext_cksum calc_gext_cksum gext
     rusr_cksum calc_rusr_cksum rusr rusr_sz
     cksum_puz magic cksum_cib magic_10 magic_14 magic_18 noise_1c
     scrambled_cksum noise_20 noise_22 noise_24 noise_26 noise_28 noise_2a
     width height clue_count x_unk_30 scrambled_tag
     with_stored stored s_cksum_puz s_cksum_cib s_magic_10 s_magic_14
     s_grbs_cksum s_rtbl_cksum s_ltim_cksum s_gext_cksum s_rusr_cksum
     set_header set_cksum_puz set_cksum_cib set_magic_10 set_magic_14
     set_grbs_cksum set_rtbl_cksum set_ltim_cksum set_gext_cksum set_rusr_cksum
     puz_has_rebus puz_has_timer puz_has_extras puz_has_rusr
     deref is_null negb fst snd].

(** The calculation is defined on a well-formed puzzle; it leaves the
    header alone and fills the two calculated magics. *)
Lemma puz_cksums_calc_defined p :
  well_formed p ->
  exists p', puz_cksums_calc (Ptr p) = Some (Ptr p', 0) /\
             header p' = header p /\
             length (calc_magic10 p') = 4%nat /\ length (calc_magic14 p') = 4%nat.
Proof.
  intros (_ & _ & H10 & H14 & [sol Hsol] & [grd Hgrd] & [t Ht] & [a Ha] & [c Hc]
          & [cl Hcl] & [n Hn] & Hsec).
  unfold puz_cksums_calc, cksums_calc_main. cbn [deref].
  set (p0 := set_cib _ p).
  rewrite (puz_cksum2_spec p0 t a c n cl 0 Ht Ha Hc Hcl Hn).
  unfold puz_cksum_cib. cbn [deref].
  match goal with |- context [puz_cksum_region (Ptr ?x) 8 0] =>
    change 8 with (Z.of_nat (length x)) end.
  rewrite puz_cksum_region_whole.
  rewrite (puz_cksum_spec p0 t a c n cl sol grd _ Hsol Hgrd Ht Ha Hc Hcl Hn).
  change (width (header p0) * height (header p0))
    with (width (header p) * height (header p)).
  change (grid p0) with (grid p). change (solution p0) with (solution p).
  rewrite (board_bytes_region _ _ _ _ Hgrd), (board_bytes_region _ _ _ _ Hsol).
  match goal with |- context [set_calc_cksums ?x _] => set (sums := x) end.
  set (p1 := set_calc_cksums sums _).
  change (calc_magic10 p1) with (calc_magic10 p).
  change (calc_cksums p1) with sums.
  rewrite (magic_gen_10_spec _ sums H10 eq_refl).
  set (p2 := set_calc_magic10 _ p1).
  change (calc_magic14 p2) with (calc_magic14 p).
  change (calc_cksums p2) with sums.
  rewrite (magic_gen_14_spec _ sums H14 eq_refl).
  2:{ unfold sums. repeat constructor; apply cksum_bytes_range; lia. }
  set (p3 := set_calc_magic14 _ p2).
  assert (Hsec3 : sections_ok p3) by exact Hsec.
  destruct (cksums_calc_sections_defined p3 Hsec3) as (p' & -> & Hsame).
  exists p'. split; [reflexivity|].
  destruct Hsame as (Hh & _ & _ & Hm10 & Hm14 & _).
  rewrite Hh, Hm10, Hm14. repeat split.
Qed.

(** [puz_cksums_commit] changes the stored checksums and nothing else. *)
Lemma puz_cksums_commit_stored p p' c0 m10 m14 :
  puz_cksums_calc (Ptr p) = Some (Ptr p', 0) ->
  load (calc_cksums p') 0 = Some c0 ->
  copy_magic (magic_10 (header p')) (calc_magic10 p') = Some m10 ->
  copy_magic (magic_14 (header p')) (calc_magic14 p') = Some m14 ->
  puz_cksums_commit (Ptr p)
  = Some (Ptr (with_stored
                 (mk_stored_sums (calc_cksum_puzcib p') c0 m10 m14
                    (if is_null (grbs p') then grbs_cksum p' else calc_grbs_cksum p')
                    (if is_null (grbs p') then rtbl_cksum p' else calc_rtbl_cksum p')
                    (if is_null (ltim p') then ltim_cksum p' else calc_ltim_cksum p')
                    (if is_null (gext p') then gext_cksum p' else calc_gext_cksum p')
                    (if is_null (rusr p') then rusr_cksum p' else calc_rusr_cksum p'))
                 p'), 0).
Proof.
  intros Hc E0 E10 E14. unfold puz_cksums_commit. rewrite Hc.
  cbn [deref]. rewrite E0. records. rewrite E10, E14.
  destruct (is_null (grbs p')); records;
    destruct (is_null (ltim p')); records;
    destruct (is_null (gext p')); records;
    destruct (is_null (rusr p')); records;
    destruct p' as [? []]; reflexivity.
Qed.

Lemma copy_magic_defined dst src :
  length dst = 4%nat -> length src = 4%nat ->
  exists m, copy_magic dst src = Some m /\ length m = 4%nat.
Proof.
  intros Hd Hs. unfold copy_magic, read_bytes, store_bytes.
  case_decide; [|lia]. cbn [mbind].
  change (Z.to_nat 4) with 4%nat. change (Z.to_nat 0) with 0%nat.
  rewrite drop_0. case_decide as Hc.
  - eexists. split; [reflexivity|].
    rewrite !length_app, length_take, length_drop. cbn [length]. lia.
  - rewrite length_take in Hc. lia.
Qed.

Lemma count_magic_defined got calc r :
  length got = 4%nat -> length calc = 4%nat ->
  exists r', count_magic got calc r = Some r'.
Proof.
  intros Hg Hc.
  destruct got as [|g0 [|g1 [|g2 [|g3 [|]]]]]; try discriminate Hg.
  destruct calc as [|c0 [|c1 [|c2 [|c3 [|]]]]]; try discriminate Hc.
  unfold count_magic, for_range. change (Z.to_nat (4 - 0)) with 4%nat.
  cbn [for_loop]. rewrite !load_lookup by lia. cbn. eauto.
Qed.

(** After a commit that returns, the check finds nothing to report. *)
Lemma commit_then_check p p' c0 m10 m14 :
  puz_cksums_calc (Ptr p) = Some (Ptr p', 0) ->
  load (calc_cksums p') 0 = Some c0 ->
  copy_magic (magic_10 (header p')) (calc_magic10 p') = Some m10 ->
  copy_magic (magic_14 (header p')) (calc_magic14 p') = Some m14 ->
  exists q, puz_cksums_commit (Ptr p) = Some (Ptr q, 0) /\
            puz_cksums_check (Ptr q) = Some (Ptr q, 0).
Proof.
  intros Hc E0 E10 E14. eexists. split.
  - apply (puz_cksums_commit_stored _ _ _ _ _ Hc E0 E10 E14).
  - apply (copy_magic_count _ _ _ 0) in E10, E14.
    unfold puz_cksums_check.
    rewrite (cksums_calc_fixed _ _ _ _ Hc). records.
    rewrite E0, !count_diff_same, E10, E14.
    destruct (is_null (grbs p')), (is_null (ltim p')), (is_null (gext p')),
      (is_null (rusr p')); records; rewrite ?count_diff_same; reflexivity.
Qed.

Lemma sample_full_well_formed : well_formed sample_full.
Proof.
  unfold well_formed. cbv zeta.
  repeat (split; [first [reflexivity | eexists; reflexivity]|]).
  split.
  { exists [bytes_of "a1"; bytes_of "d1"]. split; [reflexivity|].
    intros [|[|i]] s Hi; cbn in Hi; inversion Hi; subst; eexists; split; reflexivity. }
  split; [eexists; reflexivity|]. exact sample_full_sections_ok.
Qed.

(** X6. On a well-formed puzzle [puz_cksums_calc] returns 0, and a second
    run on its result changes nothing. *)
Theorem puz_cksums_calc_idempotent (p : puzzle_t) :
  well_formed p ->
  exists p', puz_cksums_calc (Ptr p) = Some (Ptr p', 0) /\
             puz_cksums_calc (Ptr p') = Some (Ptr p', 0).
Proof.
  intros Hwf. destruct (puz_cksums_calc_defined p Hwf) as (p' & Hc & _).
  exists p'. split; [exact Hc|]. eapply puz_cksums_calc_again, Hc.
Qed.

Lemma puz_cksums_calc_idempotent_witness :
  exists p', puz_cksums_calc (Ptr sample_full) = Some (Ptr p', 0) /\
             puz_cksums_calc (Ptr p') = Some (Ptr p', 0).
Proof.
  apply (puz_cksums_calc_idempotent sample_full). exact sample_full_well_formed.
Defined.

(** X7. On a well-formed puzzle [puz_cksums_check] returns the number of
    stored values that differ from the calculated ones: at most 15, and 0
    exactly when the two checksums of the header, the four bytes of each
    magic and the checksums of the sections that are present all agree. *)
Theorem puz_cksums_check_zero (p : puzzle_t) :
  well_formed p ->
  exists q r, puz_cksums_check (Ptr p) = Some (Ptr q, r) /\
              0 <= r <= 15 /\ (r = 0 <-> sums_match q).
Proof.
  intros Hwf. pose proof Hwf as (H10 & H14 & _).
  destruct (puz_cksums_calc_defined p Hwf) as (p' & Hc & Hh & L10 & L14).
  destruct (puz_cksums_calc_magic_length _ _ _ Hc) as [c0 E0].
  rewrite <- Hh in H10, H14.
  assert (exists r, puz_cksums_check (Ptr p) = Some (Ptr p', r)) as [r Hr].
  { unfold puz_cksums_check. rewrite Hc. cbn [deref]. rewrite E0.
    match goal with |- context [count_magic ?a ?b ?x] =>
      destruct (count_magic_defined a b x H10 L10) as [r1 ->] end.
    match goal with |- context [count_magic ?a ?b ?x] =>
      destruct (count_magic_defined a b x H14 L14) as [r2 ->] end.
    unfold puz_has_rebus, puz_has_timer, puz_has_extras, puz_has_rusr.
    cbn [is_null deref]. eauto. }
  exists p', r. split; [exact Hr|]. eapply puz_cksums_check_count, Hr.
Qed.

Lemma puz_cksums_check_zero_witness :
  exists q r, puz_cksums_check (Ptr sample_full) = Some (Ptr q, r) /\
              0 <= r <= 15 /\ (r = 0 <-> sums_match q).
Proof.
  apply (puz_cksums_check_zero sample_full). exact sample_full_well_formed.
Defined.

(** X8. On a well-formed puzzle [puz_cksums_commit] returns 0, and a
    [puz_cksums_check] that follows finds nothing to report and leaves the
    puzzle as it is. *)
Theorem puz_cksums_commit_check (p : puzzle_t) :
  well_formed p ->
  exists q, puz_cksums_commit (Ptr p) = Some (Ptr q, 0) /\
            puz_cksums_check (Ptr q) = Some (Ptr q, 0).
Proof.
  intros Hwf. pose proof Hwf as (H10 & H14 & _).
  destruct (puz_cksums_calc_defined p Hwf) as (p' & Hc & Hh & L10 & L14).
  destruct (puz_cksums_calc_magic_length _ _ _ Hc) as [c0 E0].
  rewrite <- Hh in H10, H14.
  destruct (copy_magic_defined _ _ H10 L10) as (m10 & E10 & _).
  destruct (copy_magic_defined _ _ H14 L14) as (m14 & E14 & _).
  exact (commit_then_check _ _ _ _ _ Hc E0 E10 E14).
Qed.

Lemma puz_cksums_commit_check_witness :
  exists q, puz_cksums_commit (Ptr sample_full) = Some (Ptr q, 0) /\
            puz_cksums_check (Ptr q) = Some (Ptr q, 0).
Proof.
  apply (puz_cksums_commit_check sample_full). exact sample_full_well_formed.
Defined.

End CheckSpec.
(** ** The binary loader on a laid-out file *)

Module LoadBinSpec.
Import CksumFacts SizeSpec ScrambleSpec SetSpec.

Lemma load_app_Some (b rest : list Z) i v :
  load b i = Some v -> load (b ++ rest) i = Some v.
Proof.
  unfold load. destruct (decide (0 <= i)); [|discriminate].
  intros H. apply lookup_app_l_Some, H.
Qed.

Lemma le_16_app_Some (b rest : list Z) i v :
  le_16 b i = Some v -> le_16 (b ++ rest) i = Some v.
Proof.
  unfold le_16. intros H.
  destruct (load b i) as [lo|] eqn:E1; [|discriminate].
  destruct (load b (i + 1)) as [hi|] eqn:E2; [|discriminate].
  rewrite (load_app_Some _ rest _ _ E1), (load_app_Some _ rest _ _ E2). exact H.
Qed.

Lemma read_bytes_app_Some (b rest : list Z) i n v :
  read_bytes b i n = Some v -> read_bytes (b ++ rest) i n = Some v.
Proof.
  unfold read_bytes. intros H.
  destruct (decide (0 <= i /\ 0 <= n /\ i + n <= Z.of_nat (length b))) as [Hb|];
    [|discriminate].
  rewrite decide_True by (rewrite length_app; lia).
  inversion H; subst. f_equal.
  rewrite drop_app_le by lia. rewrite take_app_le by (rewrite length_drop; lia).
  reflexivity.
Qed.

Lemma read_puz_head_app (hdr rest : list Z) h :
  read_puz_head hdr = Some h -> read_puz_head (hdr ++ rest) = Some h.
Proof.
  unfold read_puz_head, le_8. cbv zeta. intros H.
  repeat match type of H with
  | match le_16 hdr ?i with _ => _ end = _ =>
      let E := fresh "E" in
      destruct (le_16 hdr i) as [?|] eqn:E; [|discriminate H];
      rewrite (le_16_app_Some _ rest _ _ E); clear E
  | match load hdr ?i with _ => _ end = _ =>
      let E := fresh "E" in
      destruct (load hdr i) as [?|] eqn:E; [|discriminate H];
      rewrite (load_app_Some _ rest _ _ E); clear E
  | match read_bytes hdr ?i ?n with _ => _ end = _ =>
      let E := fresh "E" in
      destruct (read_bytes hdr i n) as [?|] eqn:E; [|discriminate H];
      rewrite (read_bytes_app_Some _ rest _ _ _ E); clear E
  end.
  exact H.
Qed.

Lemma read_bytes_length (b : list Z) (i n : Z) (v : list Z) :
  read_bytes b i n = Some v -> length v = Z.to_nat n.
Proof.
  unfold read_bytes. case_decide as Hb; [|discriminate]. intros [= <-].
  rewrite length_take, length_drop. lia.
Qed.

(** The two magics that [read_puz_head] copies have their four bytes. *)
Lemma read_puz_head_magics (hdr : list Z) h :
  read_puz_head hdr = Some h ->
  length (magic_10 h) = 4%nat /\ length (magic_14 h) = 4%nat.
Proof.
  unfold read_puz_head, le_8. cbv zeta. intros H.
  repeat match type of H with
  | match le_16 hdr ?i with _ => _ end = _ =>
      destruct (le_16 hdr i) as [?|]; [|discriminate H]
  | match load hdr ?i with _ => _ end = _ =>
      destruct (load hdr i) as [?|]; [|discriminate H]
  | match read_bytes hdr ?i ?n with _ => _ end = _ =>
      let E := fresh "E" in
      destruct (read_bytes hdr i n) as [?|] eqn:E; [|discriminate H];
      apply read_bytes_length in E
  end.
  inversion H; subst. cbn [magic_10 magic_14]. split; assumption.
Qed.

Lemma offset_app_length (pre rest : list Z) :
  offset (pre ++ rest) (Z.of_nat (length pre)) = Some rest.
Proof.
  unfold offset. rewrite decide_True by (rewrite length_app; lia).
  rewrite Nat2Z.id, drop_app_length. reflexivity.
Qed.

Lemma strncpy_data_prefix (s rest : list Z) :
  nul_free s -> strncpy_data (s ++ rest) (length s) = Some s.
Proof.
  induction 1 as [|c s Hc _ IH]; [reflexivity|].
  cbn [length app strncpy_data]. rewrite decide_False by exact Hc.
  rewrite IH. reflexivity.
Qed.

(** [calloc (1, 1 + n)], then [strncpy] of [n] bytes that hold no NUL. *)
Lemma strncpy_board (pre s rest : list Z) :
  nul_free s ->
  strncpy (replicate (Z.to_nat (1 + Z.of_nat (length s))) 0) 0
    (pre ++ s ++ rest) (Z.of_nat (length pre)) (Z.of_nat (length s))
  = Some (s ++ [0]).
Proof.
  intros Hs. unfold strncpy. rewrite offset_app_length, Nat2Z.id.
  rewrite (strncpy_data_prefix _ _ Hs). unfold store_bytes.
  rewrite decide_True by (rewrite length_replicate; lia).
  change (Z.to_nat 0) with 0%nat. cbn [take app]. rewrite drop_replicate.
  replace (Z.to_nat (1 + Z.of_nat (length s)) - (0 + length s))%nat with 1%nat by lia.
  reflexivity.
Qed.

Lemma strings_bytes_length (ss : list (list Z)) :
  Z.of_nat (length (strings_bytes ss)) = sum_len1 ss.
Proof.
  unfold strings_bytes, sum_len1. induction ss as [|s ss IH]; [reflexivity|].
  cbn [map concat fold_right]. rewrite length_app, length_app. cbn [length].
  lia.
Qed.

(** The clue loop over [n] clues laid out from offset [i] on. *)
Lemma load_clues_layout (cl : list (list Z)) :
  Forall nul_free cl ->
  forall (pre rest : list Z) (sz : Z) (j : nat) (tbl : list (ptr block)),
    Z.of_nat (length pre) + sum_len1 cl <= sz ->
    (j + length cl <= length tbl)%nat ->
    load_clues (length cl) (pre ++ strings_bytes cl ++ rest) sz
      (Z.of_nat j) (Z.of_nat (length pre)) tbl
    = Some (Z.of_nat (j + length cl), Z.of_nat (length pre) + sum_len1 cl,
            take j tbl ++ strings_blocks cl ++ drop (j + length cl) tbl).
Proof.
  induction 1 as [|s cl Hs _ IH]; intros pre rest sz j tbl Hsz Hlen.
  - cbn. rewrite !Nat.add_0_r, Z.add_0_r, take_drop. reflexivity.
  - cbn [length] in Hlen. cbn [length load_clues]. cbn [sum_len1 fold_right] in Hsz. fold (sum_len1 cl) in Hsz.
    assert (Hpos : 0 <= sum_len1 cl) by (rewrite <- strings_bytes_length; lia).
    rewrite decide_True by lia.
    rewrite offset_app_length. unfold strings_bytes. cbn [map concat].
    fold (strings_bytes cl). rewrite <- !app_assoc. cbn [app].
    rewrite (Sstrdup_nonzero _ _ Hs). rewrite (strlen_nonzero s [] Hs).
    rewrite Nat2Z.id.
    replace (pre ++ s ++ 0 :: strings_bytes cl ++ rest)
      with ((pre ++ s ++ [0]) ++ strings_bytes cl ++ rest)
      by (rewrite <- !app_assoc; reflexivity).
    replace (Z.of_nat (length pre) + (Z.of_nat (length s) + 1))
      with (Z.of_nat (length (pre ++ s ++ [0])))
      by (rewrite !length_app; cbn [length]; lia).
    replace (Z.of_nat j + 1) with (Z.of_nat (S j)) by lia.
    rewrite IH by (rewrite ?length_insert, ?length_app in *; cbn [length] in *; lia).
    f_equal. f_equal; [f_equal|].
    + f_equal. lia.
    + rewrite !length_app. cbn [length sum_len1 fold_right]. fold (sum_len1 cl). lia.
    + unfold strings_blocks. cbn [map].
      rewrite (take_S_r _ _ (Ptr (s ++ [0]))) by (apply list_lookup_insert_eq; lia).
      rewrite take_insert_ge by lia. rewrite drop_insert_lt by lia.
      rewrite <- !app_assoc. cbn [app].
      replace (S j + length cl)%nat with (j + S (length cl))%nat by lia. reflexivity.
Qed.

Lemma offset_at (file pre rest : list Z) (i : Z) :
  file = pre ++ rest -> i = Z.of_nat (length pre) -> offset file i = Some rest.
Proof. intros -> ->. apply offset_app_length. Qed.

Lemma strncpy_board_at (file pre s rest : list Z) (i A : Z) :
  file = pre ++ s ++ rest -> i = Z.of_nat (length pre) ->
  Z.of_nat (length s) = A -> nul_free s ->
  strncpy (replicate (Z.to_nat (1 + A)) 0) 0 file i A = Some (s ++ [0]).
Proof. intros -> -> <- Hs. apply strncpy_board, Hs. Qed.

(** [s[n] = 0] on a block that ends with its NUL at [n] already. *)
Lemma store_terminator (s : list Z) (A : Z) :
  Z.of_nat (length s) = A -> store (s ++ [0]) A 0 = Some (s ++ [0]).
Proof.
  intros <-. unfold store. rewrite decide_True by (rewrite length_app; cbn; lia).
  rewrite Nat2Z.id. f_equal.
  rewrite insert_app_r_alt by lia. rewrite Nat.sub_diag. reflexivity.
Qed.

Lemma strlen_block (s : list Z) :
  nul_free s -> strlen (s ++ [0]) = Some (Z.of_nat (length s)).
Proof. apply strlen_nonzero. Qed.

Lemma load_clues_at (cl : list (list Z)) (file pre rest : list Z) (sz i : Z) :
  Forall nul_free cl ->
  file = pre ++ strings_bytes cl ++ rest -> i = Z.of_nat (length pre) ->
  i + sum_len1 cl <= sz ->
  load_clues (length cl) file sz 0 i (replicate (length cl) Dangling)
  = Some (Z.of_nat (length cl), i + sum_len1 cl, strings_blocks cl).
Proof.
  intros Hcl -> -> Hsz. change 0 with (Z.of_nat 0).
  rewrite (load_clues_layout cl Hcl pre rest sz 0) by (rewrite ?length_replicate; lia).
  rewrite take_0, drop_ge by (rewrite length_replicate; lia).
  cbn [app Nat.add]. rewrite app_nil_r. reflexivity.
Qed.

Lemma load_clues_stop (n : nat) (base : list Z) (sz j i : Z)
    (tbl : list (ptr block)) :
  ~ i < sz -> load_clues n base sz j i tbl = Some (j, i, tbl).
Proof.
  intros Hi. destruct n; cbn [load_clues]; [reflexivity|].
  rewrite decide_False by exact Hi. reflexivity.
Qed.

Lemma load_clues_app (n m : nat) (base : list Z) (sz : Z) :
  forall (j i : Z) (tbl : list (ptr block)),
    load_clues (n + m) base sz j i tbl
    = match load_clues n base sz j i tbl with
      | Some (j', i', tbl') => load_clues m base sz j' i' tbl'
      | None => None
      end.
Proof.
  induction n as [|n IH]; intros j i tbl; cbn [Nat.add load_clues]; [reflexivity|].
  destruct (decide (i < sz)) as [Hi|Hi].
  - destruct (offset base i) as [s|]; [|reflexivity].
    destruct (Sstrdup s) as [c|]; [|reflexivity].
    destruct (strlen c) as [len|]; [|reflexivity]. apply IH.
  - symmetry. apply load_clues_stop, Hi.
Qed.

(** The clue loop on a file that ends after the clues [cl], fewer than
    the [k] it is to read. *)
Lemma load_clues_short (cl : list (list Z)) (file pre : list Z) (sz i : Z) (k : nat) :
  Forall nul_free cl ->
  file = pre ++ strings_bytes cl -> i = Z.of_nat (length pre) ->
  i + sum_len1 cl = sz -> (length cl <= k)%nat ->
  load_clues k file sz 0 i (replicate k Dangling)
  = Some (Z.of_nat (length cl), sz,
          strings_blocks cl ++ replicate (k - length cl) Dangling).
Proof.
  intros Hcl -> -> Hsz Hk.
  replace k with (length cl + (k - length cl))%nat at 1 by lia.
  rewrite load_clues_app. change 0 with (Z.of_nat 0).
  rewrite <- (app_nil_r (strings_bytes cl)).
  rewrite (load_clues_layout cl Hcl pre [] sz 0) by (rewrite ?length_replicate; lia).
  rewrite load_clues_stop by lia.
  rewrite take_0, drop_replicate. cbn [app Nat.add]. rewrite Hsz. reflexivity.
Qed.

Lemma read_cib (hdr rest : list Z) :
  length hdr = 52%nat ->
  read_bytes (hdr ++ rest) 44 8 = Some (take 8 (drop 44 hdr)).
Proof.
  intros Hlen. apply read_bytes_app_Some. unfold read_bytes.
  rewrite decide_True by lia. reflexivity.
Qed.

Lemma load_sections_end (fuel : nat) (d : bool) (base : list Z) (sz i : Z)
    (puz : ptr puzzle_t) :
  (0 < fuel)%nat -> sz <= i + 5 ->
  load_sections fuel d base sz i puz = Some puz.
Proof.
  intros Hf Hi. destruct fuel as [|fuel]; [lia|]. cbn [load_sections].
  rewrite decide_False by lia. reflexivity.
Qed.

Ltac flat_puzzle :=
  cbv beta iota zeta delta
    [sz header calc_cksum_puzcib calc_cksums calc_magic10 calc_magic14 cib
     base solution grid title author copyright clues notes notes_sz
     grbs_cksum calc_grbs_cksum grbs rtbl_sz rtbl_cksum calc_rtbl_cksum rtbl
     ltim_cksum calc_ltim_cksum ltim gext_cksum calc_gext_cksum gext
     rusr_cksum calc_rusr_cksum rusr rusr_sz
     set_header set_calc_cksum_puzcib set_calc_cksums set_calc_magic10
     set_calc_magic14 set_cib set_sz set_base set_solution set_grid set_title
     set_author set_copyright set_clues set_notes set_notes_sz set_grbs_cksum
     set_calc_grbs_cksum set_grbs set_rtbl_sz set_rtbl_cksum
     set_calc_rtbl_cksum set_rtbl set_ltim_cksum set_calc_ltim_cksum set_ltim
     set_gext_cksum set_calc_gext_cksum set_gext set_rusr_cksum
     set_calc_rusr_cksum set_rusr set_rusr_sz zero_puzzle loaded].

Ltac header_of h :=
  repeat match goal with
  | |- context [header ?p] =>
      lazymatch p with
      | context [set_header h _] => change (header p) with h
      end
  end.

Section Layout.

Variables (hdr sol grd t a c : list Z) (cl : list (list Z)) (h : puz_head_t).
Hypothesis Hhead : read_puz_head hdr = Some h.
Hypothesis Hhdr : length hdr = 52%nat.
Hypothesis Hsol : Z.of_nat (length sol) = width h * height h.
Hypothesis Hgrd : Z.of_nat (length grd) = width h * height h.
Hypothesis Hsol0 : nul_free sol.
Hypothesis Hgrd0 : nul_free grd.
Hypothesis Ht : nul_free t.
Hypothesis Ha : nul_free a.
Hypothesis Hc : nul_free c.
Hypothesis Hcl : Forall nul_free cl.

Lemma file_layout_length (rest : list Z) :
  Z.of_nat (length (file_layout hdr sol grd t a c cl rest))
  = 52 + Z.of_nat (length sol) + Z.of_nat (length grd)
    + (Z.of_nat (length t) + 1) + (Z.of_nat (length a) + 1)
    + (Z.of_nat (length c) + 1) + sum_len1 cl + Z.of_nat (length rest).
Proof.
  unfold file_layout. rewrite <- strings_bytes_length.
  rewrite !length_app. cbn [length]. lia.
Qed.

Lemma offset_layout (file rest pre post : list Z) (i : Z) :
  file = hdr ++ sol ++ grd ++ (t ++ [0]) ++ (a ++ [0]) ++ (c ++ [0])
         ++ strings_bytes cl ++ rest ->
  hdr ++ sol ++ grd ++ (t ++ [0]) ++ (a ++ [0]) ++ (c ++ [0])
    ++ strings_bytes cl ++ rest = pre ++ post ->
  i = Z.of_nat (length pre) -> offset file i = Some post.
Proof.
  intros Hfile Heq Hi. apply (offset_at file pre post i); [|exact Hi].
  rewrite Hfile. exact Heq.
Qed.

(** The loader from its first statement to the clue loop, on a file
    [file] of [sz] bytes laid out as [Hfile] says. *)
Ltac to_clues puz file sz rest Hfile :=
  unfold puz_load_bin; cbn [is_null orb];
  rewrite bool_decide_eq_false_2 by lia;
  let Hd := fresh "Hd" in
  assert (Hd : (if is_null puz then Some zero_puzzle else deref puz) <> None)
    by (destruct puz; cbn; congruence);
  destruct (if is_null puz then Some zero_puzzle else deref puz) as [?|];
    [clear Hd|congruence];
  cbn [deref];
  rewrite Hfile at 1; rewrite (read_puz_head_app _ _ _ Hhead);
  rewrite Hfile at 1; rewrite (read_cib _ _ Hhdr);
  change (width (header (set_cib ?x (set_header h ?z))) *
          height (header (set_cib ?x (set_header h ?z))))
    with (width h * height h);
  rewrite (strncpy_board_at file hdr sol
             (grd ++ (t ++ [0]) ++ (a ++ [0]) ++ (c ++ [0]) ++ strings_bytes cl
              ++ rest) 52 (width h * height h) Hfile) by (assumption || lia);
  rewrite (store_terminator _ _ Hsol);
  rewrite (strncpy_board_at file (hdr ++ sol) grd
             ((t ++ [0]) ++ (a ++ [0]) ++ (c ++ [0]) ++ strings_bytes cl
              ++ rest) (52 + width h * height h) (width h * height h))
    by (first [assumption | rewrite Hfile, <- !app_assoc; reflexivity
              | rewrite length_app; lia]);
  rewrite (offset_layout file rest (hdr ++ sol ++ grd)
             (t ++ 0 :: (a ++ [0]) ++ (c ++ [0]) ++ strings_bytes cl ++ rest) _ Hfile)
    by (first [rewrite <- ?app_assoc; reflexivity | rewrite ?length_app; lia]);
  rewrite (Sstrdup_nonzero _ _ Ht), (strlen_block _ Ht);
  rewrite (offset_layout file rest (hdr ++ sol ++ grd ++ t ++ [0])
             (a ++ 0 :: (c ++ [0]) ++ strings_bytes cl ++ rest) _ Hfile)
    by (first [rewrite <- ?app_assoc; reflexivity
              | rewrite ?length_app; cbn [length]; lia]);
  rewrite (Sstrdup_nonzero _ _ Ha), (strlen_block _ Ha);
  rewrite (offset_layout file rest (hdr ++ sol ++ grd ++ (t ++ [0]) ++ a ++ [0])
             (c ++ 0 :: strings_bytes cl ++ rest) _ Hfile)
    by (first [rewrite <- ?app_assoc; reflexivity
              | rewrite ?length_app; cbn [length]; lia]);
  rewrite (Sstrdup_nonzero _ _ Hc), (strlen_block _ Hc);
  header_of h.

(** The loader up to its section loop, on a file with all its clues and
    with notes. *)
Lemma puz_load_bin_to_sections (puz : ptr puzzle_t) (n more : list Z) :
  puz <> Dangling ->
  Z.of_nat (length cl) = clue_count h ->
  nul_free n ->
  let file := file_layout hdr sol grd t a c cl (n ++ 0 :: more) in
  let sz := Z.of_nat (length file) in
  puz_load_bin puz (Ptr file) sz
  = load_sections (Z.to_nat sz) (is_null puz) file sz (sz - Z.of_nat (length more))
      (Ptr (loaded (Ptr file) sz h hdr sol grd t a c cl (Ptr (n ++ [0]))
              (Z.of_nat (length n)))).
Proof.
  intros Hpuz Hcc Hn file sz.
  assert (Hfile : file = file_layout hdr sol grd t a c cl (n ++ 0 :: more)) by reflexivity.
  pose proof (file_layout_length (n ++ 0 :: more)) as Hlen.
  rewrite <- Hfile in Hlen. fold sz in Hlen. rewrite length_app in Hlen.
  cbn [length] in Hlen.
  clearbody sz file. unfold file_layout in Hfile.
  pose proof (strings_bytes_length cl) as Hbytes.
  to_clues puz file sz (n ++ 0 :: more) Hfile.
  rewrite <- Hcc, Nat2Z.id.
  rewrite (load_clues_at cl file
             (hdr ++ sol ++ grd ++ (t ++ [0]) ++ (a ++ [0]) ++ c ++ [0])
             (n ++ 0 :: more) sz _ Hcl)
    by (first [rewrite Hfile, <- ?app_assoc; reflexivity
              | rewrite ?length_app; cbn [length]; lia]).
  rewrite decide_False by lia. rewrite decide_True by lia.
  rewrite (offset_layout file (n ++ 0 :: more)
             (hdr ++ sol ++ grd ++ (t ++ [0]) ++ (a ++ [0]) ++ (c ++ [0])
              ++ strings_bytes cl) (n ++ 0 :: more) _ Hfile)
    by (first [rewrite <- ?app_assoc; reflexivity
              | rewrite ?length_app; cbn [length]; lia]).
  rewrite (Sstrdup_nonzero _ _ Hn), (strlen_block _ Hn).
  match goal with
  | |- load_sections _ _ _ _ ?i _ = load_sections _ _ _ _ ?i' _ =>
      replace i with i' by lia
  end.
  flat_puzzle. reflexivity.
Qed.

(** The same on a file that ends with its last clue. *)
Lemma puz_load_bin_to_end (puz : ptr puzzle_t) :
  puz <> Dangling ->
  Z.of_nat (length cl) = clue_count h ->
  let file := file_layout hdr sol grd t a c cl [] in
  let sz := Z.of_nat (length file) in
  puz_load_bin puz (Ptr file) sz
  = Some (Ptr (loaded (Ptr file) sz h hdr sol grd t a c cl NULL 0)).
Proof.
  intros Hpuz Hcc file sz.
  assert (Hfile : file = file_layout hdr sol grd t a c cl []) by reflexivity.
  pose proof (file_layout_length []) as Hlen.
  rewrite <- Hfile in Hlen. fold sz in Hlen. cbn [length] in Hlen.
  clearbody sz file. unfold file_layout in Hfile.
  pose proof (strings_bytes_length cl) as Hbytes.
  to_clues puz file sz (@nil Z) Hfile.
  rewrite <- Hcc, Nat2Z.id.
  rewrite (load_clues_at cl file
             (hdr ++ sol ++ grd ++ (t ++ [0]) ++ (a ++ [0]) ++ c ++ [0])
             [] sz _ Hcl)
    by (first [rewrite Hfile, <- ?app_assoc; reflexivity
              | rewrite ?length_app; cbn [length]; lia]).
  rewrite decide_False by lia. rewrite decide_False by lia.
  rewrite load_sections_end by lia.
  flat_puzzle. reflexivity.
Qed.

(** The clue loop stops at the end of the file. *)
Lemma puz_load_bin_short (puz : ptr puzzle_t) :
  puz <> Dangling ->
  Z.of_nat (length cl) < clue_count h ->
  let file := file_layout hdr sol grd t a c cl [] in
  puz_load_bin puz (Ptr file) (Z.of_nat (length file)) = Some NULL.
Proof.
  intros Hpuz Hcc file. set (sz := Z.of_nat (length file)).
  assert (Hfile : file = file_layout hdr sol grd t a c cl []) by reflexivity.
  pose proof (file_layout_length []) as Hlen.
  rewrite <- Hfile in Hlen. fold sz in Hlen. cbn [length] in Hlen.
  clearbody sz file. unfold file_layout in Hfile.
  pose proof (strings_bytes_length cl) as Hbytes.
  to_clues puz file sz (@nil Z) Hfile.
  rewrite (load_clues_short cl file
             (hdr ++ sol ++ grd ++ (t ++ [0]) ++ (a ++ [0]) ++ c ++ [0]) sz _ _ Hcl)
    by (first [rewrite Hfile, <- ?app_assoc, ?app_nil_r; reflexivity
              | rewrite ?length_app; cbn [length]; lia]).
  rewrite decide_True by lia. reflexivity.
Qed.

End Layout.

Lemma board_bytes_block (s : list Z) (A : Z) :
  Z.of_nat (length s) = A -> board_bytes (Ptr (s ++ [0])) A = Some s.
Proof.
  intros <-. unfold board_bytes. destruct (decide (Z.of_nat (length s) <= 0)).
  - destruct s; [reflexivity|cbn [length] in *; lia].
  - cbn [deref]. unfold read_bytes.
    rewrite decide_True by (rewrite length_app; cbn [length]; lia).
    rewrite Nat2Z.id. change (Z.to_nat 0) with 0%nat. rewrite drop_0.
    rewrite take_app_length. reflexivity.
Qed.

Lemma strings_at_blocks (ss : list (list Z)) (n : Z) :
  Forall nul_free ss -> Z.of_nat (length ss) = n ->
  strings_at (Ptr (strings_blocks ss)) n ss.
Proof.
  intros Hss <-. split; [rewrite Nat2Z.id; reflexivity|]. intros i s Hi.
  exists (Ptr (s ++ [0])). rewrite load_ptr_lookup by lia. rewrite Nat2Z.id.
  unfold strings_blocks. rewrite list_lookup_fmap, Hi. split; [reflexivity|].
  apply cstring_nonzero. rewrite Forall_lookup in Hss. exact (Hss _ _ Hi).
Qed.

(** [puz_size] of a puzzle without optional sections. *)
Lemma puz_size_plain (p : puzzle_t) (t a c : list Z) (cl : list (list Z)) :
  cstring (title p) = Some t ->
  cstring (author p) = Some a ->
  cstring (copyright p) = Some c ->
  strings_at (clues p) (clue_count (header p)) cl ->
  is_null (grbs p) = true -> is_null (ltim p) = true ->
  is_null (gext p) = true -> is_null (rusr p) = true ->
  puz_size (Ptr p)
  = Some (52 + 2 * (width (header p) * height (header p))
          + (Z.of_nat (length t) + 1) + (Z.of_nat (length a) + 1)
          + (Z.of_nat (length c) + 1) + sum_len1 cl + notes_sz p + 1).
Proof.
  intros Ht Ha Hc [Hcl_len Hcl] Hg Hl He Hr.
  unfold puz_size, puz_width_get, puz_height_get, puz_title_get, puz_author_get,
    puz_copyright_get, puz_clue_count_get, puz_has_rebus, puz_has_timer,
    puz_has_extras, puz_has_rusr, puz_rebus_count_get.
  cbn [is_null deref].
  rewrite (cstring_Sstrlen _ _ Ht), (cstring_Sstrlen _ _ Ha), (cstring_Sstrlen _ _ Hc).
  rewrite (for_range_sum_len1 (puz_clue_get (Ptr p)) _ cl) by
    (first [exact Hcl_len |
      intros i s Hi; destruct (Hcl i s Hi) as (e & He' & Hs); exists e; split; [|exact Hs];
      unfold puz_clue_get; cbn [is_null deref];
      apply lookup_lt_Some in Hi;
      destruct (decide (Z.of_nat i < 0 \/ Z.of_nat i > clue_count (header p)));
      [lia | exact He']]).
  rewrite Hg, Hl, He, Hr. cbn [negb].
  destruct (decide (notes_sz p <> 0)); f_equal; lia.
Qed.

(** The checksums cannot be calculated while the notes are NULL:
    [puz_cksum2] takes their [strlen]. *)
Lemma puz_cksum2_notes_null (p : puzzle_t) (ck : Z) :
  notes p = NULL -> puz_cksum2 (Ptr p) ck = None.
Proof.
  intros Hn. unfold puz_cksum2. cbn [deref]. rewrite Hn.
  destruct (cksum_string_nul (title p) ck) as [c1|]; [|reflexivity].
  destruct (cksum_string_nul (author p) c1) as [c2|]; [|reflexivity].
  destruct (cksum_string_nul (copyright p) c2) as [c3|]; [|reflexivity].
  destruct (cksum_clues p c3) as [c4|]; reflexivity.
Qed.

Lemma puz_cksums_calc_notes_null (p : puzzle_t) :
  notes p = NULL -> puz_cksums_calc (Ptr p) = None.
Proof.
  intros Hn. unfold puz_cksums_calc, cksums_calc_main. cbn [deref].
  rewrite puz_cksum2_notes_null by exact Hn. reflexivity.
Qed.

(** X9. A binary file laid out as the format has it, with its notes and
    without optional sections, loads into a puzzle that holds exactly
    the strings of the file.  [puz_size] of that puzzle is the size of the
    file, and the puzzle is well formed: its checksums can be calculated,
    checked and committed. *)
Theorem puz_load_bin_layout (puz : ptr puzzle_t) (hdr sol grd t a c n : list Z)
    (cl : list (list Z)) (h : puz_head_t) :
  puz <> Dangling ->
  read_puz_head hdr = Some h -> length hdr = 52%nat ->
  Z.of_nat (length sol) = width h * height h ->
  Z.of_nat (length grd) = width h * height h ->
  nul_free sol -> nul_free grd -> nul_free t -> nul_free a -> nul_free c ->
  Forall nul_free cl -> Z.of_nat (length cl) = clue_count h -> nul_free n ->
  let file := file_layout hdr sol grd t a c cl (n ++ [0]) in
  exists p,
    puz_load_bin puz (Ptr file) (Z.of_nat (length file)) = Some (Ptr p) /\
    header p = h /\
    board_bytes (solution p) (width h * height h) = Some sol /\
    board_bytes (grid p) (width h * height h) = Some grd /\
    cstring (title p) = Some t /\ cstring (author p) = Some a /\
    cstring (copyright p) = Some c /\
    strings_at (clues p) (clue_count h) cl /\
    cstring (notes p) = Some n /\ notes_sz p = Z.of_nat (length n) /\
    grbs p = NULL /\ rtbl p = NULL /\ ltim p = NULL /\ gext p = NULL /\
    rusr p = NULL /\
    puz_size (Ptr p) = Some (Z.of_nat (length file)) /\
    well_formed p.
Proof.
  intros Hpuz Hhead Hhdr Hsol Hgrd Hsol0 Hgrd0 Ht Ha Hc Hcl Hcc Hn file.
  pose proof (puz_load_bin_to_sections hdr sol grd t a c cl h Hhead Hhdr Hsol Hgrd
                Hsol0 Hgrd0 Ht Ha Hc Hcl puz n [] Hpuz Hcc Hn) as Hload.
  cbv zeta in Hload. fold file in Hload.
  pose proof (file_layout_length hdr sol grd t a c cl Hhdr (n ++ [0])) as Hlen.
  fold file in Hlen. rewrite length_app in Hlen. cbn [length] in Hlen.
  pose proof (strings_bytes_length cl) as Hbytes.
  change (Z.of_nat (length (@nil Z))) with 0 in Hload.
  rewrite load_sections_end in Hload by lia.
  eexists. split; [exact Hload|].
  assert (Htitle : cstring (Ptr (t ++ [0])) = Some t) by (apply cstring_nonzero, Ht).
  assert (Hauthor : cstring (Ptr (a ++ [0])) = Some a) by (apply cstring_nonzero, Ha).
  assert (Hcopy : cstring (Ptr (c ++ [0])) = Some c) by (apply cstring_nonzero, Hc).
  assert (Hclues : strings_at (Ptr (strings_blocks cl)) (clue_count h) cl)
    by (apply strings_at_blocks; assumption).
  assert (Hnotes : cstring (Ptr (n ++ [0])) = Some n) by (apply cstring_nonzero, Hn).
  destruct (read_puz_head_magics _ _ Hhead) as [H10 H14].
  assert (Hwf : well_formed
                  (loaded (Ptr file) (Z.of_nat (length file)) h hdr sol grd t a c cl
                     (Ptr (n ++ [0])) (Z.of_nat (length n)))).
  { split; [exact H10|]. split; [exact H14|]. split; [reflexivity|].
    split; [reflexivity|].
    split; [exists sol; exact (board_bytes_block _ _ Hsol)|].
    split; [exists grd; exact (board_bytes_block _ _ Hgrd)|].
    split; [exists t; exact Htitle|]. split; [exists a; exact Hauthor|].
    split; [exists c; exact Hcopy|]. split; [exists cl; exact Hclues|].
    split; [exists n; exact Hnotes|].
    unfold sections_ok. cbv zeta.
    split; [|split; [|split]]; intros Hnull; discriminate Hnull. }
  split; [reflexivity|].
  split; [exact (board_bytes_block _ _ Hsol)|].
  split; [exact (board_bytes_block _ _ Hgrd)|].
  split; [exact Htitle|]. split; [exact Hauthor|]. split; [exact Hcopy|].
  split; [exact Hclues|]. split; [exact Hnotes|].
  do 6 (split; [reflexivity|]). split; [|exact Hwf].
  rewrite (puz_size_plain
             (loaded (Ptr file) (Z.of_nat (length file)) h hdr sol grd t a c cl
                (Ptr (n ++ [0])) (Z.of_nat (length n)))
             t a c cl Htitle Hauthor Hcopy Hclues)
    by reflexivity.
  f_equal. change (header (loaded ?b ?s h ?x ?so ?g ?t' ?a' ?c' ?l ?nt ?ns)) with h.
  change (notes_sz (loaded ?b ?s ?h' ?x ?so ?g ?t' ?a' ?c' ?l ?nt ?ns)) with ns.
  lia.
Qed.

Lemma puz_load_bin_layout_witness :
  let file := file_layout (file_header 2 1 2) (bytes_of "AB") (bytes_of "--")
                (bytes_of "T") [] (bytes_of "me") [bytes_of "a1"; bytes_of "d1"]
                (bytes_of "n" ++ [0]) in
  exists p,
    puz_load_bin NULL (Ptr file) (Z.of_nat (length file)) = Some (Ptr p) /\
    header p = sample_head 2 1 2 0 0 /\
    board_bytes (solution p) (2 * 1) = Some (bytes_of "AB") /\
    board_bytes (grid p) (2 * 1) = Some (bytes_of "--") /\
    cstring (title p) = Some (bytes_of "T") /\ cstring (author p) = Some [] /\
    cstring (copyright p) = Some (bytes_of "me") /\
    strings_at (clues p) 2 [bytes_of "a1"; bytes_of "d1"] /\
    cstring (notes p) = Some (bytes_of "n") /\ notes_sz p = 1 /\
    grbs p = NULL /\ rtbl p = NULL /\ ltim p = NULL /\ gext p = NULL /\
    rusr p = NULL /\
    puz_size (Ptr p) = Some (Z.of_nat (length file)) /\
    well_formed p.
Proof.
  apply (puz_load_bin_layout NULL (file_header 2 1 2) (bytes_of "AB") (bytes_of "--")
           (bytes_of "T") [] (bytes_of "me") (bytes_of "n")
           [bytes_of "a1"; bytes_of "d1"] (sample_head 2 1 2 0 0));
    try reflexivity; try discriminate; repeat constructor; discriminate.
Defined.

(** X10. A file that ends with its last clue, before the notes, loads as
    well: the notes are left NULL.  The checksums of such a puzzle cannot
    be calculated or checked: both take the [strlen] of the notes. *)
Theorem puz_load_bin_without_notes (puz : ptr puzzle_t) (hdr sol grd t a c : list Z)
    (cl : list (list Z)) (h : puz_head_t) :
  puz <> Dangling ->
  read_puz_head hdr = Some h -> length hdr = 52%nat ->
  Z.of_nat (length sol) = width h * height h ->
  Z.of_nat (length grd) = width h * height h ->
  nul_free sol -> nul_free grd -> nul_free t -> nul_free a -> nul_free c ->
  Forall nul_free cl -> Z.of_nat (length cl) = clue_count h ->
  let file := file_layout hdr sol grd t a c cl [] in
  exists p,
    puz_load_bin puz (Ptr file) (Z.of_nat (length file)) = Some (Ptr p) /\
    notes p = NULL /\
    puz_cksums_calc (Ptr p) = None /\ puz_cksums_check (Ptr p) = None.
Proof.
  intros Hpuz Hhead Hhdr Hsol Hgrd Hsol0 Hgrd0 Ht Ha Hc Hcl Hcc file.
  pose proof (puz_load_bin_to_end hdr sol grd t a c cl h Hhead Hhdr Hsol Hgrd
                Hsol0 Hgrd0 Ht Ha Hc Hcl puz Hpuz Hcc) as Hload.
  cbv zeta in Hload. fold file in Hload.
  eexists. split; [exact Hload|]. split; [reflexivity|].
  assert (Hcalc : puz_cksums_calc
                    (Ptr (loaded (Ptr file) (Z.of_nat (length file)) h hdr sol grd
                            t a c cl NULL 0)) = None)
    by (apply puz_cksums_calc_notes_null; reflexivity).
  split; [exact Hcalc|]. unfold puz_cksums_check. rewrite Hcalc. reflexivity.
Qed.

Lemma puz_load_bin_without_notes_witness :
  let file := file_layout (file_header 2 1 2) (bytes_of "AB") (bytes_of "--")
                (bytes_of "T") [] (bytes_of "me") [bytes_of "a1"; bytes_of "d1"] [] in
  exists p,
    puz_load_bin NULL (Ptr file) (Z.of_nat (length file)) = Some (Ptr p) /\
    notes p = NULL /\
    puz_cksums_calc (Ptr p) = None /\ puz_cksums_check (Ptr p) = None.
Proof.
  apply (puz_load_bin_without_notes NULL (file_header 2 1 2) (bytes_of "AB")
           (bytes_of "--") (bytes_of "T") [] (bytes_of "me")
           [bytes_of "a1"; bytes_of "d1"] (sample_head 2 1 2 0 0));
    try reflexivity; try discriminate; repeat constructor; discriminate.
Defined.

(** X11. When the file ends before the header's count of clues is
    reached, the clue loop stops at the end of the file and the loader
    returns NULL. *)
Theorem puz_load_bin_short_of_clues (puz : ptr puzzle_t) (hdr sol grd t a c : list Z)
    (cl : list (list Z)) (h : puz_head_t) :
  puz <> Dangling ->
  read_puz_head hdr = Some h -> length hdr = 52%nat ->
  Z.of_nat (length sol) = width h * height h ->
  Z.of_nat (length grd) = width h * height h ->
  nul_free sol -> nul_free grd -> nul_free t -> nul_free a -> nul_free c ->
  Forall nul_free cl -> Z.of_nat (length cl) < clue_count h ->
  let file := file_layout hdr sol grd t a c cl [] in
  puz_load_bin puz (Ptr file) (Z.of_nat (length file)) = Some NULL.
Proof.
  intros Hpuz Hhead Hhdr Hsol Hgrd Hsol0 Hgrd0 Ht Ha Hc Hcl Hcc file.
  exact (puz_load_bin_short hdr sol grd t a c cl h Hhead Hhdr Hsol Hgrd
           Hsol0 Hgrd0 Ht Ha Hc Hcl puz Hpuz Hcc).
Qed.

Lemma puz_load_bin_short_of_clues_witness :
  let file := file_layout (file_header 2 1 2) (bytes_of "AB") (bytes_of "--")
                (bytes_of "T") [] (bytes_of "me") [bytes_of "a1"] [] in
  puz_load_bin NULL (Ptr file) (Z.of_nat (length file)) = Some NULL.
Proof.
  apply (puz_load_bin_short_of_clues NULL (file_header 2 1 2) (bytes_of "AB")
           (bytes_of "--") (bytes_of "T") [] (bytes_of "me")
           [bytes_of "a1"] (sample_head 2 1 2 0 0));
    try reflexivity; try discriminate; repeat constructor; discriminate.
Defined.

End LoadBinSpec.
(** ** The optional sections of a binary file *)

Module SectionSpec.
Import CksumFacts SizeSpec ScrambleSpec SetSpec LoadSpec LoadBinSpec.

Lemma load_cons (x : Z) (b : list Z) (i : Z) :
  0 <= i -> load (x :: b) (i + 1) = load b i.
Proof.
  intros Hi. unfold load. rewrite !decide_True by lia.
  replace (Z.to_nat (i + 1)) with (S (Z.to_nat i)) by lia. reflexivity.
Qed.

Lemma le_16_bytes (x : Z) (rest : list Z) :
  le_16 (le16_bytes x ++ rest) 0 = Some x.
Proof.
  unfold le_16, le16_bytes, load. cbn. f_equal.
  rewrite Z.shiftl_mul_pow2, Z.shiftl_0_r by lia. change (2 ^ 8) with 256.
  pose proof (Z.div_mod x 256). lia.
Qed.

Lemma le_16_skip (pre b : list Z) (i : Z) :
  i = Z.of_nat (length pre) -> le_16 (pre ++ b) i = le_16 b 0.
Proof.
  intros ->. unfold le_16, load. rewrite !decide_True by lia.
  rewrite !lookup_app_r by lia.
  replace (Z.to_nat (Z.of_nat (length pre)) - length pre)%nat with 0%nat by lia.
  replace (Z.to_nat (Z.of_nat (length pre) + 1) - length pre)%nat with 1%nat by lia.
  reflexivity.
Qed.

Lemma le_16_at (file pre rest : list Z) (x i : Z) :
  file = pre ++ le16_bytes x ++ rest -> i = Z.of_nat (length pre) ->
  le_16 file i = Some x.
Proof. intros -> Hi. rewrite (le_16_skip _ _ _ Hi). apply le_16_bytes. Qed.

Lemma read_bytes_at (pre s rest : list Z) (i n : Z) :
  i = Z.of_nat (length pre) -> n = Z.of_nat (length s) ->
  read_bytes (pre ++ s ++ rest) i n = Some s.
Proof.
  intros -> ->. unfold read_bytes.
  rewrite decide_True by (rewrite !length_app; lia).
  rewrite !Nat2Z.id, drop_app_length, take_app_length. reflexivity.
Qed.

(** *** The section readers on a framed payload *)

Lemma load_ltim_bin_framed (p : puzzle_t) (ck : Z) (lt rest : list Z) :
  section_ok (width (header p) * height (header p)) (Ltim ck lt) ->
  load_ltim_bin (Ptr p) (le16_bytes ck ++ lt ++ 0 :: rest) (Z.of_nat (length lt))
  = Some (Ptr (with_section p (Ltim ck lt)), 2 + (Z.of_nat (length lt) + 1)).
Proof.
  intros (Hck & Hlt & _). unfold load_ltim_bin. cbn [is_null deref].
  rewrite le_16_bytes, (u16_small _ Hck).
  replace (Z.of_nat (length lt) + 1) with (1 + Z.of_nat (length lt)) at 1 by lia.
  rewrite (strncpy_board_at _ (le16_bytes ck) lt (0 :: rest) (0 + 2) _ eq_refl)
    by first [reflexivity | assumption].
  reflexivity.
Qed.

Lemma load_gext_bin_framed (p : puzzle_t) (ck : Z) (g rest : list Z) :
  section_ok (width (header p) * height (header p)) (Gext ck g) ->
  load_gext_bin (Ptr p) (le16_bytes ck ++ g ++ 0 :: rest)
  = Some (Ptr (with_section p (Gext ck g)), 2 + Z.of_nat (length g) + 1).
Proof.
  intros (Hck & Hg). unfold load_gext_bin. cbn [is_null deref].
  rewrite le_16_bytes, (u16_small _ Hck). rewrite <- Hg.
  rewrite (read_bytes_at (le16_bytes ck) g (0 :: rest)) by reflexivity.
  rewrite Hg. reflexivity.
Qed.

Lemma load_at (pre rest : list Z) (x : Z) (i : Z) :
  i = Z.of_nat (length pre) -> load (pre ++ x :: rest) i = Some x.
Proof.
  intros ->. unfold load. rewrite decide_True by lia.
  rewrite Nat2Z.id, lookup_app_r, Nat.sub_diag by lia. reflexivity.
Qed.

(** The loop of [load_rusr_bin] over the cells laid out from [pre] on. *)
Lemma rusr_bin_loop (cells : list (list Z)) :
  Forall (fun s => nul_free s /\ (length s <= 100)%nat) cells ->
  forall (pre rest : list Z) (j : nat) (tbl : list (ptr block)),
    (j + length cells <= length tbl)%nat ->
    for_loop (length cells) (Z.of_nat j)
      (fun j '(tbl, i) =>
         let base := pre ++ rusr_payload cells ++ rest in
         let* c := load base i in
         if decide (c <> 0) then
           let* s := offset base i in
           let* usr_rebus := Sstrndup s MAX_REBUS_SIZE in
           let* n := strlen usr_rebus in
           let* tbl := if decide (0 <= j < Z.of_nat (length tbl))
                       then Some (<[Z.to_nat j := Ptr usr_rebus]> tbl) else None in
           Some (tbl, i + (n + 1))
         else
           let* tbl := if decide (0 <= j < Z.of_nat (length tbl))
                       then Some (<[Z.to_nat j := NULL]> tbl) else None in
           Some (tbl, i + 1))
      (tbl, Z.of_nat (length pre))
    = Some (take j tbl ++ rusr_blocks cells ++ drop (j + length cells) tbl,
            Z.of_nat (length pre) + Z.of_nat (length (rusr_payload cells))).
Proof.
  induction 1 as [|s cells [Hs Hlen] _ IH]; intros pre rest j tbl Hj.
  - cbn. rewrite Nat.add_0_r, Z.add_0_r, take_drop. reflexivity.
  - cbn [length] in Hj. cbn [length for_loop]. cbv zeta.
    unfold rusr_payload. cbn [map concat]. fold (rusr_payload cells).
    rewrite <- !app_assoc. cbn [app].
    assert (Hstep : forall e,
              e = match s with [] => NULL | _ => Ptr (s ++ [0]) end ->
              take (S j) (<[j := e]> tbl) ++ rusr_blocks cells
                ++ drop (S j + length cells) (<[j := e]> tbl)
              = take j tbl ++ rusr_blocks (s :: cells)
                ++ drop (j + S (length cells)) tbl).
    { intros e ->. unfold rusr_blocks at 2. cbn [map]. fold (rusr_blocks cells).
      rewrite (take_S_r _ _ (match s with [] => NULL | _ => Ptr (s ++ [0]) end))
        by (apply list_lookup_insert_eq; lia).
      rewrite take_insert_ge by lia. rewrite drop_insert_lt by lia.
      rewrite <- !app_assoc. cbn [app].
      replace (S j + length cells)%nat with (j + S (length cells))%nat by lia.
      reflexivity. }
    specialize (IH (pre ++ s ++ [0]) rest (S j)).
    rewrite <- !app_assoc in IH. cbn [app] in IH.
    destruct s as [|x s].
    + cbn [app]. rewrite (load_at pre _ 0) by reflexivity.
      rewrite decide_False by tauto. rewrite decide_True by lia.
      rewrite Nat2Z.id.
      replace (Z.of_nat j + 1) with (Z.of_nat (S j)) by lia.
      replace (Z.of_nat (length pre) + 1) with (Z.of_nat (length (pre ++ [] ++ [0])))
        by (rewrite !length_app; cbn [length]; lia).
      cbn [app] in IH |- *.
      rewrite IH by (rewrite length_insert; lia).
      apply f_equal. apply f_equal2; [exact (Hstep NULL eq_refl)|].
      rewrite !length_app. cbn [length]. lia.
    + cbn [app]. rewrite (load_at pre _ x) by reflexivity.
      inversion Hs as [|? ? Hx Hs']; subst.
      rewrite decide_True by exact Hx.
      rewrite (offset_at _ pre (x :: s ++ 0 :: rusr_payload cells ++ rest))
        by reflexivity.
      unfold Sstrndup.
      change (x :: s ++ 0 :: rusr_payload cells ++ rest)
        with ((x :: s) ++ 0 :: rusr_payload cells ++ rest).
      rewrite (strndup_data_take (x :: s) _ _ Hs).
      rewrite take_ge by (unfold MAX_REBUS_SIZE; lia).
      cbn [mbind]. rewrite (strlen_block (x :: s) Hs).
      rewrite decide_True by lia. rewrite Nat2Z.id.
      replace (Z.of_nat j + 1) with (Z.of_nat (S j)) by lia.
      replace (Z.of_nat (length pre) + (Z.of_nat (length (x :: s)) + 1))
        with (Z.of_nat (length (pre ++ (x :: s) ++ [0])))
        by (rewrite !length_app; cbn [length]; lia).
      cbn [app] in IH |- *.
      rewrite IH by (rewrite length_insert; lia).
      apply f_equal. apply f_equal2; [exact (Hstep (Ptr ((x :: s) ++ [0])) eq_refl)|].
      rewrite !length_app. cbn [length]. rewrite !length_app. cbn [length]. lia.
Qed.

Lemma load_rusr_bin_framed (p : puzzle_t) (ck : Z) (cells : list (list Z))
    (rest : list Z) :
  section_ok (width (header p) * height (header p)) (Rusr ck cells) ->
  load_rusr_bin (Ptr p) (le16_bytes ck ++ rusr_payload cells ++ 0 :: rest)
  = Some (Ptr (with_section p (Rusr ck cells)),
          2 + Z.of_nat (length (rusr_payload cells)) + 1).
Proof.
  intros (Hck & Hn & Hcells). unfold load_rusr_bin. cbn [is_null deref].
  rewrite le_16_bytes, (u16_small _ Hck). rewrite <- Hn.
  unfold for_range. rewrite Z.sub_0_r, Nat2Z.id.
  change (0 + 2) with (Z.of_nat (length (le16_bytes ck))).
  change 0 with (Z.of_nat 0) at 1.
  rewrite (rusr_bin_loop cells Hcells (le16_bytes ck) (0 :: rest) 0)
    by (rewrite length_replicate; lia).
  rewrite take_0, drop_ge by (rewrite length_replicate; lia).
  cbn [app length le16_bytes]. rewrite app_nil_r.
  unfold with_section. change (Z.of_nat 2) with 2.
  replace (2 + Z.of_nat (length (rusr_payload cells)) - 2)
    with (Z.of_nat (length (rusr_payload cells))) by lia.
  reflexivity.
Qed.

(** [puz_rtblstr_set] on the payload of an RTBL section, into a puzzle
    without a table. *)
Lemma puz_rtblstr_set_null (p : puzzle_t) (rt : list (list Z)) (rest : list Z) :
  rtbl p = NULL ->
  Forall (Forall (fun c => c <> 0 /\ c <> 59)) rt ->
  puz_rtblstr_set (Ptr p) (rtbl_payload rt ++ 0 :: rest)
  = Some (Ptr (set_rtbl (Ptr (strings_blocks rt))
                 (set_rtbl_sz (Z.of_nat (length rt))
                    (set_rtbl (Ptr (replicate (length rt) NULL)) p))),
          Ptr (strings_blocks rt)).
Proof.
  intros Hr Hrt.
  assert (Hrt59 : Forall (Forall (fun c => c <> 59)) rt).
  { eapply Forall_impl; [|exact Hrt]. intros e He.
    eapply Forall_impl; [|exact He]. intros c [Hc0 Hc59]; assumption. }
  assert (Hnz : nul_free (rtbl_payload rt)).
  { unfold rtbl_payload. apply Forall_concat, Forall_fmap.
    eapply Forall_impl; [|exact Hrt]. intros e He. cbn. apply Forall_app. split.
    - eapply Forall_impl; [|exact He]. intros c [Hc0 Hc59]; assumption.
    - repeat constructor. discriminate. }
  unfold puz_rtblstr_set. cbn [is_null deref mbind]. rewrite Hr. cbn [is_null negb].
  rewrite (cstring_nonzero _ _ Hnz).
  rewrite <- (app_nil_r (rtbl_payload rt)).
  rewrite filter_semicolon_payload by first [assumption | constructor].
  unfold puz_rebus_count_set. cbn [is_null]. rewrite decide_False by lia.
  cbn [deref mbind]. rewrite Nat2Z.id.
  change (rtbl (set_rtbl_sz ?x (set_rtbl ?y ?z))) with y.
  change (rtbl_sz (set_rtbl_sz ?x ?z)) with x.
  cbn [deref]. rewrite Nat2Z.id. change 0 with (Z.of_nat 0) at 1.
  rewrite (rtblstr_entries_payload rt [] Hrt59 0 (replicate (length rt) NULL))
    by (rewrite length_replicate; lia).
  rewrite take_0, drop_ge by (rewrite length_replicate; lia).
  cbn [app]. rewrite app_nil_r. reflexivity.
Qed.

Lemma strncmp_same (tag rest : list Z) :
  nul_free tag -> strncmp (tag ++ rest) (tag ++ [0]) (length tag) = Some 0.
Proof.
  induction 1 as [|c tag Hc _ IH]; [reflexivity|].
  cbn [app length strncmp]. rewrite decide_False by tauto.
  rewrite decide_False by exact Hc. exact IH.
Qed.

Lemma load_grbs_bin_framed (p : puzzle_t) (ck rck : Z) (g : list Z)
    (rt : list (list Z)) (rest : list Z) (sz : Z) :
  section_ok (width (header p) * height (header p)) (Grbs ck g rck rt) ->
  rtbl p = NULL ->
  load_grbs_bin true (Ptr p)
    (le16_bytes ck ++ g ++ 0 :: framed "RTBL" rck (rtbl_payload rt) ++ rest) sz
  = Some (Ptr (with_section p (Grbs ck g rck rt)),
          2 + Z.of_nat (length g) + 1 + 4 + 2 + 2
          + Z.of_nat (length (rtbl_payload rt)) + 1).
Proof.
  intros (Hck & Hg & Hpos & Hnz & Hrck & Hrt) Hnull.
  set (base := le16_bytes ck ++ g ++ 0 :: framed "RTBL" rck (rtbl_payload rt) ++ rest).
  assert (Hread : read_bytes base 2 (width (header p) * height (header p)) = Some g).
  { apply read_bytes_at; [reflexivity|]. symmetry. exact Hg. }
  assert (Hck16 : le_16 base 0 = Some ck) by apply le_16_bytes.
  pose proof (fold_add_pos g 0 Hpos Hnz) as Hsum.
  unfold load_grbs_bin. cbn [is_null deref negb]. rewrite Z.add_0_l.
  rewrite Hck16, Hread, (grbs_sum p base g Hread).
  destruct (decide (fold_left Z.add g 0 = 0)) as [?|_]; [lia|].
  destruct (decide (fold_left Z.add g 0 <> 0)) as [_|?]; [|lia].
  rewrite (u16_small _ Hck). rewrite <- Hg.
  assert (Hoff : forall k pre post,
            framed "RTBL" rck (rtbl_payload rt) ++ rest = pre ++ post ->
            k = Z.of_nat (length pre) ->
            base = (le16_bytes ck ++ g ++ 0 :: pre) ++ post /\
            2 + Z.of_nat (length g) + 1 + k
            = Z.of_nat (length (le16_bytes ck ++ g ++ 0 :: pre))).
  { intros k pre post Heq ->. split.
    - unfold base. rewrite Heq, <- !app_assoc. cbn [app]. reflexivity.
    - rewrite ?length_app. cbn [length le16_bytes]. rewrite ?length_app. lia. }
  unfold tag_cmp.
  destruct (Hoff 0 [] (framed "RTBL" rck (rtbl_payload rt) ++ rest) eq_refl eq_refl)
    as [Hb0 Hi0].
  rewrite Z.add_0_r in Hi0.
  rewrite (offset_at base _ _ _ Hb0 Hi0).
  unfold framed at 1. rewrite <- !app_assoc.
  rewrite (strncmp_same (bytes_of "RTBL") _)
    by (repeat constructor; discriminate).
  rewrite decide_False by tauto.
  destruct (Hoff 4 (bytes_of "RTBL")
              (le16_bytes (Z.of_nat (length (rtbl_payload rt))) ++ le16_bytes rck
               ++ rtbl_payload rt ++ 0 :: rest)) as [Hb4 Hi4];
    [unfold framed; rewrite <- !app_assoc; reflexivity | reflexivity|].
  rewrite (le_16_at base _ _ _ _ Hb4 Hi4).
  destruct (Hoff 6 (bytes_of "RTBL" ++ le16_bytes (Z.of_nat (length (rtbl_payload rt))))
              (le16_bytes rck ++ rtbl_payload rt ++ 0 :: rest)) as [Hb6 Hi6];
    [unfold framed; rewrite <- !app_assoc; reflexivity | reflexivity|].
  rewrite <- Z.add_assoc. change (4 + 2) with 6.
  rewrite (le_16_at base _ _ _ _ Hb6 Hi6), (u16_small _ Hrck).
  destruct (Hoff 8 (bytes_of "RTBL" ++ le16_bytes (Z.of_nat (length (rtbl_payload rt)))
                    ++ le16_bytes rck)
              (rtbl_payload rt ++ 0 :: rest)) as [Hb8 Hi8];
    [unfold framed; rewrite <- !app_assoc; reflexivity | reflexivity|].
  rewrite <- Z.add_assoc. change (6 + 2) with 8.
  rewrite (offset_at base _ _ _ Hb8 Hi8).
  rewrite (puz_rtblstr_set_null _ rt rest) by first [exact Hnull | exact Hrt].
  cbn [deref]. apply f_equal. apply f_equal2; [|lia].
  unfold with_section. flat_puzzle. reflexivity.
Qed.

(** *** The section loop *)

Lemma tag_cmp_at (file pre b : list Z) (i : Z) (tag : string) :
  file = pre ++ b -> i = Z.of_nat (length pre) ->
  tag_cmp file i tag = strncmp b (cstr tag) 4.
Proof. intros Hf Hi. unfold tag_cmp. rewrite (offset_at file pre b i Hf Hi). reflexivity. Qed.

Lemma framed_length (tag : string) (ck : Z) (payload : list Z) :
  Z.of_nat (length (framed tag ck payload))
  = Z.of_nat (length (bytes_of tag)) + 2 + 2 + Z.of_nat (length payload) + 1.
Proof. unfold framed. rewrite !length_app. cbn [length le16_bytes]. lia. Qed.

Lemma section_bytes_length (s : section) :
  9 <= Z.of_nat (length (section_bytes s)).
Proof.
  destruct s; cbn [section_bytes]; rewrite ?length_app, ?Nat2Z.inj_add, !framed_length;
    cbn [bytes_of length]; lia.
Qed.

(** One turn of the loop on a file with the section [s] at [i]. *)
Lemma load_sections_step (fuel : nat) (d : bool) (file pre rest : list Z) (sz i : Z)
    (p : puzzle_t) (s : section) :
  file = pre ++ section_bytes s ++ rest -> i = Z.of_nat (length pre) ->
  i + Z.of_nat (length (section_bytes s)) <= sz ->
  section_ok (width (header p) * height (header p)) s ->
  (is_grbs s = true -> rtbl p = NULL) ->
  load_sections (S fuel) d file sz i (Ptr p)
  = load_sections fuel d file sz (i + Z.of_nat (length (section_bytes s)))
      (Ptr (with_section p s)).
Proof.
  intros Hfile Hi Hsz Hok Hnull.
  pose proof (section_bytes_length s) as H9.
  cbn [load_sections]. rewrite decide_True by lia.
  destruct s as [ck g rck rt|ck lt|ck g|ck cells]; cbn [section_bytes] in *.
  - set (tl := le16_bytes ck ++ g ++ 0 :: framed "RTBL" rck (rtbl_payload rt) ++ rest).
    assert (Hf : file = (pre ++ bytes_of "GRBS") ++ le16_bytes (Z.of_nat (length g)) ++ tl).
    { rewrite Hfile. unfold tl, framed. rewrite <- !app_assoc. reflexivity. }
    rewrite (le_16_at file _ _ _ _ Hf) by (rewrite length_app; cbn [length bytes_of]; lia).
    assert (Hb : file = pre ++ bytes_of "GRBS" ++ le16_bytes (Z.of_nat (length g)) ++ tl).
    { rewrite Hf, <- !app_assoc. reflexivity. }
    rewrite (tag_cmp_at file pre _ i "GRBS" Hb Hi).
    rewrite (strncmp_same (bytes_of "GRBS") _) by (repeat constructor; discriminate).
    rewrite decide_True by reflexivity.
    rewrite (offset_at file (pre ++ bytes_of "GRBS" ++ le16_bytes (Z.of_nat (length g))) tl)
      by first [rewrite Hb, <- !app_assoc; reflexivity
               | rewrite !length_app; cbn [length bytes_of le16_bytes]; lia].
    unfold tl. rewrite (load_grbs_bin_framed p ck rck g rt rest _ Hok (Hnull eq_refl)).
    rewrite decide_False
      by (rewrite ?length_app, ?Nat2Z.inj_add, ?framed_length in *; lia).
    f_equal. rewrite length_app, Nat2Z.inj_add, !framed_length. cbn [bytes_of length]. lia.
  - set (tl := le16_bytes ck ++ lt ++ 0 :: rest).
    pose proof Hok as (Hck & Hlt & Hlen).
    assert (Hf : file = (pre ++ bytes_of "LTIM") ++ le16_bytes (Z.of_nat (length lt)) ++ tl).
    { rewrite Hfile. unfold tl, framed. rewrite <- !app_assoc. reflexivity. }
    rewrite (le_16_at file _ _ _ _ Hf) by (rewrite length_app; cbn [length bytes_of]; lia).
    assert (Hb : file = pre ++ bytes_of "LTIM" ++ le16_bytes (Z.of_nat (length lt)) ++ tl).
    { rewrite Hf, <- !app_assoc. reflexivity. }
    rewrite !(tag_cmp_at file pre _ i _ Hb Hi).
    change (strncmp (bytes_of "LTIM" ++ ?x) (cstr "GRBS") 4) with (Some 5).
    cbv beta iota. rewrite decide_False by discriminate.
    rewrite (strncmp_same (bytes_of "LTIM") _) by (repeat constructor; discriminate).
    rewrite decide_True by reflexivity.
    rewrite (offset_at file (pre ++ bytes_of "LTIM" ++ le16_bytes (Z.of_nat (length lt))) tl)
      by first [rewrite Hb, <- !app_assoc; reflexivity
               | rewrite !length_app; cbn [length bytes_of le16_bytes]; lia].
    unfold tl. rewrite u16_small by lia.
    rewrite (load_ltim_bin_framed p ck lt rest Hok).
    rewrite decide_False by lia.
    f_equal. rewrite !framed_length. cbn [bytes_of length]. lia.
  - set (tl := le16_bytes ck ++ g ++ 0 :: rest).
    assert (Hf : file = (pre ++ bytes_of "GEXT") ++ le16_bytes (Z.of_nat (length g)) ++ tl).
    { rewrite Hfile. unfold tl, framed. rewrite <- !app_assoc. reflexivity. }
    rewrite (le_16_at file _ _ _ _ Hf) by (rewrite length_app; cbn [length bytes_of]; lia).
    assert (Hb : file = pre ++ bytes_of "GEXT" ++ le16_bytes (Z.of_nat (length g)) ++ tl).
    { rewrite Hf, <- !app_assoc. reflexivity. }
    rewrite !(tag_cmp_at file pre _ i _ Hb Hi).
    change (strncmp (bytes_of "GEXT" ++ ?x) (cstr "GRBS") 4) with (Some (-13)).
    cbv beta iota. rewrite decide_False by discriminate.
    change (strncmp (bytes_of "GEXT" ++ ?x) (cstr "LTIM") 4) with (Some (-5)).
    cbv beta iota. rewrite decide_False by discriminate.
    rewrite (strncmp_same (bytes_of "GEXT") _) by (repeat constructor; discriminate).
    rewrite decide_True by reflexivity.
    rewrite (offset_at file (pre ++ bytes_of "GEXT" ++ le16_bytes (Z.of_nat (length g))) tl)
      by first [rewrite Hb, <- !app_assoc; reflexivity
               | rewrite !length_app; cbn [length bytes_of le16_bytes]; lia].
    unfold tl. rewrite (load_gext_bin_framed p ck g rest Hok).
    rewrite decide_False by lia.
    f_equal. rewrite !framed_length. cbn [bytes_of length]. lia.
  - set (tl := le16_bytes ck ++ rusr_payload cells ++ 0 :: rest).
    assert (Hf : file = (pre ++ bytes_of "RUSR")
                        ++ le16_bytes (Z.of_nat (length (rusr_payload cells))) ++ tl).
    { rewrite Hfile. unfold tl, framed. rewrite <- !app_assoc. reflexivity. }
    rewrite (le_16_at file _ _ _ _ Hf) by (rewrite length_app; cbn [length bytes_of]; lia).
    assert (Hb : file = pre ++ bytes_of "RUSR"
                        ++ le16_bytes (Z.of_nat (length (rusr_payload cells))) ++ tl).
    { rewrite Hf, <- !app_assoc. reflexivity. }
    rewrite !(tag_cmp_at file pre _ i _ Hb Hi).
    change (strncmp (bytes_of "RUSR" ++ ?x) (cstr "GRBS") 4) with (Some 11).
    cbv beta iota. rewrite decide_False by discriminate.
    change (strncmp (bytes_of "RUSR" ++ ?x) (cstr "LTIM") 4) with (Some 6).
    cbv beta iota. rewrite decide_False by discriminate.
    change (strncmp (bytes_of "RUSR" ++ ?x) (cstr "GEXT") 4) with (Some 11).
    cbv beta iota. rewrite decide_False by discriminate.
    rewrite (strncmp_same (bytes_of "RUSR") _) by (repeat constructor; discriminate).
    rewrite decide_True by reflexivity.
    rewrite (offset_at file
               (pre ++ bytes_of "RUSR"
                ++ le16_bytes (Z.of_nat (length (rusr_payload cells)))) tl)
      by first [rewrite Hb, <- !app_assoc; reflexivity
               | rewrite !length_app; cbn [length bytes_of le16_bytes]; lia].
    unfold tl. rewrite (load_rusr_bin_framed p ck cells rest Hok).
    rewrite decide_False by lia.
    f_equal. rewrite !framed_length. cbn [bytes_of length]. lia.
Qed.

Lemma with_section_header (p : puzzle_t) (s : section) :
  header (with_section p s) = header p.
Proof. destruct s; reflexivity. Qed.

Lemma with_section_rtbl (p : puzzle_t) (s : section) :
  is_grbs s = false -> rtbl (with_section p s) = rtbl p.
Proof. destruct s; first [discriminate | reflexivity]. Qed.

Lemma sections_length (ss : list section) :
  9 * Z.of_nat (length ss) <= Z.of_nat (length (concat (map section_bytes ss))).
Proof.
  induction ss as [|s ss IH]; cbn [map concat length]; [lia|].
  rewrite length_app. pose proof (section_bytes_length s). lia.
Qed.

(** The loop over the sections [ss] laid out from [pre] to the end of the
    file. *)
Lemma load_sections_list (file : list Z) (d : bool) (A : Z) (ss : list section) :
  Forall (section_ok A) ss ->
  forall (pre : list Z) (p : puzzle_t) (fuel : nat),
    file = pre ++ concat (map section_bytes ss) ->
    width (header p) * height (header p) = A ->
    rtbl p = NULL /\ (length (filter (fun s => is_grbs s = true) ss) <= 1)%nat \/
    filter (fun s => is_grbs s = true) ss = [] ->
    (length ss < fuel)%nat ->
    load_sections fuel d file (Z.of_nat (length file)) (Z.of_nat (length pre)) (Ptr p)
    = Some (Ptr (fold_left with_section ss p)).
Proof.
  induction 1 as [|s ss Hs _ IH]; intros pre p fuel Hfile HA Hone Hfuel.
  - cbn [map concat] in Hfile. rewrite app_nil_r in Hfile. subst pre.
    apply load_sections_end; [cbn [length] in Hfuel|]; lia.
  - cbn [map concat] in Hfile. cbn [length] in Hfuel.
    destruct fuel as [|fuel]; [lia|].
    rewrite (load_sections_step fuel d file pre (concat (map section_bytes ss)) _ _ p s
               Hfile eq_refl).
    + cbn [fold_left].
      replace (Z.of_nat (length pre) + Z.of_nat (length (section_bytes s)))
        with (Z.of_nat (length (pre ++ section_bytes s)))
        by (rewrite length_app; lia).
      apply IH.
      * rewrite Hfile, <- app_assoc. reflexivity.
      * rewrite with_section_header. exact HA.
      * destruct (is_grbs s) eqn:Hg.
        -- right. rewrite filter_cons_True in Hone by exact Hg.
           destruct Hone as [[_ Hone]|Hone]; [|discriminate].
           cbn [length] in Hone.
           destruct (filter (fun s0 => is_grbs s0 = true) ss); [reflexivity|].
           cbn [length] in Hone. lia.
        -- rewrite filter_cons_False in Hone by congruence.
           destruct Hone as [[Hnull Hone]|Hone]; [left|right; exact Hone].
           split; [|exact Hone]. rewrite with_section_rtbl by exact Hg. exact Hnull.
      * lia.
    + rewrite Hfile, !length_app. lia.
    + rewrite HA. exact Hs.
    + intros Hg. rewrite filter_cons_True in Hone by exact Hg.
      destruct Hone as [[Hnull _]|Hone]; [exact Hnull|discriminate].
Qed.

(** X12. A binary file whose notes are followed by optional sections, in
    any order and with one rebus section at most, loads into the puzzle
    of the file without them, with the fields of every section assigned
    in turn. *)
Theorem puz_load_bin_sections (puz : ptr puzzle_t) (hdr sol grd t a c n : list Z)
    (cl : list (list Z)) (h : puz_head_t) (ss : list section) :
  puz <> Dangling ->
  read_puz_head hdr = Some h -> length hdr = 52%nat ->
  Z.of_nat (length sol) = width h * height h ->
  Z.of_nat (length grd) = width h * height h ->
  nul_free sol -> nul_free grd -> nul_free t -> nul_free a -> nul_free c ->
  Forall nul_free cl -> Z.of_nat (length cl) = clue_count h -> nul_free n ->
  Forall (section_ok (width h * height h)) ss ->
  (length (filter (fun s => is_grbs s = true) ss) <= 1)%nat ->
  let file := file_layout hdr sol grd t a c cl
                (n ++ 0 :: concat (map section_bytes ss)) in
  let sz := Z.of_nat (length file) in
  puz_load_bin puz (Ptr file) sz
  = Some (Ptr (fold_left with_section ss
                 (loaded (Ptr file) sz h hdr sol grd t a c cl (Ptr (n ++ [0]))
                    (Z.of_nat (length n))))).
Proof.
  intros Hpuz Hhead Hhdr Hsol Hgrd Hsol0 Hgrd0 Ht Ha Hc Hcl Hcc Hn Hss Hone file sz.
  pose proof (puz_load_bin_to_sections hdr sol grd t a c cl h Hhead Hhdr Hsol Hgrd
                Hsol0 Hgrd0 Ht Ha Hc Hcl puz n (concat (map section_bytes ss))
                Hpuz Hcc Hn) as Hload.
  cbv zeta in Hload. fold file in Hload. fold sz in Hload. rewrite Hload.
  pose proof (sections_length ss) as Hlen.
  set (pre := hdr ++ sol ++ grd ++ (t ++ [0]) ++ (a ++ [0]) ++ (c ++ [0])
              ++ strings_bytes cl ++ n ++ [0]).
  assert (Hfile : file = pre ++ concat (map section_bytes ss)).
  { unfold file, file_layout, pre. rewrite <- !app_assoc. reflexivity. }
  replace (sz - Z.of_nat (length (concat (map section_bytes ss))))
    with (Z.of_nat (length pre))
    by (unfold sz; rewrite Hfile, length_app; lia).
  apply (load_sections_list file (is_null puz) (width h * height h) ss Hss pre).
  - exact Hfile.
  - reflexivity.
  - left. split; [reflexivity|exact Hone].
  - assert (52 <= length pre)%nat by (unfold pre; rewrite length_app; lia).
    unfold sz. rewrite Hfile, length_app. lia.
Qed.

Lemma puz_load_bin_sections_witness :
  let ss := [Gext 7 [128; 0]; Grbs 1 [1; 0] 2 [bytes_of " 0:AB"];
             Ltim 3 (bytes_of "12,0"); Rusr 4 [[]; bytes_of "XY"]] in
  let file := file_layout (file_header 2 1 2) (bytes_of "AB") (bytes_of "--")
                (bytes_of "T") [] (bytes_of "me") [bytes_of "a1"; bytes_of "d1"]
                (bytes_of "n" ++ 0 :: concat (map section_bytes ss)) in
  let sz := Z.of_nat (length file) in
  puz_load_bin NULL (Ptr file) sz
  = Some (Ptr (fold_left with_section ss
                 (loaded (Ptr file) sz (sample_head 2 1 2 0 0) (file_header 2 1 2)
                    (bytes_of "AB") (bytes_of "--") (bytes_of "T") [] (bytes_of "me")
                    [bytes_of "a1"; bytes_of "d1"] (Ptr (bytes_of "n" ++ [0]))
                    (Z.of_nat (length (bytes_of "n")))))).
Proof.
  apply (puz_load_bin_sections NULL (file_header 2 1 2) (bytes_of "AB") (bytes_of "--")
           (bytes_of "T") [] (bytes_of "me") (bytes_of "n")
           [bytes_of "a1"; bytes_of "d1"] (sample_head 2 1 2 0 0)
           [Gext 7 [128; 0]; Grbs 1 [1; 0] 2 [bytes_of " 0:AB"];
            Ltim 3 (bytes_of "12,0"); Rusr 4 [[]; bytes_of "XY"]]);
    try reflexivity; try discriminate;
    repeat constructor; discriminate.
Defined.

(** *** A section that the loader does not know *)

Lemma strncmp_differ (a : list Z) :
  nul_free a ->
  forall (b r : list Z),
    length a = length b -> a <> b ->
    exists c, strncmp (a ++ r) (b ++ [0]) (length a) = Some c /\ c <> 0.
Proof.
  induction 1 as [|x a Hx _ IH]; intros [|y b] r Hlen Hne;
    try discriminate Hlen; [contradiction|].
  cbn [app length strncmp]. destruct (decide (x <> y)) as [Hxy|Hxy].
  - exists (x - y). split; [reflexivity|lia].
  - assert (x = y) by lia. subst y. rewrite decide_False by exact Hx.
    apply IH; [cbn [length] in Hlen; lia|congruence].
Qed.

(** The comparison against a tag of a window whose second byte is NUL. *)
Lemma strncmp_nul_second (x k0 k1 : Z) (rest krest : list Z) :
  k0 <> 0 -> k1 <> 0 ->
  exists c, strncmp (x :: 0 :: rest) (k0 :: k1 :: krest) 4 = Some c /\ c <> 0.
Proof.
  intros H0 H1. cbn [strncmp]. destruct (decide (x <> k0)) as [Hx|Hx].
  - exists (x - k0). split; [reflexivity|lia].
  - assert (x = k0) by lia. subst x. rewrite decide_False by exact H0.
    rewrite decide_True by congruence. exists (0 - k1). split; [reflexivity|lia].
Qed.

(** One turn of the loop at a tag that is none of the four:
    [i += 6 + section_sz + 1]. *)
Lemma load_sections_skip (fuel : nat) (d : bool) (file : list Z) (sz i v : Z)
    (puz : ptr puzzle_t) :
  i + 5 < sz -> le_16 file (i + 4) = Some v ->
  (forall tag, In tag ["GRBS"; "LTIM"; "GEXT"; "RUSR"]%string ->
     exists c, tag_cmp file i tag = Some c /\ c <> 0) ->
  load_sections (S fuel) d file sz i puz
  = load_sections fuel d file sz (i + 6 + u16 v + 1) puz.
Proof.
  intros Hi Hv Htags. cbn [load_sections]. rewrite decide_True by exact Hi.
  rewrite Hv.
  destruct (Htags "GRBS"%string) as (c1 & -> & H1); [cbn; tauto|].
  rewrite decide_False by congruence.
  destruct (Htags "LTIM"%string) as (c2 & -> & H2); [cbn; tauto|].
  rewrite decide_False by congruence.
  destruct (Htags "GEXT"%string) as (c3 & -> & H3); [cbn; tauto|].
  rewrite decide_False by congruence.
  destruct (Htags "RUSR"%string) as (c4 & -> & H4); [cbn; tauto|].
  rewrite decide_False by congruence. reflexivity.
Qed.

Lemma section_bytes_tag (s : section) :
  exists t0 t1 t2 t3 rest,
    section_bytes s = t0 :: t1 :: t2 :: t3 :: rest /\
    19785 <= t2 + 256 * t3 < 65536.
Proof.
  destruct s; cbn [section_bytes]; unfold framed; cbn [bytes_of app];
    eexists _, _, _, _, _; (split; [reflexivity|cbn; lia]).
Qed.

(** X13. A section with a tag that the loader does not know is skipped
    by 7 bytes and its length, two bytes short of its end: the loop then
    finds no tag where it looks, takes two letters of the next section's
    tag for a length of 19785 bytes or more, and leaves the loop.  In a
    file of 19000 bytes at most, a section that follows an unknown
    section is not loaded. *)
Theorem puz_load_bin_after_unknown (puz : ptr puzzle_t) (hdr sol grd t a c n : list Z)
    (cl : list (list Z)) (h : puz_head_t) (tag : string) (ck : Z) (payload : list Z)
    (s : section) :
  puz <> Dangling ->
  read_puz_head hdr = Some h -> length hdr = 52%nat ->
  Z.of_nat (length sol) = width h * height h ->
  Z.of_nat (length grd) = width h * height h ->
  nul_free sol -> nul_free grd -> nul_free t -> nul_free a -> nul_free c ->
  Forall nul_free cl -> Z.of_nat (length cl) = clue_count h -> nul_free n ->
  length (bytes_of tag) = 4%nat -> nul_free (bytes_of tag) ->
  (forall known, In known ["GRBS"; "LTIM"; "GEXT"; "RUSR"]%string ->
     bytes_of tag <> bytes_of known) ->
  Z.of_nat (length payload) < 65536 ->
  let file := file_layout hdr sol grd t a c cl
                (n ++ 0 :: framed tag ck payload ++ section_bytes s) in
  let sz := Z.of_nat (length file) in
  sz <= 19000 ->
  puz_load_bin puz (Ptr file) sz
  = Some (Ptr (loaded (Ptr file) sz h hdr sol grd t a c cl (Ptr (n ++ [0]))
                 (Z.of_nat (length n)))).
Proof.
  intros Hpuz Hhead Hhdr Hsol Hgrd Hsol0 Hgrd0 Ht Ha Hc Hcl Hcc Hn Htag4 Htag0 Htag
    Hpay file sz Hsz.
  pose proof (puz_load_bin_to_sections hdr sol grd t a c cl h Hhead Hhdr Hsol Hgrd
                Hsol0 Hgrd0 Ht Ha Hc Hcl puz n
                (framed tag ck payload ++ section_bytes s) Hpuz Hcc Hn) as Hload.
  cbv zeta in Hload. fold file in Hload. fold sz in Hload. rewrite Hload. clear Hload.
  set (pre := hdr ++ sol ++ grd ++ (t ++ [0]) ++ (a ++ [0]) ++ (c ++ [0])
              ++ strings_bytes cl ++ n ++ [0]).
  assert (Hfile : file = pre ++ framed tag ck payload ++ section_bytes s).
  { unfold file, file_layout, pre. rewrite <- !app_assoc. reflexivity. }
  pose proof (section_bytes_length s) as Hs9.
  pose proof (framed_length tag ck payload) as Hfl. rewrite Htag4 in Hfl.
  assert (Hlen : sz = Z.of_nat (length pre) + Z.of_nat (length (framed tag ck payload))
                      + Z.of_nat (length (section_bytes s)))
    by (unfold sz; rewrite Hfile, !length_app; lia).
  assert (H52 : (52 <= length pre)%nat) by (unfold pre; rewrite length_app; lia).
  replace (sz - Z.of_nat (length (framed tag ck payload ++ section_bytes s)))
    with (Z.of_nat (length pre)) by (rewrite length_app; lia).
  destruct (Z.to_nat sz) as [|[|[|fuel]]] eqn:Hfuel; try lia.
  (* the unknown section *)
  rewrite (load_sections_skip _ _ file sz _ (Z.of_nat (length payload))).
  2: lia.
  2: { apply (le_16_at file (pre ++ bytes_of tag)
                (le16_bytes ck ++ payload ++ [0] ++ section_bytes s)).
       - rewrite Hfile. unfold framed. rewrite <- !app_assoc. reflexivity.
       - rewrite length_app. lia. }
  2: { intros known Hk.
       rewrite (tag_cmp_at file pre (framed tag ck payload ++ section_bytes s) _ known
                  Hfile eq_refl).
       unfold framed, cstr. rewrite <- !app_assoc.
       assert (Hk4 : length (bytes_of tag) = length (bytes_of known)).
       { rewrite Htag4. cbn in Hk.
         destruct Hk as [<-|[<-|[<-|[<-|[]]]]]; reflexivity. }
       rewrite <- Htag4.
       apply strncmp_differ; [exact Htag0|exact Hk4|apply Htag, Hk]. }
  rewrite u16_small by lia.
  (* two bytes before the next section *)
  destruct (section_bytes_tag s) as (t0 & t1 & t2 & t3 & srest & Hsb & Ht23).
  assert (Hbody : exists front x,
            bytes_of tag ++ le16_bytes (Z.of_nat (length payload)) ++ le16_bytes ck
              ++ payload = front ++ [x]).
  { destruct (exists_last (l := bytes_of tag ++ le16_bytes (Z.of_nat (length payload))
                                 ++ le16_bytes ck ++ payload)) as (front & x & E).
    - destruct (bytes_of tag); [discriminate Htag4|discriminate].
    - exists front, x. exact E. }
  destruct Hbody as (front & x & Hbody).
  assert (Hfront : Z.of_nat (length front) = 7 + Z.of_nat (length payload)).
  { apply (f_equal (@length Z)) in Hbody. rewrite !length_app in Hbody.
    cbn [length le16_bytes] in Hbody. lia. }
  assert (Hfile2 : file = (pre ++ front) ++ x :: 0 :: t0 :: t1 :: t2 :: t3 :: srest).
  { rewrite Hfile, <- Hsb. unfold framed.
    replace (bytes_of tag ++ le16_bytes (Z.of_nat (length payload)) ++ le16_bytes ck
             ++ payload ++ [0])
      with ((bytes_of tag ++ le16_bytes (Z.of_nat (length payload)) ++ le16_bytes ck
             ++ payload) ++ [0])
      by (rewrite <- !app_assoc; reflexivity).
    rewrite Hbody, <- !app_assoc. reflexivity. }
  assert (Hi2 : Z.of_nat (length pre) + 6 + Z.of_nat (length payload) + 1
                = Z.of_nat (length (pre ++ front))) by (rewrite length_app; lia).
  rewrite (load_sections_skip _ _ file sz _ (t2 + 256 * t3)).
  2: lia.
  2: { assert (Hlo : load file (Z.of_nat (length pre) + 6 + Z.of_nat (length payload)
                                  + 1 + 4) = Some t2).
       { rewrite Hfile2.
         replace ((pre ++ front) ++ x :: 0 :: t0 :: t1 :: t2 :: t3 :: srest)
           with (((pre ++ front) ++ [x; 0; t0; t1]) ++ t2 :: t3 :: srest)
           by (rewrite <- !app_assoc; reflexivity).
         apply load_at. rewrite !length_app. cbn [length]. lia. }
       assert (Hhi : load file (Z.of_nat (length pre) + 6 + Z.of_nat (length payload)
                                  + 1 + 4 + 1) = Some t3).
       { rewrite Hfile2.
         replace ((pre ++ front) ++ x :: 0 :: t0 :: t1 :: t2 :: t3 :: srest)
           with (((pre ++ front) ++ [x; 0; t0; t1; t2]) ++ t3 :: srest)
           by (rewrite <- !app_assoc; reflexivity).
         apply load_at. rewrite !length_app. cbn [length]. lia. }
       unfold le_16. rewrite Hlo, Hhi. f_equal.
       rewrite Z.shiftl_mul_pow2, Z.shiftl_0_r by lia. change (2 ^ 8) with 256.
       lia. }
  2: { intros known Hk.
       rewrite (tag_cmp_at file (pre ++ front) _ _ known Hfile2 Hi2).
       cbn in Hk.
       destruct Hk as [<-|[<-|[<-|[<-|[]]]]];
         apply strncmp_nul_second; discriminate. }
  rewrite u16_small by lia.
  apply load_sections_end; lia.
Qed.

Lemma puz_load_bin_after_unknown_witness :
  let file := file_layout (file_header 2 1 2) (bytes_of "AB") (bytes_of "--")
                (bytes_of "T") [] (bytes_of "me") [bytes_of "a1"; bytes_of "d1"]
                (bytes_of "n" ++ 0 :: framed "XTRA" 0 [1; 2; 3]
                 ++ section_bytes (Gext 7 [128; 0])) in
  let sz := Z.of_nat (length file) in
  puz_load_bin NULL (Ptr file) sz
  = Some (Ptr (loaded (Ptr file) sz (sample_head 2 1 2 0 0) (file_header 2 1 2)
                 (bytes_of "AB") (bytes_of "--") (bytes_of "T") [] (bytes_of "me")
                 [bytes_of "a1"; bytes_of "d1"] (Ptr (bytes_of "n" ++ [0]))
                 (Z.of_nat (length (bytes_of "n"))))).
Proof.
  apply (puz_load_bin_after_unknown NULL (file_header 2 1 2) (bytes_of "AB")
           (bytes_of "--") (bytes_of "T") [] (bytes_of "me") (bytes_of "n")
           [bytes_of "a1"; bytes_of "d1"] (sample_head 2 1 2 0 0)
           "XTRA" 0 [1; 2; 3] (Gext 7 [128; 0]));
    try reflexivity; try discriminate;
    try (repeat constructor; discriminate).
  intros known [<-|[<-|[<-|[<-|[]]]]]; discriminate.
Defined.

End SectionSpec.
(** ** The text loader *)

Module LoadTextSpec.
Import CksumFacts SizeSpec ScrambleSpec SetSpec LoadBinSpec SectionSpec LoadText.

(** *** [strnchr] *)

Lemma strnchr_from_found (pre rest : list Z) (c n : Z) :
  Forall (fun x => x <> c) pre ->
  forall (k : nat) (skipped : list Z),
    (length pre < k)%nat ->
    strnchr_from k (skipped ++ pre ++ c :: rest) (Z.of_nat (length skipped)) n c
    = Some (Z.of_nat (length skipped) + Z.of_nat (length pre)).
Proof.
  induction 1 as [|x pre Hx _ IH]; intros k skipped Hk.
  - destruct k as [|k]; [cbn [length] in Hk; lia|]. cbn [strnchr_from app].
    rewrite (load_at skipped _ c) by reflexivity.
    rewrite decide_True by reflexivity. cbn [length]. f_equal. lia.
  - destruct k as [|k]; [cbn [length] in Hk; lia|]. cbn [strnchr_from app].
    rewrite (load_at skipped _ x) by reflexivity.
    rewrite decide_False by exact Hx.
    specialize (IH k (skipped ++ [x])). rewrite <- app_assoc in IH. cbn [app] in IH.
    replace (Z.of_nat (length skipped) + 1) with (Z.of_nat (length (skipped ++ [x])))
      by (rewrite length_app; cbn [length]; lia).
    rewrite IH by (cbn [length] in Hk; lia).
    rewrite length_app. cbn [length]. f_equal. lia.
Qed.

Lemma strnchr_found (pre rest : list Z) (c n : Z) :
  Forall (fun x => x <> c) pre -> Z.of_nat (length pre) < n ->
  strnchr (pre ++ c :: rest) n c = Some (Z.of_nat (length pre)).
Proof.
  intros Hpre Hn. unfold strnchr.
  exact (strnchr_from_found pre rest c n Hpre (Z.to_nat n) [] ltac:(lia)).
Qed.

Lemma strnchr_from_none (pre : list Z) (c n : Z) :
  Forall (fun x => x <> c) pre ->
  forall (skipped rest : list Z),
    strnchr_from (length pre) (skipped ++ pre ++ rest) (Z.of_nat (length skipped)) n c
    = Some n.
Proof.
  induction 1 as [|x pre Hx _ IH]; intros skipped rest; [reflexivity|].
  cbn [length strnchr_from app].
  rewrite (load_at skipped _ x) by reflexivity.
  rewrite decide_False by exact Hx.
  specialize (IH (skipped ++ [x]) rest). rewrite <- app_assoc in IH. cbn [app] in IH.
  replace (Z.of_nat (length skipped) + 1) with (Z.of_nat (length (skipped ++ [x])))
    by (rewrite length_app; cbn [length]; lia).
  exact IH.
Qed.

(** Nothing found in the first [n] bytes: the result points at [buf + n]. *)
Lemma strnchr_none (pre rest : list Z) (c n : Z) :
  Forall (fun x => x <> c) pre -> n = Z.of_nat (length pre) ->
  strnchr (pre ++ rest) n c = Some n.
Proof.
  intros Hpre ->. unfold strnchr. rewrite Nat2Z.id.
  exact (strnchr_from_none pre c _ Hpre [] rest).
Qed.

Lemma strnchr_from_bound (buf : list Z) (c n : Z) :
  forall (k : nat) (i : Z),
    0 <= i -> i + Z.of_nat k = n -> n <= Z.of_nat (length buf) ->
    exists d, strnchr_from k buf i n c = Some d /\ i <= d <= n.
Proof.
  induction k as [|k IH]; intros i Hi Hk Hn.
  - exists n. split; [reflexivity|lia].
  - cbn [strnchr_from].
    destruct (lookup_lt_is_Some_2 buf (Z.to_nat i)) as [x Hx]; [lia|].
    rewrite load_lookup, Hx by lia.
    destruct (decide (x = c)).
    + exists i. split; [reflexivity|lia].
    + destruct (IH (i + 1)) as (d & Hd & Hb); [lia..|].
      exists d. split; [exact Hd|lia].
Qed.

Lemma strnchr_bound (buf : list Z) (c n : Z) :
  0 <= n <= Z.of_nat (length buf) ->
  exists d, strnchr buf n c = Some d /\ 0 <= d <= n.
Proof.
  intros Hn. apply strnchr_from_bound; lia.
Qed.

(** *** [get_one_line] *)

Lemma skip_blanks_lead (lead rest : list Z) (x : Z) :
  Forall blank lead -> ~ blank x ->
  skip_blanks (lead ++ x :: rest) = Some (Z.of_nat (length lead)).
Proof.
  intros Hlead Hx. induction Hlead as [|c lead (Hs & H13 & H10) _ IH].
  - cbn [app skip_blanks length].
    destruct (isspace x && bool_decide (x <> 13) && bool_decide (x <> 10)) eqn:E;
      [|reflexivity].
    exfalso. apply Hx. apply andb_prop in E as [E E10]. apply andb_prop in E as [E E13].
    apply bool_decide_eq_true_1 in E10, E13. repeat split; assumption.
  - cbn [app skip_blanks length]. rewrite Hs, !bool_decide_eq_true_2 by assumption.
    cbn [andb]. rewrite IH. f_equal. lia.
Qed.

(** The backward loop over the white space [sp] that follows [x]. *)
Lemma trim_from_spaces (pre sp rest : list Z) (x : Z) :
  isspace x = false -> Forall (fun c => isspace c = true) sp ->
  trim_from ((pre ++ [x]) ++ sp ++ rest) (length pre + length sp)
  = Some (Z.of_nat (length pre)).
Proof.
  intros Hx Hsp. revert rest.
  induction sp as [|s sp IH] using rev_ind; intros rest.
  - cbn [length]. rewrite Nat.add_0_r. destruct (length pre) as [|d] eqn:Hd;
      [reflexivity|].
    cbn [trim_from]. rewrite <- Hd.
    rewrite <- app_assoc. cbn [app].
    rewrite (load_at pre _ x) by reflexivity. rewrite Hx. reflexivity.
  - apply Forall_app in Hsp as [Hsp Hs]. inversion Hs as [|? ? Hs' _]; subst.
    rewrite length_app. cbn [length].
    replace (length pre + (length sp + 1))%nat with (S (length pre + length sp)) by lia.
    cbn [trim_from].
    replace ((pre ++ [x]) ++ (sp ++ [s]) ++ rest)
      with (((pre ++ [x]) ++ sp) ++ s :: rest)
      by (rewrite <- !app_assoc; reflexivity).
    rewrite (load_at _ _ s) by (rewrite !length_app; cbn [length]; lia).
    rewrite Hs'.
    replace (((pre ++ [x]) ++ sp) ++ s :: rest)
      with ((pre ++ [x]) ++ sp ++ s :: rest)
      by (rewrite <- !app_assoc; reflexivity).
    apply IH, Hsp.
Qed.

Lemma store_last (s : list Z) (v v' : Z) :
  store (s ++ [v]) (Z.of_nat (length s)) v' = Some (s ++ [v']).
Proof.
  unfold store. rewrite decide_True by (rewrite length_app; cbn; lia).
  rewrite Nat2Z.id. f_equal.
  rewrite insert_app_r_alt by lia. rewrite Nat.sub_diag. reflexivity.
Qed.

(** X14. A line that ends with a carriage return and a line feed inside
    the window of [n] bytes: [get_one_line] skips the blanks before it,
    drops the white space after it, returns a fresh copy with its NUL,
    and moves the cursor behind the line feed. *)
Theorem get_one_line_dos (pre lead body trail rest : list Z) (n : Z) :
  Forall blank lead -> text_line body -> Forall blank trail ->
  Z.of_nat (length body + length trail) < n ->
  let used := Z.of_nat (length lead + length body + length trail) + 2 in
  get_one_line (pre ++ lead ++ body ++ trail ++ 13 :: 10 :: rest)
    (Z.of_nat (length pre)) n
  = Some (body ++ [0], Z.of_nat (length pre) + used, n - used).
Proof.
  intros Hlead (Hbody & (x & tl & Hhd & Hx) & (hd & y & Hlast & Hy)) Htrail Hn used.
  set (file := pre ++ lead ++ body ++ trail ++ 13 :: 10 :: rest).
  set (w := body ++ trail ++ 13 :: 10 :: rest).
  unfold get_one_line.
  rewrite (offset_at file pre (lead ++ w)) by reflexivity.
  assert (Hskip : skip_blanks (lead ++ w) = Some (Z.of_nat (length lead))).
  { unfold w. rewrite Hhd. cbn [app]. apply skip_blanks_lead; [exact Hlead|].
    intros (Hsp & _). congruence. }
  rewrite Hskip.
  rewrite (offset_at file (pre ++ lead) w)
    by first [unfold file; rewrite <- app_assoc; reflexivity | rewrite length_app; lia].
  assert (Hno13 : Forall (fun c => c <> 13) (body ++ trail)).
  { apply Forall_app. split.
    - eapply Forall_impl; [|exact Hbody]. intros c [H13 _]. exact H13.
    - eapply Forall_impl; [|exact Htrail]. intros c (_ & H13 & _). exact H13. }
  assert (Hno10 : Forall (fun c => c <> 10) ((body ++ trail) ++ [13])).
  { apply Forall_app. split; [apply Forall_app; split|].
    - eapply Forall_impl; [|exact Hbody]. intros c [_ H10]. exact H10.
    - eapply Forall_impl; [|exact Htrail]. intros c (_ & _ & H10). exact H10.
    - repeat constructor. discriminate. }
  assert (Hc : strnchr w n 13 = Some (Z.of_nat (length (body ++ trail)))).
  { unfold w. rewrite app_assoc. apply strnchr_found; [exact Hno13|].
    rewrite length_app. lia. }
  assert (Hd : strnchr w n 10 = Some (Z.of_nat (length (body ++ trail)) + 1)).
  { replace w with (((body ++ trail) ++ [13]) ++ 10 :: rest)
      by (unfold w; rewrite <- !app_assoc; reflexivity).
    destruct (decide (Z.of_nat (length (body ++ trail)) + 1 < n)) as [Hlt|Hge].
    - rewrite strnchr_found; [|exact Hno10|rewrite length_app; cbn [length]; lia].
      rewrite length_app. cbn [length]. f_equal. lia.
    - rewrite length_app in *.
      rewrite (strnchr_none _ _ 10 n Hno10)
        by (rewrite !length_app; cbn [length]; lia).
      f_equal. lia. }
  rewrite Hc, Hd. rewrite decide_True by reflexivity.
  assert (Htrim : trim w (Z.of_nat (length (body ++ trail)))
                  = Some (Z.of_nat (length hd))).
  { unfold trim. rewrite decide_True
      by (rewrite Hlast, !length_app; cbn [length]; lia).
    rewrite Nat2Z.id. unfold w. rewrite Hlast.
    replace ((hd ++ [y]) ++ trail ++ 13 :: 10 :: rest)
      with ((hd ++ [y]) ++ (trail ++ [13]) ++ 10 :: rest)
      by (rewrite <- !app_assoc; reflexivity).
    replace (length ((hd ++ [y]) ++ trail)) with (length hd + length (trail ++ [13%Z]))%nat
      by (rewrite !length_app; cbn [length]; lia).
    apply trim_from_spaces; [exact Hy|].
    apply Forall_app. split.
    - eapply Forall_impl; [|exact Htrail]. intros c (Hs & _). exact Hs.
    - repeat constructor. }
  rewrite Htrim.
  assert (Hlen : Z.of_nat (length hd) + 1 = Z.of_nat (length body))
    by (rewrite Hlast, length_app; cbn [length]; lia).
  rewrite Hlen.
  change w with ([] ++ body ++ (trail ++ 13 :: 10 :: rest)).
  rewrite (read_bytes_at [] body) by reflexivity.
  unfold store_bytes. rewrite decide_True by (rewrite length_replicate; lia).
  change (Z.to_nat 0) with 0%nat. rewrite take_0, drop_replicate. cbn [app Nat.add].
  replace (Z.to_nat (Z.of_nat (length body) + 1) - length body)%nat with 1%nat by lia.
  cbn [replicate]. rewrite store_last.
  unfold used. f_equal. f_equal; [f_equal|]; rewrite ?length_app in *; lia.
Qed.

Lemma get_one_line_dos_witness :
  get_one_line ([32] ++ bytes_of "<TITLE>" ++ [32] ++ 13 :: 10 :: bytes_of "x")
    (Z.of_nat 0) 20
  = Some (bytes_of "<TITLE>" ++ [0], Z.of_nat 0 + 11, 20 - 11).
Proof.
  apply (get_one_line_dos [] [32] (bytes_of "<TITLE>") [32] (bytes_of "x") 20).
  - repeat constructor; discriminate.
  - split; [repeat constructor; discriminate|]. split.
    + eexists _, _. split; reflexivity.
    + exists (bytes_of "<TITLE"), 62. split; reflexivity.
  - repeat constructor; discriminate.
  - cbn. lia.
Defined.



(** *** [delim_memcmp] and [mkgrid] *)

(** X16. [delim_memcmp] compares up to the end of the shorter string
    only: it returns 0 exactly when one of the two strings starts with
    the other, so that a line made of [<] alone passes for every magic
    line. *)
Theorem delim_memcmp_shorter (a b ra rb : list Z) :
  nul_free a -> nul_free b ->
  delim_memcmp (a ++ 0 :: ra) (b ++ 0 :: rb)
  = Some (if decide (take (length b) a = take (length a) b) then 0 else -1).
Proof.
  intros Ha. revert b. induction Ha as [|x a Hx _ IH]; intros b Hb.
  - cbn [app delim_memcmp]. rewrite decide_True by reflexivity.
    rewrite decide_True by (rewrite take_nil; reflexivity). reflexivity.
  - cbn [app delim_memcmp]. rewrite decide_False by exact Hx.
    destruct Hb as [|y b Hy Hb].
    + cbn [app]. rewrite decide_True by reflexivity.
      rewrite decide_True by reflexivity. reflexivity.
    + cbn [app]. rewrite decide_False by exact Hy.
      cbn [length take]. destruct (decide (x <> y)) as [Hne|Heq].
      * rewrite decide_False by congruence. reflexivity.
      * assert (x = y) by (destruct (decide (x = y)); [assumption|contradiction]).
        subst y. rewrite (IH b Hb).
        destruct (decide (take (length b) a = take (length a) b)) as [E|E].
        -- rewrite decide_True by (f_equal; exact E). reflexivity.
        -- rewrite decide_False by congruence. reflexivity.
Qed.

Lemma delim_memcmp_shorter_witness :
  delim_memcmp (bytes_of "<" ++ 0 :: []) (bytes_of "<TITLE>" ++ 0 :: [])
  = Some (if decide (take (length (bytes_of "<TITLE>")) (bytes_of "<")
                     = take (length (bytes_of "<")) (bytes_of "<TITLE>"))
          then 0 else -1).
Proof.
  apply (delim_memcmp_shorter (bytes_of "<") (bytes_of "<TITLE>") [] []);
    repeat constructor; discriminate.
Defined.

Lemma grid_cell_nonzero (c : Z) : grid_cell c <> 0.
Proof. unfold grid_cell. destruct (decide (c = 46)); discriminate. Qed.

(** The loop of [mkgrid] with the cells [done] rewritten already. *)
Lemma mkgrid_from_cells (todo : list Z) :
  nul_free todo ->
  forall (done : list Z) (fuel : nat),
    (length todo < fuel)%nat ->
    mkgrid_from fuel (map grid_cell done ++ todo ++ [0]) (Z.of_nat (length done))
    = Some (map grid_cell (done ++ todo) ++ [0]).
Proof.
  induction 1 as [|c todo Hc Htodo IH]; intros done fuel Hfuel.
  - destruct fuel as [|fuel]; [cbn [length] in Hfuel; lia|]. cbn [mkgrid_from app].
    rewrite (strlen_nonzero (map grid_cell done) [])
      by (apply Forall_fmap, Forall_true; intros; apply grid_cell_nonzero).
    rewrite length_map, decide_False by lia. rewrite app_nil_r. reflexivity.
  - destruct fuel as [|fuel]; [cbn [length] in Hfuel; lia|]. cbn [mkgrid_from].
    assert (Hlen : strlen (map grid_cell done ++ (c :: todo) ++ [0])
                   = Some (Z.of_nat (length done + S (length todo)))).
    { rewrite app_assoc. rewrite (strlen_nonzero _ []).
      - rewrite length_app, length_map. reflexivity.
      - apply Forall_app. split.
        + apply Forall_fmap, Forall_true; intros; apply grid_cell_nonzero.
        + constructor; assumption. }
    rewrite Hlen. rewrite decide_True by lia.
    cbn [app]. rewrite (load_at (map grid_cell done) _ c) by (rewrite length_map; lia).
    assert (Hstore : (if decide (c <> 46)
                      then store (map grid_cell done ++ c :: todo ++ [0])
                             (Z.of_nat (length done)) 45
                      else Some (map grid_cell done ++ c :: todo ++ [0]))
                     = Some (map grid_cell (done ++ [c]) ++ todo ++ [0])).
    { rewrite map_app, <- app_assoc. cbn [map app].
      destruct (decide (c <> 46)) as [Hne|Heq].
      - replace (grid_cell c) with 45
          by (unfold grid_cell; rewrite decide_False by exact Hne; reflexivity).
        unfold store.
        rewrite decide_True by (rewrite length_app, length_map; cbn [length]; lia).
        rewrite Nat2Z.id. f_equal.
        rewrite insert_app_r_alt by (rewrite length_map; lia).
        rewrite length_map, Nat.sub_diag. reflexivity.
      - destruct (decide (c = 46)) as [->|]; [reflexivity|contradiction]. }
    rewrite Hstore.
    replace (Z.of_nat (length done) + 1) with (Z.of_nat (length (done ++ [c])))
      by (rewrite length_app; cbn [length]; lia).
    rewrite IH by (cbn [length] in Hfuel; lia).
    rewrite <- app_assoc. reflexivity.
Qed.

(** X17. [mkgrid] returns a fresh copy of the solution with every cell
    that is not black replaced by the empty cell. *)
Theorem mkgrid_cells (s rest : list Z) :
  nul_free s ->
  mkgrid (Ptr (s ++ 0 :: rest)) = Some (Ptr (map grid_cell s ++ [0])).
Proof.
  intros Hs. unfold mkgrid. cbn [deref]. rewrite (Sstrdup_nonzero _ _ Hs).
  change (s ++ [0]) with (map grid_cell [] ++ s ++ [0]) at 2.
  change 0 with (Z.of_nat (length (@nil Z))) at 3.
  rewrite (mkgrid_from_cells s Hs []) by (rewrite length_app; cbn [length]; lia).
  reflexivity.
Qed.

Lemma mkgrid_cells_witness :
  mkgrid (Ptr (bytes_of "AB.C" ++ 0 :: [])) = Some (Ptr (bytes_of "--.-" ++ [0])).
Proof.
  apply (mkgrid_cells (bytes_of "AB.C") []). repeat constructor; discriminate.
Defined.

(** *** [line_concat] and [puz_load_text] *)

Lemma line_list_nested_ind (P : line_list -> Prop) :
  (forall l nx, (forall cur, nx = Ptr cur -> P cur) -> P (mk_line_list l nx)) ->
  forall cur, P cur.
Proof.
  intros H. fix IH 1. intros [l nx]. apply H.
  destruct nx as [|cur0|]; intros cur Heq; try discriminate Heq.
  injection Heq as <-. apply IH.
Qed.

Lemma store_bytes_length (dst bs r : list Z) (off : Z) :
  store_bytes dst off bs = Some r -> length r = length dst.
Proof.
  unfold store_bytes. case_decide as Hb; [|discriminate]. intros [= <-].
  rewrite !length_app, length_take, length_drop. lia.
Qed.

(** The copying loop of [line_concat] keeps the size of the block. *)
Lemma line_concat_from_length (cur : line_list) :
  forall (retval : list Z) (i : Z) (r : list Z),
    line_concat_from cur retval i = Some r -> length r = length retval.
Proof.
  induction cur as [l nx IH] using line_list_nested_ind. intros retval i r.
  cbn [line_concat_from]. destruct (is_null l); [intros [= <-]; reflexivity|].
  destruct (deref l) as [s|]; [|discriminate].
  destruct (Sstrlen l) as [n|]; [|discriminate].
  destruct (read_bytes s 0 n) as [bs|]; [|discriminate].
  destruct (store_bytes retval i bs) as [r'|] eqn:Hst; [|discriminate].
  apply store_bytes_length in Hst.
  destruct nx as [|cur|].
  - intros [= <-]. exact Hst.
  - intros Hr. rewrite <- Hst. exact (IH cur eq_refl _ _ _ Hr).
  - discriminate.
Qed.

(** [retval = malloc (len); ...; retval[len] = 0]: the store is past the
    end of the block. *)
Lemma line_concat_none (list : line_list) : line_concat list = None.
Proof.
  unfold line_concat. destruct (line_length list) as [len|]; [|reflexivity].
  destruct (line_concat_from list (replicate (Z.to_nat len) 0) 0) as [r|] eqn:Hr;
    [|reflexivity].
  apply line_concat_from_length in Hr. rewrite length_replicate in Hr.
  unfold store. rewrite decide_False by lia. reflexivity.
Qed.

Lemma text_leave_none (st : Z) (puz : ptr puzzle_t) (ll : line_list) :
  text_leave st puz ll = None.
Proof. unfold text_leave. rewrite line_concat_none. reflexivity. Qed.

(** A turn of the state machine returns NULL, or stays in its state. *)
Lemma text_turn_cases (base : list Z) (v : text_vars) :
  match text_turn base v with
  | None => True
  | Some (Done r) => r = NULL
  | Some (Next v') => state v' = state v
  end.
Proof.
  unfold text_turn.
  destruct (get_one_line base (cursor v) (remaining v)) as [[[l cur] rem]|];
    [|exact I].
  destruct (if decide (rem <= 0)
            then let* ll := line_append (linelist v) (Ptr l) in Some (ll, true)
            else Some (linelist v, false)) as [[ll sd]|]; [|exact I].
  destruct (load l 0) as [c|]; [|exact I].
  destruct (decide (c = TEXT_SUBMAGIC)).
  - destruct (load_row magics (state v + 1)) as [m|]; [|exact I].
    destruct (delim_memcmp l m) as [r|]; [|exact I].
    destruct (decide (0 <> r)); [reflexivity|].
    cbn [negb]. rewrite text_leave_none. exact I.
  - destruct sd; cbn [negb].
    + rewrite text_leave_none. exact I.
    + destruct (line_append ll (Ptr l)); [reflexivity|exact I].
Qed.

Lemma text_loop_cases (base : list Z) (fuel : nat) :
  forall v, state v <> STATE_FINAL ->
    text_loop fuel base v = None \/ text_loop fuel base v = Some (Done NULL).
Proof.
  induction fuel as [|fuel IH]; intros v Hv; [left; reflexivity|].
  cbn [text_loop]. rewrite decide_True by exact Hv.
  pose proof (text_turn_cases base v) as Hturn.
  destruct (text_turn base v) as [[v'|r]|]; [| |left; reflexivity].
  - apply IH. rewrite Hturn. exact Hv.
  - right. rewrite Hturn. reflexivity.
Qed.

(** X18. [line_concat] allocates [len] bytes and then stores the
    terminator at index [len], past the end of the block, whatever the
    list.  [puz_load_text] calls it whenever the state machine leaves a
    state, so that the text loader returns NULL or runs into that store:
    it never returns a puzzle. *)
Theorem puz_load_text_no_puzzle :
  (forall list, line_concat list = None) /\
  (forall malloc_ok puz base sz,
     puz_load_text malloc_ok puz base sz = None \/
     puz_load_text malloc_ok puz base sz = Some NULL).
Proof.
  split; [exact line_concat_none|]. intros malloc_ok puz base sz.
  unfold puz_load_text.
  destruct (deref base) as [b|]; [|left; reflexivity].
  destruct (load b 0) as [c|]; [|left; reflexivity].
  destruct (decide (c <> TEXT_SUBMAGIC)); [right; reflexivity|].
  destruct (puz_init malloc_ok puz) as [puz'|]; [|left; reflexivity].
  destruct (text_loop_cases b (Z.to_nat sz + 10)
              (mk_text_vars STATE_INIT 0 sz (mk_line_list NULL NULL) puz'))
    as [Hl|Hl]; [discriminate|rewrite Hl..].
  - left. reflexivity.
  - right. reflexivity.
Qed.

(** *** [puz_load] *)

(** X19. A buffer with a NUL at offset 13, where a binary file has the
    end of its magic, goes to the binary loader whatever its first byte
    is, when the caller asks for a binary file or for any type. *)
Theorem puz_load_binary (malloc_ok : bool) (puz : ptr puzzle_t) (type : Z)
    (b : list Z) (sz : Z) :
  b !! 13%nat = Some 0 ->
  type = PUZ_FILE_UNKNOWN \/ type = PUZ_FILE_BINARY ->
  puz_load malloc_ok puz type (Ptr b) sz = puz_load_bin puz (Ptr b) sz.
Proof.
  intros H13 Htype.
  destruct (lookup_lt_is_Some_2 b 0) as [c Hc];
    [apply lookup_lt_Some in H13; lia|].
  unfold puz_load. cbn [deref].
  rewrite !load_lookup by lia. change (Z.to_nat 0) with 0%nat.
  change (Z.to_nat 13) with 13%nat. rewrite Hc, H13.
  assert (Hguess : (if decide (c <> TEXT_SUBMAGIC) then Some PUZ_FILE_BINARY
                    else if decide (0 = 0) then Some PUZ_FILE_BINARY
                         else Some PUZ_FILE_TEXT) = Some PUZ_FILE_BINARY)
    by (destruct (decide (c <> TEXT_SUBMAGIC)); reflexivity).
  rewrite Hguess.
  rewrite decide_False by (destruct Htype as [-> | ->]; intros [H1 H2]; congruence).
  reflexivity.
Qed.

Lemma puz_load_binary_witness :
  puz_load true NULL PUZ_FILE_UNKNOWN (Ptr (file_header 2 1 0 ++ file_body)) 60
  = puz_load_bin NULL (Ptr (file_header 2 1 0 ++ file_body)) 60.
Proof.
  apply (puz_load_binary true NULL PUZ_FILE_UNKNOWN (file_header 2 1 0 ++ file_body) 60).
  - reflexivity.
  - left. reflexivity.
Defined.

End LoadTextSpec.
